(* ===== verification/_CoqProject ===== *)
-Q . S2P
Prelude.v
Rand.v
LotteryProc.v
LotterySched.v
LotteryFair.v
LotteryTable.v
LotteryInv.v
LotteryLife.v
LotterySyscall.v
LotteryCalls.v
LotteryTests.v
Mp.v
Xargs.v
Find.v
Pingpong.v
Primes.v
PrimesInv.v
Riscv.v
Vm.v
PageTable.v
Mappings.v
KernelTable.v
AddrSpace.v
UserCopy.v
FreeWalk.v
UvmCopy.v
VmTerm.v
RiscvProc.v
RiscvSpace.v
RiscvSlot.v
RiscvAlloc.v
RiscvFork.v
RiscvQuiet.v
RiscvMem.v
Exec.v
ExecMem.v
ExecLoad.v
ExecArgs.v
ExecProps.v
RiscvSteps.v
RiscvSched.v
RiscvShared.v
Bio.v
BioInv.v
BioStep.v
BioSpec.v
BioProps.v
