(* ===== verification/Prelude.v ===== *)
(** * The xv6 laboratories of OSTEP-DaSE-NOTES: a verification development

    The repository holds four laboratories on the xv6 teaching kernel.  Each
    changes or adds files of xv6; the rest of xv6 is not in the repository.
    This development models the C code of all four and proves what makes it
    correct.  This file is its prelude: machine integers, bytes, memory, C
    strings, the outcome monad, and the lemmas and tactics that all files share.

    ** How the code is modelled

    - An integer is a [Z] in the range of its C type; [u8], [u32], [u64], [i32]
      are the conversions, written where the code wraps around.
    - Memory is a function from addresses to bytes ([mem]); a pointer is an
      address, except that a pointer into a static array of structures (the
      process tables, the buffers) is the index of the element.
    - A kernel function is a computation of the monad [M S]: it ends with a value
      and a state ([Done]), panics ([Panic]), or has spent the fuel of a loop
      ([OutOfFuel]).  [wp c Q s] says that it ends, in a value and state with
      [Q].  A fuel is computed from the arguments by the function itself or is
      an argument of it; the theorems state how much is enough.
    - Code outside the repository is a class of operations (the calls' results
      and effects), and its documented behaviour a second class of laws:
      [Riscv]/[RiscvLaws] (riscv.h), [Allocator]/[AllocatorLaws] (kalloc.c),
      [Ext] and [ProcExt] (what the two proc.c call), [ExecExt]/[ExecLaws] (the
      file system), [Layout]/[LayoutLaws] (memlayout.h), [Satp], [Disk]/[DiskLaws],
      [SysExt], [MpExt] (mp.h), [FindExt], [PipeExt]/[PipeLaws],
      [BytePipe]/[BytePipeLaws].  Each has a concrete instance, on which the witnesses of the theorems are evaluated.
    - A call that gives up the CPU is cut at the switch: [X_enter] is what comes
      before and [X_leave] what comes after; other processes' steps may come
      between.

    ** The parts

    Lab1, user programs (src/Lab1-Util):
    - Xargs.v: xargs.c.  Reading a line into the buffer, splitting it in place,
      one command per line; against a splitter on lists ([words]).
    - Find.v: find.c.  The recursive walk over any file system; against the
      relation [below].
    - Primes.v, PrimesInv.v: primes.c.  The processes of the sieve and their
      pipes as one interleaved machine; its invariant, a measure that each step
      decreases, progress.
    - Pingpong.v: pingpong.c and sleep.c.

    Lab2, the x86 kernel with a lottery scheduler (src/Lab2):
    - Rand.v: rand.c.
    - LotteryProc.v: proc.c, proc.h, pstat.h: every function.  LotterySched.v:
      the scheduler.  LotteryFair.v: the scheduler and the generator over
      many turns.  LotteryTable.v, LotteryInv.v: what each operation does to
      the table, the steps of the system, the invariant.  LotteryLife.v: the
      life of a process.
    - LotterySyscall.v: syscall.c, sysproc.c, syscall.h, over LotteryProc.v and
      the memory of the caller.  LotteryCalls.v: the system calls on the
      process table, against its invariant.  LotteryTests.v: testProcInfo.c, testTicket.c.
    - Mp.v: mp.c.

    Lab3, the RISC-V kernel with a page shared with user code (src/Lab3):
    - Riscv.v: the page-table format and the page allocator, as parameters.
    - Vm.v: vm.c, but for kvminit and kvminithart.  PageTable.v: the invariant of
      a page table and its abstract content, the map of its leaves.  Mappings.v, AddrSpace.v, FreeWalk.v, UvmCopy.v,
      UserCopy.v: what the functions do to that map, to the memory of the user
      and to the account of all pages.  VmTerm.v: the loops end.
    - RiscvProc.v: proc.c, proc.h.  RiscvSpace.v: the address space of a process.
      RiscvSlot.v: the pages each slot of the table holds, and that the slots and
      the free list divide the physical pages.  RiscvAlloc.v, RiscvFork.v,
      RiscvQuiet.v, RiscvMem.v: the operations keep that division.
    - Exec.v: exec.c.  ExecMem.v, ExecLoad.v, ExecArgs.v, ExecProps.v: the image
      beside the one in use, an abstract loader, the stack, the commit.
    - RiscvSteps.v: proc.c and exec.c together, as steps from boot.
      RiscvSched.v: those steps and the scheduler: no runnable process starves.
      RiscvShared.v: the page at USYSCALL, as user code and the kernel see it.

    Lab4, the buffer cache (src/Lab4-Locks):
    - Bio.v: bio.c, buf.h, param.h, as a machine whose steps interleave.
      BioInv.v, BioStep.v: its invariant and that every step keeps it.  BioSpec.v:
      the abstract store of blocks.  BioProps.v: the properties.

    The kernels are layers: proc.c (Lab3) calls vm.c, which calls the allocator;
    exec.c calls both and the file system; syscall.c (Lab2) calls proc.c, which
    calls rand.c.  A layer's theorems use the lower one's specifications only
    ([walk_spec], [uvmalloc_spec], ... are the [wp] lemmas of the same names).

    ** What the theorems show

    - Kernel memory (Lab3): from boot, in any interleaving of the operations,
      every page belongs to the free list or to one slot, each page table maps
      what its process owns, and no step of a process changes another's memory
      (memory_invariant, process_isolation).  fork copies, exec loads what the
      abstract loader says or changes nothing, failures give everything back.
      What user code reads in the shared page is the pid that fork answered,
      unless its process has a system call write over it (ugetpid_after_fork).
    - Page tables: walk, mappages, uvmalloc, uvmdealloc, uvmcopy, uvmfree, and
      the copies to and from user memory, on every branch, with 64-bit
      wrap-around; the loops over addresses end for any arguments and any memory.
      freewalk ends on the tables of a process, not on one that points to itself.
    - Kernel page table (Lab3): exactly the regions of the kernel are mapped,
      no page to user code, none both writable and executable; what the layout
      leaves free, such as xv6's page under each stack, is not mapped.
    - Scheduler (Lab3): a runnable process stays so until a scheduler switches to
      it, and each round of a scheduler does.
    - Process table (Lab2): the invariant of the reachable states, which says
      that pids are positive and distinct until the counter wraps around; fork,
      exit, wait, sleep on every branch; no wakeup is lost.
    - Lottery: each process wins exactly as many draws as it has tickets, the
      generator has full period, so that when each chosen process yields and the
      total of the tickets divides 2^m, each runs its exact share of any 2^m turns
      (lottery_long_run), and what overflow does.
    - System calls (Lab2): the ten of sysproc.c keep the table invariant, through
      the sleeps they make if the rest of the system does meanwhile ([rely]; paths
      of steps do, [rely_steps]); arguments are read inside the process only; what user
      code sees of settickets and getpinfo; errors; sys_sleep's duration.
    - Buffer cache: the interleaved machine refines a store of blocks with one
      owner each; its invariant; no deadlock inside a bucket section.
    - User programs: xargs and find against their specifications on lists and
      relations; the sieve and pingpong, for every schedule.
    - Where the code does not do what it means to, a theorem says what it does:
      kill of pid 0, the pid counter at INT_MAX, ticket overflow, random_at_most at its largest argument,
      copyout to read-only pages (with which a process forges the pid it reads), the endless loop of mpinit, read_line past its
      buffer, names of full length in find, a blank line in xargs, a negative
      sys_sleep.

    ** Bounds and fuel

    kvminit takes one page for each table of its regions ([kernel_keys]: 71 and the
    root in xv6's layout) and 64 stacks; its theorem asks for one more.
    The loops of vm.c take their fuel from their arguments (VmTerm.v: it is never
    spent).  freewalk has the three levels of Sv39.  In wait, sys_sleep and the
    scheduler the fuel bounds the turns, and a theorem says what one turn does or
    how many are enough.  find needs a depth of 512, for each path is longer than
    its directory's and fits 512 bytes.  The scans of xargs need one more than
    the line's length.  mpinit needs one more than the number of entries.  The
    sieve takes at most 24551 steps, pingpong nine, bget at most NBUF + 5.

    ** What the theorems assume

    - The steps of Lab3 ([kstep]) take a growproc to a size of at most USYSCALL,
      which growproc does not test: the memory of a machine runs out before.  An
      exec of a file whose segments leave no room below USYSCALL for the stack, and
      a boot with too few pages for the first process, are left out as well.
    - Kernel buffers that are copied from and to lie off the pages of processes.
    - kfree accepts a page that is not free.  kalloc.c also panics on addresses
      outside [end, PHYSTOP); the code frees only pages it got from kalloc.
    - The 13 system calls of Lab2 whose handlers are in files that the repository
      lacks are parameters of syscall; syscalls_keep_table is not about them.
    - In find, stat answers by path alone and open by path and depth: descriptors
      are counted by depth.

    ** Not modelled

    - defs.h, user.h, rand.h: declarations only.  usys.S: the user-mode stubs, in
      assembly.  The Makefile, reports, slides and archives.
    - The text that the kernels print, but for vmprint and procdump; locks other
      than by the order of their events (proc.c) or as mutual exclusion (bio.c).
    - Failing forks in the sieve's theorem: primes.c has no branch for them (the
      model has, see [step1]).
    - The contents of memory during a data race: user memory of one process is
      changed by that process only.

    ** Left for later

    The effect of sbrk through allocuvm in Lab2, for which vm.c of that kernel is
    missing. *)
From stdpp Require Export base strings list gmap.
From Stdlib Require Export ZArith Lia Strings.Byte.

Declare Scope c_scope.
Delimit Scope c_scope with C.
#[global] Open Scope Z_scope.

(** ** Definitions *)

(** *** Machine-width integers.  A C integer is a [Z] in its range; these
    conversions are what C does when a value is stored in the type. *)
Definition u8 (z : Z) : Z := z mod 2 ^ 8.
Definition u32 (z : Z) : Z := z mod 2 ^ 32.
Definition u64 (z : Z) : Z := z mod 2 ^ 64.
Definition i32 (z : Z) : Z := let r := z mod 2 ^ 32 in if r <? 2 ^ 31 then r else r - 2 ^ 32.

Definition INT_MAX : Z := 2 ^ 31 - 1.
Definition INT_MIN : Z := - 2 ^ 31.

(** [is_int z] / [is_uint z]: z is a value of C's [int] / [unsigned int]. *)
Definition is_int (z : Z) : Prop := INT_MIN <= z <= INT_MAX.
Definition is_uint (z : Z) : Prop := 0 <= z < 2 ^ 32.

(** *** Bytes *)
Definition byteZ (b : byte) : Z := Z.of_N (Byte.to_N b).
Definition Zbyte (z : Z) : byte :=
  match Byte.of_N (Z.to_N (z mod 256)) with Some b => b | None => Byte.x00 end.

#[export] Instance byte_eq_dec : EqDecision byte := Byte.byte_eq_dec.

(** *** C strings.  The string that bytes in memory begin with. *)
Fixpoint cstr (l : list byte) : list byte :=
  match l with
  | [] => []
  | b :: l' => if bool_decide (b = x00) then [] else b :: cstr l'
  end.

(** *** Byte-addressed memory *)
Notation mem := (Z → byte).

(** Little-endian load and store of [n] bytes. *)
Fixpoint load (n : nat) (m : mem) (a : Z) : Z :=
  match n with
  | O => 0
  | S k => byteZ (m a) + 256 * load k m (a + 1)
  end.

Definition store (n : nat) (m : mem) (a v : Z) : mem := λ x,
  if (a <=? x) && (x <? a + Z.of_nat n) then Zbyte (v / 256 ^ (x - a)) else m x.

Definition load64 : mem → Z → Z := load 8.
Definition store64 : mem → Z → Z → mem := store 8.

(** C's [memset(a, c, n)], [memmove(dst, src, n)] and a byte assignment. *)
Definition memset (m : mem) (a : Z) (c : byte) (n : Z) : mem := λ x,
  if (a <=? x) && (x <? a + n) then c else m x.
Definition memmove (m : mem) (dst src n : Z) : mem := λ x,
  if (dst <=? x) && (x <? dst + n) then m (src + (x - dst)) else m x.
Definition store8 (m : mem) (a : Z) (b : byte) : mem := λ x,
  if x =? a then b else m x.

#[global] Arguments load64 : simpl never.
#[global] Arguments store64 : simpl never.
#[global] Arguments memset : simpl never.
#[global] Arguments memmove : simpl never.
#[global] Arguments store8 : simpl never.

(** The bytes [a, a+n) as a list, and a list of bytes found in memory. *)
Definition bytes_at (m : mem) (a : Z) (n : nat) : list byte :=
  (λ i, m (a + Z.of_nat i)) <$> seq 0 n.

(** *** Outcomes.  A kernel function finishes with a value and a state,
    panics, or (in a loop whose fuel is spent) does not finish. *)
Inductive outcome (S A : Type) : Type :=
  | Done (a : A) (s : S)
  | Panic (why : string)
  | OutOfFuel.
Arguments Done {S A} a s.
Arguments Panic {S A} why.
Arguments OutOfFuel {S A}.

Definition M (S A : Type) : Type := S → outcome S A.

#[global] Instance M_ret S : MRet (M S) := λ A a s, Done a s.
#[global] Instance M_bind S : MBind (M S) := λ A B k c s,
  match c s with
  | Done a s' => k a s'
  | Panic w => Panic w
  | OutOfFuel => OutOfFuel
  end.

Definition gets {S A} (f : S → A) : M S A := λ s, Done (f s) s.
Definition modify {S} (f : S → S) : M S unit := λ s, Done tt (f s).
Definition panic {S A} (why : string) : M S A := λ _, Panic why.
Definition no_fuel {S A} : M S A := λ _, OutOfFuel.

(** [wp c Q s]: run from [s], [c] finishes (no panic, fuel not spent) in a
    value and a state that satisfy [Q]. *)
Definition wp {S A} (c : M S A) (Q : A → S → Prop) (s : S) : Prop :=
  match c s with Done a s' => Q a s' | _ => False end.

(** The value of a run and the state it ends in, for concrete runs. *)
Definition value {S A} (o : outcome S A) : option A :=
  match o with Done a _ => Some a | _ => None end.
Definition after {S A} (o : outcome S A) (d : S) : S :=
  match o with Done _ s => s | _ => d end.

(** ** Lemmas *)

(** *** Integers *)
Lemma u64_small z : 0 <= z < 2 ^ 64 → u64 z = z.
Proof. intros. apply Z.mod_small. lia. Qed.
Lemma u32_small z : 0 <= z < 2 ^ 32 → u32 z = z.
Proof. intros. apply Z.mod_small. lia. Qed.
Lemma u64_range z : 0 <= u64 z < 2 ^ 64.
Proof. apply Z.mod_pos_bound. lia. Qed.
Lemma u32_range z : 0 <= u32 z < 2 ^ 32.
Proof. apply Z.mod_pos_bound. lia. Qed.
Lemma i32_small z : is_int z → i32 z = z.
Proof.
  unfold is_int, INT_MIN, INT_MAX, i32. intros H.
  destruct (Z.ltb_spec (z mod 2 ^ 32) (2 ^ 31)) as [?|?]; Z.to_euclidean_division_equations; lia.
Qed.
Lemma i32_range z : is_int (i32 z).
Proof.
  unfold is_int, INT_MIN, INT_MAX, i32.
  destruct (Z.ltb_spec (z mod 2 ^ 32) (2 ^ 31)) as [?|?]; Z.to_euclidean_division_equations; lia.
Qed.

(** *** Bytes and memory *)
Lemma byteZ_range b : 0 <= byteZ b < 256.
Proof. unfold byteZ. pose proof (Byte.to_N_bounded b). lia. Qed.
Lemma byteZ_Zbyte z : byteZ (Zbyte z) = z mod 256.
Proof.
  unfold byteZ, Zbyte. pose proof (Z.mod_pos_bound z 256 ltac:(lia)).
  destruct (Byte.of_N _) as [b|] eqn:E.
  - apply Byte.to_of_N in E. rewrite E. lia.
  - pose proof (Byte.to_of_N_option_map (Z.to_N (z mod 256))) as E'. rewrite E in E'. simpl in E'.
    destruct (N.leb_spec (Z.to_N (z mod 256)) 255) as [?|?]; [done | lia].
Qed.
Lemma Zbyte_byteZ b : Zbyte (byteZ b) = b.
Proof.
  unfold Zbyte. rewrite Z.mod_small by apply byteZ_range.
  unfold byteZ. by rewrite N2Z.id, Byte.of_to_N.
Qed.

Lemma load_range n m a : 0 <= load n m a < 256 ^ Z.of_nat n.
Proof.
  revert a; induction n as [|n IH]; intros a; [cbn; lia|].
  cbn [load]. specialize (IH (a + 1)). pose proof (byteZ_range (m a)).
  rewrite Nat2Z.inj_succ, Z.pow_succ_r by lia. lia.
Qed.
Lemma load64_range m a : 0 <= load64 m a < 2 ^ 64.
Proof. apply (load_range 8). Qed.

Lemma load_ext n (m m' : mem) a :
  (∀ x, a <= x < a + Z.of_nat n → m' x = m x) → load n m' a = load n m a.
Proof.
  revert a; induction n as [|n IH]; intros a H; [done|].
  cbn [load]. rewrite (H a) by lia. rewrite IH; [done|]. intros x Hx. apply H. lia.
Qed.
Lemma load64_ext (m m' : mem) a :
  (∀ x, a <= x < a + 8 → m' x = m x) → load64 m' a = load64 m a.
Proof. apply (load_ext 8). Qed.

Lemma load_digits n (m : mem) a v :
  (∀ x, a <= x < a + Z.of_nat n → m x = Zbyte (v / 256 ^ (x - a))) →
  load n m a = v mod 256 ^ Z.of_nat n.
Proof.
  revert a v; induction n as [|n IH]; intros a v H; [cbn; by rewrite Z.mod_1_r|].
  cbn [load]. rewrite (H a), Z.sub_diag, Z.pow_0_r, Z.div_1_r, byteZ_Zbyte by lia.
  rewrite (IH (a + 1) (v / 256)).
  - rewrite Nat2Z.inj_succ, Z.pow_succ_r by lia. by rewrite Z.rem_mul_r by lia.
  - intros x Hx. rewrite H by lia. f_equal.
    replace (x - a) with (1 + (x - (a + 1))) by lia.
    rewrite Z.pow_add_r, Z.div_div by lia. f_equal.
Qed.
Lemma load64_store64_same m a v : 0 <= v < 2 ^ 64 → load64 (store64 m a v) a = v.
Proof.
  intros Hv. unfold load64, store64. rewrite (load_digits 8 _ _ v).
  - apply Z.mod_small. change (256 ^ Z.of_nat 8) with (2 ^ 64). lia.
  - intros x Hx. unfold store.
    rewrite (proj2 (Z.leb_le a x)), (proj2 (Z.ltb_lt x _)) by lia. done.
Qed.
Lemma store64_other m a v x : x < a ∨ a + 8 <= x → store64 m a v x = m x.
Proof.
  intros H. unfold store64, store.
  destruct (Z.leb_spec a x), (Z.ltb_spec x (a + Z.of_nat 8)); simpl; (done || lia).
Qed.
Lemma load64_store64_other m a v b :
  b + 8 <= a ∨ a + 8 <= b → load64 (store64 m a v) b = load64 m b.
Proof. intros H. apply load64_ext. intros x Hx. apply store64_other. lia. Qed.

Lemma load_store_same n m a v : 0 <= v < 256 ^ Z.of_nat n → load n (store n m a v) a = v.
Proof.
  intros Hv. rewrite (load_digits n _ _ v); [by apply Z.mod_small|].
  intros x Hx. unfold store. by rewrite (proj2 (Z.leb_le a x)), (proj2 (Z.ltb_lt x _)) by lia.
Qed.
Lemma store_other n m a v x : x < a ∨ a + Z.of_nat n <= x → store n m a v x = m x.
Proof.
  intros H. unfold store.
  destruct (Z.leb_spec a x), (Z.ltb_spec x (a + Z.of_nat n)); simpl; (done || lia).
Qed.
Lemma memset_in m a c n x : a <= x < a + n → memset m a c n x = c.
Proof.
  intros H. unfold memset.
  by rewrite (proj2 (Z.leb_le a x)), (proj2 (Z.ltb_lt x _)) by lia.
Qed.
Lemma memset_other m a c n x : x < a ∨ a + n <= x → memset m a c n x = m x.
Proof.
  intros H. unfold memset. destruct (Z.leb_spec a x), (Z.ltb_spec x (a + n)); simpl; (done || lia).
Qed.
Lemma load64_memset0 m a n b : a <= b → b + 8 <= a + n → load64 (memset m a Byte.x00 n) b = 0.
Proof.
  intros. unfold load64. rewrite (load_digits 8 _ _ 0); [done|].
  intros x Hx. rewrite memset_in by lia. by rewrite Z.div_0_l by (apply Z.pow_nonzero; lia).
Qed.
Lemma memmove_in m d s n x : d <= x < d + n → memmove m d s n x = m (s + (x - d)).
Proof.
  intros H. unfold memmove.
  by rewrite (proj2 (Z.leb_le d x)), (proj2 (Z.ltb_lt x _)) by lia.
Qed.
Lemma memmove_other m d s n x : x < d ∨ d + n <= x → memmove m d s n x = m x.
Proof.
  intros H. unfold memmove. destruct (Z.leb_spec d x), (Z.ltb_spec x (d + n)); simpl; (done || lia).
Qed.

(** *** C strings *)
Lemma cstr_no_nul l : x00 ∉ cstr l.
Proof.
  induction l as [|b l IH]; cbn; [apply not_elem_of_nil|].
  case_bool_decide; [apply not_elem_of_nil|]. rewrite not_elem_of_cons. by split.
Qed.
Lemma cstr_app l k : x00 ∉ l → cstr (l ++ k) = l ++ cstr k.
Proof.
  induction l as [|b l IH]; [done|]. rewrite not_elem_of_cons. intros [Hb Hl]. cbn.
  rewrite bool_decide_false by done. by rewrite IH.
Qed.

Lemma cstr_id l : x00 ∉ l → cstr l = l.
Proof. intros Hl. rewrite <- (app_nil_r l) at 1. rewrite cstr_app by done. apply app_nil_r. Qed.

(** *** Lists *)
Section list_lemmas.
Context {B : Type} (P : B → Prop) `{!∀ x, Decision (P x)}.
Lemma list_filter_app l k : filter P (l ++ k) = filter P l ++ filter P k.
Proof. apply list.filter_app. Qed.
Lemma list_filter_none l : Forall (λ x, ¬ P x) l → filter P l = [].
Proof. induction 1 as [|x l Hx _ IH]; [done|]. by rewrite list.filter_cons_False. Qed.
Lemma list_filter_all l : Forall P l → filter P l = l.
Proof. induction 1 as [|x l Hx _ IH]; [done|]. by rewrite list.filter_cons_True, IH. Qed.
End list_lemmas.

(** *** Weakest preconditions *)
Section wp.
Context {St : Type}.
Implicit Types (s : St).

Lemma wp_ret {A} (a : A) (Q : A → St → Prop) s : Q a s → wp (mret a) Q s.
Proof. done. Qed.
Lemma wp_bind {A B} (c : M St A) (k : A → M St B) Q s :
  wp c (λ a s', wp (k a) Q s') s → wp (c ≫= k) Q s.
Proof. unfold wp, mbind, M_bind. by destruct (c s). Qed.
Lemma wp_bind_inv {A B} (c : M St A) (k : A → M St B) Q s :
  wp (c ≫= k) Q s → wp c (λ a s', wp (k a) Q s') s.
Proof. unfold wp, mbind, M_bind. by destruct (c s). Qed.
Lemma wp_mono {A} (c : M St A) (Q Q' : A → St → Prop) s :
  wp c Q s → (∀ a s', Q a s' → Q' a s') → wp c Q' s.
Proof. unfold wp. destruct (c s); naive_solver. Qed.
Lemma wp_gets {A} (f : St → A) (Q : A → St → Prop) s : Q (f s) s → wp (gets f) Q s.
Proof. done. Qed.
Lemma wp_modify (f : St → St) (Q : unit → St → Prop) s : Q tt (f s) → wp (modify f) Q s.
Proof. done. Qed.
Lemma wp_done {A} (c : M St A) (Q : A → St → Prop) s :
  wp c Q s ↔ ∃ a s', c s = Done a s' ∧ Q a s'.
Proof. unfold wp. destruct (c s) as [a s'| |]; naive_solver. Qed.
Lemma wp_and {A} (c : M St A) (Q R : A → St → Prop) s :
  wp c Q s → wp c R s → wp c (λ a s', Q a s' ∧ R a s') s.
Proof. unfold wp. by destruct (c s). Qed.
Lemma bind_done {A B} (c : M St A) (k : A → M St B) s a s' :
  c s = Done a s' → (c ≫= k) s = k a s'.
Proof. intros H. unfold mbind, M_bind. by rewrite H. Qed.
Lemma after_run {A} (o : outcome St A) d a : value o = Some a → o = Done a (after o d).
Proof. destruct o; intros; by simplify_eq/=. Qed.
Lemma wp_bind_done {A B} (c : M St A) (k : A → M St B) Q s a s1 :
  c s = Done a s1 → wp (k a) Q s1 → wp (c ≫= k) Q s.
Proof. intros H Hk. apply wp_bind. unfold wp at 1. by rewrite H. Qed.
Lemma bind_assoc {A B D} (c : M St A) (k : A → M St B) (k' : B → M St D) s :
  ((c ≫= k) ≫= k') s = (c ≫= λ a, k a ≫= k') s.
Proof. unfold mbind, M_bind. by destruct (c s). Qed.
Lemma ret_run {A} (a : A) s : (mret a : M St A) s = Done a s.
Proof. done. Qed.
Lemma modify_run (f : St → St) s : modify f s = Done tt (f s).
Proof. done. Qed.
Lemma ret_bind {A B} (a : A) (k : A → M St B) s : (mret a ≫= k) s = k a s.
Proof. done. Qed.
Lemma gets_bind {A B} (f : St → A) (k : A → M St B) s : (gets f ≫= k) s = k (f s) s.
Proof. done. Qed.
Lemma modify_bind {B} (f : St → St) (k : unit → M St B) s : (modify f ≫= k) s = k tt (f s).
Proof. done. Qed.
Lemma if_bind {A B} (b : bool) (c c' : M St A) (k : A → M St B) s :
  ((if b then c else c') ≫= k) s = if b then (c ≫= k) s else (c' ≫= k) s.
Proof. by destruct b. Qed.
Lemma panic_bind {A B} w (k : A → M St B) s : ((panic w : M St A) ≫= k) s = Panic w.
Proof. done. Qed.
Lemma bind_Done_inv {A B} (c : M St A) (k : A → M St B) s v s' :
  (c ≫= k) s = Done v s' → ∃ a s1, c s = Done a s1 ∧ k a s1 = Done v s'.
Proof. unfold mbind, M_bind. destruct (c s); naive_solver. Qed.
Lemma bind_panic {A B} (c : M St A) (k : A → M St B) s w :
  c s = Panic w → (c ≫= k) s = Panic w.
Proof. intros H. unfold mbind, M_bind. by rewrite H. Qed.
End wp.

(** ** Automation *)

(** [wp_seq lem] proves a [wp] of [c ≫= k] from the specification [lem] of [c]. *)
Tactic Notation "wp_seq" uconstr(lem) := apply wp_bind; eapply wp_mono; [eapply lem|].
Tactic Notation "wp_seq" := apply wp_bind.

(** Case analysis on the boolean tests the code is made of. *)
Ltac zcase :=
  match goal with
  | |- context [(?a <? ?b)%Z] => destruct (Z.ltb_spec a b)
  | |- context [(?a <=? ?b)%Z] => destruct (Z.leb_spec a b)
  | |- context [(?a =? ?b)%Z] => destruct (Z.eqb_spec a b)
  end.
Ltac zcases := repeat (zcase; simpl; try lia).

(** [run] executes the leading calls of a monadic term on its state. *)
Create HintDb run discriminated.
#[export] Hint Rewrite @bind_assoc @ret_run @modify_run @ret_bind @gets_bind @modify_bind @if_bind @panic_bind : run.
Ltac run := repeat (autorewrite with run; cbn).
(** [runin H] does so in the hypothesis [H], a run that finishes, and does the
    case analyses the run depends on. *)
Ltac runin H :=
  repeat first
    [ progress (autorewrite with run in H; cbn in H)
    | match type of H with
      | context [match ?x with _ => _ end] => destruct x eqn:?; try discriminate H
      end ].

Create HintDb cmem.
#[export] Hint Resolve byteZ_range load64_range u64_range u32_range i32_range : cmem.
#[export] Hint Rewrite u64_small u32_small using lia : cmem.
