(* ===== verification/Rand.v ===== *)
(** rand.c (Lab2): the linear congruential generator behind the lottery
    scheduler.  The state is the file's static variable [seed], a [uint]. *)
From S2P Require Import Prelude.

(** ** Definitions *)

Definition A : Z := 1664525.
Definition C : Z := 1013904223.
Definition M : Z := 0xFFFFFFFF.

Definition seed_init : Z := 1.

Definition rand_init : Prelude.M Z unit := modify (λ _, 1).

Definition next_rand : Prelude.M Z Z :=
  modify (λ seed, Z.land (u32 (u32 (A * seed) + C)) M);;
  gets id.

(** [max + 1] is computed in [uint]; a zero divisor is the divide error. *)
Definition random_at_most (max : Z) : Prelude.M Z Z :=
  if max =? 0 then mret 0
  else
    r ← next_rand;
    let d := u32 (max + 1) in
    if d =? 0 then panic "divide error" else mret (r mod d).

(** The seed after one call, and after [n] calls. *)
Definition next_seed (seed : Z) : Z := Z.land (u32 (u32 (A * seed) + C)) M.
Definition seed_after (n : nat) (seed : Z) : Z := Nat.iter n next_seed seed.

(** [1 + A + ... + A^(n-1)]: the coefficient of [C] in the [n]-th seed. *)
Fixpoint gsum (n : nat) : Z :=
  match n with O => 0 | S k => 1 + A * gsum k end.

(** ** Lemmas *)

Lemma next_rand_run seed : next_rand seed = Done (next_seed seed) (next_seed seed).
Proof. done. Qed.

Lemma next_seed_eq seed : next_seed seed = (A * seed + C) mod 2 ^ 32.
Proof.
  unfold next_seed, u32, M. change 0xFFFFFFFF with (Z.ones 32).
  rewrite Z.land_ones, Zplus_mod_idemp_l, Z.mod_mod by lia. done.
Qed.

Lemma next_seed_uint seed : is_uint (next_seed seed).
Proof. rewrite next_seed_eq. apply Z.mod_pos_bound. lia. Qed.

Lemma seed_after_uint n seed : is_uint seed → is_uint (seed_after n seed).
Proof. destruct n; [done|]. intros _. apply next_seed_uint. Qed.

Lemma gsum_pow n : (A - 1) * gsum n = A ^ Z.of_nat n - 1.
Proof.
  induction n as [|n IH]; [done|].
  rewrite Nat2Z.inj_succ, Z.pow_succ_r by lia. cbn [gsum]. lia.
Qed.

Lemma seed_after_closed n seed : is_uint seed →
  seed_after n seed = (A ^ Z.of_nat n * seed + C * gsum n) mod 2 ^ 32.
Proof.
  intros Hs. induction n as [|n IH].
  - cbn. rewrite Z.add_0_r, Z.mul_1_l, Z.mod_small; [done | exact Hs].
  - change (seed_after (S n) seed) with (next_seed (seed_after n seed)).
    rewrite next_seed_eq, IH, Nat2Z.inj_succ, Z.pow_succ_r by lia. cbn [gsum].
    rewrite <- Zplus_mod_idemp_l, Zmult_mod_idemp_r, Zplus_mod_idemp_l.
    f_equal. lia.
Qed.

Lemma seed_after_add i j seed : seed_after (i + j) seed = seed_after i (seed_after j seed).
Proof. apply Nat.iter_add. Qed.

(** [A = 1 (mod 4)], so a power of it plus one is twice an odd number. *)
Lemma pow_A_mod4 n : (A ^ Z.of_nat n) mod 4 = 1.
Proof.
  induction n as [|n IH]; [done|].
  rewrite Nat2Z.inj_succ, Z.pow_succ_r, Z.mul_mod, IH by lia. done.
Qed.
Lemma one_plus_pow_A n : ∃ h, 1 + A ^ Z.of_nat n = 2 * (2 * h + 1).
Proof.
  pose proof (pow_A_mod4 n) as H.
  exists (A ^ Z.of_nat n / 4). pose proof (Z.div_mod (A ^ Z.of_nat n) 4 ltac:(lia)). lia.
Qed.

Lemma gsum_double m : gsum (m + m) = gsum m * (1 + A ^ Z.of_nat m).
Proof.
  assert (H : (A - 1) * gsum (m + m) = (A - 1) * (gsum m * (1 + A ^ Z.of_nat m))).
  { rewrite gsum_pow, Nat2Z.inj_add, Z.pow_add_r by lia.
    rewrite Z.mul_assoc, gsum_pow. ring. }
  apply Z.mul_reg_l in H; [done | unfold A; lia].
Qed.

Lemma gsum_odd m : ∃ h, gsum (S (m + m)) = 2 * h + 1.
Proof.
  cbn [gsum]. rewrite gsum_double. destruct (one_plus_pow_A m) as [h ->].
  exists (A * gsum m * (2 * h + 1)). ring.
Qed.

Lemma pow2_divide_odd k x h : 0 <= k → (2 ^ k | x * (2 * h + 1)) ↔ (2 ^ k | x).
Proof.
  intros Hk. split; [|intros; by apply Z.divide_mul_l].
  intros H. apply (Z.gauss _ (2 * h + 1)); [by rewrite Z.mul_comm|].
  apply Z.coprime_pow_l; [done|]. unfold Z.coprime.
  rewrite Z.add_comm, Z.mul_comm, Z.gcd_add_mult_diag_r. done.
Qed.

Lemma pow2_divide_double k x : 0 <= k → (2 ^ Z.succ k | 2 * x) ↔ (2 ^ k | x).
Proof.
  intros Hk. rewrite Z.pow_succ_r by lia. split.
  - intros [z Hz]. exists z. lia.
  - intros [z Hz]. exists z. lia.
Qed.

(** The power of two in [gsum n] is the power of two in [n]. *)
Lemma gsum_divide (k : nat) n :
  (2 ^ Z.of_nat k | gsum n) ↔ (2 ^ Z.of_nat k | Z.of_nat n).
Proof.
  revert n; induction k as [|k IH]; intros n.
  { rewrite Z.pow_0_r. split; intros _; apply Z.divide_1_l. }
  rewrite Nat2Z.inj_succ. destruct (Nat.Even_Odd_dec n) as [[m ->]|[m ->]].
  - replace (2 * m)%nat with (m + m)%nat by lia.
    rewrite gsum_double. destruct (one_plus_pow_A m) as [h ->].
    replace (gsum m * (2 * (2 * h + 1))) with (2 * gsum m * (2 * h + 1)) by ring.
    rewrite pow2_divide_odd, pow2_divide_double, IH by lia.
    replace (Z.of_nat (m + m)) with (2 * Z.of_nat m) by lia.
    by rewrite pow2_divide_double by lia.
  - replace (2 * m + 1)%nat with (S (m + m)) by lia.
    destruct (gsum_odd m) as [h ->]. rewrite Z.pow_succ_r by lia.
    split; intros [z Hz]; lia.
Qed.

Lemma C_odd : ∃ h, C = 2 * h + 1.
Proof. exists (C / 2). done. Qed.

(** Modulo a power of two up to 2^32, [n] calls bring the seed back exactly when
    that power divides [n]. *)
Lemma seed_period (m : nat) seed n : (m <= 32)%nat → is_uint seed →
  seed_after n seed mod 2 ^ Z.of_nat m = seed mod 2 ^ Z.of_nat m ↔ (2 ^ Z.of_nat m | Z.of_nat n).
Proof.
  intros Hm Hs. assert (HN : 0 < 2 ^ Z.of_nat m) by (apply Z.pow_pos_nonneg; lia).
  rewrite seed_after_closed by done. rewrite Z.mod_mod_divide.
  2:{ exists (2 ^ (32 - Z.of_nat m)). rewrite <- Z.pow_add_r by lia. f_equal. lia. }
  rewrite <- (gsum_divide m n). destruct C_odd as [c Hc].
  assert (Hg : A ^ Z.of_nat n = (2 * 832262) * gsum n + 1).
  { change (2 * 832262) with (A - 1). rewrite gsum_pow. lia. }
  replace (A ^ Z.of_nat n * seed + C * gsum n) with (gsum n * (2 * (832262 * seed + c) + 1) + seed)
    by (rewrite Hc, Hg; ring).
  rewrite <- (pow2_divide_odd _ (gsum n) (832262 * seed + c)) by lia. split.
  - intros H. apply Z.mod_divide; [lia|].
    rewrite <- (Z.add_simpl_r (_ * _) seed), Zminus_mod, H, <- Zminus_mod, Z.sub_diag. apply Z.mod_0_l. lia.
  - intros [z ->]. by rewrite Z.add_comm, Z.mod_add by lia.
Qed.

(** ** Properties *)

(** The generator has full period: from every seed, [n] calls bring the
    seed back exactly when [n] is a multiple of 2^32, so each [uint] value is
    produced once every 2^32 calls. *)
Theorem next_rand_full_period (seed : Z) (n : nat) (Hs : is_uint seed) :
  seed_after n seed = seed ↔ (2 ^ 32 | Z.of_nat n).
Proof.
  pose proof (seed_period 32 seed n ltac:(lia) Hs) as H. change (2 ^ Z.of_nat 32) with (2 ^ 32) in H.
  rewrite <- H, !Z.mod_small; [done|exact Hs|by apply seed_after_uint].
Qed.

Lemma next_rand_full_period_witness :
  is_uint seed_init ∧ (seed_after 5 seed_init = seed_init ↔ (2 ^ 32 | Z.of_nat 5)).
Proof.
  split; [unfold is_uint, seed_init; lia|].
  apply next_rand_full_period. unfold is_uint, seed_init; lia.
Defined.

(** C38.  [random_at_most max] answers in [0, max] for every [uint] bound but
    the largest; at UINT_MAX the divisor [max + 1] wraps to 0 and the call
    traps. *)
Theorem random_at_most_bound (max seed : Z) (Hm : is_uint max) (Hs : is_uint seed) :
  if max =? 2 ^ 32 - 1 then random_at_most max seed = Panic "divide error"
  else wp (random_at_most max) (λ r seed', 0 <= r <= max ∧ is_uint seed') seed.
Proof.
  unfold random_at_most, is_uint in *.
  destruct (Z.eqb_spec max (2 ^ 32 - 1)) as [->|Hne]; [done|].
  destruct (Z.eqb_spec max 0) as [->|H0]; [apply wp_ret; lia|].
  wp_seq. unfold wp. rewrite next_rand_run. cbv zeta.
  rewrite u32_small by lia.
  destruct (Z.eqb_spec (max + 1) 0); [lia|]. simpl.
  pose proof (Z.mod_pos_bound (next_seed seed) (max + 1) ltac:(lia)).
  split; [lia | apply next_seed_uint].
Qed.

Lemma random_at_most_bound_witness :
  is_uint 9 ∧ is_uint 1 ∧ wp (random_at_most 9) (λ r seed', 0 <= r <= 9 ∧ is_uint seed') 1.
Proof.
  assert (is_uint 9 ∧ is_uint 1) as [H9 H1] by (unfold is_uint; lia).
  split; [done|]. split; [done|]. exact (random_at_most_bound 9 1 H9 H1).
Defined.
