(* ===== verification/LotteryProc.v ===== *)
(** proc.c, proc.h, pstat.h (Lab2): the x86 process table with lottery
    scheduling.  Data and operations; the properties are in LotterySched.v
    and LotteryTable.v.

    - A [struct proc *] into [ptable.proc] is the index of its slot.
    - Code that is not in the repository (allocator, file system, virtual
      memory, locks, context switch) is reached through [event]s: a call
      appends its event to the [trace] of the kernel state, and its result is
      a parameter of class [Ext], an arbitrary function of the calls made so
      far and of its arguments.
    - An operation runs on the CPU [me], and [myproc()] is that CPU's current
      process.
    - An operation that gives up the CPU is cut at [swtch]: [X_enter] is the
      part before and [X_leave] the part after it. *)
From S2P Require Import Prelude Rand.

(** ** Definitions *)

Definition NPROC : nat := 64.
Definition KSTACKSIZE : Z := 4096.
Definition NOFILE : nat := 16.
Definition ROOTDEV : Z := 1.

Inductive procstate := UNUSED | EMBRYO | SLEEPING | RUNNABLE | RUNNING | ZOMBIE.

#[export] Instance procstate_eq_dec : EqDecision procstate.
Proof. solve_decision. Defined.

(** Saved registers for kernel context switches. *)
Record context := Context_ { edi : Z; esi : Z; ebx : Z; ebp : Z; eip : Z }.

(** The fields of [struct trapframe] that the sources use. *)
Record trapframe := Trapframe {
  tf_eax : Z; tf_esp : Z; tf_eip : Z; tf_eflags : Z;
  tf_cs : Z; tf_ds : Z; tf_es : Z; tf_ss : Z }.

(** A wait channel: no channel, the address of a table slot, another address. *)
Inductive channel := NoChan | ProcChan (i : nat) | AddrChan (a : Z).

#[export] Instance channel_eq_dec : EqDecision channel.
Proof. solve_decision. Defined.

Record proc := Proc {
  sz : Z;
  pgdir : Z;
  kstack : Z;
  state : procstate;
  pid : Z;
  parent : option nat;
  tf_addr : Z;
  tf : trapframe;
  ret_slot : Z;
  context_addr : Z;
  ctx : context;
  chan : channel;
  killed : Z;
  ofile : list Z;
  cwd : Z;
  name : list byte;
  tickets : Z;
  ticks : Z }.

(** Functional updates of the fields the operations assign. *)
Definition set_sz v p := Proc v (pgdir p) (kstack p) (state p) (pid p) (parent p) (tf_addr p) (tf p) (ret_slot p) (context_addr p) (ctx p) (chan p) (killed p) (ofile p) (cwd p) (name p) (tickets p) (ticks p).
Definition set_pgdir v p := Proc (sz p) v (kstack p) (state p) (pid p) (parent p) (tf_addr p) (tf p) (ret_slot p) (context_addr p) (ctx p) (chan p) (killed p) (ofile p) (cwd p) (name p) (tickets p) (ticks p).
Definition set_kstack v p := Proc (sz p) (pgdir p) v (state p) (pid p) (parent p) (tf_addr p) (tf p) (ret_slot p) (context_addr p) (ctx p) (chan p) (killed p) (ofile p) (cwd p) (name p) (tickets p) (ticks p).
Definition set_state v p := Proc (sz p) (pgdir p) (kstack p) v (pid p) (parent p) (tf_addr p) (tf p) (ret_slot p) (context_addr p) (ctx p) (chan p) (killed p) (ofile p) (cwd p) (name p) (tickets p) (ticks p).
Definition set_pid v p := Proc (sz p) (pgdir p) (kstack p) (state p) v (parent p) (tf_addr p) (tf p) (ret_slot p) (context_addr p) (ctx p) (chan p) (killed p) (ofile p) (cwd p) (name p) (tickets p) (ticks p).
Definition set_parent v p := Proc (sz p) (pgdir p) (kstack p) (state p) (pid p) v (tf_addr p) (tf p) (ret_slot p) (context_addr p) (ctx p) (chan p) (killed p) (ofile p) (cwd p) (name p) (tickets p) (ticks p).
Definition set_tf_addr v p := Proc (sz p) (pgdir p) (kstack p) (state p) (pid p) (parent p) v (tf p) (ret_slot p) (context_addr p) (ctx p) (chan p) (killed p) (ofile p) (cwd p) (name p) (tickets p) (ticks p).
Definition set_tf v p := Proc (sz p) (pgdir p) (kstack p) (state p) (pid p) (parent p) (tf_addr p) v (ret_slot p) (context_addr p) (ctx p) (chan p) (killed p) (ofile p) (cwd p) (name p) (tickets p) (ticks p).
Definition set_ret_slot v p := Proc (sz p) (pgdir p) (kstack p) (state p) (pid p) (parent p) (tf_addr p) (tf p) v (context_addr p) (ctx p) (chan p) (killed p) (ofile p) (cwd p) (name p) (tickets p) (ticks p).
Definition set_context_addr v p := Proc (sz p) (pgdir p) (kstack p) (state p) (pid p) (parent p) (tf_addr p) (tf p) (ret_slot p) v (ctx p) (chan p) (killed p) (ofile p) (cwd p) (name p) (tickets p) (ticks p).
Definition set_ctx v p := Proc (sz p) (pgdir p) (kstack p) (state p) (pid p) (parent p) (tf_addr p) (tf p) (ret_slot p) (context_addr p) v (chan p) (killed p) (ofile p) (cwd p) (name p) (tickets p) (ticks p).
Definition set_chan v p := Proc (sz p) (pgdir p) (kstack p) (state p) (pid p) (parent p) (tf_addr p) (tf p) (ret_slot p) (context_addr p) (ctx p) v (killed p) (ofile p) (cwd p) (name p) (tickets p) (ticks p).
Definition set_killed v p := Proc (sz p) (pgdir p) (kstack p) (state p) (pid p) (parent p) (tf_addr p) (tf p) (ret_slot p) (context_addr p) (ctx p) (chan p) v (ofile p) (cwd p) (name p) (tickets p) (ticks p).
Definition set_ofile v p := Proc (sz p) (pgdir p) (kstack p) (state p) (pid p) (parent p) (tf_addr p) (tf p) (ret_slot p) (context_addr p) (ctx p) (chan p) (killed p) v (cwd p) (name p) (tickets p) (ticks p).
Definition set_cwd v p := Proc (sz p) (pgdir p) (kstack p) (state p) (pid p) (parent p) (tf_addr p) (tf p) (ret_slot p) (context_addr p) (ctx p) (chan p) (killed p) (ofile p) v (name p) (tickets p) (ticks p).
Definition set_name v p := Proc (sz p) (pgdir p) (kstack p) (state p) (pid p) (parent p) (tf_addr p) (tf p) (ret_slot p) (context_addr p) (ctx p) (chan p) (killed p) (ofile p) (cwd p) v (tickets p) (ticks p).
Definition set_tickets v p := Proc (sz p) (pgdir p) (kstack p) (state p) (pid p) (parent p) (tf_addr p) (tf p) (ret_slot p) (context_addr p) (ctx p) (chan p) (killed p) (ofile p) (cwd p) (name p) v (ticks p).
Definition set_ticks v p := Proc (sz p) (pgdir p) (kstack p) (state p) (pid p) (parent p) (tf_addr p) (tf p) (ret_slot p) (context_addr p) (ctx p) (chan p) (killed p) (ofile p) (cwd p) (name p) (tickets p) v.

(** Static storage starts zeroed. *)
Definition zero_tf : trapframe := Trapframe 0 0 0 0 0 0 0 0.
Definition zero_context : context := Context_ 0 0 0 0 0.
Definition zero_proc : proc :=
  Proc 0 0 0 UNUSED 0 None 0 zero_tf 0 0 zero_context NoChan 0
    (replicate NOFILE 0) 0 (replicate 16 x00) 0 0.

(** The part of [struct cpu] that proc.c reads and writes. *)
Record cpu := Cpu { apicid : Z; ncli : Z; intena : Z; cpu_proc : option nat }.

Inductive lockid := PtableLock | TicksLock | OtherLock (a : Z).

#[export] Instance lockid_eq_dec : EqDecision lockid.
Proof. solve_decision. Defined.

(** Calls to code outside proc.c, in the order they are made. *)
Inductive event :=
  | EInitlock (l : lockid) | EAcquire (l : lockid) | ERelease (l : lockid)
  | EKalloc (r : Z) | EKfree (p : Z)
  | ESetupkvm (r : Z) | EInituvm (pgdir : Z) | ECopyuvm (pgdir sz r : Z)
  | EAllocuvm (pgdir old new r : Z) | EDeallocuvm (pgdir old new r : Z)
  | ESwitchuvm (i : nat) | ESwitchkvm | EFreevm (pgdir : Z)
  | EFiledup (f r : Z) | EFileclose (f : Z) | EIdup (ip r : Z) | EIput (ip : Z)
  | EBeginOp | EEndOp | ENamei (r : Z) | EIinit (dev : Z) | EInitlog (dev : Z)
  | ESti | ESwtch.

(** Results of the calls, and the constants of headers outside the repository. *)
Class Ext := {
  kalloc_ret : list event → Z;
  setupkvm_ret : list event → Z;
  copyuvm_ret : list event → Z → Z → Z;
  allocuvm_ret : list event → Z → Z → Z → Z;
  deallocuvm_ret : list event → Z → Z → Z → Z;
  filedup_ret : list event → Z → Z;
  idup_ret : list event → Z → Z;
  namei_ret : list event → Z;
  safestrcpy : list byte → list byte → Z → list byte;
  initcode_name : list byte;
  PGSIZE : Z; SEG_UCODE : Z; SEG_UDATA : Z; DPL_USER : Z; FL_IF : Z;
  sizeof_trapframe : Z; sizeof_context : Z; trapret : Z; forkret_addr : Z
}.

Record kst := Kst {
  ptable : list proc;
  nextpid : Z;
  initproc : option nat;
  cpus : list cpu;
  first : bool;
  seed : Z;
  trace : list event }.

Definition set_ptable v s := Kst v (nextpid s) (initproc s) (cpus s) (first s) (seed s) (trace s).
Definition set_nextpid v s := Kst (ptable s) v (initproc s) (cpus s) (first s) (seed s) (trace s).
Definition set_initproc v s := Kst (ptable s) (nextpid s) v (cpus s) (first s) (seed s) (trace s).
Definition set_cpus v s := Kst (ptable s) (nextpid s) (initproc s) v (first s) (seed s) (trace s).
Definition set_first v s := Kst (ptable s) (nextpid s) (initproc s) (cpus s) v (seed s) (trace s).
Definition set_seed v s := Kst (ptable s) (nextpid s) (initproc s) (cpus s) (first s) v (trace s).
Definition set_trace v s := Kst (ptable s) (nextpid s) (initproc s) (cpus s) (first s) (seed s) v.

Notation K := (Prelude.M kst).

Definition emit (e : event) : K unit := modify (λ s, set_trace (trace s ++ [e]) s).
Definition acquire (l : lockid) : K unit := emit (EAcquire l).
Definition release (l : lockid) : K unit := emit (ERelease l).

(** Reading and writing the slot a [struct proc *] points to. *)
Definition getp (i : nat) : K proc := λ s,
  match ptable s !! i with Some p => Done p s | None => Panic "bad proc pointer" end.
Definition updp (i : nat) (f : proc → proc) : K unit :=
  modify (λ s, set_ptable (alter f i (ptable s)) s).

(** Running rand.c on the kernel's seed. *)
Definition with_seed {B} (c : Prelude.M Z B) : K B := λ s,
  match c (seed s) with
  | Done a sd => Done a (set_seed sd s)
  | Panic w => Panic w
  | OutOfFuel => OutOfFuel
  end.

Section Lottery.
Context `{Ext}.

(** Calls to the outside that return a value. *)
Definition kalloc : K Z :=
  r ← gets (λ s, kalloc_ret (trace s)); emit (EKalloc r);; mret r.
Definition setupkvm : K Z :=
  r ← gets (λ s, setupkvm_ret (trace s)); emit (ESetupkvm r);; mret r.
Definition copyuvm (pg n : Z) : K Z :=
  r ← gets (λ s, copyuvm_ret (trace s) pg n); emit (ECopyuvm pg n r);; mret r.
Definition allocuvm (pg o n : Z) : K Z :=
  r ← gets (λ s, allocuvm_ret (trace s) pg o n); emit (EAllocuvm pg o n r);; mret r.
Definition deallocuvm (pg o n : Z) : K Z :=
  r ← gets (λ s, deallocuvm_ret (trace s) pg o n); emit (EDeallocuvm pg o n r);; mret r.
Definition filedup (f : Z) : K Z :=
  r ← gets (λ s, filedup_ret (trace s) f); emit (EFiledup f r);; mret r.
Definition idup (ip : Z) : K Z :=
  r ← gets (λ s, idup_ret (trace s) ip); emit (EIdup ip r);; mret r.
Definition namei : K Z :=
  r ← gets (λ s, namei_ret (trace s)); emit (ENamei r);; mret r.

Definition pinit : K unit := emit (EInitlock PtableLock).

(** [mycpu]: the CPU whose [apicid] is the one the local APIC reports. *)
Definition find_apic (cs : list cpu) (id : Z) : option nat :=
  fst <$> list_find (λ c, apicid c = id) cs.
Definition mycpu (eflags lapicid ncpu : Z) : K nat :=
  if negb (Z.land eflags FL_IF =? 0) then panic "mycpu called with interrupts enabled"
  else
    cs ← gets cpus;
    match find_apic (take (Z.to_nat ncpu) cs) lapicid with
    | Some i => mret i
    | None => panic "unknown apicid"
    end.
Definition cpuid (eflags lapicid ncpu : Z) : K nat := mycpu eflags lapicid ncpu.

(** [myproc()] on the CPU [me]. *)
Definition myproc (me : nat) : K (option nat) :=
  gets (λ s, cs ← cpus s !! me; cpu_proc cs).
(** Dereferencing it: the code does so with no test. *)
Definition curproc (me : nat) : K nat :=
  o ← myproc me; match o with Some i => mret i | None => panic "null proc pointer" end.
Definition set_cpu_proc (me : nat) (o : option nat) : K unit :=
  modify (λ s, set_cpus (alter (λ c, Cpu (apicid c) (ncli c) (intena c) o) me (cpus s)) s).

(** The slot [allocproc] takes, and its assignments under the lock. *)
Definition find_unused (ps : list proc) : option nat :=
  fst <$> list_find (λ p, state p = UNUSED) ps.
Definition embryo (n : Z) (p : proc) : proc :=
  set_ticks 0 (set_tickets 5 (set_pid n (set_state EMBRYO p))).
(** Its kernel stack: trap frame, return address and context below the top. *)
Definition set_stack (p : proc) : proc :=
  let sp := kstack p + KSTACKSIZE - sizeof_trapframe in
  let p := set_tf_addr sp p in
  let p := set_ret_slot trapret p in
  let p := set_context_addr (sp - 4 - sizeof_context) p in
  set_ctx (Context_ 0 0 0 0 forkret_addr) p.

Definition allocproc : K (option nat) :=
  acquire PtableLock;;
  ps ← gets ptable;
  match find_unused ps with
  | None => release PtableLock;; mret None
  | Some i =>
      n ← gets nextpid;
      modify (set_nextpid (i32 (n + 1)));;
      updp i (embryo n);;
      release PtableLock;;
      k ← kalloc;
      updp i (set_kstack k);;
      if k =? 0 then updp i (set_state UNUSED);; mret None
      else updp i set_stack;; mret (Some i)
  end.

Definition userinit : K unit :=
  o ← allocproc;
  modify (set_initproc o);;
  match o with
  | None => panic "null proc pointer"
  | Some i =>
      pg ← setupkvm;
      updp i (set_pgdir pg);;
      if pg =? 0 then panic "userinit: out of memory?"
      else
        emit (EInituvm pg);;
        updp i (set_sz PGSIZE);;
        let cs := Z.lor (Z.shiftl SEG_UCODE 3) DPL_USER in
        let ds := Z.lor (Z.shiftl SEG_UDATA 3) DPL_USER in
        updp i (set_tf (Trapframe 0 PGSIZE 0 FL_IF cs ds ds ds));;
        updp i (λ p, set_name (safestrcpy (name p) initcode_name 16) p);;
        w ← namei;
        updp i (set_cwd w);;
        acquire PtableLock;;
        updp i (set_state RUNNABLE);;
        release PtableLock
  end.

Definition growproc (me : nat) (n : Z) : K Z :=
  i ← curproc me;
  p ← getp i;
  let finish sz' := updp i (set_sz sz');; emit (ESwitchuvm i);; mret 0 in
  if 0 <? n then
    r ← allocuvm (pgdir p) (sz p) (u32 (sz p + n));
    let sz' := u32 r in
    if sz' =? 0 then mret (-1) else finish sz'
  else if n <? 0 then
    r ← deallocuvm (pgdir p) (sz p) (u32 (sz p + n));
    let sz' := u32 r in
    if sz' =? 0 then mret (-1) else finish sz'
  else finish (sz p).

(** [fork]'s loop over the open files. *)
Fixpoint dup_files (j : nat) (fs : list Z) (fd : nat) : K unit :=
  match fs with
  | [] => mret tt
  | f :: fs' =>
      (if f =? 0 then mret tt
       else r ← filedup f; updp j (λ p, set_ofile (<[fd := r]> (ofile p)) p));;
      dup_files j fs' (S fd)
  end.

Definition fork (me : nat) : K Z :=
  i ← curproc me;
  o ← allocproc;
  match o with
  | None => mret (-1)
  | Some j =>
      cp ← getp i;
      pg ← copyuvm (pgdir cp) (sz cp);
      updp j (set_pgdir pg);;
      if pg =? 0 then
        np ← getp j;
        emit (EKfree (kstack np));;
        updp j (set_kstack 0);;
        updp j (set_state UNUSED);;
        mret (-1)
      else
        updp j (set_sz (sz cp));;
        updp j (set_parent (Some i));;
        updp j (set_tf (tf cp));;
        updp j (λ p, set_tf (Trapframe 0 (tf_esp (tf p)) (tf_eip (tf p)) (tf_eflags (tf p))
                                       (tf_cs (tf p)) (tf_ds (tf p)) (tf_es (tf p)) (tf_ss (tf p))) p);;
        dup_files j (ofile cp) 0;;
        w ← idup (cwd cp);
        updp j (set_cwd w);;
        updp j (λ p, set_name (safestrcpy (name p) (name cp) 16) p);;
        updp j (set_tickets (tickets cp));;
        np ← getp j;
        let pid' := pid np in
        acquire PtableLock;;
        updp j (set_state RUNNABLE);;
        release PtableLock;;
        mret pid'
  end.

(** [wakeup1] on the table. *)
Definition wake (c : channel) (p : proc) : proc :=
  if bool_decide (state p = SLEEPING ∧ chan p = c) then set_state RUNNABLE p else p.
Definition wakeup1 (c : channel) : K unit :=
  modify (λ s, set_ptable (wake c <$> ptable s) s).
Definition wakeup (c : channel) : K unit :=
  acquire PtableLock;; wakeup1 c;; release PtableLock.

Definition ptr_chan (o : option nat) : channel :=
  match o with Some i => ProcChan i | None => NoChan end.

(** [sched]: the checks before the switch.  [eflags] and [holding] are what
    readeflags() and holding(&ptable.lock) answer.  The value is the [intena]
    that the process saves in its frame. *)
Definition sched (me : nat) (eflags : Z) (holding : bool) : K Z :=
  i ← curproc me;
  p ← getp i;
  cs ← gets cpus;
  if negb holding then panic "sched ptable.lock"
  else if negb (default 0 (ncli <$> cs !! me) =? 1) then panic "sched locks"
  else if bool_decide (state p = RUNNING) then panic "sched running"
  else if negb (Z.land eflags FL_IF =? 0) then panic "sched interruptible"
  else emit ESwtch;; mret (default 0 (intena <$> cs !! me)).
(** ... and after it: [intena] is restored on the CPU the process resumes on. *)
Definition sched_resume (me : nat) (intena' : Z) : K unit :=
  modify (λ s, set_cpus (alter (λ c, Cpu (apicid c) (ncli c) intena' (cpu_proc c)) me (cpus s)) s).

Definition close_files (i : nat) (fs : list Z) : nat → K unit :=
  (fix go fs fd :=
     match fs with
     | [] => mret tt
     | f :: fs' =>
         (if f =? 0 then mret tt
          else emit (EFileclose f);; updp i (λ p, set_ofile (<[fd := 0]> (ofile p)) p));;
         go fs' (S fd)
     end) fs.

(** [exit], up to the lock. *)
Definition exit_close (me : nat) : K unit :=
  i ← curproc me;
  ip ← gets initproc;
  if bool_decide (Some i = ip) then panic "init exiting"
  else
    p ← getp i;
    close_files i (ofile p) 0;;
    emit EBeginOp;; emit (EIput (cwd p));; emit EEndOp;;
    updp i (set_cwd 0).
(** Its loop over the table: abandoned children go to init, whose process is
    woken for each one that is already a zombie. *)
Fixpoint reparent (i : nat) (ip : option nat) (n : nat) (j : nat) : K unit :=
  match n with
  | O => mret tt
  | S n' =>
      p ← getp j;
      (if bool_decide (parent p = Some i) then
         updp j (set_parent ip);;
         (if bool_decide (state p = ZOMBIE) then wakeup1 (ptr_chan ip) else mret tt)
       else mret tt);;
      reparent i ip n' (S j)
  end.
Definition exit_locked (me : nat) : K unit :=
  i ← curproc me;
  acquire PtableLock;;
  p ← getp i;
  wakeup1 (ptr_chan (parent p));;
  ip ← gets initproc;
  ps ← gets ptable;
  reparent i ip (length ps) 0;;
  updp i (set_state ZOMBIE).
(** [exit] never returns: after [sched] comes the panic "zombie exit". *)
Definition exit (me : nat) (eflags : Z) (holding : bool) : K Z :=
  exit_close me;; exit_locked me;; sched me eflags holding.

(** One pass of [wait]'s loop over the table. *)
Inductive scan := Reap (j : nat) | Kids | NoKids.
Fixpoint wait_scan (i : nat) (ps : list proc) (j : nat) (havekids : bool) : scan :=
  match ps with
  | [] => if havekids then Kids else NoKids
  | p :: ps' =>
      if bool_decide (parent p = Some i) then
        if bool_decide (state p = ZOMBIE) then Reap j else wait_scan i ps' (S j) true
      else wait_scan i ps' (S j) havekids
  end.
Definition reap (p : proc) : proc :=
  set_state UNUSED (set_killed 0 (set_name (<[0%nat := x00]> (name p))
    (set_parent None (set_pid 0 (set_kstack 0 p))))).
(** What a pass ends with: a value to return, or the process sleeps. *)
Inductive waited := Returns (v : Z) | Sleeps.
Definition wait_pass (me : nat) : K waited :=
  i ← curproc me;
  ps ← gets ptable;
  match wait_scan i ps 0 false with
  | Reap j =>
      c ← getp j;
      emit (EKfree (kstack c));;
      emit (EFreevm (pgdir c));;
      updp j reap;;
      release PtableLock;;
      mret (Returns (pid c))
  | r =>
      p ← getp i;
      match r, killed p =? 0 with
      | Kids, true => mret Sleeps
      | _, _ => release PtableLock;; mret (Returns (-1))
      end
  end.

(** [sleep], before and after its switch. *)
Definition sleep_enter (me : nat) (c : channel) (lk : option lockid) (eflags : Z) (holding : bool) : K Z :=
  o ← myproc me;
  match o with
  | None => panic "sleep"
  | Some i =>
      match lk with
      | None => panic "sleep without lk"
      | Some l =>
          (if bool_decide (l = PtableLock) then mret tt
           else acquire PtableLock;; release l);;
          updp i (set_chan c);;
          updp i (set_state SLEEPING);;
          sched me eflags holding
      end
  end.
Definition sleep_leave (me : nat) (intena' : Z) (i : nat) (l : lockid) : K unit :=
  sched_resume me intena';;
  updp i (set_chan NoChan);;
  if bool_decide (l = PtableLock) then mret tt
  else release PtableLock;; acquire l.

(** [wait]: each time it sleeps, [others] is what the rest of the system did
    to the kernel state meanwhile; [fuel] bounds the number of sleeps. *)
Fixpoint wait_loop (me : nat) (eflags : Z) (others : kst → kst) (fuel : nat) : K Z :=
  match fuel with
  | O => no_fuel
  | S fuel' =>
      r ← wait_pass me;
      match r with
      | Returns v => mret v
      | Sleeps =>
          i ← curproc me;
          ie ← sleep_enter me (ProcChan i) (Some PtableLock) eflags true;
          modify others;;
          sleep_leave me ie i PtableLock;;
          wait_loop me eflags others fuel'
      end
  end.
Definition wait (me : nat) (eflags : Z) (others : kst → kst) (fuel : nat) : K Z :=
  acquire PtableLock;; wait_loop me eflags others fuel.

Definition yield_enter (me : nat) (eflags : Z) (holding : bool) : K Z :=
  acquire PtableLock;;
  i ← curproc me;
  updp i (set_state RUNNABLE);;
  sched me eflags holding.
Definition yield_leave (me : nat) (intena' : Z) : K unit :=
  sched_resume me intena';; release PtableLock.

Definition forkret : K unit :=
  release PtableLock;;
  b ← gets first;
  if b : bool then
    modify (set_first false);; emit (EIinit ROOTDEV);; emit (EInitlog ROOTDEV)
  else mret tt.

(** [kill]'s search. *)
Definition find_pid (n : Z) (ps : list proc) : option nat :=
  fst <$> list_find (λ p, pid p = n) ps.
Definition mark_killed (p : proc) : proc :=
  let p := set_killed 1 p in
  if bool_decide (state p = SLEEPING) then set_state RUNNABLE p else p.
Definition kill (n : Z) : K Z :=
  acquire PtableLock;;
  ps ← gets ptable;
  match find_pid n ps with
  | Some i => updp i mark_killed;; release PtableLock;; mret 0
  | None => release PtableLock;; mret (-1)
  end.

Definition settickets (me : nat) (number : Z) : K Z :=
  if number <? 1 then mret (-1)
  else
    i ← curproc me;
    acquire PtableLock;;
    updp i (set_tickets number);;
    release PtableLock;;
    mret 0.

(** [struct pstat]; [getpinfo] fills the one its pointer designates and
    answers -1 for a null pointer. *)
Record pstat := Pstat {
  ps_inuse : list Z; ps_tickets : list Z; ps_pid : list Z; ps_ticks : list Z }.
Definition getpinfo (ps : option pstat) : K (Z * option pstat) :=
  match ps with
  | None => mret (-1, None)
  | Some _ =>
      acquire PtableLock;;
      t ← gets ptable;
      let r := Pstat ((λ p, if bool_decide (state p ≠ UNUSED) then 1 else 0) <$> t)
                     (tickets <$> t) (pid <$> t) (ticks <$> t) in
      release PtableLock;;
      mret (0, Some r)
  end.

(** *** The lottery *)

(** The sum of the runnable processes' tickets, in an [int]. *)
Fixpoint total_tickets (ps : list proc) (acc : Z) : Z :=
  match ps with
  | [] => acc
  | p :: ps' =>
      total_tickets ps' (if bool_decide (state p = RUNNABLE) then i32 (acc + tickets p) else acc)
  end.
(** The first runnable process at which the running count passes [winner]. *)
Fixpoint find_winner (winner : Z) (ps : list proc) (counter : Z) (i : nat) : option nat :=
  match ps with
  | [] => None
  | p :: ps' =>
      if bool_decide (state p ≠ RUNNABLE) then find_winner winner ps' counter (S i)
      else
        let counter' := i32 (counter + tickets p) in
        if winner <? counter' then Some i else find_winner winner ps' counter' (S i)
  end.

(** What the scheduler does on entry, and one turn of its loop up to [swtch]:
    the process it switches to, if any. *)
Definition scheduler_start (me : nat) : K unit :=
  set_cpu_proc me None;; with_seed rand_init.
Definition scheduler_pick (me : nat) : K (option nat) :=
  emit ESti;;
  acquire PtableLock;;
  ps ← gets ptable;
  let total := total_tickets ps 0 in
  if total =? 0 then release PtableLock;; mret None
  else
    r ← with_seed (random_at_most (u32 (i32 (total - 1))));
    match find_winner (i32 r) ps 0 0 with
    | None => release PtableLock;; mret None
    | Some i =>
        updp i (λ p, set_ticks (i32 (ticks p + 1)) p);;
        set_cpu_proc me (Some i);;
        emit (ESwitchuvm i);;
        updp i (set_state RUNNING);;
        emit ESwtch;;
        mret (Some i)
    end.
(** The rest of the turn, when the process has switched back. *)
Definition scheduler_back (me : nat) : K unit :=
  emit ESwitchkvm;; set_cpu_proc me None;; release PtableLock.

(** [n] turns; [run] is what the chosen process and the rest of the system do
    to the kernel state before it switches back. *)
Fixpoint scheduler_turns (me : nat) (run : nat → kst → kst) (n : nat) : K unit :=
  match n with
  | O => mret tt
  | S n' =>
      o ← scheduler_pick me;
      match o with
      | None => mret tt
      | Some i => modify (run i);; scheduler_back me
      end;;
      scheduler_turns me run n'
  end.
Definition scheduler (me : nat) (run : nat → kst → kst) (n : nat) : K unit :=
  scheduler_start me;; scheduler_turns me run n.

(** [procdump]: the lines it prints, [pc] giving the saved return addresses
    of a sleeping process. *)
Definition state_name (st : procstate) : string :=
  match st with
  | UNUSED => "unused" | EMBRYO => "embryo" | SLEEPING => "sleep "
  | RUNNABLE => "runble" | RUNNING => "run   " | ZOMBIE => "zombie"
  end.
Record dump_line := Dump { d_pid : Z; d_state : string; d_name : list byte; d_pcs : list Z }.
Fixpoint nonzero_prefix (l : list Z) : list Z :=
  match l with [] => [] | x :: l' => if x =? 0 then [] else x :: nonzero_prefix l' end.
Definition procdump (getcallerpcs : Z → list Z) (ps : list proc) : list dump_line :=
  (λ p, Dump (pid p) (state_name (state p)) (name p)
          (if bool_decide (state p = SLEEPING)
           then nonzero_prefix (take 10 (getcallerpcs (ebp (ctx p) + 8))) else []))
  <$> filter (λ p, state p ≠ UNUSED) ps.
End Lottery.

(** A concrete environment and table, for evaluating the operations. *)
Definition sample_ext : Ext := {|
  kalloc_ret := λ tr, 0x80000 + 4096 * Z.of_nat (length tr);
  setupkvm_ret := λ tr, 0x400000; copyuvm_ret := λ tr _ _, 0x500000;
  allocuvm_ret := λ tr _ _ n, n; deallocuvm_ret := λ tr _ _ n, n;
  filedup_ret := λ _ f, f; idup_ret := λ _ ip, ip; namei_ret := λ _, 7;
  safestrcpy := λ _ src n, take (Z.to_nat n) src;
  initcode_name := [x69; x6e; x69; x74];
  PGSIZE := 4096; SEG_UCODE := 3; SEG_UDATA := 4; DPL_USER := 3; FL_IF := 0x200;
  sizeof_trapframe := 76; sizeof_context := 20; trapret := 0x100; forkret_addr := 0x200 |}.
Definition sample_proc (st : procstate) (id tk : Z) (par : option nat) : proc :=
  set_parent par (set_tickets tk (set_pid id (set_state st zero_proc))).
Definition sample_cpu : cpu := Cpu 0 1 0 None.
(** init sleeps, two of its children are runnable. *)
Definition sample_kst : kst :=
  Kst ([sample_proc SLEEPING 1 5 None; sample_proc RUNNABLE 2 5 (Some 0%nat);
        sample_proc RUNNABLE 3 10 (Some 0%nat)] ++ replicate 61 zero_proc)
      4 (Some 0%nat) [sample_cpu; sample_cpu] false 1 [].

(** ** Lemmas: running the calls *)

Lemma emit_bind {B} e (k : unit → K B) s : (emit e ≫= k) s = k tt (set_trace (trace s ++ [e]) s).
Proof. done. Qed.
Lemma acquire_bind {B} l (k : unit → K B) s :
  (acquire l ≫= k) s = k tt (set_trace (trace s ++ [EAcquire l]) s).
Proof. done. Qed.
Lemma release_bind {B} l (k : unit → K B) s :
  (release l ≫= k) s = k tt (set_trace (trace s ++ [ERelease l]) s).
Proof. done. Qed.
Lemma updp_bind {B} i f (k : unit → K B) s :
  (updp i f ≫= k) s = k tt (set_ptable (alter f i (ptable s)) s).
Proof. done. Qed.
Lemma set_cpu_proc_bind {B} me o (k : unit → K B) s :
  (set_cpu_proc me o ≫= k) s =
  k tt (set_cpus (alter (λ c, Cpu (apicid c) (ncli c) (intena c) o) me (cpus s)) s).
Proof. done. Qed.
Lemma getp_bind {B} i p (k : proc → K B) s :
  ptable s !! i = Some p → (getp i ≫= k) s = k p s.
Proof. intros H. apply bind_done. unfold getp. by rewrite H. Qed.
Lemma getp_run {B} i (k : proc → K B) s :
  (getp i ≫= k) s = match ptable s !! i with Some p => k p s | None => Panic "bad proc pointer" end.
Proof. unfold mbind, M_bind, getp. by destruct (ptable s !! i). Qed.
Lemma curproc_run {B} me (k : nat → K B) s :
  (curproc me ≫= k) s =
  match cpus s !! me ≫= cpu_proc with Some i => k i s | None => Panic "null proc pointer" end.
Proof. unfold curproc, myproc. autorewrite with run. by destruct (cpus s !! me ≫= cpu_proc). Qed.
Lemma release_run l s : release l s = Done tt (set_trace (trace s ++ [ERelease l]) s).
Proof. done. Qed.
Lemma updp_run i f s : updp i f s = Done tt (set_ptable (alter f i (ptable s)) s).
Proof. done. Qed.
#[export] Hint Rewrite @getp_run @curproc_run @release_run @updp_run : run.
#[export] Hint Rewrite @emit_bind @acquire_bind @release_bind @updp_bind @set_cpu_proc_bind : run.
