(* ===== verification/LotterySched.v ===== *)
(** The lottery scheduler of proc.c (Lab2): which process a draw selects, how
    many draws select each process, what one turn of the scheduler's loop does
    to the kernel state, and what happens when the ticket count overflows. *)
From S2P Require Import Prelude Rand LotteryProc.

(** ** Definitions *)

Definition runnable (p : proc) : Prop := state p = RUNNABLE.
#[export] Instance runnable_dec p : Decision (runnable p).
Proof. unfold runnable. apply _. Defined.

(** The tickets a slot takes part with, and their sum over a table. *)
Definition stake (p : proc) : Z := if bool_decide (state p = RUNNABLE) then tickets p else 0.
Definition stakes (ps : list proc) : Z := foldr (λ p acc, stake p + acc) 0 ps.

(** Every runnable process holds at least one ticket, and the tickets of all
    of them fit in an [int]. *)
Definition lottery_ok (ps : list proc) : Prop :=
  Forall (λ p, runnable p → 1 <= tickets p) ps ∧ stakes ps <= INT_MAX.

(** The draws of [0, total) that select slot [i]. *)
Definition winning (ps : list proc) (i : nat) : list Z :=
  filter (λ w, find_winner w ps 0 0 = Some i) (seqZ 0 (stakes ps)).

(** ** Lemmas *)

Lemma stakes_cons p ps : stakes (p :: ps) = stake p + stakes ps.
Proof. done. Qed.
Lemma stakes_app ps qs : stakes (ps ++ qs) = stakes ps + stakes qs.
Proof. induction ps as [|p ps IH]; [done|]. cbn [app]. rewrite !stakes_cons, IH. lia. Qed.

Section tickets.
Implicit Types (ps : list proc).
Notation positive ps := (Forall (λ p, runnable p → 1 <= tickets p) ps).

Lemma stake_cases p : (runnable p ∧ stake p = tickets p) ∨ (¬ runnable p ∧ stake p = 0).
Proof. unfold stake, runnable. case_bool_decide; auto. Qed.
Lemma stake_nonneg p : (runnable p → 1 <= tickets p) → 0 <= stake p.
Proof. unfold stake, runnable. case_bool_decide; intros; [|lia]. specialize (H0 H). lia. Qed.
Lemma stakes_nonneg ps : positive ps → 0 <= stakes ps.
Proof.
  induction 1 as [|p ps Hp _ IH]; [done|]. rewrite stakes_cons. pose proof (stake_nonneg p Hp). lia.
Qed.
Lemma stakes_take_le ps k : positive ps → stakes (take k ps) <= stakes ps.
Proof.
  intros H. rewrite <- (take_drop k ps) at 2. rewrite stakes_app.
  pose proof (stakes_nonneg (drop k ps) (Forall_drop _ _ _ H)). lia.
Qed.
Lemma stakes_take_S ps k p :
  ps !! k = Some p → stakes (take (S k) ps) = stakes (take k ps) + stake p.
Proof. intros H. rewrite (take_S_r _ _ p H), stakes_app. cbn. lia. Qed.
Lemma stakes_take_S_runnable ps k p :
  ps !! k = Some p → runnable p → stakes (take (S k) ps) = stakes (take k ps) + tickets p.
Proof.
  intros Hk Hr. rewrite (stakes_take_S _ _ _ Hk). destruct (stake_cases p) as [[_ ->]|[? _]]; done.
Qed.
Lemma stakes_take_mono ps j k : positive ps → (j <= k)%nat → stakes (take j ps) <= stakes (take k ps).
Proof.
  intros H Hjk. replace (take j ps) with (take j (take k ps)) by (rewrite take_take; f_equal; lia).
  apply stakes_take_le. by apply Forall_take.
Qed.
Lemma stakes_pos ps p : positive ps → p ∈ ps → runnable p → 1 <= stakes ps.
Proof.
  intros H [i Hi]%list_elem_of_lookup Hr.
  pose proof (stakes_take_S_runnable _ _ _ Hi Hr). pose proof (stakes_take_le ps (S i) H).
  pose proof (stakes_nonneg _ (Forall_take _ i _ H)).
  pose proof (Forall_lookup_1 _ _ _ _ H Hi Hr). lia.
Qed.
Lemma stakes_zero ps : positive ps → stakes ps = 0 ↔ ∀ p, p ∈ ps → ¬ runnable p.
Proof.
  intros H. split.
  - intros H0 p Hp Hr. pose proof (stakes_pos _ _ H Hp Hr). lia.
  - clear H. induction ps as [|p ps IH]; intros H; [done|]. rewrite stakes_cons, IH by set_solver.
    unfold stake. rewrite bool_decide_false; [done|]. apply (H p). set_solver.
Qed.

Lemma total_tickets_stakes ps acc :
  positive ps → 0 <= acc → acc + stakes ps <= INT_MAX → total_tickets ps acc = acc + stakes ps.
Proof.
  intros H. revert acc; induction H as [|p ps Hp H IH]; intros acc Ha Hb; [cbn; lia|].
  rewrite stakes_cons in *. pose proof (stake_nonneg p Hp). pose proof (stakes_nonneg ps H).
  cbn [total_tickets]. destruct (stake_cases p) as [[Hr E]|[Hr E]]; rewrite E in *.
  - specialize (Hp Hr). rewrite bool_decide_true by done.
    rewrite i32_small by (unfold is_int, INT_MIN, INT_MAX in *; lia). rewrite IH by lia. lia.
  - rewrite bool_decide_false by done. rewrite IH by lia. lia.
Qed.

(** One pass of the search, from any running count. *)
Lemma find_winner_spec w ps counter i0 :
  positive ps → 0 <= counter <= w → counter + stakes ps <= INT_MAX →
  match find_winner w ps counter i0 with
  | Some i => ∃ k p, i = (i0 + k)%nat ∧ ps !! k = Some p ∧ runnable p
      ∧ counter + stakes (take k ps) <= w < counter + stakes (take k ps) + tickets p
  | None => counter + stakes ps <= w
  end.
Proof.
  intros H. revert counter i0; induction H as [|p ps Hp H IH]; intros counter i0 Hc Hb; [cbn; lia|].
  pose proof (stake_nonneg p Hp). pose proof (stakes_nonneg ps H). rewrite stakes_cons in Hb.
  assert (Hrec : ∀ c', c' = counter + stake p → c' <= w →
    match find_winner w ps c' (S i0) with
    | Some i => ∃ k q, i = (i0 + k)%nat ∧ (p :: ps) !! k = Some q ∧ runnable q
        ∧ counter + stakes (take k (p :: ps)) <= w < counter + stakes (take k (p :: ps)) + tickets q
    | None => counter + stakes (p :: ps) <= w
    end).
  { intros c' -> Hw. specialize (IH (counter + stake p) (S i0) ltac:(lia) ltac:(lia)).
    destruct (find_winner _ _ _ _) as [i|].
    - destruct IH as (k & q & -> & Hq & Hr & Hi). exists (S k), q. cbn [take]. rewrite stakes_cons.
      split; [lia|]. split; [done|]. split; [done|]. lia.
    - rewrite stakes_cons. lia. }
  cbn [find_winner]. destruct (stake_cases p) as [[Hr E]|[Hr E]]; rewrite E in *; clear E; last first.
  - rewrite bool_decide_true by done. apply Hrec; lia.
  - specialize (Hp Hr). rewrite bool_decide_false by (unfold runnable in Hr; congruence).
    rewrite i32_small by (unfold is_int, INT_MIN, INT_MAX in *; lia).
    destruct (Z.ltb_spec w (counter + tickets p)) as [Hlt|Hge].
    + exists 0%nat, p. cbn. split; [lia|]. split; [done|]. split; [done|]. lia.
    + by apply Hrec.
Qed.

(** The draw [w] selects the slot whose interval of ticket numbers holds [w]. *)
Lemma find_winner_iff w ps i :
  lottery_ok ps → 0 <= w →
  find_winner w ps 0 0 = Some i ↔
  ∃ p, ps !! i = Some p ∧ runnable p ∧
       stakes (take i ps) <= w < stakes (take i ps) + tickets p.
Proof.
  intros [H Hb] Hw. pose proof (find_winner_spec w ps 0 0 H ltac:(lia) ltac:(lia)) as Hs.
  split.
  - intros E. rewrite E in Hs. destruct Hs as (k & p & -> & Hk & Hr & Hi). by exists p.
  - intros (p & Hp & Hr & Hi).
    pose proof (stakes_take_S_runnable _ _ _ Hp Hr) as HS.
    destruct (find_winner w ps 0 0) as [j|].
    + destruct Hs as (k & q & -> & Hk & Hrq & Hi'). f_equal. simpl.
      pose proof (stakes_take_S_runnable _ _ _ Hk Hrq) as HS'.
      destruct (Nat.lt_trichotomy k i) as [Hlt|[->|Hlt]]; [|done|].
      * pose proof (stakes_take_mono ps (S k) i H Hlt). lia.
      * pose proof (stakes_take_mono ps (S i) k H Hlt). lia.
    + pose proof (stakes_take_le ps (S i) H). lia.
Qed.
End tickets.

Lemma seqZ_filter_interval (P : Z → Prop) `{∀ w, Decision (P w)} lo len n :
  0 <= lo → 0 <= len → lo + len <= n →
  (∀ w, 0 <= w < n → P w ↔ lo <= w < lo + len) →
  filter P (seqZ 0 n) = seqZ lo len.
Proof.
  intros Hlo Hlen Hn HP. replace n with (lo + (len + (n - lo - len))) by lia.
  rewrite !seqZ_app, !list_filter_app by lia. rewrite Z.add_0_l.
  rewrite (list_filter_none P (seqZ 0 lo)), (list_filter_none P (seqZ (lo + len) _)),
    (list_filter_all P (seqZ lo len)), app_nil_r; [done|..];
    apply Forall_forall; intros w Hw%elem_of_seqZ; rewrite ?HP; lia.
Qed.

Lemma alter_at (f : proc → proc) (i : nat) (ps : list proc) p : ps !! i = Some p → alter f i ps = <[i := f p]> ps.
Proof. revert i; induction ps as [|q ps IH]; intros [|i] H; simplify_eq/=; [done|]. f_equal. by apply IH. Qed.

(** The draw of one turn, from a seed and a total. *)
Definition draw (seed total : Z) : Z := if total =? 1 then 0 else next_seed seed mod total.

Lemma random_at_most_draw total sd :
  1 <= total <= INT_MAX →
  ∃ sd', random_at_most (u32 (i32 (total - 1))) sd = Done (draw sd total) sd'
    ∧ sd' = if total =? 1 then sd else next_seed sd.
Proof.
  intros Ht. unfold INT_MAX in Ht.
  rewrite i32_small by (unfold is_int, INT_MIN, INT_MAX; lia). rewrite u32_small by lia.
  unfold random_at_most, draw. destruct (Z.eqb_spec total 1) as [->|Hne]; [by eexists|].
  destruct (Z.eqb_spec (total - 1) 0); [lia|].
  erewrite bind_done by apply next_rand_run. cbv zeta.
  rewrite (u32_small (total - 1 + 1)) by lia. destruct (Z.eqb_spec (total - 1 + 1) 0); [lia|].
  replace (total - 1 + 1) with total by lia. by eexists.
Qed.

Lemma draw_range sd total : 1 <= total → 0 <= draw sd total < total.
Proof.
  intros. unfold draw. destruct (Z.eqb_spec total 1); [lia|]. apply Z.mod_pos_bound. lia.
Qed.

Lemma draw_wins ps w : lottery_ok ps → 0 <= w < stakes ps → is_Some (find_winner w ps 0 0).
Proof.
  intros [Hpos Hmax] Hw. pose proof (find_winner_spec w ps 0 0 Hpos ltac:(lia) ltac:(lia)).
  destruct (find_winner w ps 0 0); [by eexists|lia].
Qed.

(** A turn with a runnable process. *)
Lemma scheduler_pick_some me s : lottery_ok (ptable s) → (∃ p, p ∈ ptable s ∧ runnable p) →
  let total := stakes (ptable s) in
  ∃ i p s', scheduler_pick me s = Done (Some i) s'
    ∧ ptable s !! i = Some p ∧ runnable p
    ∧ stakes (take i (ptable s)) <= draw (seed s) total < stakes (take i (ptable s)) + tickets p
    ∧ ptable s' = <[i := set_state RUNNING (set_ticks (i32 (ticks p + 1)) p)]> (ptable s)
    ∧ cpus s' = alter (λ c, Cpu (apicid c) (ncli c) (intena c) (Some i)) me (cpus s)
    ∧ trace s' = trace s ++ [ESti; EAcquire PtableLock; ESwitchuvm i; ESwtch]
    ∧ (nextpid s', initproc s', first s') = (nextpid s, initproc s, first s)
    ∧ seed s' = (if total =? 1 then seed s else next_seed (seed s)).
Proof.
  intros Hok (q & Hq & Hrq) total. pose proof Hok as [Hpos Hmax].
  pose proof (total_tickets_stakes (ptable s) 0 Hpos ltac:(lia) ltac:(lia)) as Htot.
  assert (Et : total = stakes (ptable s)) by done. clearbody total. rewrite Z.add_0_l, <- Et in Htot.
  pose proof (stakes_pos _ _ Hpos Hq Hrq) as H1.
  destruct (random_at_most_draw total (seed s) ltac:(lia)) as (sd' & Hdraw & Hsd).
  pose proof (draw_range (seed s) total ltac:(lia)) as Hr.
  assert (0 <= draw (seed s) total) as Hd by lia.
  destruct (draw_wins (ptable s) (draw (seed s) total) Hok) as [i Hi]; [lia|].
  pose proof (proj1 (find_winner_iff _ _ _ Hok Hd) Hi) as (p & Hp & Hrp & Hint).
  exists i, p. unfold scheduler_pick. run. rewrite Htot.
  destruct (Z.eqb_spec total 0); [lia|].
  erewrite bind_done by (unfold with_seed; cbn; by rewrite Hdraw).
  rewrite i32_small by (unfold is_int, INT_MIN, INT_MAX in *; lia). rewrite Hi. run.
  eexists. split; [done|]. cbn.
  rewrite (alter_at _ _ _ _ Hp), (alter_at _ _ _ (set_ticks (i32 (ticks p + 1)) p)), list_insert_insert.
  2:{ apply list_lookup_insert_eq. by eapply lookup_lt_Some. }
  rewrite <- !app_assoc. rewrite decide_True by done. done.
Qed.

(** ** Properties *)

(** C13.  Proportional share: when every runnable process holds at least one
    ticket and the total fits in an [int], exactly [tickets p] of the draws
    0 .. total-1 select a runnable process [p], no draw selects a process
    that is not runnable, and every draw selects some process. *)
Theorem lottery_proportional_share (ps : list proc) (Hok : lottery_ok ps) :
  (∀ i p, ps !! i = Some p →
     winning ps i = if bool_decide (runnable p) then seqZ (stakes (take i ps)) (tickets p) else [])
  ∧ (∀ w, 0 <= w < stakes ps → is_Some (find_winner w ps 0 0)).
Proof.
  pose proof Hok as [Hpos Hmax]. split.
  - intros i p Hi. unfold winning. case_bool_decide as Hr.
    + pose proof (stakes_take_S_runnable _ _ _ Hi Hr). pose proof (stakes_take_le ps (S i) Hpos).
      pose proof (stakes_nonneg _ (Forall_take _ i _ Hpos)).
      pose proof (Forall_lookup_1 _ _ _ _ Hpos Hi Hr).
      apply seqZ_filter_interval; [lia..|]. intros w Hw.
      rewrite (find_winner_iff w ps i Hok) by lia. naive_solver.
    + apply list_filter_none, Forall_forall. intros w Hw%elem_of_seqZ.
      rewrite (find_winner_iff w ps i Hok) by lia. naive_solver.
  - intros w Hw. by apply draw_wins.
Qed.

Lemma lottery_ok_sample : lottery_ok (ptable sample_kst).
Proof.
  split; [|done]. apply Forall_forall. intros p Hp Hr. unfold runnable in Hr.
  apply list_elem_of_lookup in Hp as [i Hi]. 
  do 3 (destruct i as [|i]; [simplify_eq/=; lia|]).
  apply lookup_replicate in Hi as [-> _]. done.
Qed.

Lemma lottery_proportional_share_witness :
  lottery_ok (ptable sample_kst)
  ∧ winning (ptable sample_kst) 2 = seqZ 5 10
  ∧ is_Some (find_winner 14 (ptable sample_kst) 0 0).
Proof.
  split; [exact lottery_ok_sample|].
  destruct (lottery_proportional_share (ptable sample_kst) lottery_ok_sample) as [H1 H2]. split.
  - exact (H1 2%nat (sample_proc RUNNABLE 3 10 (Some 0%nat)) eq_refl).
  - apply H2. split; reflexivity || discriminate.
Defined.

(** C15.  One turn of the scheduler, up to the switch.  With no runnable
    process it takes and releases the lock and changes nothing.  Otherwise it
    chooses the runnable process whose ticket interval holds the draw, counts
    a tick for it, marks it RUNNING and current on this CPU, and switches to
    it with the lock held; no other slot changes. *)
Theorem scheduler_pick_turn (me : nat) (s : kst) (Hok : lottery_ok (ptable s)) :
  let total := stakes (ptable s) in
  ((∀ p, p ∈ ptable s → ¬ runnable p) →
     scheduler_pick me s =
       Done None (set_trace (trace s ++ [ESti; EAcquire PtableLock; ERelease PtableLock]) s))
  ∧ ((∃ p, p ∈ ptable s ∧ runnable p) →
     ∃ i p s', scheduler_pick me s = Done (Some i) s'
       ∧ ptable s !! i = Some p ∧ runnable p
       ∧ stakes (take i (ptable s)) <= draw (seed s) total < stakes (take i (ptable s)) + tickets p
       ∧ ptable s' = <[i := set_state RUNNING (set_ticks (i32 (ticks p + 1)) p)]> (ptable s)
       ∧ cpus s' = alter (λ c, Cpu (apicid c) (ncli c) (intena c) (Some i)) me (cpus s)
       ∧ trace s' = trace s ++ [ESti; EAcquire PtableLock; ESwitchuvm i; ESwtch]
       ∧ (nextpid s', initproc s', first s') = (nextpid s, initproc s, first s)).
Proof.
  intros total. pose proof Hok as [Hpos Hmax].
  pose proof (total_tickets_stakes (ptable s) 0 Hpos ltac:(lia) ltac:(lia)) as Htot.
  assert (Et : total = stakes (ptable s)) by done. clearbody total. rewrite Z.add_0_l, <- Et in Htot. split.
  - intros Hnone. unfold scheduler_pick. run. rewrite Htot.
    rewrite Et, (proj2 (stakes_zero _ Hpos) Hnone). run. by rewrite <- !app_assoc.
  - intros Hex. destruct (scheduler_pick_some me s Hok Hex) as (i & p & s' & H). exists i, p, s'.
    rewrite <- Et in H. tauto.
Qed.

Lemma scheduler_pick_turn_witness :
  lottery_ok (ptable sample_kst)
  ∧ ∃ i s', scheduler_pick 0 sample_kst = Done (Some i) s'
      ∧ trace s' = [ESti; EAcquire PtableLock; ESwitchuvm i; ESwtch].
Proof.
  split; [exact lottery_ok_sample|].
  destruct (scheduler_pick_turn 0 sample_kst lottery_ok_sample) as [_ H].
  destruct H as (i & p & s' & E & _ & _ & _ & _ & _ & Ht & _).
  - exists (sample_proc RUNNABLE 2 5 (Some 0%nat)). split; [|reflexivity].
    apply list_elem_of_lookup. exists 1%nat. reflexivity.
  - exists i, s'. exact (conj E Ht).
Defined.

(** The draw when the total has wrapped to INT_MIN. *)
Lemma overflow_draw s :
  with_seed (random_at_most (u32 (i32 (INT_MIN - 1)))) s =
  Done (next_seed (seed s) mod 2 ^ 31) (set_seed (next_seed (seed s)) s).
Proof. done. Qed.

(** Ticket counts add up in an [int], and [settickets] has no upper
    limit: when the first two runnable processes hold 2^30 tickets each (and
    no other process is runnable) the total wraps to -2^31, and the second of
    them is never selected, whatever the generator's state. *)
Theorem lottery_overflow_starves (me : nat) (s : kst) (p q : proc) (rest : list proc)
  (Hps : ptable s = p :: q :: rest) (Hp : state p = RUNNABLE) (Hq : state q = RUNNABLE)
  (Htp : tickets p = 2 ^ 30) (Htq : tickets q = 2 ^ 30)
  (Hrest : Forall (λ r, ¬ runnable r) rest) :
  total_tickets (ptable s) 0 = INT_MIN
  ∧ ∃ o s', scheduler_pick me s = Done o s' ∧ (o = Some 0%nat ∨ o = None).
Proof.
  assert (Htot : total_tickets rest INT_MIN = INT_MIN).
  { clear -Hrest. induction Hrest as [|r rest Hr _ IH]; [done|]. cbn.
    by rewrite bool_decide_false. }
  assert (Hlast : ∀ w c i, find_winner w rest c i = None).
  { clear -Hrest. induction Hrest as [|r rest Hr _ IH]; [done|]. intros. cbn.
    by rewrite bool_decide_true by (unfold runnable in Hr; congruence). }
  assert (Ht : total_tickets (ptable s) 0 = INT_MIN).
  { rewrite Hps. cbn. rewrite !bool_decide_true by done. rewrite Htp, Htq. exact Htot. }
  split; [done|]. unfold scheduler_pick. run. rewrite Ht. change (INT_MIN =? 0) with false. cbn iota.
  pose proof (Z.mod_pos_bound (next_seed (seed s)) (2 ^ 31) ltac:(lia)) as Hr.
  erewrite bind_done by apply overflow_draw. cbn [seed set_trace].
  set (sd := next_seed (seed s)) in *. clearbody sd.
  rewrite i32_small by (unfold is_int, INT_MIN, INT_MAX; lia).
  rewrite Hps. cbn [find_winner]. rewrite !bool_decide_false by congruence.
  rewrite Htp, Htq. change (i32 (0 + 2 ^ 30)) with (2 ^ 30).
  change (i32 (2 ^ 30 + 2 ^ 30)) with (- 2 ^ 31). rewrite Hlast.
  destruct (Z.ltb_spec (sd mod 2 ^ 31) (2 ^ 30)); [by run; eauto|].
  destruct (Z.ltb_spec (sd mod 2 ^ 31) (- 2 ^ 31)); [lia|]. run. eauto.
Qed.

Lemma lottery_overflow_starves_witness :
  let p := sample_proc RUNNABLE 2 (2 ^ 30) None in
  let q := sample_proc RUNNABLE 3 (2 ^ 30) None in
  let s := Kst [p; q] 4 None [sample_cpu] false 1 [] in
  ∃ o s', scheduler_pick 0 s = Done o s' ∧ (o = Some 0%nat ∨ o = None).
Proof.
  apply (lottery_overflow_starves 0 _
    (sample_proc RUNNABLE 2 (2 ^ 30) None) (sample_proc RUNNABLE 3 (2 ^ 30) None) []);
    try reflexivity. constructor.
Defined.
