(* ===== verification/LotteryFair.v ===== *)
(** The lottery over many turns (Lab2): rand.c and the scheduler of proc.c
    together.  The draws of a window of 2^m turns are, as a multiset, known from
    the generator alone, and so is how often each process runs. *)
From S2P Require Import Prelude Rand LotteryProc LotterySched.

(** ** Definitions *)

(** The draws of [n] turns from the seed [sd], with [total] tickets; how many of
    them select slot [i]. *)
Fixpoint draws (sd total : Z) (n : nat) : list Z :=
  match n with
  | O => []
  | S n' => draw sd total :: draws (if total =? 1 then sd else next_seed sd) total n'
  end.
Definition wins (ps : list proc) (sd : Z) (n i : nat) : nat :=
  length (filter (λ w, find_winner w ps 0 0 = Some i) (draws sd (stakes ps) n)).

(** The CPU [me] holds one lock, as in the scheduler's turn. *)
Definition one_lock (me : nat) (s : kst) : Prop := ncli <$> cpus s !! me = Some 1.
(** Each process that is chosen runs and yields: when it switches back it is
    runnable again, and the rest of the table and the generator are as they were. *)
Definition yields (me : nat) (run : nat → kst → kst) : Prop := ∀ i s,
  one_lock me s → cpu_proc <$> cpus s !! me = Some (Some i) →
  ptable (run i s) = alter (set_state RUNNABLE) i (ptable s) ∧ seed (run i s) = seed s ∧ one_lock me (run i s).

(** What the lottery reads of a slot. *)
Definition lot (p : proc) : procstate * Z := (state p, tickets p).

(** ** Lemmas: the values of a window *)

(** [n] seeds in a row. *)
Definition seeds (sd : Z) (n : nat) : list Z := (λ k, seed_after (S k) sd) <$> seq 0 n.

Lemma seeds_S sd n : seeds sd (S n) = next_seed sd :: seeds (next_seed sd) n.
Proof.
  unfold seeds. cbn [seq fmap list_fmap]. f_equal. rewrite <- (fmap_S_seq 0 n), <- list_fmap_compose.
  apply list_fmap_ext. intros k x _. unfold compose.
  change (next_seed sd) with (seed_after 1 sd). rewrite <- seed_after_add. f_equal. lia.
Qed.
Lemma draws_seeds sd total n : total ≠ 0 → draws sd total n = (λ x, x mod total) <$> seeds sd n.
Proof.
  intros Ht. revert sd. induction n as [|n IH]; intros sd; [done|]. rewrite seeds_S. cbn [draws fmap list_fmap].
  unfold draw. destruct (Z.eqb_spec total 1) as [->|Hne]; [|by rewrite IH].
  rewrite Z.mod_1_r. f_equal. clear -n. generalize (next_seed sd). revert sd.
  induction n as [|n IH]; intros sd sd'; [done|]. rewrite seeds_S. cbn. by rewrite Z.mod_1_r, (IH sd (next_seed sd')).
Qed.

(** The seeds of 2^m turns in a row take every value modulo 2^m once. *)
Lemma window_perm (m n : nat) sd : (m <= 32)%nat → is_uint sd → Z.of_nat n = 2 ^ Z.of_nat m →
  (λ x, x mod 2 ^ Z.of_nat m) <$> seeds sd n ≡ₚ seqZ 0 (2 ^ Z.of_nat m).
Proof.
  intros Hm Hs Hn. set (N := 2 ^ Z.of_nat m) in *. assert (HN : 0 < N) by (apply Z.pow_pos_nonneg; lia).
  apply submseteq_length_Permutation.
  - apply NoDup_submseteq.
    + unfold seeds. rewrite <- list_fmap_compose. apply NoDup_fmap_2_strong; [|apply NoDup_seq].
      intros i j Hi%elem_of_seq Hj%elem_of_seq E. cbn in E.
      assert (Hlt : ∀ a b, (a < b < n)%nat → seed_after (S a) sd mod N = seed_after (S b) sd mod N → False).
      { intros a b Hab E'. replace (S b) with ((b - a) + S a)%nat in E' by lia.
        rewrite seed_after_add in E'. symmetry in E'.
        apply (seed_period m) in E'; [|done|by apply seed_after_uint].
        fold N in E'. apply Z.divide_pos_le in E'; lia. }
      destruct (Nat.lt_trichotomy i j) as [?|[?|?]]; [|done|]; exfalso; eapply Hlt; [|exact E| |symmetry; exact E]; lia.
    + intros x Hx. apply list.list_elem_of_fmap in Hx as (y & -> & _). apply elem_of_seqZ.
      pose proof (Z.mod_pos_bound y N HN). lia.
  - rewrite length_seqZ, length_fmap. unfold seeds. rewrite length_fmap, length_seq. lia.
Qed.
(** So the draws are those of the numbers below 2^m, if [total] divides 2^m, or
    m is 32. *)
Lemma draws_perm (m n : nat) sd total : (m <= 32)%nat → is_uint sd → Z.of_nat n = 2 ^ Z.of_nat m → total ≠ 0 →
  (total | 2 ^ Z.of_nat m) ∨ m = 32%nat →
  draws sd total n ≡ₚ (λ x, x mod total) <$> seqZ 0 (2 ^ Z.of_nat m).
Proof.
  intros Hm Hs Hn Ht Hor. rewrite draws_seeds by done. rewrite <- (window_perm m n sd) by done.
  rewrite <- list_fmap_compose. apply Permutation_refl'. apply list_fmap_ext. intros k x Hx. cbn.
  destruct Hor as [Hd| ->]; [by rewrite Z.mod_mod_divide|].
  unfold seeds in Hx. apply list_lookup_fmap_Some in Hx as (k' & -> & _).
  by rewrite (Z.mod_small _ (2 ^ Z.of_nat 32)) by apply next_seed_uint.
Qed.

(** ** Lemmas: counting *)

Section count.
Context (P : Z → Prop) `{∀ w, Decision (P w)}.

Lemma count_le l k : (length (filter P l) <= length (filter P (l ++ k)))%nat.
Proof. rewrite list_filter_app, length_app. lia. Qed.
Lemma mod_block total n : 0 < total → 0 <= n →
  (λ x, x mod total) <$> seqZ total n = (λ x, x mod total) <$> seqZ 0 n.
Proof.
  intros Ht Hn. pose proof (fmap_add_seqZ total 0 n) as E. rewrite Z.add_0_r in E. rewrite <- E, <- list_fmap_compose.
  apply list_fmap_ext. intros k x _. unfold compose. rewrite Z.add_comm, <- (Z.mul_1_l total) at 1. apply Z_mod_plus_full.
Qed.
Lemma mod_small total n : 0 <= n <= total → (λ x, x mod total) <$> seqZ 0 n = seqZ 0 n.
Proof.
  intros Hn. rewrite <- (list_fmap_id (seqZ 0 n)) at 2. apply list_fmap_ext. intros k x Hx. cbn.
  apply lookup_seqZ in Hx as [-> ?]. apply Z.mod_small. lia.
Qed.

(** An interval of [t] residues, in [q] whole blocks and a rest. *)
Lemma count_mod total a t (q : nat) r : 0 <= a → 0 <= t → a + t <= total → 0 < total → 0 <= r < total →
  (∀ w, 0 <= w < total → P w ↔ a <= w < a + t) →
  Z.of_nat q * t <= Z.of_nat (length (filter P ((λ x, x mod total) <$> seqZ 0 (Z.of_nat q * total + r))))
    <= Z.of_nat q * t + (if r =? 0 then 0 else t).
Proof.
  intros Ha Ht Hat Hpos Hr HP. assert (Hfull : length (filter P (seqZ 0 total)) = Z.to_nat t).
  { rewrite (seqZ_filter_interval P a t) by (done || lia). apply length_seqZ. }
  induction q as [|q IH].
  - cbn [Z.of_nat]. rewrite !Z.mul_0_l, !Z.add_0_l, mod_small by lia. destruct (Z.eqb_spec r 0) as [->|]; [change (filter P (seqZ 0 0)) with (@nil Z); cbn; lia|].
    pose proof (count_le (seqZ 0 r) (seqZ (0 + r) (total - r))) as Hle.
    rewrite <- seqZ_app in Hle by lia. replace (r + (total - r)) with total in Hle by lia. lia.
  - replace (Z.of_nat (S q) * total + r) with (total + (Z.of_nat q * total + r)) by lia.
    assert (0 <= Z.of_nat q * total + r) by nia.
    rewrite seqZ_app, fmap_app, list_filter_app, length_app, Z.add_0_l by lia.
    rewrite mod_block, mod_small, Hfull by lia. lia.
Qed.
End count.

(** ** Lemmas: how often a process wins *)

Lemma draws_nonneg sd total n : 1 <= total → Forall (λ w, 0 <= w) (draws sd total n).
Proof.
  intros Ht. revert sd. induction n as [|n IH]; intros sd; constructor; [|apply IH].
  pose proof (draw_range sd total Ht). lia.
Qed.
Lemma wins_idle ps sd n i p : lottery_ok ps → 1 <= stakes ps → ps !! i = Some p → ¬ runnable p → wins ps sd n i = 0%nat.
Proof.
  intros Hok H1 Hi Hr. unfold wins. rewrite list_filter_none; [done|].
  eapply Forall_impl; [by apply draws_nonneg|]. intros w Hw. cbn beta. rewrite (find_winner_iff w ps i Hok Hw). naive_solver.
Qed.
Lemma wins_window ps sd (m n i : nat) p : lottery_ok ps → is_uint sd → ps !! i = Some p → runnable p →
  (m <= 32)%nat → Z.of_nat n = 2 ^ Z.of_nat m → (stakes ps | 2 ^ Z.of_nat m) ∨ m = 32%nat →
  let q := 2 ^ Z.of_nat m / stakes ps in
  q * tickets p <= Z.of_nat (wins ps sd n i)
    <= q * tickets p + (if 2 ^ Z.of_nat m mod stakes ps =? 0 then 0 else tickets p).
Proof.
  intros Hok Hsd Hi Hr Hm Hn Hor q. pose proof Hok as [Hpos _].
  assert (H1 : 1 <= stakes ps) by (eapply stakes_pos; [done| |exact Hr]; by eapply list_elem_of_lookup_2).
  unfold wins. assert (Hne : stakes ps ≠ 0) by lia.
  rewrite (draws_perm m n sd (stakes ps) Hm Hsd Hn Hne Hor).
  assert (HN : 0 < 2 ^ Z.of_nat m) by (apply Z.pow_pos_nonneg; lia).
  assert (Hq : 0 <= q) by (apply Z.div_pos; lia).
  pose proof (stakes_take_S_runnable _ _ _ Hi Hr). pose proof (stakes_take_le ps (S i) Hpos).
  pose proof (stakes_nonneg _ (Forall_take _ i _ Hpos)). pose proof (Forall_lookup_1 _ _ _ _ Hpos Hi Hr).
  pose proof (count_mod (λ w, find_winner w ps 0 0 = Some i) (stakes ps) (stakes (take i ps)) (tickets p)
    (Z.to_nat q) (2 ^ Z.of_nat m mod stakes ps)) as H5. rewrite Z2Nat.id in H5 by done.
  replace (q * stakes ps + 2 ^ Z.of_nat m mod stakes ps) with (2 ^ Z.of_nat m) in H5
    by (unfold q; pose proof (Z.div_mod (2 ^ Z.of_nat m) (stakes ps)); lia).
  apply H5; try lia; [apply Z.mod_pos_bound; lia|]. intros w Hw.
  rewrite (find_winner_iff w ps i Hok) by lia. split; [intros (p' & Hp' & _ & ?); by simplify_eq|by eauto].
Qed.

(** ** Lemmas: the turns of the scheduler *)

Lemma lot_same ps ps' : lot <$> ps = lot <$> ps' → stakes ps = stakes ps'
  ∧ (∀ w c i, find_winner w ps c i = find_winner w ps' c i) ∧ (lottery_ok ps → lottery_ok ps').
Proof.
  intros E. assert (H : Forall2 (λ p p', lot p = lot p') ps ps').
  { apply Forall2_same_length_lookup. split; [by rewrite <- (length_fmap lot ps), E, length_fmap|].
    intros i p p' Hp Hp'. assert (Hx : (lot <$> ps) !! i = Some (lot p)) by by rewrite list_lookup_fmap, Hp.
    rewrite E, list_lookup_fmap, Hp' in Hx. cbn in Hx. congruence. }
  clear E. cut (stakes ps = stakes ps' ∧ (∀ w c i, find_winner w ps c i = find_winner w ps' c i)
    ∧ (Forall (λ p, runnable p → 1 <= tickets p) ps → Forall (λ p, runnable p → 1 <= tickets p) ps')).
  { intros (H1 & H2 & H3). split; [done|]. split; [done|]. unfold lottery_ok. rewrite H1. tauto. }
  induction H as [|p p' ps ps' [= E1 E2] _ (IH1 & IH2 & IH3)]; [done|].
  assert (Er : runnable p ↔ runnable p') by (unfold runnable; by rewrite E1).
  assert (Hst : stake p = stake p').
  { destruct (stake_cases p) as [[? ->]|[? ->]], (stake_cases p') as [[? ->]|[? ->]]; tauto || congruence. }
  split; [|split].
  - by rewrite !stakes_cons, IH1, Hst.
  - intros w c i. cbn [find_winner].
    rewrite (bool_decide_ext (state p ≠ RUNNABLE) (state p' ≠ RUNNABLE)) by (by rewrite E1). by rewrite E2, !IH2.
  - rewrite !Forall_cons, Er, E2. tauto.
Qed.

(** One turn in which the winner yields. *)
Lemma turn_run me run s : lottery_ok (ptable s) → 1 <= stakes (ptable s) → yields me run → one_lock me s →
  ∃ i p s', scheduler_turns me run 1 s = Done tt s' ∧ ptable s !! i = Some p ∧ runnable p
    ∧ find_winner (draw (seed s) (stakes (ptable s))) (ptable s) 0 0 = Some i
    ∧ ptable s' = <[i := set_ticks (i32 (ticks p + 1)) p]> (ptable s)
    ∧ seed s' = (if stakes (ptable s) =? 1 then seed s else next_seed (seed s)) ∧ one_lock me s'.
Proof.
  intros Hok H1 Hrun Hcpu. destruct (scheduler_pick_some me s Hok) as (i & p & s1 & E & Hi & Hr & Hint & Hpt & Hc & _ & _ & Hsd).
  { destruct (decide (Exists runnable (ptable s))) as [Hex|Hno].
    - apply Exists_exists in Hex as (p & ? & ?). eauto.
    - apply not_Exists_Forall in Hno; [|apply _]. destruct Hok as [Hpos _].
      assert (stakes (ptable s) = 0); [|lia]. apply (stakes_zero _ Hpos). by apply Forall_forall. }
  destruct (Hrun i s1) as (Hrp & Hrs & Hrc).
  { unfold one_lock in *. rewrite Hc, list_lookup_alter_eq, <- option_fmap_compose. by destruct (cpus s !! me). }
  { unfold one_lock in Hcpu. rewrite Hc, list_lookup_alter_eq. by destruct (cpus s !! me). }
  cbn [scheduler_turns]. rewrite (bind_done _ _ _ _ _ E).
  eexists i, p, _. split.
  { unfold scheduler_back. rewrite bind_assoc, modify_bind. reflexivity. }
  split; [done|]. split; [done|]. split.
  { pose proof (draw_range (seed s) (stakes (ptable s)) H1). apply find_winner_iff; [done|lia|eauto]. }
  cbn. rewrite Hrp, Hrs, Hpt, Hsd. split; [|split; [done|]].
  2:{ unfold one_lock in *. cbn. rewrite list_lookup_alter_eq. by destruct (cpus (run i s1) !! me). }
  assert (Hlt : (i < length (ptable s))%nat) by by eapply lookup_lt_Some.
  erewrite alter_at by by apply list_lookup_insert_eq. rewrite list_insert_insert_eq. f_equal.
  unfold runnable in Hr. destruct p. cbn in *. by rewrite Hr.
Qed.

Lemma i32_add_l x y : i32 (i32 x + y) = i32 (x + y).
Proof.
  assert (E : (i32 x + y) mod 2 ^ 32 = (x + y) mod 2 ^ 32); [|unfold i32 at 1 3; by rewrite E].
  unfold i32. cbv zeta. destruct (_ <? _); [by rewrite Zplus_mod_idemp_l|].
  replace (x mod 2 ^ 32 - 2 ^ 32 + y) with (x mod 2 ^ 32 + y + (-1) * 2 ^ 32) by lia.
  by rewrite Z.mod_add, Zplus_mod_idemp_l by lia.
Qed.
Lemma scheduler_turns_S me run n s :
  scheduler_turns me run (S n) s = (scheduler_turns me run 1;; scheduler_turns me run n) s.
Proof.
  cbn [scheduler_turns]. rewrite !bind_assoc. unfold mbind at 1 4, M_bind at 1 4.
  destruct (scheduler_pick me s) as [o s1| |]; [|done..]. by rewrite !bind_assoc.
Qed.
Lemma wins_S ps ps' sd n i : lot <$> ps' = lot <$> ps →
  Z.of_nat (wins ps sd (S n) i) =
    (if decide (find_winner (draw sd (stakes ps)) ps 0 0 = Some i) then 1 else 0)
    + Z.of_nat (wins ps' (if stakes ps =? 1 then sd else next_seed sd) n i).
Proof.
  intros E. destruct (lot_same _ _ E) as (Es & Ef & _). unfold wins. cbn [draws]. rewrite filter_cons, Es.
  rewrite (list_filter_iff (λ w, find_winner w ps' 0 0 = Some i) (λ w, find_winner w ps 0 0 = Some i)) by (intros; by rewrite Ef).
  case_decide; cbn [length]; lia.
Qed.

(** [n] turns: each process's [ticks] counts its wins. *)
Lemma turns_ticks me run n s : lottery_ok (ptable s) → 1 <= stakes (ptable s) → yields me run → one_lock me s →
  (∀ i p, ptable s !! i = Some p → is_int (ticks p)) →
  ∃ s', scheduler_turns me run n s = Done tt s' ∧ length (ptable s') = length (ptable s)
    ∧ ∀ i p, ptable s !! i = Some p →
        ptable s' !! i = Some (set_ticks (i32 (ticks p + Z.of_nat (wins (ptable s) (seed s) n i))) p).
Proof.
  intros Hok H1 Hrun Hcpu. revert s Hok H1 Hcpu. induction n as [|n IH]; intros s Hok H1 Hcpu Hint.
  { exists s. split; [done|]. split; [done|]. intros i p Hi. cbn. rewrite Z.add_0_r, i32_small by (by eapply Hint).
    rewrite Hi. by destruct p. }
  destruct (turn_run me run s Hok H1 Hrun Hcpu) as (j & q & s1 & E1 & Hj & Hr & Hw & Hpt & Hsd & Hcpu1).
  assert (El : lot <$> ptable s1 = lot <$> ptable s).
  { rewrite Hpt, list_fmap_insert. apply list_insert_id. by rewrite list_lookup_fmap, Hj. }
  destruct (lot_same _ _ (eq_sym El)) as (Es & _ & Hok1).
  assert (Hat : ∀ i p, ptable s !! i = Some p → ptable s1 !! i =
    Some (if decide (Some j = Some i) then set_ticks (i32 (ticks p + 1)) p else p)).
  { intros i p Hi. rewrite Hpt. destruct (decide (Some j = Some i)) as [[= ->]|Hne].
    - simplify_eq. apply list_lookup_insert_eq. by eapply lookup_lt_Some.
    - rewrite list_lookup_insert_ne; [done|congruence]. }
  destruct (IH s1) as (s' & E & Hlen & H).
  - by apply Hok1.
  - by rewrite <- Es.
  - done.
  - intros i p Hi. rewrite Hpt in Hi. destruct (decide (i = j)) as [->|Hne].
    + rewrite list_lookup_insert_eq in Hi by by eapply lookup_lt_Some. injection Hi as <-. apply i32_range.
    + rewrite list_lookup_insert_ne in Hi by done. by eapply Hint.
  - exists s'. split; [by rewrite scheduler_turns_S, (bind_done _ _ _ _ _ E1)|].
    split; [by rewrite Hlen, Hpt, length_insert|]. intros i p Hi. rewrite (H i _ (Hat i p Hi)). f_equal.
    rewrite (wins_S _ _ _ _ _ El), Hw, Hsd. repeat case_decide; try done.
    change (ticks (set_ticks ?a p)) with a. change (set_ticks ?a (set_ticks ?b p)) with (set_ticks a p).
    rewrite i32_add_l. do 2 f_equal. lia.
Qed.

(** ** Properties *)

(** C6.  The lottery in the long run, rand.c and the scheduler together, while the
    same processes compete and each that is chosen yields.  In 2^m consecutive
    turns (m <= 32), from any state of the generator: when the number of tickets
    divides 2^m, each process wins exactly its share of the turns (so with 2^m
    tickets every window of 2^m turns has the same winners as any other); in
    2^32 turns, the whole period, each process wins its share but for the
    rounding of 2^32 / tickets.  [ticks] counts the wins, in an [int]. *)
Theorem lottery_long_run (me : nat) (run : nat → kst → kst) (s : kst) (m n : nat)
  (Hok : lottery_ok (ptable s)) (Hex : ∃ p, p ∈ ptable s ∧ runnable p) (Hrun : yields me run) (Hcpu : one_lock me s)
  (Hticks : ∀ p, p ∈ ptable s → is_int (ticks p)) (Hsd : is_uint (seed s))
  (Hm : (m <= 32)%nat) (Hn : Z.of_nat n = 2 ^ Z.of_nat m) :
  let share := 2 ^ Z.of_nat m / stakes (ptable s) in
  ∃ s', scheduler_turns me run n s = Done tt s' ∧ ∀ i p, ptable s !! i = Some p → ∃ won,
    ptable s' !! i = Some (set_ticks (i32 (ticks p + won)) p)
    ∧ (¬ runnable p → won = 0)
    ∧ (runnable p → (stakes (ptable s) | 2 ^ Z.of_nat m) → won = share * tickets p)
    ∧ (runnable p → m = 32%nat → share * tickets p <= won <= (share + 1) * tickets p).
Proof.
  destruct Hex as (q & Hq & Hrq). pose proof Hok as [Hpos _]. pose proof (stakes_pos _ _ Hpos Hq Hrq) as H1. intros share.
  destruct (turns_ticks me run n s Hok H1 Hrun Hcpu) as (s' & E & _ & H).
  { intros i p Hi. apply Hticks. by eapply list_elem_of_lookup_2. }
  exists s'. split; [done|]. intros i p Hi. exists (Z.of_nat (wins (ptable s) (seed s) n i)). split; [by apply H|].
  pose proof (λ Hr, wins_window (ptable s) (seed s) m n i p Hok Hsd Hi Hr Hm Hn) as Hw. cbv zeta in Hw. fold share in Hw.
  assert (Hp : runnable p → 1 <= tickets p) by (by eapply (Forall_lookup_1 _ _ _ _ Hpos Hi)). split; [|split].
  - intros Hr. by rewrite (wins_idle _ _ _ _ p).
  - intros Hr Hd. specialize (Hw Hr (or_introl Hd)). apply Z.mod_divide in Hd; [|lia].
    rewrite (proj2 (Z.eqb_eq _ _) Hd) in Hw. lia.
  - intros Hr H32. specialize (Hw Hr (or_intror H32)). specialize (Hp Hr).
    destruct (_ =? 0) in Hw; lia.
Qed.

#[local] Existing Instance sample_ext.
(** A process that returns from its last yield, and yields again. *)
Definition yield_again (i : nat) (s : kst) : kst :=
  let s1 := after (yield_leave 0 1 s) s in after (yield_enter 0 0 true s1) s1.
Lemma yield_again_yields : yields 0 yield_again.
Proof.
  intros i s Hl Hc. unfold one_lock in Hl. destruct (cpus s !! 0%nat) as [c|] eqn:E0; [|done]. cbn in Hl, Hc.
  injection Hl as Hl. injection Hc as Hc. unfold yield_again. cbv zeta. set (s1 := after (yield_leave 0 1 s) s).
  assert (H1 : ptable s1 = ptable s ∧ seed s1 = seed s ∧ cpus s1 !! 0%nat = Some (Cpu (apicid c) (ncli c) 1 (cpu_proc c))).
  { split; [done|]. split; [done|].
    change (cpus s1) with (alter (λ c, Cpu (apicid c) (ncli c) 1 (cpu_proc c)) 0%nat (cpus s)).
    by rewrite list_lookup_alter_eq, E0. }
  destruct H1 as (Hp1 & Hs1 & Hc1). clearbody s1.
  set (s2 := set_ptable (alter (set_state RUNNABLE) i (ptable s1)) (set_trace (trace s1 ++ [EAcquire PtableLock]) s1)).
  assert (E : yield_enter 0 0 true s1 = sched 0 0 true s2).
  { unfold yield_enter, acquire, emit, curproc, myproc. rewrite modify_bind, bind_assoc, gets_bind. cbn [cpus set_trace].
    rewrite Hc1. cbn [mbind option_bind cpu_proc]. rewrite Hc. by rewrite ret_bind. }
  assert (E2 : sched 0 0 true s2 = match ptable s2 !! i with
    | Some p => if bool_decide (state p = RUNNING) then Panic "sched running"
                else Done 1 (set_trace (trace s2 ++ [ESwtch]) s2)
    | None => Panic "bad proc pointer" end).
  { unfold sched, curproc, myproc. rewrite bind_assoc, gets_bind. unfold s2 at 1. cbn [cpus set_trace set_ptable].
    rewrite Hc1. cbn [mbind option_bind cpu_proc]. rewrite Hc, ret_bind. unfold mbind at 1, M_bind at 1, getp.
    destruct (ptable s2 !! i) as [p|]; [|done]. rewrite gets_bind.
    change (cpus s2) with (cpus s1). rewrite Hc1. cbn. rewrite Hl. cbn. by destruct (bool_decide _). }
  assert (Hl1 : one_lock 0 s1) by (unfold one_lock; rewrite Hc1; cbn; by rewrite Hl).
  rewrite E, E2. change (ptable s2) with (alter (set_state RUNNABLE) i (ptable s1)).
  destruct (ptable s !! i) as [p|] eqn:Hp; rewrite list_lookup_alter_eq, Hp1, Hp; cbn [fmap option_fmap option_map].
  - rewrite bool_decide_false by done. cbn [after]. change (ptable (set_trace _ s2)) with (alter (set_state RUNNABLE) i (ptable s1)).
    by rewrite Hp1.
  - cbn [after]. split; [|done]. rewrite Hp1. apply list_eq. intros j. destruct (decide (i = j)) as [<-|Hne].
    + by rewrite list_lookup_alter_eq, Hp.
    + by rewrite list_lookup_alter_ne.
Qed.

(** In 16 turns from the start, two processes with 4 and 12 tickets. *)
Definition two_lots : kst :=
  Kst ([sample_proc SLEEPING 1 5 None; sample_proc RUNNABLE 2 4 (Some 0%nat);
        sample_proc RUNNABLE 3 12 (Some 0%nat)] ++ replicate 61 zero_proc)
      4 (Some 0%nat) [sample_cpu; sample_cpu] false 1 [].

Lemma lottery_long_run_witness :
  ∃ s', scheduler_turns 0 yield_again 16 two_lots = Done tt s' ∧ ticks <$> ptable s' !! 1%nat = Some 4 ∧ ticks <$> ptable s' !! 2%nat = Some 12.
Proof.
  destruct (lottery_long_run 0 yield_again two_lots 4 16) as (s' & E & H).
  - split; [|done]. apply Forall_forall. intros p Hp Hr. unfold runnable in Hr. apply list_elem_of_lookup in Hp as [i Hi].
    do 3 (destruct i as [|i]; [simplify_eq/=; lia|]). apply lookup_replicate in Hi as [-> _]. done.
  - exists (sample_proc RUNNABLE 2 4 (Some 0%nat)). split; [|reflexivity]. right. left.
  - exact yield_again_yields.
  - reflexivity.
  - intros p Hp. apply list_elem_of_lookup in Hp as [i Hi].
    do 3 (destruct i as [|i]; [simplify_eq/=; unfold is_int, INT_MIN, INT_MAX; lia|]).
    apply lookup_replicate in Hi as [-> _]. cbn. unfold is_int, INT_MIN, INT_MAX. lia.
  - unfold is_uint. cbn. lia.
  - lia.
  - reflexivity.
  - exists s'. split; [exact E|].
    assert (Hd : (stakes (ptable two_lots) | 2 ^ Z.of_nat 4)) by (exists 1; reflexivity).
    destruct (H 1%nat _ eq_refl) as (w & Hw & _ & Hshare & _). destruct (H 2%nat _ eq_refl) as (w2 & Hw2 & _ & Hshare2 & _).
    rewrite (Hshare eq_refl Hd) in Hw. rewrite (Hshare2 eq_refl Hd) in Hw2. rewrite Hw, Hw2. split; reflexivity.
Defined.
