(* ===== verification/LotteryTable.v ===== *)
(** The process table of proc.c (Lab2): what fork, exit, wait, kill, sleep and
    wakeup do to it, the steps of the whole system, and the invariant of every
    reachable state. *)
From S2P Require Import Prelude Rand LotteryProc.

(** ** Definitions *)

Definition used (p : proc) : Prop := state p ≠ UNUSED.
(** A slot that may have children: in use, and not exited. *)
Definition live (p : proc) : Prop := state p ≠ UNUSED ∧ state p ≠ ZOMBIE.

(** The table invariant, at the points where ptable.lock is free.
    - Slots: every used slot holds a ticket; and, when [next] is a pid, the pids
      of used slots are positive, below [next], and distinct. *)
Record slots_ok (next : option Z) (ps : list proc) : Prop := {
  so_len : length ps = NPROC;
  so_tickets : ∀ i p, ps !! i = Some p → used p → 1 <= tickets p;
  so_pid : ∀ n i p, next = Some n → ps !! i = Some p → used p → 0 < pid p < n;
  so_inj : ∀ n i j p q, next = Some n → ps !! i = Some p → ps !! j = Some q →
    used p → used q → pid p = pid q → i = j }.
(** - CPUs: the current process of a CPU is RUNNING, no process is current on
      two CPUs, and a RUNNING process is current on one. *)
Record cpus_ok (cs : list cpu) (ps : list proc) : Prop := {
  co_cpu : ∀ me c i, cs !! me = Some c → cpu_proc c = Some i →
    ∃ p, ps !! i = Some p ∧ state p = RUNNING;
  co_inj : ∀ me me' c c' i, cs !! me = Some c → cs !! me' = Some c' →
    cpu_proc c = Some i → cpu_proc c' = Some i → me = me';
  co_running : ∀ i p, ps !! i = Some p → state p = RUNNING →
    ∃ me c, cs !! me = Some c ∧ cpu_proc c = Some i }.
(** - Family: the parent of a slot is live, and so is the initial process. *)
Definition is_live (ps : list proc) (k : nat) : Prop := ∃ q, ps !! k = Some q ∧ live q.
Record tree_ok (ip : option nat) (ps : list proc) : Prop := {
  to_parent : ∀ i p k, ps !! i = Some p → parent p = Some k → is_live ps k;
  to_init : ∃ k, ip = Some k ∧ is_live ps k }.
(** All of it; with [w], also for the pids, which are counted in an int that
    can wrap around. *)
Definition next_of (w : bool) (s : kst) : option Z := if w then Some (nextpid s) else None.
Record inv (w : bool) (s : kst) : Prop := {
  inv_slots : slots_ok (next_of w s) (ptable s);
  inv_cpus : cpus_ok (cpus s) (ptable s);
  inv_tree : tree_ok (initproc s) (ptable s) }.
#[global] Arguments inv_slots {w} s _.
#[global] Arguments inv_cpus {w} s _.
#[global] Arguments inv_tree {w} s _.

(** CPU [me] runs slot [i], or runs nothing. *)
Definition runs (s : kst) (me i : nat) : Prop :=
  ∃ c, cpus s !! me = Some c ∧ cpu_proc c = Some i.
Definition idle (s : kst) (me : nat) : Prop :=
  ∃ c, cpus s !! me = Some c ∧ cpu_proc c = None.

Section Steps.
Context `{Ext}.

(** The idle CPU [me] picks a process, which runs [k] from its last switch. *)
Definition resume {B} (me : nat) (k : nat → Prelude.M kst B) : Prelude.M kst B :=
  o ← scheduler_pick me;
  match o with Some i => k i | None => panic "nothing to run" end.

(** One turn of [wait]'s loop: it returns, or the process goes to sleep. *)
Definition wait_turn (me : nat) (fl : Z) : Prelude.M kst waited :=
  r ← wait_pass me;
  match r with
  | Returns v => mret r
  | Sleeps =>
      i ← curproc me;
      sleep_enter me (ProcChan i) (Some PtableLock) fl true;;
      scheduler_back me;;
      mret r
  end.

(** The steps of the system: a handler, or the part of one between two
    switches (a switch hands ptable.lock over, so such a part ends where the
    lock is released).  Each is run by the process on the CPU [me], or by the
    scheduler of that CPU when it is idle. *)
Inductive step : kst → kst → Prop :=
  | step_pick_none me s s' :
      idle s me → scheduler_pick me s = Done None s' → step s s'
  | step_resume_yielded me ie s s' :
      idle s me → resume me (λ _, yield_leave me ie) s = Done tt s' → step s s'
  | step_resume_slept me ie l s s' :
      idle s me → l ≠ PtableLock →
      resume me (λ i, sleep_leave me ie i l) s = Done tt s' → step s s'
  | step_resume_new me s s' :
      idle s me → resume me (λ _, forkret) s = Done tt s' → step s s'
  | step_resume_waiting me ie fl r s s' :
      idle s me →
      resume me (λ i, sleep_leave me ie i PtableLock;; wait_turn me fl) s = Done r s' → step s s'
  | step_yield me fl s s' :
      (yield_enter me fl true;; scheduler_back me) s = Done tt s' → step s s'
  | step_sleep me c l fl s s' :
      l ≠ PtableLock →
      (sleep_enter me c (Some l) fl true;; scheduler_back me) s = Done tt s' → step s s'
  | step_exit me fl s s' :
      (exit me fl true;; scheduler_back me) s = Done tt s' → step s s'
  | step_wait me fl r s s' :
      (acquire PtableLock;; wait_turn me fl) s = Done r s' → step s s'
  | step_fork me v s s' : fork me s = Done v s' → step s s'
  | step_growproc me n v s s' : growproc me n s = Done v s' → step s s'
  | step_kill n v s s' : kill n s = Done v s' → step s s'
  | step_wakeup c s s' : wakeup c s = Done tt s' → step s s'
  | step_settickets me n v s s' : settickets me n s = Done v s' → step s s'.

(** A state reached from [s] by steps; and so that no step started with the last
    pid that an int holds. *)
Definition reachable : kst → kst → Prop := rtc step.
Definition unwrapped : kst → kst → Prop := rtc (λ s s', step s s' ∧ nextpid s < INT_MAX).
End Steps.

(** How one slot may change in a step other than a switch, a fork or an exit. *)
Definition quiet (ip : option nat) (p p' : proc) : Prop :=
  (used p' → used p ∧ 1 <= tickets p' ∧ pid p' = pid p)
  ∧ (state p' = RUNNING ↔ state p = RUNNING)
  ∧ (parent p' = None ∨ parent p' = parent p ∨ parent p' = ip)
  ∧ (live p → live p').

#[export] Instance proc_inhabited : Inhabited proc := populate zero_proc.

(** ** Lemmas: slots and tables *)

Lemma quiet_refl ip p : (used p → 1 <= tickets p) → quiet ip p p.
Proof. intros Ht. split; [|split; [|split]]; auto. Qed.
Lemma quiet_trans ip p q r : quiet ip p q → quiet ip q r → quiet ip p r.
Proof.
  intros (A1 & A2 & A3 & A4) (B1 & B2 & B3 & B4). split; [|split; [|split]].
  - intros Hr. destruct (B1 Hr) as (Hq & ? & ?). destruct (A1 Hq) as (? & ? & ?). split_and!; [done..|congruence].
  - by rewrite B2.
  - destruct B3 as [?|[->|?]]; auto.
  - auto.
Qed.

Definition same_rest (s s' : kst) : Prop :=
  nextpid s' = nextpid s ∧ initproc s' = initproc s ∧ cpu_proc <$> cpus s' = cpu_proc <$> cpus s.

Section quiet_tables.
Context (ip : option nat) (ps ps' : list proc) (HF : Forall2 (quiet ip) ps ps').

Lemma quiet_back i p' : ps' !! i = Some p' → ∃ p, ps !! i = Some p ∧ quiet ip p p'.
Proof using HF. intros Hp'. destruct (Forall2_lookup_r _ _ _ _ _ HF Hp') as (p & ? & ?). eauto. Qed.
Lemma quiet_fwd i p : ps !! i = Some p → ∃ p', ps' !! i = Some p' ∧ quiet ip p p'.
Proof using HF. intros Hp. destruct (Forall2_lookup_l _ _ _ _ _ HF Hp) as (p' & ? & ?). eauto. Qed.
Lemma quiet_live k : is_live ps k → is_live ps' k.
Proof using HF.
  intros (q & Hq & Hl). destruct (quiet_fwd _ _ Hq) as (q' & ? & _ & _ & _ & HL). exists q'. auto.
Qed.

Lemma slots_quiet n : slots_ok n ps → slots_ok n ps'.
Proof using HF.
  intros I. constructor.
  - rewrite <- (so_len _ _ I). symmetry. by eapply Forall2_length.
  - intros i p' Hp' Hu. destruct (quiet_back _ _ Hp') as (p & _ & Hq & _). by destruct (Hq Hu) as (_ & ? & _).
  - intros m i p' Hm Hp' Hu. destruct (quiet_back _ _ Hp') as (p & Hp & Hq & _). destruct (Hq Hu) as (? & _ & ->).
    by eapply so_pid.
  - intros m i j p' q' Hm Hp' Hq' Hup Huq E.
    destruct (quiet_back _ _ Hp') as (p & Hp & Hqp & _), (quiet_back _ _ Hq') as (q & Hq & Hqq & _).
    destruct (Hqp Hup) as (? & _ & E1), (Hqq Huq) as (? & _ & E2).
    eapply (so_inj _ _ I); eauto. congruence.
Qed.
Lemma cpus_quiet cs : cpus_ok cs ps → cpus_ok cs ps'.
Proof using HF.
  intros I. constructor; [| apply (co_inj _ _ I) |].
  - intros me c i Hc Hi. destruct (co_cpu _ _ I _ _ _ Hc Hi) as (p & Hp & Hr).
    destruct (quiet_fwd _ _ Hp) as (p' & ? & _ & HR & _). exists p'. split; [done|]. by apply HR.
  - intros i p' Hp' Hr. destruct (quiet_back _ _ Hp') as (p & Hp & _ & HR & _).
    eapply (co_running _ _ I); [done|]. by apply HR.
Qed.
Lemma tree_quiet : tree_ok ip ps → tree_ok ip ps'.
Proof using HF.
  intros I. destruct (to_init _ _ I) as (k0 & Hk0 & Hl0). constructor.
  - intros i p' k Hp' Hk. destruct (quiet_back _ _ Hp') as (p & Hp & _ & _ & HP & _).
    apply quiet_live. destruct HP as [?|[?|?]]; [congruence|..].
    + eapply (to_parent _ _ I); [done|congruence].
    + by replace k with k0 by congruence.
  - exists k0. split; [done|]. by apply quiet_live.
Qed.
End quiet_tables.

Lemma cpus_ok_ext cs cs' ps : cpu_proc <$> cs' = cpu_proc <$> cs → cpus_ok cs ps → cpus_ok cs' ps.
Proof.
  intros E I.
  assert (Hb : ∀ m c, cs' !! m = Some c → ∃ c0, cs !! m = Some c0 ∧ cpu_proc c0 = cpu_proc c).
  { intros m c Hm. assert (Hf : (cpu_proc <$> cs) !! m = Some (cpu_proc c)) by (by rewrite <- E, list_lookup_fmap, Hm).
    rewrite list_lookup_fmap, fmap_Some in Hf. destruct Hf as (c0 & ? & ?). eauto. }
  assert (Hf : ∀ m c, cs !! m = Some c → ∃ c0, cs' !! m = Some c0 ∧ cpu_proc c0 = cpu_proc c).
  { intros m c Hm. assert (Hf : (cpu_proc <$> cs') !! m = Some (cpu_proc c)) by (by rewrite E, list_lookup_fmap, Hm).
    rewrite list_lookup_fmap, fmap_Some in Hf. destruct Hf as (c0 & ? & ?). eauto. }
  constructor.
  - intros m c i Hm Hi. destruct (Hb _ _ Hm) as (c0 & ? & ?). apply (co_cpu _ _ I m c0); [done|congruence].
  - intros m m' c c' i Hm Hm' Hi Hi'. destruct (Hb _ _ Hm) as (d & ? & ?), (Hb _ _ Hm') as (d' & ? & ?).
    apply (co_inj _ _ I m m' d d' i); congruence.
  - intros i p Hp Hr. destruct (co_running _ _ I _ _ Hp Hr) as (m & c & Hm & Hi).
    destruct (Hf _ _ Hm) as (c0 & ? & ?). exists m, c0. split; [done|congruence].
Qed.

Lemma next_same w s s' : nextpid s' = nextpid s → next_of w s' = next_of w s.
Proof. unfold next_of. by intros ->. Qed.
Lemma inv_weaken {w} s : inv true s → inv w s.
Proof. intros [[A B C D] I2 I3]. constructor; [constructor|done|done]; [done|done|..]; intros n; destruct w; [apply C|done|apply D|done]. Qed.
Lemma inv_quiet {w} s s' :
  inv w s → Forall2 (quiet (initproc s)) (ptable s) (ptable s') → same_rest s s' → inv w s'.
Proof.
  intros [I1 I2 I3] HF (En & Ei & Ec). constructor; rewrite ?(next_same w s s' En), ?Ei.
  - by eapply slots_quiet.
  - eapply cpus_ok_ext; [exact Ec|]. by eapply cpus_quiet.
  - by eapply tree_quiet.
Qed.

Lemma Forall2_alter_quiet n ip ps i f :
  slots_ok n ps → (∀ p, ps !! i = Some p → quiet ip p (f p)) → Forall2 (quiet ip) ps (alter f i ps).
Proof.
  intros I Hf. apply Forall2_same_length_lookup. split; [by rewrite length_alter|].
  intros j p q Hp Hq. destruct (decide (i = j)) as [->|Hne].
  - rewrite list_lookup_alter_eq, Hp in Hq. simplify_eq/=. by apply Hf.
  - rewrite list_lookup_alter_ne in Hq by done. simplify_eq. apply quiet_refl. by eapply so_tickets.
Qed.
Lemma Forall2_quiet_refl n ip ps : slots_ok n ps → Forall2 (quiet ip) ps ps.
Proof.
  intros I. apply Forall2_same_length_lookup. split; [done|]. intros i p q Hi Hj. simplify_eq.
  apply quiet_refl. by eapply so_tickets.
Qed.
Lemma quiet_wake ip c p : (used p → 1 <= tickets p) → quiet ip p (wake c p).
Proof.
  intros Ht. unfold wake. case_bool_decide as E; [|by apply quiet_refl].
  destruct E as [E _]. unfold quiet, used, live in *. cbn. rewrite E in *.
  split_and!; intros; split_and?; auto; try done.
Qed.
Lemma Forall2_wake n ip ps c : slots_ok n ps → Forall2 (quiet ip) ps (wake c <$> ps).
Proof.
  intros I. apply Forall2_fmap_r. apply Forall2_same_length_lookup. split; [done|].
  intros i p q Hi Hj. simplify_eq. apply quiet_wake. by eapply so_tickets.
Qed.

Lemma inv_alter {w} s s' i f :
  inv w s → ptable s' = alter f i (ptable s) → same_rest s s' →
  (∀ p, ptable s !! i = Some p → quiet (initproc s) p (f p)) → inv w s'.
Proof.
  intros I Hp Hs Hf. apply (inv_quiet s s' I); [|done].
  rewrite Hp. eapply Forall2_alter_quiet; [apply I | done].
Qed.
Lemma inv_same {w} s s' : inv w s → ptable s' = ptable s → same_rest s s' → inv w s'.
Proof.
  intros I Hp Hs. apply (inv_quiet s s' I); [|done]. rewrite Hp. eapply Forall2_quiet_refl, I.
Qed.

(** *** A CPU takes up or gives up the process in slot [i] *)
Section switch.
Context (ps : list proc) (i : nat) (p p' : proc).
Context (Hp : ps !! i = Some p).

Lemma insert_back j q' :
  <[i := p']> ps !! j = Some q' → (j = i ∧ q' = p' ∧ ps !! j = Some p) ∨ (j ≠ i ∧ ps !! j = Some q').
Proof using Hp. intros [(-> & <- & _)|[Hne Hq]]%list_lookup_insert_Some; auto. Qed.

Lemma slots_insert n :
  slots_ok n ps → used p → tickets p' = tickets p → pid p' = pid p → slots_ok n (<[i := p']> ps).
Proof using Hp.
  intros I Hu Et Ei.
  assert (Hold : ∀ j q', <[i := p']> ps !! j = Some q' → used q' →
    ∃ q, ps !! j = Some q ∧ used q ∧ tickets q' = tickets q ∧ pid q' = pid q).
  { intros j q' [(-> & -> & ?)|[_ ?]]%insert_back ?; eauto. }
  constructor.
  - rewrite length_insert. apply (so_len _ _ I).
  - intros j q' Hj Hq. destruct (Hold _ _ Hj Hq) as (q & ? & ? & -> & _). by eapply (so_tickets _ _ I).
  - intros m j q' Hm Hj Hq. destruct (Hold _ _ Hj Hq) as (q & ? & ? & _ & ->). by eapply (so_pid _ _ I).
  - intros m j k q r Hm Hj Hk Hq Hr E.
    destruct (Hold _ _ Hj Hq) as (? & ? & ? & _ & E1), (Hold _ _ Hk Hr) as (? & ? & ? & _ & E2).
    eapply (so_inj _ _ I); eauto. congruence.
Qed.

Lemma is_live_insert k :
  is_live ps k → (k = i → live p') → is_live (<[i := p']> ps) k.
Proof using Hp.
  intros (q & Hk & Hl) Hi. destruct (decide (k = i)) as [->|Hne].
  - exists p'. rewrite list_lookup_insert_eq by by eapply lookup_lt_Some. auto.
  - exists q. by rewrite list_lookup_insert_ne.
Qed.

Lemma tree_insert ip :
  tree_ok ip ps → parent p' = parent p →
  (live p' ∨ (∀ j q, ps !! j = Some q → parent q ≠ Some i) ∧ ip ≠ Some i) →
  tree_ok ip (<[i := p']> ps).
Proof using Hp.
  intros I Epar Hl. destruct (to_init _ _ I) as (k0 & Hk0 & Hl0). constructor.
  - intros j q' k Hj Hk.
    assert (∃ q, ps !! j = Some q ∧ parent q = Some k) as (q & Hq & Hqk).
    { apply insert_back in Hj as [(-> & -> & ?)|[_ ?]]; eauto. exists p. split; [done|]. congruence. }
    apply is_live_insert; [by eapply (to_parent _ _ I)|].
    intros ->. destruct Hl as [?|[Hno _]]; [done|]. by destruct (Hno _ _ Hq).
  - exists k0. split; [done|]. apply is_live_insert; [done|].
    intros ->. by destruct Hl as [?|[_ ?]].
Qed.

Lemma cpus_switch cs me c0 o :
  cpus_ok cs ps → cs !! me = Some c0 → (∀ j, cpu_proc c0 = Some j → j = i) →
  (∀ m c, m ≠ me → cs !! m = Some c → cpu_proc c ≠ Some i) →
  (o = Some i ∧ state p' = RUNNING ∨ o = None ∧ state p' ≠ RUNNING) →
  cpus_ok (alter (λ c, Cpu (apicid c) (ncli c) (intena c) o) me cs) (<[i := p']> ps).
Proof using Hp.
  intros I Hc0 Hwas Hother Ho. set (cs' := alter _ me cs).
  assert (Hcpu : ∀ m c, cs' !! m = Some c →
    (m = me ∧ cpu_proc c = o) ∨ (m ≠ me ∧ cs !! m = Some c)).
  { intros m c. unfold cs'. rewrite list_lookup_alter. case_decide as E; [subst|by auto].
    rewrite Hc0. intros; simplify_eq/=. auto. }
  assert (Hlen : (i < length ps)%nat) by by eapply lookup_lt_Some.
  constructor.
  - intros m c j Hm Hj. destruct (Hcpu _ _ Hm) as [[-> Eo]|[Hne Hm']].
    + destruct Ho as [[-> ?]|[-> ?]]; [|congruence]. exists p'.
      replace j with i by congruence. by rewrite list_lookup_insert_eq.
    + destruct (co_cpu _ _ I _ _ _ Hm' Hj) as (q & Hq & Hsq). exists q. split; [|done].
      rewrite list_lookup_insert_ne; [done|]. intros <-. by destruct (Hother _ _ Hne Hm').
  - intros m m' c c' j Hm Hm' Hj Hj'.
    assert (Hji : o = Some j → j = i) by (destruct Ho as [[-> _]|[-> _]]; congruence).
    destruct (Hcpu _ _ Hm) as [[-> E1]|[N1 H1]], (Hcpu _ _ Hm') as [[-> E2]|[N2 H2]]; [done|..].
    + destruct (Hother _ _ N2 H2). rewrite Hj', Hji by congruence. done.
    + destruct (Hother _ _ N1 H1). rewrite Hj, Hji by congruence. done.
    + by eapply (co_inj _ _ I m m').
  - intros j q' Hj Hs. apply insert_back in Hj as [(-> & -> & _)|[Hne Hq]].
    + destruct Ho as [[-> _]|[_ ?]]; [|done]. exists me. unfold cs'.
      rewrite list_lookup_alter_eq, Hc0. by eexists.
    + destruct (co_running _ _ I _ _ Hq Hs) as (m & c & Hm & Hcm). exists m, c. split; [|done].
      unfold cs'. rewrite list_lookup_alter_ne; [done|]. intros <-. destruct Hne. apply Hwas. congruence.
Qed.
End switch.

(** The process on CPU [me] gives the CPU up. *)
Lemma inv_stop {w} s s' me i p p' :
  inv w s → runs s me i → ptable s !! i = Some p →
  ptable s' = <[i := p']> (ptable s) →
  cpus s' = alter (λ c, Cpu (apicid c) (ncli c) (intena c) None) me (cpus s) →
  nextpid s' = nextpid s → initproc s' = initproc s →
  state p' ≠ RUNNING → tickets p' = tickets p → pid p' = pid p → parent p' = parent p →
  (live p' ∨ (∀ j q, ptable s !! j = Some q → parent q ≠ Some i) ∧ initproc s ≠ Some i) →
  inv w s'.
Proof.
  intros [I1 I2 I3] (c0 & Hc0 & Hi0) Hp Ep Ec En Ei Hnr Et Epid Epar Hlive.
  destruct (co_cpu _ _ I2 _ _ _ Hc0 Hi0) as (p1 & ? & Hrun). simplify_eq.
  constructor; rewrite Ep, ?(next_same w s s' En), ?Ei, ?Ec.
  - eapply slots_insert; eauto. unfold used. congruence.
  - eapply cpus_switch; eauto; [congruence|].
    intros m c Hne Hm E. apply Hne. by eapply (co_inj _ _ I2).
  - by eapply tree_insert.
Qed.

(** An idle CPU takes up a runnable process. *)
Lemma inv_start {w} s s' me i p p' :
  inv w s → idle s me → ptable s !! i = Some p → state p = RUNNABLE →
  ptable s' = <[i := p']> (ptable s) →
  cpus s' = alter (λ c, Cpu (apicid c) (ncli c) (intena c) (Some i)) me (cpus s) →
  nextpid s' = nextpid s → initproc s' = initproc s →
  state p' = RUNNING → tickets p' = tickets p → pid p' = pid p → parent p' = parent p → inv w s'.
Proof.
  intros [I1 I2 I3] (c0 & Hc0 & Hi0) Hp Hs0 Ep Ec En Ei Hs Et Epid Epar.
  constructor; rewrite Ep, ?(next_same w s s' En), ?Ei, ?Ec.
  - eapply slots_insert; eauto. unfold used. congruence.
  - eapply cpus_switch; eauto; [congruence|].
    intros m c _ Hm E. destruct (co_cpu _ _ I2 _ _ _ Hm E) as (? & ? & ?). congruence.
  - eapply tree_insert; eauto. left. unfold live. rewrite Hs. done.
Qed.

(** *** What the handlers do to the table *)

Lemma alter_at_slot (f : proc → proc) (i : nat) (ps : list proc) p :
  ps !! i = Some p → alter f i ps = <[i := f p]> ps.
Proof.
  intros H. apply list_eq. intros j. destruct (decide (i = j)) as [<-|Hne].
  - rewrite list_lookup_alter_eq, H, list_lookup_insert_eq by by eapply lookup_lt_Some. done.
  - by rewrite list_lookup_alter_ne, list_lookup_insert_ne.
Qed.
Lemma alter_alter (f g : proc → proc) (i : nat) (ps : list proc) :
  alter f i (alter g i ps) = alter (f ∘ g) i ps.
Proof. apply list_alter_alter_eq. Qed.

Lemma fmap_cpu_proc_alter ie (me : nat) (cs : list cpu) :
  cpu_proc <$> alter (λ c, Cpu (apicid c) (ncli c) ie (cpu_proc c)) me cs = cpu_proc <$> cs.
Proof.
  apply list_eq. intros j. rewrite !list_lookup_fmap, list_lookup_alter.
  case_decide; subst; by destruct (cs !! _).
Qed.

Lemma find_winner_sound w ps c i0 i :
  find_winner w ps c i0 = Some i → ∃ k p, i = (i0 + k)%nat ∧ ps !! k = Some p ∧ state p = RUNNABLE.
Proof.
  revert c i0; induction ps as [|p ps IH]; intros c i0 E; [done|]. cbn in E.
  case_bool_decide as Hr.
  - destruct (IH _ _ E) as (k & q & -> & ? & ?). exists (S k), q. split; [lia|done].
  - destruct (Z.ltb_spec w (i32 (c + tickets p))) as [?|?].
    + simplify_eq. exists 0%nat, p. split; [lia|done].
    + destruct (IH _ _ E) as (k & q & -> & ? & ?). exists (S k), q. split; [lia|done].
Qed.

Lemma with_seed_Done {B} (c : Prelude.M Z B) s a s' :
  with_seed c s = Done a s' → ∃ sd, s' = set_seed sd s.
Proof. unfold with_seed. destruct (c (seed s)); intros; simplify_eq. eauto. Qed.

Lemma scheduler_pick_effect me s o s' :
  scheduler_pick me s = Done o s' →
  nextpid s' = nextpid s ∧ initproc s' = initproc s ∧
  match o with
  | None => ptable s' = ptable s ∧ cpus s' = cpus s
  | Some i => ∃ p, ptable s !! i = Some p ∧ state p = RUNNABLE
      ∧ ptable s' = <[i := set_state RUNNING (set_ticks (i32 (ticks p + 1)) p)]> (ptable s)
      ∧ cpus s' = alter (λ c, Cpu (apicid c) (ncli c) (intena c) (Some i)) me (cpus s)
  end.
Proof.
  unfold scheduler_pick. intros H. autorewrite with run in H. cbn in H.
  destruct (total_tickets _ _ =? 0); [runin H; by simplify_eq|].
  apply bind_Done_inv in H as (r & s1 & Hr & H).
  apply with_seed_Done in Hr as [sd ->].
  destruct (find_winner _ _ _ _) as [i|] eqn:Ew; [|runin H; by simplify_eq].
  apply find_winner_sound in Ew as (k & p & -> & Hp & Hrun).
  autorewrite with run in H. cbn in H. simplify_eq. cbn. split_and!; [done..|].
  exists p. split_and!; [done..| |done].
  rewrite alter_alter. by rewrite (alter_at_slot _ _ _ p Hp).
Qed.

Lemma scheduler_back_run me s :
  scheduler_back me s = Done tt
    (set_trace ((trace s ++ [ESwitchkvm]) ++ [ERelease PtableLock])
       (set_cpus (alter (λ c, Cpu (apicid c) (ncli c) (intena c) None) me (cpus s)) s)).
Proof. done. Qed.
#[export] Hint Rewrite @scheduler_back_run : run.

Section Handlers.
Context {X : Ext}.

Lemma sched_effect me fl h s v s' :
  sched me fl h s = Done v s' → ∃ i p, runs s me i ∧ ptable s !! i = Some p ∧ state p ≠ RUNNING
    ∧ s' = set_trace (trace s ++ [ESwtch]) s.
Proof.
  unfold sched. intros H. runin H. simplify_eq.
  apply bind_Some in Heqo as (c & Hc & Hi). case_bool_decide; [done|].
  do 2 eexists. split; [exists c; eauto|]. eauto.
Qed.

(** [with_table s s' ps]: [s'] is [s] with the table [ps] (and other [trace], [seed], [first]). *)
Definition with_table (s s' : kst) (ps : list proc) : Prop := ptable s' = ps ∧ same_rest s s'.

Lemma same_rest_trans s1 s2 s3 : same_rest s1 s2 → same_rest s2 s3 → same_rest s1 s3.
Proof. intros (?&?&?) (?&?&?). unfold same_rest. split_and!; congruence. Qed.

Lemma sleep_leave_effect me ie i l s s' :
  sleep_leave me ie i l s = Done tt s' → with_table s s' (alter (set_chan NoChan) i (ptable s)).
Proof.
  unfold sleep_leave, sched_resume. intros H. runin H; unfold acquire, emit in H; runin H; simplify_eq;
    (split; [done|]); unfold same_rest; cbn; by rewrite fmap_cpu_proc_alter.
Qed.
Lemma yield_leave_effect me ie s s' :
  yield_leave me ie s = Done tt s' → with_table s s' (ptable s).
Proof.
  unfold yield_leave, sched_resume. intros H. runin H. simplify_eq.
  split; [done|]. unfold same_rest. cbn. by rewrite fmap_cpu_proc_alter.
Qed.
Lemma forkret_effect s s' : forkret s = Done tt s' → with_table s s' (ptable s).
Proof. unfold forkret, emit. intros H. runin H; by simplify_eq. Qed.

(** Giving up the CPU after changing the current process, in slot [i], by [f]. *)
Definition stops (me i : nat) (f : proc → proc) (s s' : kst) : Prop :=
  ∃ p, runs s me i ∧ ptable s !! i = Some p ∧ state (f p) ≠ RUNNING
    ∧ ptable s' = <[i := f p]> (ptable s)
    ∧ cpus s' = alter (λ c, Cpu (apicid c) (ncli c) (intena c) None) me (cpus s)
    ∧ nextpid s' = nextpid s ∧ initproc s' = initproc s.

Lemma runs_curproc s me i : cpus s !! me ≫= cpu_proc = Some i ↔ runs s me i.
Proof. unfold runs. rewrite bind_Some. done. Qed.
Lemma runs_det s me i j : runs s me i → runs s me j → i = j.
Proof. intros H1 H2. apply runs_curproc in H1, H2. congruence. Qed.
Lemma runs_ext s s' me i : cpus s' = cpus s → runs s me i → runs s' me i.
Proof. unfold runs. by intros ->. Qed.

Lemma stops_intro me fl h f i s S v s1 s' :
  runs s me i → sched me fl h S = Done v s1 → scheduler_back me s1 = Done tt s' →
  ptable S = alter f i (ptable s) → cpus S = cpus s →
  nextpid S = nextpid s → initproc S = initproc s → stops me i f s s'.
Proof.
  intros Hi Hs Hb Ep Ec En Ei. apply sched_effect in Hs as (j & q & Hj & Hq & Hr & ->).
  assert (j = i) as -> by (eapply runs_det; [|by eapply runs_ext]; done).
  rewrite Ep, list_lookup_alter_eq, fmap_Some in Hq. destruct Hq as (p & Hp & ->).
  rewrite scheduler_back_run in Hb. simplify_eq. exists p. cbn.
  rewrite Ep, Ec. split_and!; [done..| |done|done|done]. by rewrite (alter_at_slot _ _ _ p Hp).
Qed.

Lemma yield_effect me fl s s' :
  (yield_enter me fl true;; scheduler_back me) s = Done tt s' →
  ∃ i, stops me i (set_state RUNNABLE) s s'.
Proof.
  unfold yield_enter. intros H. runin H. apply bind_Done_inv in H as (v & s1 & Hs & Hb).
  apply runs_curproc in Heqo. exists n. eapply stops_intro; [done|exact Hs|exact Hb|done..].
Qed.
Lemma sleep_effect me c l fl s s' :
  (sleep_enter me c (Some l) fl true;; scheduler_back me) s = Done tt s' →
  ∃ i, stops me i (set_state SLEEPING ∘ set_chan c) s s'.
Proof.
  unfold sleep_enter, myproc. intros H. runin H;
    apply bind_Done_inv in H as (v & s1 & Hs & Hb);
    apply runs_curproc in Heqo; eexists; (eapply stops_intro; [exact Heqo|exact Hs|exact Hb|..]; [|done..]);
    cbn; apply alter_alter.
Qed.

Lemma wait_scan_sound i ps j0 b j :
  wait_scan i ps j0 b = Reap j →
  ∃ k p, j = (j0 + k)%nat ∧ ps !! k = Some p ∧ parent p = Some i ∧ state p = ZOMBIE.
Proof.
  revert j0 b; induction ps as [|p ps IH]; intros j0 b E; [by destruct b|]. cbn in E.
  assert (Hrec : ∀ b', wait_scan i ps (S j0) b' = Reap j → ∃ k q, j = (j0 + k)%nat ∧
    (p :: ps) !! k = Some q ∧ parent q = Some i ∧ state q = ZOMBIE).
  { intros b' Eb. destruct (IH _ _ Eb) as (k & q & -> & ?). exists (S k), q. split; [lia|done]. }
  do 2 (case_bool_decide; [|by eauto]). simplify_eq. exists 0%nat, p. split; [lia|done].
Qed.

Lemma wait_pass_effect me r s s' :
  wait_pass me s = Done r s' →
  ∃ i, runs s me i ∧
  ((r = Sleeps ∧ s' = s)
   ∨ (r = Returns (-1) ∧ with_table s s' (ptable s))
   ∨ (∃ j c, r = Returns (pid c) ∧ ptable s !! j = Some c ∧ parent c = Some i ∧ state c = ZOMBIE
        ∧ with_table s s' (<[j := reap c]> (ptable s)))).
Proof.
  unfold wait_pass. intros H. runin H; apply runs_curproc in Heqo; eexists; (split; [exact Heqo|]);
    simplify_eq; try (by left); try (by right; left).
  right; right. apply wait_scan_sound in Heqs0 as (k & q & -> & Hq & ? & ?). cbn in *. simplify_eq.
  exists k, q. split_and!; [done..|]. split; [|done]. by apply alter_at_slot.
Qed.
End Handlers.
