(* ===== verification/LotteryInv.v ===== *)
(** fork, exit, wait, kill, sleep and wakeup of proc.c (Lab2): what each does
    to the table, and that every step of the system keeps the invariant of
    LotteryTable.v. *)
From S2P Require Import Prelude Rand LotteryProc LotteryTable.

(** ** Definitions *)

(** [fork]'s copy of the open files [fs] into the table [l]. *)
Fixpoint copy_files (fs l : list Z) (fd : nat) : list Z :=
  match fs with
  | [] => l
  | f :: fs' => copy_files fs' (if f =? 0 then l else <[fd := f]> l) (S fd)
  end.

#[global] Arguments find_unused : simpl never.
#[global] Arguments find_pid : simpl never.

(** ** Lemmas: more of the invariant *)

Lemma inv_nextpid_pos s : inv true s → 0 < nextpid s.
Proof.
  intros [I1 _ I3]. destruct (to_init _ _ I3) as (k & _ & q & Hq & Hl & _).
  pose proof (so_pid _ _ I1 _ _ _ eq_refl Hq Hl). lia.
Qed.
Lemma runs_running {w} s me i : inv w s → runs s me i → ∃ p, ptable s !! i = Some p ∧ state p = RUNNING.
Proof. intros I (c & Hc & Hi). by eapply co_cpu; [apply I|..]. Qed.

(** [fork]'s change: an UNUSED slot stays unused, or becomes a RUNNABLE child. *)
Lemma inv_new_slot {w} s s' me i j p p' :
  inv w s → runs s me i → ptable s !! j = Some p → state p = UNUSED →
  ptable s' = <[j := p']> (ptable s) → cpus s' = cpus s → initproc s' = initproc s →
  (w = true → nextpid s' = nextpid s + 1) →
  (state p' = UNUSED ∧ parent p' = parent p
   ∨ state p' = RUNNABLE ∧ pid p' = nextpid s ∧ 1 <= tickets p' ∧ parent p' = Some i) → inv w s'.
Proof.
  intros I Hi Hp Hu Ep Ec Ei En Hor.
  assert (Hn : w = true → 0 < nextpid s) by (intros ->; by apply inv_nextpid_pos).
  destruct (runs_running _ _ _ I Hi) as (pi & Hpi & Hri).
  assert (Hlen : (j < length (ptable s))%nat) by (by eapply lookup_lt_Some).
  destruct I as [I1 I2 I3].
  assert (Hkeep : ∀ k q, k ≠ j → ptable s' !! k = Some q → ptable s !! k = Some q).
  { intros k q Hne. by rewrite Ep, list_lookup_insert_ne. }
  assert (Hat : ptable s' !! j = Some p') by (by rewrite Ep, list_lookup_insert_eq).
  assert (Hlive : ∀ k, is_live (ptable s) k → is_live (ptable s') k).
  { intros k (q & Hq & Hl). exists q. split; [|done]. rewrite Ep, list_lookup_insert_ne; [done|].
    intros <-. simplify_eq. by destruct Hl. }
  assert (Hnr : state p' ≠ RUNNING) by (destruct Hor as [[-> _]|[-> _]]; done).
  assert (Hnx : ∀ n, next_of w s' = Some n → w = true ∧ n = nextpid s + 1 ∧ next_of w s = Some (nextpid s)).
  { intros n. destruct w; [|done]. cbn. rewrite (En eq_refl). by intros [= <-]. }
  constructor; rewrite ?Ei, ?Ec.
  - constructor.
    + rewrite Ep, length_insert. apply (so_len _ _ I1).
    + intros k q Hq Huq. destruct (decide (k = j)) as [->|Hne]; [|by eapply (so_tickets _ _ I1); eauto].
      simplify_eq. destruct Hor as [[? _]|(_ & _ & ? & _)]; done.
    + intros n k q (Hw & -> & Ew)%Hnx Hq Huq. specialize (Hn Hw). destruct (decide (k = j)) as [->|Hne].
      * simplify_eq. destruct Hor as [[? _]|(_ & -> & _)]; [done|lia].
      * pose proof (so_pid _ _ I1 _ k q Ew (Hkeep _ _ Hne Hq) Huq). lia.
    + intros n k l q r (Hw & -> & Ew)%Hnx Hq Hr Huq Hur E.
      destruct (decide (k = j)) as [->|Hk], (decide (l = j)) as [->|Hl]; [done|..].
      * simplify_eq. destruct Hor as [[? _]|(_ & E' & _)]; [done|].
        pose proof (so_pid _ _ I1 _ l r Ew (Hkeep _ _ Hl Hr) Hur). lia.
      * simplify_eq. destruct Hor as [[? _]|(_ & E' & _)]; [done|].
        pose proof (so_pid _ _ I1 _ k q Ew (Hkeep _ _ Hk Hq) Huq). lia.
      * by eapply (so_inj _ _ I1); eauto.
  - constructor; [|apply (co_inj _ _ I2)|].
    + intros m c k Hm Hk. destruct (co_cpu _ _ I2 _ _ _ Hm Hk) as (q & Hq & Hr). exists q.
      split; [|done]. rewrite Ep, list_lookup_insert_ne; [done|]. intros <-. congruence.
    + intros k q Hq Hr. destruct (decide (k = j)) as [->|Hne]; [congruence|].
      by eapply (co_running _ _ I2); eauto.
  - constructor.
    + intros k q l Hq Hl. apply Hlive. destruct (decide (k = j)) as [->|Hne].
      * simplify_eq. destruct Hor as [[_ E]|(_ & _ & _ & E)].
        -- eapply (to_parent _ _ I3); [exact Hp|congruence].
        -- assert (l = i) as -> by congruence. exists pi. split; [done|]. by split; rewrite Hri.
      * by apply (to_parent _ _ I3 k q); [apply Hkeep|].
    + destruct (to_init _ _ I3) as (k & Hk & Hl). exists k. auto.
Qed.

Lemma find_unused_sound ps j :
  find_unused ps = Some j → ∃ p, ps !! j = Some p ∧ state p = UNUSED.
Proof.
  unfold find_unused. intros H. apply fmap_Some in H as ([k p] & H & ->).
  apply list_find_Some in H as (? & ? & _). eauto.
Qed.
Lemma find_unused_none ps : find_unused ps = None → ∀ p, p ∈ ps → state p ≠ UNUSED.
Proof.
  unfold find_unused. intros H p Hp. apply fmap_None, list_find_None in H.
  rewrite Forall_forall in H. by apply H.
Qed.

Lemma alter_insert (f : proc → proc) (j : nat) (p : proc) (ps : list proc) :
  (j < length ps)%nat → alter f j (<[j := p]> ps) = <[j := f p]> ps.
Proof.
  intros H. rewrite (alter_at_slot _ _ _ p) by by apply list_lookup_insert_eq.
  apply list_insert_insert_eq.
Qed.

Section Handlers.
Context {X : Ext}.

(** *** allocproc and fork *)

Lemma kalloc_run s :
  kalloc s = Done (kalloc_ret (trace s)) (set_trace (trace s ++ [EKalloc (kalloc_ret (trace s))]) s).
Proof. done. Qed.
Lemma copyuvm_run pg n s :
  copyuvm pg n s = Done (copyuvm_ret (trace s) pg n)
    (set_trace (trace s ++ [ECopyuvm pg n (copyuvm_ret (trace s) pg n)]) s).
Proof. done. Qed.

Definition locked (tr : list event) : list event := tr ++ [EAcquire PtableLock; ERelease PtableLock].

Lemma allocproc_full s :
  find_unused (ptable s) = None → allocproc s = Done None (set_trace (locked (trace s)) s).
Proof. intros E. unfold allocproc. run. rewrite E. run. unfold locked. by rewrite <- app_assoc. Qed.

Lemma allocproc_slot s j p :
  find_unused (ptable s) = Some j → ptable s !! j = Some p →
  let k := kalloc_ret (locked (trace s)) in
  let p0 := set_kstack k (embryo (nextpid s) p) in
  allocproc s = Done (if k =? 0 then None else Some j)
    (set_trace (locked (trace s) ++ [EKalloc k]) (set_nextpid (i32 (nextpid s + 1))
      (set_ptable (<[j := if k =? 0 then set_state UNUSED p0 else set_stack p0]> (ptable s)) s))).
Proof.
  intros E Hp k p0. assert (Hlen : (j < length (ptable s))%nat) by (by eapply lookup_lt_Some).
  unfold allocproc. run. rewrite E. run. erewrite bind_done by apply kalloc_run. cbn.
  rewrite <- (app_assoc (trace s)). fold (locked (trace s)).
  change ([EAcquire PtableLock] ++ [ERelease PtableLock]) with [EAcquire PtableLock; ERelease PtableLock].
  fold (locked (trace s)). fold k. clearbody k.
  rewrite (alter_at_slot _ _ _ _ Hp). run. rewrite alter_insert by done.
  destruct (k =? 0); run; by rewrite alter_insert.
Qed.

Lemma dup_files_run j fs fd s p :
  (∀ tr f, filedup_ret tr f = f) → ptable s !! j = Some p →
  dup_files j fs fd s = Done tt
    (set_trace (trace s ++ ((λ f, EFiledup f f) <$> filter (λ f, f ≠ 0) fs))
      (set_ptable (<[j := set_ofile (copy_files fs (ofile p) fd) p]> (ptable s)) s)).
Proof.
  intros Hdup. revert fd s p; induction fs as [|f fs IH]; intros fd s p Hp.
  - cbn. rewrite app_nil_r. rewrite list_insert_id by (by destruct p). by destruct s.
  - cbn [dup_files copy_files]. destruct (Z.eqb_spec f 0) as [->|Hf].
    + rewrite list.filter_cons_False by auto. run. by rewrite (IH _ _ p).
    + rewrite list.filter_cons_True by done. unfold filedup. run. rewrite Hdup.
      rewrite (alter_at_slot _ _ _ _ Hp).
      rewrite (IH _ _ (set_ofile (<[fd := f]> (ofile p)) p)); cbn.
      * rewrite list_insert_insert_eq, <- app_assoc. done.
      * by apply list_lookup_insert_eq; eapply lookup_lt_Some.
Qed.

(** The child's slot, from its parent's process [cp] in slot [i]. *)
Definition fork_child (cp : proc) (i : nat) (n k pg w : Z) (p : proc) : proc :=
  let t := tf cp in
  set_state RUNNABLE (set_tickets (tickets cp) (set_name (safestrcpy (name p) (name cp) 16)
    (set_cwd w (set_ofile (copy_files (ofile cp) (ofile p) 0)
      (set_tf (Trapframe 0 (tf_esp t) (tf_eip t) (tf_eflags t) (tf_cs t) (tf_ds t) (tf_es t) (tf_ss t))
        (set_parent (Some i) (set_sz (sz cp) (set_pgdir pg
          (set_stack (set_kstack k (embryo n p))))))))))).

Lemma list_insert_here (j : nat) (q : proc) (ps : list proc) :
  (j < length ps)%nat → <[j := q]> ps !! j = Some q.
Proof. intros. by apply list_lookup_insert_eq. Qed.

Lemma set_tf_set_tf t t' p : set_tf t (set_tf t' p) = set_tf t p.
Proof. done. Qed.

Ltac at_slot Hlen :=
  repeat first [rewrite list_insert_here by exact Hlen | rewrite alter_insert by exact Hlen
               | progress (autorewrite with run; cbn)].

Lemma fork_run me i s cp :
  (∀ tr f, filedup_ret tr f = f) →
  runs s me i → ptable s !! i = Some cp → state cp ≠ UNUSED →
  let k := kalloc_ret (locked (trace s)) in
  let pg := copyuvm_ret (locked (trace s) ++ [EKalloc k]) (pgdir cp) (sz cp) in
  ∃ v s', fork me s = Done v s' ∧ cpus s' = cpus s ∧ initproc s' = initproc s ∧
  match find_unused (ptable s) with
  | None => v = -1 ∧ ptable s' = ptable s ∧ nextpid s' = nextpid s
  | Some j => ∃ p p', ptable s !! j = Some p ∧ state p = UNUSED
      ∧ ptable s' = <[j := p']> (ptable s) ∧ nextpid s' = i32 (nextpid s + 1)
      ∧ (if k =? 0 then
           v = -1 ∧ p' = set_state UNUSED (set_kstack 0 (embryo (nextpid s) p))
         else if pg =? 0 then
           v = -1 ∧ EKfree k ∈ trace s' ∧
           p' = set_state UNUSED (set_kstack 0 (set_pgdir 0 (set_stack (set_kstack k (embryo (nextpid s) p)))))
         else v = nextpid s ∧ ∃ w, p' = fork_child cp i v k pg w p)
  end.
Proof.
  intros Hdup Hi Hcp Hu k pg. apply runs_curproc in Hi. unfold fork. run. rewrite Hi.
  destruct (find_unused (ptable s)) as [j|] eqn:Ef.
  2:{ erewrite bind_done by (by apply allocproc_full). run. eauto 10. }
  destruct (find_unused_sound _ _ Ef) as (p & Hp & Hup).
  assert (Hlen : (j < length (ptable s))%nat) by (by eapply lookup_lt_Some).
  assert (Hij : i ≠ j) by congruence.
  erewrite bind_done by (by apply allocproc_slot). fold k.
  destruct (Z.eqb_spec k 0) as [->|Hk].
  { run. do 2 eexists. split_and!; [done..|]. exists p. eauto 10. }
  autorewrite with run. cbn [ptable set_trace set_ptable set_nextpid].
  rewrite list_lookup_insert_ne, Hcp by done.
  erewrite bind_done by apply copyuvm_run. cbn [trace set_trace]. fold pg.
  destruct (Z.eqb_spec pg 0) as [->|Hpg]; at_slot Hlen.
  { do 2 eexists. split_and!; [done..|]. exists p. eexists. cbn.
    split_and!; try reflexivity; [done..|]. rewrite !elem_of_app, !list_elem_of_singleton. by right. }
  erewrite bind_done.
  2:{ apply dup_files_run; [done|]. cbn. by apply list_insert_here. }
  unfold idup. cbn [ptable set_ptable set_trace]. rewrite list_insert_insert_eq. at_slot Hlen.
  rewrite set_tf_set_tf. do 2 eexists. split_and!; [reflexivity..|]. exists p. eexists. cbn.
  split_and!; [done|done|reflexivity..|]. eexists. reflexivity.
Qed.

(** *** exit *)

(** Abandoned children go to [ip], which is woken if one of them is a zombie. *)
Definition adopt (i : nat) (ip : option nat) (p : proc) : proc :=
  if bool_decide (parent p = Some i) then set_parent ip p else p.
Definition zombie_child (i : nat) (p : proc) : bool :=
  bool_decide (parent p = Some i) && bool_decide (state p = ZOMBIE).
Definition reparented (i : nat) (ip : option nat) (ps : list proc) : list proc :=
  (if existsb (zombie_child i) ps then fmap (wake (ptr_chan ip)) else id) (adopt i ip <$> ps).

Lemma wake_wake c p : wake c (wake c p) = wake c p.
Proof. unfold wake. repeat (case_bool_decide; cbn in *; try done); naive_solver. Qed.
Lemma adopt_wake i ip c p : adopt i ip (wake c p) = wake c (adopt i ip p).
Proof. unfold adopt, wake. repeat (case_bool_decide; cbn in *; try done); naive_solver. Qed.
Lemma zombie_child_wake i c p : zombie_child i (wake c p) = zombie_child i p.
Proof.
  unfold wake. case_bool_decide as E; [|done]. unfold zombie_child. cbn. destruct E as [-> _].
  by rewrite !andb_false_r.
Qed.
Lemma existsb_wake i c ps : existsb (zombie_child i) (wake c <$> ps) = existsb (zombie_child i) ps.
Proof. induction ps as [|p ps IH]; [done|]. cbn. by rewrite zombie_child_wake, IH. Qed.
Lemma fmap_wake_wake c (ps : list proc) : wake c <$> (wake c <$> ps) = wake c <$> ps.
Proof. rewrite <- list_fmap_compose. apply list_fmap_ext. intros. apply wake_wake. Qed.
Lemma fmap_adopt_wake i ip c (ps : list proc) : adopt i ip <$> (wake c <$> ps) = wake c <$> (adopt i ip <$> ps).
Proof. rewrite <- !list_fmap_compose. apply list_fmap_ext. intros. apply adopt_wake. Qed.

Lemma alter_middle (f : proc → proc) (ls rs : list proc) p :
  alter f (length ls) (ls ++ p :: rs) = ls ++ f p :: rs.
Proof. rewrite alter_app_r_alt, Nat.sub_diag by done. done. Qed.

Lemma reparent_run i ip ls rs s :
  ptable s = ls ++ rs →
  reparent i ip (length rs) (length ls) s = Done tt (set_ptable
    ((if existsb (zombie_child i) rs then fmap (wake (ptr_chan ip)) else id)
       (ls ++ (adopt i ip <$> rs))) s).
Proof.
  revert ls rs s. intros ls rs. remember (length rs) as n eqn:En. revert ls rs En.
  induction n as [|n IH]; intros ls rs En s Hs.
  { destruct rs; [|done]. cbn. rewrite <- Hs. by destruct s. }
  destruct rs as [|p rs]; [done|]. injection En as En. cbn [reparent].
  rewrite getp_run, Hs, list_lookup_middle by done.
  assert (Hadv : ∀ s1 ls1 p1 rs1, length ls1 = length ls → length rs1 = n → ptable s1 = ls1 ++ p1 :: rs1 →
    reparent i ip n (S (length ls)) s1 = Done tt (set_ptable
      ((if existsb (zombie_child i) rs1 then fmap (wake (ptr_chan ip)) else id)
         (ls1 ++ p1 :: (adopt i ip <$> rs1))) s1)).
  { intros s1 ls1 p1 rs1 El Er E1. pose proof (IH (ls1 ++ [p1]) rs1 (eq_sym Er) s1) as Hrec.
    rewrite length_app, <- !app_assoc, Nat.add_1_r, El in Hrec. by apply Hrec. }
  cbn [fmap list_fmap existsb]. unfold zombie_child at 1, adopt at 1. unfold wakeup1.
  case_bool_decide as Hp; cbn [andb orb]; run; [|by apply Hadv].
  rewrite Hs, alter_middle. case_bool_decide as Hz; run; [|by rewrite (Hadv _ ls (set_parent ip p) rs)].
  rewrite (Hadv _ (wake (ptr_chan ip) <$> ls) (wake (ptr_chan ip) (set_parent ip p))
                  (wake (ptr_chan ip) <$> rs)); rewrite ?length_fmap; cbn; [|done..|].
  - rewrite existsb_wake, fmap_adopt_wake. f_equal. unfold set_ptable; f_equal; cbn.
    rewrite fmap_app, fmap_cons. destruct (existsb _ rs); [|done].
    by rewrite fmap_app, fmap_cons, wake_wake, !fmap_wake_wake.
  - by rewrite fmap_app, fmap_cons.
Qed.

Definition closed (p : proc) : proc := set_cwd 0 (set_ofile (replicate (length (ofile p)) 0) p).

Fixpoint clear_files (fs l : list Z) (fd : nat) : list Z :=
  match fs with
  | [] => l
  | f :: fs' => clear_files fs' (if f =? 0 then l else <[fd := 0]> l) (S fd)
  end.
Lemma clear_files_all fs zs :
  clear_files fs (zs ++ fs) (length zs) = zs ++ replicate (length fs) 0.
Proof.
  revert zs; induction fs as [|f fs IH]; intros zs; [done|]. cbn.
  specialize (IH (zs ++ [0])). rewrite length_app, <- !app_assoc in IH. cbn in IH.
  rewrite Nat.add_1_r in IH.
  replace (if f =? 0 then _ else _) with (zs ++ 0 :: fs); [done|].
  destruct (Z.eqb_spec f 0) as [->|_]; [done|]. symmetry.
  rewrite <- (Nat.add_0_r (length zs)). by rewrite insert_app_r.
Qed.
Lemma close_files_run i fs fd s p :
  ptable s !! i = Some p →
  close_files i fs fd s = Done tt
    (set_trace (trace s ++ (EFileclose <$> filter (λ f, f ≠ 0) fs))
      (set_ptable (<[i := set_ofile (clear_files fs (ofile p) fd) p]> (ptable s)) s)).
Proof.
  revert fd s p; induction fs as [|f fs IH]; intros fd s p Hp.
  - cbn. rewrite app_nil_r, list_insert_id by (by destruct p). by destruct s.
  - cbn [close_files clear_files]. destruct (Z.eqb_spec f 0) as [->|Hf].
    + rewrite list.filter_cons_False by auto. run. by rewrite (IH _ _ p).
    + rewrite list.filter_cons_True by done. run. rewrite (alter_at_slot _ _ _ _ Hp).
      etransitivity; [apply (IH _ _ (set_ofile (<[fd := 0]> (ofile p)) p)); cbn|cbn].
      * apply list_insert_here. by eapply lookup_lt_Some.
      * rewrite list_insert_insert_eq, <- app_assoc. done.
Qed.

Definition exit_events (p : proc) : list event :=
  (EFileclose <$> filter (λ f, f ≠ 0) (ofile p)) ++ [EBeginOp; EIput (cwd p); EEndOp].

Lemma exit_close_run me i s p :
  runs s me i → ptable s !! i = Some p → initproc s ≠ Some i →
  exit_close me s = Done tt (set_trace (trace s ++ exit_events p)
    (set_ptable (<[i := closed p]> (ptable s)) s)).
Proof.
  intros Hi Hp Hne. apply runs_curproc in Hi. unfold exit_close. run. rewrite Hi. run.
  rewrite bool_decide_false by done. run. rewrite Hp.
  erewrite bind_done by (by apply close_files_run).
  assert (Hlen : (i < length (ptable s))%nat) by (by eapply lookup_lt_Some).
  at_slot Hlen. unfold exit_events, closed.
  pose proof (clear_files_all (ofile p) []) as E. cbn in E. rewrite E.
  by rewrite <- !app_assoc.
Qed.

(** The table after [exit] by the process [p] in slot [i]. *)
Definition exit_table (i : nat) (ip : option nat) (p : proc) (ps : list proc) : list proc :=
  alter (set_state ZOMBIE) i
    (reparented i ip (wake (ptr_chan (parent p)) <$> (<[i := closed p]> ps))).

Lemma exit_locked_run me i s p :
  runs s me i → ptable s !! i = Some p →
  exit_locked me s = Done tt (set_trace (trace s ++ [EAcquire PtableLock])
    (set_ptable (alter (set_state ZOMBIE) i
       (reparented i (initproc s) (wake (ptr_chan (parent p)) <$> ptable s))) s)).
Proof.
  intros Hi Hp. apply runs_curproc in Hi. unfold exit_locked, wakeup1. run. rewrite Hi. run.
  rewrite Hp. run. erewrite bind_done; [|by apply (reparent_run i (initproc s) [])].
  run. done.
Qed.

Lemma exit_run me i s p fl :
  runs s me i → ptable s !! i = Some p → initproc s ≠ Some i →
  exit me fl true s =
  sched me fl true (set_trace (trace s ++ exit_events p ++ [EAcquire PtableLock])
    (set_ptable (exit_table i (initproc s) p (ptable s)) s)).
Proof.
  intros Hi Hp Hne. unfold exit.
  erewrite bind_done by (by apply (exit_close_run me i s p)).
  erewrite bind_done; [|apply (exit_locked_run me i _ (closed p)); [done|]].
  - cbn. by rewrite <- app_assoc.
  - cbn. apply list_insert_here. by eapply lookup_lt_Some.
Qed.

(** *** Every step keeps the invariant *)

Section preserved.
Context (n : option Z) (ip : option nat).

Lemma Forall2_quiet_fmap f ps :
  slots_ok n ps → (∀ p, (used p → 1 <= tickets p) → quiet ip p (f p)) → Forall2 (quiet ip) ps (f <$> ps).
Proof using.
  intros I Hf. apply Forall2_fmap_r, Forall2_same_length_lookup. split; [done|].
  intros i p q Hi Hj. simplify_eq. apply Hf. by eapply so_tickets.
Qed.
Lemma Forall2_quiet_trans ps qs rs :
  Forall2 (quiet ip) ps qs → Forall2 (quiet ip) qs rs → Forall2 (quiet ip) ps rs.
Proof using. intros H. revert rs. induction H; intros rs' H'; inversion_clear H'; constructor; eauto using quiet_trans. Qed.

Lemma quiet_adopt i p : (used p → 1 <= tickets p) → quiet ip p (adopt i ip p).
Proof using.
  intros Ht. unfold adopt. case_bool_decide; [|by apply quiet_refl].
  split; [|split; [|split]]; auto.
Qed.

(** One quiet change after others, [slots_ok] being known of the first table. *)
Lemma quiet_then ps qs rs :
  slots_ok n ps → Forall2 (quiet ip) ps qs → (slots_ok n qs → Forall2 (quiet ip) qs rs) →
  Forall2 (quiet ip) ps rs.
Proof using.
  intros I H1 H2. eapply Forall2_quiet_trans; [done|]. apply H2. by eapply slots_quiet.
Qed.

Lemma reparented_quiet i ps : slots_ok n ps → Forall2 (quiet ip) ps (reparented i ip ps).
Proof using.
  intros I. unfold reparented.
  assert (Ha : Forall2 (quiet ip) ps (adopt i ip <$> ps)) by (apply Forall2_quiet_fmap; [done|apply quiet_adopt]).
  destruct (existsb _ _); [|done]. eapply quiet_then; [done..|]. intros I'.
  apply Forall2_quiet_fmap; [done|]. intros. by apply quiet_wake.
Qed.
Lemma reparented_none i ps j q :
  ip ≠ Some i → reparented i ip ps !! j = Some q → parent q ≠ Some i.
Proof using.
  intros Hne. unfold reparented.
  assert (Ha : ∀ p, parent (adopt i ip p) ≠ Some i) by (intros p; unfold adopt; case_bool_decide; done).
  assert (Hw : ∀ c p, parent (wake c p) = parent p) by (intros c p; unfold wake; by case_bool_decide).
  destruct (existsb _ _); cbn; rewrite ?list_lookup_fmap; destruct (ps !! j); cbn; intros; simplify_eq; by rewrite ?Hw.
Qed.
End preserved.

Lemma quiet_closed ip p : (used p → 1 <= tickets p) → quiet ip p (closed p).
Proof. intros Ht. split; [|split; [|split]]; auto. Qed.
Lemma quiet_reap ip p : state p = ZOMBIE → quiet ip p (reap p).
Proof.
  intros E. unfold quiet, used, live. cbn. rewrite E.
  split; [|split; [|split]]; try tauto; try (intros; naive_solver); split; done.
Qed.

Lemma inv_with_table {w} s s' : inv w s → with_table s s' (ptable s) → inv w s'.
Proof. intros I [Ep Hs]. by eapply inv_same. Qed.

Lemma inv_stops {w} s s' me i f :
  inv w s → stops me i f s s' →
  (∀ p, state p = RUNNING → live (f p) ∧ tickets (f p) = tickets p ∧ pid (f p) = pid p ∧ parent (f p) = parent p) →
  inv w s'.
Proof.
  intros I (p & Hi & Hp & Hnr & Ep & Ec & En & Ei) Hf.
  destruct (runs_running _ _ _ I Hi) as (q & Hq & Hr). simplify_eq.
  destruct (Hf _ Hr) as (? & ? & ? & ?). eapply (inv_stop s s' me i); eauto.
Qed.

Lemma inv_resume {w} {B} me (k : nat → Prelude.M kst B) s v s' :
  inv w s → idle s me → resume me k s = Done v s' →
  ∃ i s1, inv w s1 ∧ runs s1 me i ∧ k i s1 = Done v s'.
Proof.
  intros I Hid H. unfold resume in H. apply bind_Done_inv in H as (o & s1 & Ho & H).
  apply scheduler_pick_effect in Ho as (En & Ei & Ho). destruct o as [i|]; [|done].
  destruct Ho as (p & Hp & Hr & Ep & Ec). exists i, s1. split; [|split; [|done]].
  - eapply (inv_start s s1 me i); eauto.
  - destruct Hid as (c & Hc & _). exists (Cpu (apicid c) (ncli c) (intena c) (Some i)).
    by rewrite Ec, list_lookup_alter_eq, Hc.
Qed.

Lemma inv_sleep {w} me c l fl s s' :
  inv w s → (sleep_enter me c (Some l) fl true;; scheduler_back me) s = Done tt s' → inv w s'.
Proof.
  intros I H. apply sleep_effect in H as [i H]. eapply inv_stops; [done..|].
  intros p _. cbn. split; [|done]. by split; cbn.
Qed.

Lemma inv_wait_turn {w} me fl s r s' : inv w s → wait_turn me fl s = Done r s' → inv w s'.
Proof.
  intros I H. unfold wait_turn in H. apply bind_Done_inv in H as (r1 & s1 & H1 & H).
  apply wait_pass_effect in H1 as (i & Hi & [[-> ->]|[[-> Ht]|(j & c & -> & Hj & Hpar & Hz & Ep & Hs)]]).
  - apply bind_Done_inv in H as (i' & s2 & H2 & H).
    unfold curproc, myproc in H2. runin H2. simplify_eq.
    apply bind_Done_inv in H as (v & s3 & H3 & H). apply bind_Done_inv in H as ([] & s4 & H4 & H).
    injection H as <- <-. eapply inv_sleep; [done|]. by erewrite bind_done.
  - injection H as <- <-. by eapply inv_with_table.
  - injection H as <- <-. eapply (inv_quiet s s1); [done| |done].
    rewrite Ep, <- (alter_at_slot reap) by done. eapply Forall2_alter_quiet; [apply I|].
    intros p Hp. simplify_eq. by apply quiet_reap.
Qed.

Lemma quiet_set ip p p' :
  (used p → 1 <= tickets p) → state p' = state p → pid p' = pid p → parent p' = parent p →
  (tickets p' = tickets p ∨ 1 <= tickets p') → quiet ip p p'.
Proof.
  intros Ht Es Ei Ep Et. unfold quiet, used, live. rewrite Es, Ei, Ep.
  split; [|split; [|split]]; auto. intros Hu. split_and!; auto. destruct Et as [->|]; auto.
Qed.
Lemma inv_set {w} s s' i f :
  inv w s → ptable s' = alter f i (ptable s) → same_rest s s' →
  (∀ p, state (f p) = state p ∧ pid (f p) = pid p ∧ parent (f p) = parent p
        ∧ (tickets (f p) = tickets p ∨ 1 <= tickets (f p))) → inv w s'.
Proof.
  intros I Ep Hs Hf. eapply inv_alter; [done..|]. intros p Hp.
  destruct (Hf p) as (? & ? & ? & ?). apply quiet_set; try done.
  eapply (so_tickets _ _ (inv_slots _ I)); done.
Qed.

Lemma inv_exit {w} me fl s s' : inv w s → (exit me fl true;; scheduler_back me) s = Done tt s' → inv w s'.
Proof.
  intros I H. apply bind_Done_inv in H as (v & s2 & Hx & Hb).
  destruct (cpus s !! me ≫= cpu_proc) as [i|] eqn:Hi.
  2:{ exfalso. revert Hx. unfold exit, exit_close. run. by rewrite Hi. }
  apply runs_curproc in Hi. destruct (runs_running _ _ _ I Hi) as (p & Hp & Hr).
  destruct (decide (initproc s = Some i)) as [Hip|Hip].
  { exfalso. revert Hx. unfold exit, exit_close. run. rewrite (proj2 (runs_curproc _ _ _) Hi). run.
    by rewrite bool_decide_true. }
  rewrite (exit_run me i s p) in Hx by done.
  set (ps1 := reparented i (initproc s) (wake (ptr_chan (parent p)) <$> (<[i := closed p]> (ptable s)))).
  assert (HF : Forall2 (quiet (initproc s)) (ptable s) ps1).
  { pose proof (inv_slots _ I) as I1. unfold ps1. rewrite <- (alter_at_slot closed) by done.
    eapply quiet_then; [exact I1| |intros I2].
    - eapply quiet_then; [exact I1| |intros I2; by eapply Forall2_wake].
      eapply Forall2_alter_quiet; [exact I1|]. intros q Hq. apply quiet_closed. by eapply so_tickets.
    - eapply reparented_quiet, I2. }
  set (s1 := set_ptable ps1 s). assert (I1 : inv w s1) by (by apply (inv_quiet s)).
  destruct (Forall2_lookup_l _ _ _ _ _ HF Hp) as (q & Hq & _).
  assert (Hst : stops me i (set_state ZOMBIE) s1 s').
  { eapply stops_intro; [done|exact Hx|exact Hb|done..]. }
  destruct Hst as (q' & _ & Hq' & Hnr & Ep & Ec & En & Ei).
  eapply (inv_stop s1 s' me i); eauto. right. split; [|done].
  intros j r Hj. exact (reparented_none _ _ _ _ _ Hip Hj).
Qed.

Section steps.
Context (Hdup : ∀ tr f, filedup_ret tr f = f).

Lemma inv_fork {w} me v s s' : inv w s → (w = true → nextpid s < INT_MAX) → fork me s = Done v s' → inv w s'.
Proof using Hdup.
  intros I Hmax H. destruct (cpus s !! me ≫= cpu_proc) as [i|] eqn:Hi.
  2:{ exfalso. revert H. unfold fork. run. by rewrite Hi. }
  apply runs_curproc in Hi. destruct (runs_running _ _ _ I Hi) as (cp & Hcp & Hr).
  destruct (fork_run me i s cp Hdup Hi Hcp) as (v' & s1 & E & Ec & Ei & HF); [congruence|].
  rewrite E in H. injection H as <- <-.
  destruct (find_unused (ptable s)) as [j|].
  - destruct HF as (p & p' & Hp & Hu & Ep & En & HF).
    eapply (inv_new_slot s s1 me i j p p'); eauto.
    { intros Hw. specialize (Hmax Hw). rewrite En. subst w. pose proof (inv_nextpid_pos s I).
      apply i32_small. unfold is_int, INT_MIN, INT_MAX in *. lia. }
    destruct (_ =? 0); [left; by destruct HF as [_ ->]|].
    destruct (_ =? 0); [left; by destruct HF as (_ & _ & ->)|].
    right. destruct HF as (-> & cw & ->).
    split_and!; [done|done| |done]. change (1 <= tickets cp). eapply (so_tickets _ _ (inv_slots _ I)); [done|].
    unfold used. congruence.
  - destruct HF as (_ & Ep & En). eapply inv_same; [done..|]. by split_and!; rewrite ?Ec.
Qed.

Lemma inv_growproc {w} me n v s s' : inv w s → growproc me n s = Done v s' → inv w s'.
Proof using.
  intros I H. unfold growproc, allocuvm, deallocuvm in H.
  runin H; simplify_eq; try (by eapply inv_same);
    (eapply inv_set; [exact I|reflexivity|done|]); intros q; cbn; auto.
Qed.
Lemma inv_kill {w} n v s s' : inv w s → kill n s = Done v s' → inv w s'.
Proof using.
  intros I H. unfold kill in H. runin H; simplify_eq; [|by eapply inv_same].
  eapply inv_alter; [exact I|reflexivity|done|]. intros p Hp.
  assert (Ht : used p → 1 <= tickets p) by by apply (so_tickets _ _ (inv_slots _ I) _ _ Hp).
  unfold mark_killed, quiet, used, live in *. cbn. case_bool_decide as E; cbn.
  - rewrite E in *. split_and!; try tauto; intros; split_and?; try done; by apply Ht.
  - split_and!; auto.
Qed.
Lemma inv_settickets {w} me n v s s' : inv w s → settickets me n s = Done v s' → inv w s'.
Proof using.
  intros I H. unfold settickets in H. destruct (Z.ltb_spec n 1); [by runin H; simplify_eq|].
  runin H. simplify_eq. eapply inv_set; [exact I|reflexivity|done|]. intros q. cbn. auto.
Qed.
Lemma inv_wakeup {w} c s s' : inv w s → wakeup c s = Done tt s' → inv w s'.
Proof using.
  intros I H. unfold wakeup, wakeup1 in H. runin H. simplify_eq.
  apply (inv_quiet s); [done| |done]. eapply Forall2_wake, I.
Qed.

Lemma inv_step {w} s s' : inv w s → (w = true → nextpid s < INT_MAX) → step s s' → inv w s'.
Proof using Hdup.
  intros I Hm Hstep. destruct Hstep as
    [me s s' Hid H|me ie s s' Hid H|me ie l s s' Hid Hl H|me s s' Hid H|me ie fl r s s' Hid H
    |me fl s s' H|me c l fl s s' Hl H|me fl s s' H|me fl r s s' H|me v s s' H|me n v s s' H
    |n v s s' H|c s s' H|me n v s s' H].
  - apply scheduler_pick_effect in H as (? & ? & ? & Ec). eapply inv_same; [done..|].
    by split_and!; rewrite ?Ec.
  - apply (inv_resume (w := w)) in H as (i & s1 & I1 & _ & H); [|done..].
    by eapply inv_with_table, yield_leave_effect.
  - apply (inv_resume (w := w)) in H as (i & s1 & I1 & _ & H); [|done..].
    apply sleep_leave_effect in H as [Ep Hs]. eapply inv_set; [done..|]. cbn. auto.
  - apply (inv_resume (w := w)) in H as (i & s1 & I1 & _ & H); [|done..].
    by eapply inv_with_table, forkret_effect.
  - apply (inv_resume (w := w)) in H as (i & s1 & I1 & _ & H); [|done..].
    apply bind_Done_inv in H as ([] & s2 & H2 & H). apply sleep_leave_effect in H2 as [Ep Hs].
    eapply inv_wait_turn; [|done]. eapply inv_set; [exact I1|done..|]. cbn. auto.
  - apply yield_effect in H as [i H]. eapply inv_stops; [done..|]. intros p _. cbn. split; [|done]. by split.
  - by eapply inv_sleep.
  - by eapply inv_exit.
  - eapply inv_wait_turn; [|rewrite acquire_bind in H; exact H]. by eapply inv_same.
  - by eapply inv_fork.
  - by eapply inv_growproc.
  - by eapply inv_kill.
  - by eapply inv_wakeup.
  - by eapply inv_settickets.
Qed.
End steps.
End Handlers.
