(* ===== verification/LotteryLife.v ===== *)
(** The life of a process in proc.c (Lab2): the properties of userinit, fork,
    exit, wait, kill, sleep, wakeup, settickets and getpinfo, and the
    invariant of every state the system reaches from userinit. *)
From S2P Require Import Prelude Rand LotteryProc LotteryTable LotteryInv.

(** ** Definitions *)

(** The kernel state userinit starts from: static storage, all CPUs idle. *)
Definition boot_state (cs : list cpu) (sd : Z) (tr : list event) : kst :=
  Kst (replicate NPROC zero_proc) 1 None cs true sd tr.

(** init sleeps in wait; its child (pid 2) runs on CPU 0 and has a zombie
    child (pid 3) and a runnable one (pid 4). *)
Definition sample_running : kst :=
  Kst ([set_chan (ProcChan 0) (sample_proc SLEEPING 1 5 None);
        sample_proc RUNNING 2 5 (Some 0%nat);
        sample_proc ZOMBIE 3 5 (Some 1%nat);
        sample_proc RUNNABLE 4 7 (Some 1%nat)] ++ replicate 60 zero_proc)
      5 (Some 0%nat) [Cpu 0 1 0 (Some 1%nat); sample_cpu] false 1 [].

#[export] Instance used_dec p : Decision (used p).
Proof. unfold used. apply _. Defined.

(** ** Lemmas *)

Lemma replicate_slots k (i : nat) (p : proc) :
  replicate k zero_proc !! i = Some p → p = zero_proc.
Proof. intros H. by apply lookup_replicate in H as [-> _]. Qed.
(** Case analysis on which slot of an explicit table a lookup finds. *)
Ltac slot_cases H := cbn [lookup list_lookup app sample_running ptable] in H;
  repeat match type of H with
  | (_ :: _) !! ?i = Some _ => destruct i as [|i]; cbn [lookup list_lookup] in H; [injection H as <-|]
  | replicate _ _ !! _ = Some _ => apply replicate_slots in H as ->
  end.
Lemma boot_table : ∃ rest, replicate NPROC zero_proc = zero_proc :: rest ∧ length rest = 63%nat
  ∧ ∀ (i : nat) p, rest !! i = Some p → p = zero_proc.
Proof. exists (replicate 63 zero_proc). split; [done|]. split; [done|]. apply replicate_slots. Qed.

Lemma inv_sample_running : inv true sample_running.
Proof.
  constructor; constructor.
  - done.
  - intros i p H Hu. slot_cases H; done.
  - intros n i p [= <-] H Hu. slot_cases H; done.
  - intros n i j p q _ H H' Hp Hq E. slot_cases H; slot_cases H'; done.
  - intros [|[|me]] c i H Hi; simplify_eq/=. by eexists.
  - intros [|[|me]] [|[|me']] c c' i H H' Hi Hi'; simplify_eq/=; done.
  - intros i p H Hr. slot_cases H; try done. exists 0%nat. by eexists.
  - intros i p k H Hk. slot_cases H; simplify_eq/=; by eexists.
  - exists 0%nat. split; [done|]. by eexists.
Qed.

Lemma inv_boot `{Ext} cs sd tr s :
  Forall (λ c, cpu_proc c = None) cs → userinit (boot_state cs sd tr) = Done tt s → inv true s.
Proof.
  intros Hcs. unfold boot_state. destruct boot_table as (rest & -> & Hlen & Hrest).
  intros Hrun. unfold userinit in Hrun.
  erewrite bind_done in Hrun by (by apply (allocproc_slot _ 0%nat zero_proc)).
  destruct (kalloc_ret _ =? 0); [done|].
  cbv [setupkvm namei mbind M_bind mret M_ret gets modify panic emit acquire release updp] in Hrun.
  cbn [set_trace set_ptable set_nextpid set_initproc trace ptable nextpid initproc] in Hrun.
  destruct (setupkvm_ret _ =? 0); [done|]. injection Hrun as <-.
  match goal with |- inv _ (set_trace _ (set_ptable ?t _)) => set (ps := t) end.
  assert (Hps : ∃ p, ps = p :: rest ∧ state p = RUNNABLE ∧ tickets p = 5 ∧ pid p = 1 ∧ parent p = None)
    by (by eexists).
  clearbody ps. destruct Hps as (p & -> & E1 & E2 & E3 & E4).
  assert (Hq : ∀ (i : nat) q, (p :: rest) !! i = Some q → (i = 0%nat ∧ q = p) ∨ q = zero_proc).
  { intros [|i] q Hq; [injection Hq as <-; auto|right; by eapply Hrest]. }
  rewrite Forall_forall in Hcs.
  assert (Hc : ∀ (me : nat) c, cs !! me = Some c → cpu_proc c = None)
    by (intros; eapply Hcs, list_elem_of_lookup_2; eassumption).
  constructor; constructor; cbn [ptable nextpid cpus initproc set_trace set_ptable set_nextpid set_initproc].
  - cbn. by rewrite Hlen.
  - intros i q [[-> ->]| ->]%Hq Hu; [lia|done].
  - intros n i q [= <-] [[-> ->]| ->]%Hq Hu; [by rewrite E3|done].
  - intros n i j q r _ [[-> ->]| ->]%Hq [[-> ->]| ->]%Hq Hu Hu' E; done.
  - intros me c i Hm Hi. by rewrite (Hc _ _ Hm) in Hi.
  - intros me me' c c' i Hm _ Hi _. by rewrite (Hc _ _ Hm) in Hi.
  - intros i q [[-> ->]| ->]%Hq Hr; [congruence|done].
  - intros i q k [[-> ->]| ->]%Hq Hk; [congruence|done].
  - exists 0%nat. split; [done|]. exists p. split; [done|]. unfold live. by rewrite E1.
Qed.

Lemma sched_run `{Ext} me fl s i p :
  runs s me i → ptable s !! i = Some p → state p ≠ RUNNING →
  ncli <$> cpus s !! me = Some 1 → Z.land fl FL_IF = 0 →
  sched me fl true s = Done (default 0 (intena <$> cpus s !! me)) (set_trace (trace s ++ [ESwtch]) s).
Proof.
  intros Hi Hp Hr Hn Hf. apply runs_curproc in Hi. unfold sched. run. rewrite Hi. run. rewrite Hp. run.
  rewrite Hn. cbn. rewrite bool_decide_false by done. rewrite Hf. cbn. done.
Qed.

(** ** Properties *)

(** C7.  Every state the system reaches from userinit, by any interleaving of
    the handlers on any number of CPUs, keeps the table invariant: used slots
    hold a ticket, the RUNNING processes are exactly the current ones, one CPU
    each, and the parent of every process, like the initial process, is live, so
    that no zombie is orphaned.  The pids of used slots are positive and
    distinct as long as the counter nextpid, an int that allocproc increments
    without a test, has not wrapped around: on the way there, no step has
    started with nextpid at INT_MAX (see [fork_pid_wraps]). *)
Theorem table_invariant `{Ext} (cs : list cpu) (sd : Z) (tr : list event) (s0 s : kst)
  (Hdup : ∀ tr f, filedup_ret tr f = f) (Hidle : Forall (λ c, cpu_proc c = None) cs)
  (Hboot : userinit (boot_state cs sd tr) = Done tt s0) (Hreach : reachable s0 s) :
  inv false s ∧ (unwrapped s0 s → inv true s).
Proof.
  apply inv_boot in Hboot; [|done]. split.
  - assert (I : inv false s0) by by apply inv_weaken. clear Hboot. induction Hreach as [|s1 s2 s3 Hs _ IH]; [done|].
    apply IH. by eapply (inv_step Hdup s1).
  - intros Hu. clear Hreach. induction Hu as [|s1 s2 s3 [Hs Hm] _ IH]; [done|]. apply IH. by eapply (inv_step Hdup s1).
Qed.

(** Two CPUs boot, CPU 0 runs the first process, which forks. *)
Definition booted : kst :=
  let b := boot_state [sample_cpu; sample_cpu] 1 [] in after (@userinit sample_ext b) b.
Definition running_init : kst := after (resume 0 (λ _, forkret) booted) booted.
Definition forked : kst := after (@fork sample_ext 0 running_init) running_init.

Lemma running_init_step : @step sample_ext booted running_init.
Proof.
  apply (@step_resume_new sample_ext 0 booted running_init); [|apply after_run; reflexivity].
  eexists. split; reflexivity.
Qed.
Lemma forked_step : @step sample_ext running_init forked.
Proof. apply (@step_fork sample_ext 0 2 running_init forked), after_run. reflexivity. Qed.
Lemma table_invariant_witness : length (filter used (ptable forked)) = 2%nat ∧ inv true forked.
Proof.
  split; [reflexivity|].
  destruct (@table_invariant sample_ext [sample_cpu; sample_cpu] 1 [] booted forked) as [_ H].
  - intros tr f. reflexivity.
  - repeat constructor.
  - apply after_run. reflexivity.
  - eapply rtc_l; [exact running_init_step|]. apply rtc_once, forked_step.
  - apply H. eapply rtc_l; [split; [exact running_init_step|reflexivity]|]. apply rtc_once. split; [exact forked_step|reflexivity].
Defined.

(** C28.  fork answers -1 in three cases: there is no unused slot; kalloc has no
    kernel stack for it; copyuvm cannot copy the caller's memory, and then the
    stack is given back.  No used slot has changed then, and no child is
    runnable.  Otherwise it answers the next pid and the first unused slot is
    a RUNNABLE child with that pid, whose parent is the caller and which has the
    new kernel stack, the copy of the caller's memory, the caller's size,
    tickets, trap frame but for %eax = 0, and open files, no tick, and forkret
    as its resume address. *)
Theorem fork_spec `{Ext} (me i : nat) (s : kst) (cp : proc)
  (Hdup : ∀ tr f, filedup_ret tr f = f) (Hi : runs s me i)
  (Hcp : ptable s !! i = Some cp) (Hu : used cp) :
  let k := kalloc_ret (locked (trace s)) in
  let pg := copyuvm_ret (locked (trace s) ++ [EKalloc k]) (pgdir cp) (sz cp) in
  ∃ v s', fork me s = Done v s' ∧ cpus s' = cpus s ∧ initproc s' = initproc s ∧
  ((v = -1 ∧ (find_unused (ptable s) = None ∨ k = 0 ∨ pg = 0 ∧ EKfree k ∈ trace s')
      ∧ (∀ j p, used p → ptable s' !! j = Some p ↔ ptable s !! j = Some p))
   ∨ (k ≠ 0 ∧ pg ≠ 0 ∧ v = nextpid s ∧ nextpid s' = i32 (nextpid s + 1) ∧ ∃ j p c,
      find_unused (ptable s) = Some j ∧ ptable s !! j = Some p ∧ ptable s' = <[j := c]> (ptable s)
      ∧ state c = RUNNABLE ∧ pid c = v ∧ parent c = Some i ∧ sz c = sz cp ∧ pgdir c = pg ∧ kstack c = k
      ∧ tickets c = tickets cp ∧ ticks c = 0 ∧ killed c = killed p
      ∧ tf c = Trapframe 0 (tf_esp (tf cp)) (tf_eip (tf cp)) (tf_eflags (tf cp))
                 (tf_cs (tf cp)) (tf_ds (tf cp)) (tf_es (tf cp)) (tf_ss (tf cp))
      ∧ ofile c = copy_files (ofile cp) (ofile p) 0
      ∧ eip (ctx c) = forkret_addr ∧ ret_slot c = trapret)).
Proof.
  intros k pg. destruct (fork_run me i s cp Hdup Hi Hcp Hu) as (v & s' & E & Ec & Ei & HF). fold k in HF. fold pg in HF.
  exists v, s'. split_and!; [done..|]. destruct (find_unused (ptable s)) as [j|].
  2:{ destruct HF as (-> & -> & _). left. split_and!; auto. }
  destruct HF as (p & p' & Hp & Hun & Ep & En & HF).
  assert (Hsame : state p' = UNUSED →
    ∀ l q, used q → ptable s' !! l = Some q ↔ ptable s !! l = Some q).
  { intros Hn l q Hq. rewrite Ep. destruct (decide (l = j)) as [->|Hne].
    - rewrite list_insert_here by by eapply lookup_lt_Some. rewrite Hp.
      split; intros; simplify_eq; by destruct Hq.
    - by rewrite list_lookup_insert_ne. }
  destruct (Z.eqb_spec k 0) as [Hk|Hk].
  { destruct HF as [-> ->]. left. split_and!; auto. }
  destruct (Z.eqb_spec pg 0) as [Hpg|Hpg].
  { destruct HF as (-> & Hf & ->). left. split_and!; auto. }
  right. destruct HF as (-> & w & ->). split_and!; [done..|].
  exists j, p. eexists. do 3 (split; [done|]). split_and!; reflexivity.
Qed.

(** The counter wraps around: the child that gets the last pid leaves a
    negative one for the next. *)
Lemma fork_pid_wraps `{Ext} (me i : nat) (s : kst) (cp : proc)
  (Hdup : ∀ tr f, filedup_ret tr f = f) (Hi : runs s me i)
  (Hcp : ptable s !! i = Some cp) (Hu : used cp) (Hmax : nextpid s = INT_MAX) :
  ∃ v s', fork me s = Done v s' ∧ (v = -1 ∨ v = INT_MAX ∧ nextpid s' = INT_MIN ∧ ¬ inv true s').
Proof.
  destruct (fork_run me i s cp Hdup Hi Hcp Hu) as (v & s' & E & _ & _ & HF). exists v, s'. split; [done|].
  destruct (find_unused (ptable s)) as [j|]; [|left; by destruct HF as [-> _]].
  destruct HF as (p & p' & Hp & _ & _ & En & HF).
  destruct (_ =? 0); [left; by destruct HF as [-> _]|]. destruct (_ =? 0); [left; by destruct HF as [-> _]|]. right.
  assert (En' : nextpid s' = INT_MIN) by (rewrite En, Hmax; reflexivity).
  destruct HF as (-> & _). split; [done|]. split; [done|]. intros I%inv_nextpid_pos. rewrite En' in I. done.
Qed.

Lemma fork_spec_witness :
  ∃ v s', @fork sample_ext 0 sample_running = Done v s' ∧ v = 5.
Proof.
  destruct (@fork_spec sample_ext 0 1 sample_running (sample_proc RUNNING 2 5 (Some 0%nat)))
    as (v & s' & E & _ & _ & [(-> & _)|(_ & _ & -> & _)]).
  - intros tr f. reflexivity.
  - eexists. split; reflexivity.
  - reflexivity.
  - discriminate.
  - discriminate E.
  - eexists _, s'. split; [exact E|reflexivity].
Defined.

Lemma state_wake c p : state (wake c p) = if bool_decide (state p = SLEEPING ∧ chan p = c) then RUNNABLE else state p.
Proof. unfold wake. by case_bool_decide. Qed.
Lemma chan_wake c p : chan (wake c p) = chan p.
Proof. unfold wake. by case_bool_decide. Qed.
Lemma parent_wake c p : parent (wake c p) = parent p.
Proof. unfold wake. by case_bool_decide. Qed.
Lemma state_adopt i ip p : state (adopt i ip p) = state p.
Proof. unfold adopt. by case_bool_decide. Qed.
Lemma chan_adopt i ip p : chan (adopt i ip p) = chan p.
Proof. unfold adopt. by case_bool_decide. Qed.
Lemma parent_adopt i ip p : parent (adopt i ip p) = if bool_decide (parent p = Some i) then ip else parent p.
Proof. unfold adopt. by case_bool_decide. Qed.

Lemma existsb_insert i j (p p' : proc) (ps : list proc) :
  ps !! j = Some p → zombie_child i p' = zombie_child i p →
  existsb (zombie_child i) (<[j := p']> ps) = existsb (zombie_child i) ps.
Proof.
  revert j; induction ps as [|q ps IH]; intros [|j] Hp E; simplify_eq/=; [by rewrite E|].
  f_equal. by eapply IH.
Qed.

(** A slot other than the exiting one, after [exit]. *)
Lemma exit_table_other i ip p ps k q :
  k ≠ i → ps !! i = Some p → ps !! k = Some q →
  ∃ q', exit_table i ip p ps !! k = Some q'
    ∧ parent q' = (if bool_decide (parent q = Some i) then ip else parent q)
    ∧ state q' = (if bool_decide (state q = SLEEPING ∧ (chan q = ptr_chan (parent p)
                    ∨ chan q = ptr_chan ip ∧ existsb (zombie_child i) ps = true))
                  then RUNNABLE else state q)
    ∧ pid q' = pid q ∧ chan q' = chan q ∧ killed q' = killed q ∧ tickets q' = tickets q.
Proof.
  intros Hne Hp Hk. unfold exit_table, reparented.
  rewrite existsb_wake, (existsb_insert _ _ p) by done.
  rewrite list_lookup_alter_ne by done.
  assert (Hrest : ∀ c q, pid (wake c q) = pid q ∧ killed (wake c q) = killed q ∧ tickets (wake c q) = tickets q)
    by (intros c q0; unfold wake; by case_bool_decide).
  assert (Hresta : ∀ q, pid (adopt i ip q) = pid q ∧ killed (adopt i ip q) = killed q ∧ tickets (adopt i ip q) = tickets q)
    by (intros q0; unfold adopt; by case_bool_decide).
  destruct (Hrest (ptr_chan (parent p)) q) as (R1 & R2 & R3).
  destruct (Hresta (wake (ptr_chan (parent p)) q)) as (A1 & A2 & A3).
  destruct (existsb _ _); cbn [id]; rewrite ?list_lookup_fmap, list_lookup_insert_ne, Hk by done; cbn;
    eexists; (split; [reflexivity|]).
  - destruct (Hrest (ptr_chan ip) (adopt i ip (wake (ptr_chan (parent p)) q))) as (B1 & B2 & B3).
    rewrite B1, B2, B3, A1, A2, A3, R1, R2, R3, parent_wake, chan_wake, parent_adopt, parent_wake, chan_adopt, chan_wake.
    split_and!; try done. rewrite !state_wake, !state_adopt, !state_wake, !chan_adopt, !chan_wake.
    repeat case_bool_decide; naive_solver.
  - rewrite A1, A2, A3, R1, R2, R3, parent_adopt, parent_wake, chan_adopt, chan_wake.
    split_and!; try done. rewrite !state_adopt, !state_wake.
    repeat case_bool_decide; naive_solver.
Qed.

(** The exiting slot. *)
Lemma exit_table_self i ip p ps :
  ps !! i = Some p → state p = RUNNING →
  ∃ z, exit_table i ip p ps !! i = Some z ∧ state z = ZOMBIE ∧ pid z = pid p
    ∧ cwd z = 0 ∧ ofile z = replicate (length (ofile p)) 0
    ∧ parent z = (if bool_decide (parent p = Some i) then ip else parent p).
Proof.
  intros Hp Hr. unfold exit_table, reparented. rewrite list_lookup_alter_eq.
  assert (Hw : ∀ c q, state q = RUNNING → wake c q = q).
  { intros c q E. unfold wake. rewrite bool_decide_false; [done|]. rewrite E. by intros [? _]. }
  assert (Hlen : (i < length ps)%nat) by by eapply lookup_lt_Some.
  destruct (existsb _ _); cbn [id];
    rewrite ?list_lookup_fmap, list_insert_here by done; cbn [fmap option_fmap option_map];
    rewrite ?Hw by (rewrite ?state_adopt, ?Hw; done); eexists; (split; [reflexivity|]);
    unfold adopt; case_bool_decide; cbn in *; split_and!; try done; by case_bool_decide.
Qed.

(** C26.  exit: the process becomes a ZOMBIE that keeps its pid for its
    parent, with its files and working directory closed, its children
    go to init, its parent is made RUNNABLE if it sleeps on its own slot (as
    wait does), and so is init if one of those children is a zombie; no
    other process changes, and the call ends in a switch, so that exit does
    not return. *)
Theorem exit_spec `{Ext} (me i : nat) (s : kst) (p : proc) (fl : Z)
  (Hi : runs s me i) (Hp : ptable s !! i = Some p) (Hr : state p = RUNNING)
  (Hinit : initproc s ≠ Some i)
  (Hncli : ncli <$> cpus s !! me = Some 1) (Hfl : Z.land fl FL_IF = 0) :
  ∃ ie s', exit me fl true s = Done ie s'
    ∧ trace s' = trace s ++ exit_events p ++ [EAcquire PtableLock; ESwtch]
    ∧ (∃ z, ptable s' !! i = Some z ∧ state z = ZOMBIE ∧ pid z = pid p ∧ cwd z = 0
         ∧ ofile z = replicate (length (ofile p)) 0
         ∧ parent z = (if bool_decide (parent p = Some i) then initproc s else parent p))
    ∧ (∀ k q, k ≠ i → ptable s !! k = Some q → ∃ q', ptable s' !! k = Some q'
         ∧ parent q' = (if bool_decide (parent q = Some i) then initproc s else parent q)
         ∧ state q' = (if bool_decide (state q = SLEEPING ∧ (chan q = ptr_chan (parent p)
                         ∨ chan q = ptr_chan (initproc s) ∧ existsb (zombie_child i) (ptable s) = true))
                       then RUNNABLE else state q)
         ∧ pid q' = pid q ∧ chan q' = chan q ∧ killed q' = killed q ∧ tickets q' = tickets q).
Proof.
  rewrite (exit_run me i s p) by done.
  destruct (exit_table_self i (initproc s) p (ptable s) Hp Hr) as (z & Hz & Hs & Hrest).
  rewrite (sched_run me fl _ i z); [|done|done|by rewrite Hs|done|done].
  do 2 eexists. split; [reflexivity|]. cbn. split; [by rewrite <- !app_assoc|]. split; [by exists z|].
  intros k q Hne Hk. by apply exit_table_other.
Qed.

(** The exiting process has a zombie child, and init is woken for it. *)
Lemma exit_spec_witness :
  ∃ ie s', @exit sample_ext 0 0 true sample_running = Done ie s'
    ∧ ∃ q', ptable s' !! 0%nat = Some q' ∧ state q' = RUNNABLE.
Proof.
  destruct (@exit_spec sample_ext 0 1 sample_running (sample_proc RUNNING 2 5 (Some 0%nat)) 0)
    as (ie & s' & E & _ & _ & Hk); try reflexivity; try discriminate.
  - eexists. split; reflexivity.
  - exists ie, s'. split; [exact E|].
    destruct (Hk 0%nat _ ltac:(discriminate) eq_refl) as (q' & Hq & _ & Hs & _). exists q'.
    split; [exact Hq|exact Hs].
Defined.

(** *** wait *)

Definition child_of (i : nat) (p : proc) : Prop := parent p = Some i.

Lemma wait_scan_spec i ps j0 b :
  match wait_scan i ps j0 b with
  | Reap j => ∃ k c, j = (j0 + k)%nat ∧ ps !! k = Some c ∧ zombie_child i c = true
      ∧ ∀ k' c', (k' < k)%nat → ps !! k' = Some c' → zombie_child i c' = false
  | Kids => existsb (zombie_child i) ps = false ∧ (b = true ∨ ∃ p, p ∈ ps ∧ child_of i p)
  | NoKids => b = false ∧ ∀ p, p ∈ ps → ¬ child_of i p
  end.
Proof.
  revert j0 b; induction ps as [|p ps IH]; intros j0 b.
  { destruct b; cbn; [by auto|]. split; [done|]. by intros p ?%elem_of_nil. }
  cbn [wait_scan existsb].
  assert (Hrec : ∀ b', (b' = true ↔ b = true ∨ child_of i p) → zombie_child i p = false →
    match wait_scan i ps (S j0) b' with
    | Reap j => ∃ k c, j = (j0 + k)%nat ∧ (p :: ps) !! k = Some c ∧ zombie_child i c = true
        ∧ ∀ k' c', (k' < k)%nat → (p :: ps) !! k' = Some c' → zombie_child i c' = false
    | Kids => zombie_child i p || existsb (zombie_child i) ps = false
        ∧ (b = true ∨ ∃ q, q ∈ p :: ps ∧ child_of i q)
    | NoKids => b = false ∧ ∀ q, q ∈ p :: ps → ¬ child_of i q
    end).
  { intros b' Hb Hz. specialize (IH (S j0) b'). destruct (wait_scan i ps (S j0) b') as [j| |].
    - destruct IH as (k & c & -> & Hc & Hzc & Hmin). exists (S k), c. split; [lia|].
      split; [done|]. split; [done|]. intros [|k'] c' Hlt Hc'; simplify_eq/=; [done|].
      eapply (Hmin k'); [lia|done].
    - destruct IH as [-> Hor]. rewrite Hz. split; [done|].
      destruct Hor as [Hor|(q & ? & ?)]; [|right; exists q; split; [by right|done]].
      destruct (proj1 Hb Hor) as [?|?]; [by left|right; exists p; split; [left|done]].
    - destruct IH as [-> Hno]. assert (b ≠ true ∧ ¬ child_of i p) as [Hb1 Hb2] by naive_solver.
      split; [by destruct b|]. intros q [->|Hq]%elem_of_cons; [done|by apply Hno]. }
  assert (Hz : zombie_child i p = bool_decide (parent p = Some i) && bool_decide (state p = ZOMBIE)) by done.
  case_bool_decide as Hp; [|apply Hrec; [unfold child_of; naive_solver|by rewrite Hz]].
  case_bool_decide as Hs; [|apply Hrec; [unfold child_of; naive_solver|by rewrite Hz]].
  exists 0%nat, p. split; [lia|]. split; [done|]. split; [|lia].
  by rewrite Hz.
Qed.

(** C27.  wait, on every branch of its loop.  It reaps the first zombie child:
    its stack and page table are freed, its slot becomes UNUSED, and the answer
    is its pid.  Without a child, or if the caller is killed, it answers -1.
    Otherwise the caller sleeps on its own slot with ptable.lock held, and
    goes on with the loop in the state the others leave it in. *)
Theorem wait_spec `{Ext} (me i : nat) (s : kst) (p : proc) (fl : Z) (others : kst → kst) (n : nat)
  (Hi : runs s me i) (Hp : ptable s !! i = Some p)
  (Hncli : ncli <$> cpus s !! me = Some 1) (Hfl : Z.land fl FL_IF = 0) :
  (existsb (zombie_child i) (ptable s) = true →
     ∃ j c s', wait me fl others (S n) s = Done (pid c) s'
       ∧ ptable s !! j = Some c ∧ zombie_child i c = true
       ∧ (∀ k c', (k < j)%nat → ptable s !! k = Some c' → zombie_child i c' = false)
       ∧ ptable s' = <[j := reap c]> (ptable s)
       ∧ trace s' = trace s ++ [EAcquire PtableLock; EKfree (kstack c); EFreevm (pgdir c); ERelease PtableLock])
  ∧ (existsb (zombie_child i) (ptable s) = false →
     (∀ q, q ∈ ptable s → ¬ child_of i q) ∨ killed p ≠ 0 →
     wait me fl others (S n) s = Done (-1) (set_trace (locked (trace s)) s))
  ∧ (existsb (zombie_child i) (ptable s) = false →
     (∃ q, q ∈ ptable s ∧ child_of i q) → killed p = 0 →
     ∃ ie s1, wait me fl others (S n) s =
         (sleep_leave me ie i PtableLock;; wait_loop me fl others n) (others s1)
       ∧ ptable s1 = <[i := set_state SLEEPING (set_chan (ProcChan i) p)]> (ptable s)
       ∧ trace s1 = trace s ++ [EAcquire PtableLock; ESwtch]).
Proof.
  pose proof (wait_scan_spec i (ptable s) 0 false) as Hscan.
  pose proof (proj2 (runs_curproc _ _ _) Hi) as Hi'.
  assert (Hnone : existsb (zombie_child i) (ptable s) = false →
    ∀ (k : nat) c, ptable s !! k = Some c → zombie_child i c = false).
  { intros Hf k c Hk. destruct (zombie_child i c) eqn:E; [|done].
    assert (existsb (zombie_child i) (ptable s) = true); [|congruence].
    apply existsb_exists. exists c. split; [|done]. apply list_elem_of_In, list_elem_of_lookup. eauto. }
  split; [|split].
  - intros Hz. unfold wait. cbn [wait_loop]. unfold wait_pass. run. rewrite Hi'. run.
    destruct (wait_scan i (ptable s) 0 false) as [j| |].
    + destruct Hscan as (k & c & -> & Hc & Hzc & Hmin). cbn in Hmin |- *. exists k, c. eexists.
      run. rewrite Hc. run. split; [reflexivity|]. cbn. rewrite (alter_at_slot _ _ _ c) by done.
      split_and!; try done. by rewrite <- !app_assoc.
    + destruct Hscan; congruence.
    + exfalso. destruct Hscan as [_ Hno]. apply existsb_exists in Hz as (c & Hc & Hz).
      unfold zombie_child in Hz. case_bool_decide; [|done]. eapply Hno; [|done]. by apply list_elem_of_In.
  - intros Hz Hor. unfold wait. cbn [wait_loop]. unfold wait_pass. run. rewrite Hi'. run.
    destruct (wait_scan i (ptable s) 0 false) as [j| |].
    + destruct Hscan as (k & c & -> & Hc & Hzc & _). by rewrite (Hnone Hz _ _ Hc) in Hzc.
    + destruct Hscan as [_ [?|(q & Hq & Hcq)]]; [done|]. run. rewrite Hp. run.
      destruct Hor as [Hor|Hk]; [by destruct (Hor q Hq)|].
      destruct (Z.eqb_spec (killed p) 0); [done|]. run. unfold locked. by rewrite <- app_assoc.
    + run. rewrite Hp. run. unfold locked. by rewrite <- app_assoc.
  - intros Hz (q & Hq & Hcq) Hk. unfold wait. cbn [wait_loop]. unfold wait_pass. run. rewrite Hi'. run.
    destruct (wait_scan i (ptable s) 0 false) as [j| |].
    + destruct Hscan as (k & c & -> & Hc & Hzc & _). by rewrite (Hnone Hz _ _ Hc) in Hzc.
    + run. rewrite Hp. run. rewrite Hk. run. rewrite Hi'. unfold sleep_enter, myproc. run. change (λ cs : cpu, cpu_proc cs) with cpu_proc. rewrite Hi'. run.
      rewrite bool_decide_true by done. run. rewrite alter_alter, (alter_at_slot _ _ _ p) by done.
      erewrite bind_done.
      2:{ apply (sched_run me fl _ i (set_state SLEEPING (set_chan (ProcChan i) p))); [done| |done|done|done].
          cbn. apply list_insert_here. by eapply lookup_lt_Some. }
      run. do 2 eexists. split; [reflexivity|]. cbn. split; [done|]. by rewrite <- app_assoc.
    + exfalso. destruct Hscan as [_ Hno]. by apply (Hno q).
Qed.

Lemma wait_spec_witness :
  ∃ s', @wait sample_ext 0 0 id 1 sample_running = Done 3 s'.
Proof.
  destruct (@wait_spec sample_ext 0 1 sample_running (sample_proc RUNNING 2 5 (Some 0%nat)) 0 id 0)
    as [Hr _]; try reflexivity.
  - eexists. split; reflexivity.
  - destruct (Hr eq_refl) as (j & c & s' & E & Hj & Hz & _). exists s'. rewrite E.
    assert (pid c = 3) as ->; [|reflexivity].
    slot_cases Hj; discriminate Hz || reflexivity.
Defined.

(** *** kill *)

Lemma find_pid_sound n ps i :
  find_pid n ps = Some i ↔
  ∃ p, ps !! i = Some p ∧ pid p = n ∧ ∀ (j : nat) q, (j < i)%nat → ps !! j = Some q → pid q ≠ n.
Proof.
  unfold find_pid. split.
  - intros H. apply fmap_Some in H as ([k p] & H & ->). apply list_find_Some in H as (? & ? & Hmin).
    exists p. split_and!; [done..|]. intros j q Hj Hq. by eapply Hmin.
  - intros (p & Hp & E & Hmin). apply fmap_Some. exists (i, p). split; [|done].
    apply list_find_Some. split_and!; [done..|]. intros j q Hq Hj. by eapply Hmin.
Qed.

(** kill: in a state with the table invariant, killing the pid of a used
    slot marks that process, and no other, as killed, makes it RUNNABLE if it
    sleeps, and answers 0; for a pid that no slot holds the answer is -1 and
    nothing changes. *)
Theorem kill_spec (n : Z) (s : kst) :
  (find_pid n (ptable s) = None → kill n s = Done (-1) (set_trace (locked (trace s)) s))
  ∧ (∀ i p, find_pid n (ptable s) = Some i → ptable s !! i = Some p →
      ∃ s' p', kill n s = Done 0 s' ∧ ptable s' = <[i := p']> (ptable s)
        ∧ killed p' = 1 ∧ pid p' = n
        ∧ state p' = (if bool_decide (state p = SLEEPING) then RUNNABLE else state p)
        ∧ trace s' = locked (trace s))
  ∧ (inv true s → ∀ i p, ptable s !! i = Some p → used p → pid p = n →
      ∀ j, find_pid n (ptable s) = Some j → j = i ∨ ∃ q, ptable s !! j = Some q ∧ state q = UNUSED).
Proof.
  split; [|split].
  - intros E. unfold kill. run. rewrite E. run. unfold locked. by rewrite <- app_assoc.
  - intros i p E Hp. pose proof (proj1 (find_pid_sound _ _ _) E) as (p0 & Hp0 & Hpid & _).
    simplify_eq. unfold kill. run. rewrite E. run. do 2 eexists. split; [reflexivity|]. cbn.
    split; [by apply alter_at_slot|]. unfold mark_killed.
    cbn [set_killed state]. case_bool_decide; (split_and!; [done..|]); unfold locked; by rewrite <- app_assoc.
  - intros I i p Hp Hu E j Hj. apply find_pid_sound in Hj as (q & Hq & Hpid & _).
    destruct (decide (state q = UNUSED)); [right; eauto|left].
    eapply (so_inj _ _ (inv_slots _ I) _ j i q p); try done. congruence.
Qed.

(** kill does not look at the state of the slot it finds, and allocproc
    does not reset [killed].  An unused slot holds pid 0, so kill(0) answers 0
    and marks a free slot; when fork takes that slot, its child starts out
    killed. *)
Theorem kill_unused_slot `{Ext} (me i j : nat) (s : kst) (cp : proc)
  (Hdup : ∀ tr f, filedup_ret tr f = f) (Hi : runs s me i)
  (Hcp : ptable s !! i = Some cp) (Hu : used cp)
  (Hfree : find_unused (ptable s) = Some j) (Hpid : find_pid 0 (ptable s) = Some j) :
  ∃ s1, kill 0 s = Done 0 s1 ∧
  ∃ v s2, fork me s1 = Done v s2 ∧
    (v = -1 ∨ ∃ c, ptable s2 !! j = Some c ∧ pid c = v ∧ state c = RUNNABLE ∧ killed c = 1).
Proof.
  destruct (find_unused_sound _ _ Hfree) as (p & Hp & Hun).
  assert (Hlen : (j < length (ptable s))%nat) by (by eapply lookup_lt_Some).
  set (p1 := mark_killed p).
  assert (Hp1 : state p1 = UNUSED ∧ killed p1 = 1).
  { unfold p1, mark_killed. cbn. by rewrite bool_decide_false by (rewrite Hun; done). }
  destruct Hp1 as [Hs1 Hk1].
  set (s1 := set_trace (locked (trace s)) (set_ptable (<[j := p1]> (ptable s)) s)).
  exists s1. split.
  { unfold kill. run. rewrite Hpid. run. rewrite (alter_at_slot _ _ _ p) by done.
    unfold s1, locked. by rewrite <- app_assoc. }
  assert (Hfree1 : find_unused (ptable s1) = Some j).
  { unfold find_unused in Hfree |- *. apply fmap_Some in Hfree as ([j' q] & Hf & E). cbn in E. subst j'.
    apply list_find_Some in Hf as (_ & _ & Hmin). apply fmap_Some. exists (j, p1). split; [|done].
    apply list_find_Some. split; [by apply list_insert_here|]. split; [done|].
    intros k y Hy Hk. cbn in Hy. rewrite list_lookup_insert_ne in Hy by lia. by apply (Hmin k y). }
  assert (Hij : j ≠ i) by (intros ->; congruence).
  assert (Hcp1 : ptable s1 !! i = Some cp) by (cbn; by rewrite list_lookup_insert_ne).
  destruct (fork_run me i s1 cp Hdup Hi Hcp1 Hu) as (v & s2 & E & _ & _ & HF).
  exists v, s2. split; [done|]. rewrite Hfree1 in HF.
  destruct HF as (q & q' & Hq & _ & Ep & _ & HF).
  assert (q = p1) as -> by (cbn in Hq; rewrite list_insert_here in Hq by done; congruence).
  destruct (_ =? 0); [by left; destruct HF|]. destruct (_ =? 0); [by left; destruct HF|].
  right. destruct HF as (-> & w & ->). eexists. rewrite Ep.
  split; [apply list_insert_here; cbn; by rewrite length_insert|]. done.
Qed.

Lemma kill_unused_slot_witness :
  ∃ s1 s2, kill 0 sample_running = Done 0 s1 ∧ @fork sample_ext 0 s1 = Done 5 s2
    ∧ ∃ c, ptable s2 !! 4%nat = Some c ∧ killed c = 1.
Proof.
  destruct (@kill_unused_slot sample_ext 0 1 4 sample_running (sample_proc RUNNING 2 5 (Some 0%nat)))
    as (s1 & E1 & v & s2 & E2 & Hor); try reflexivity; try discriminate.
  - eexists. split; reflexivity.
  - assert (Hs : after (kill 0 sample_running) sample_running = s1) by (rewrite E1; reflexivity).
    assert (Hv : value (@fork sample_ext 0 (after (kill 0 sample_running) sample_running)) = Some 5)
      by reflexivity.
    rewrite Hs, E2 in Hv. injection Hv as ->. exists s1, s2.
    destruct Hor as [Hor|(c & Hc & _ & _ & Hk)]; [discriminate Hor|].
    split; [exact E1|]. split; [exact E2|]. exists c. exact (conj Hc Hk).
Defined.

Lemma kill_spec_witness :
  ∃ s' p', kill 1 sample_running = Done 0 s' ∧ ptable s' !! 0%nat = Some p' ∧ state p' = RUNNABLE.
Proof.
  destruct (kill_spec 1 sample_running) as [_ [H _]].
  destruct (H 0%nat _ eq_refl eq_refl) as (s' & p' & E & Ep & _ & _ & Hs & _).
  exists s', p'. split; [exact E|]. split; [rewrite Ep; reflexivity|exact Hs].
Defined.

(** *** sleep and wakeup *)

(** The locks held after a list of events. *)
Definition holds (l : lockid) (tr : list event) : bool :=
  fold_left (λ h e, match e with
    | EAcquire l' => if bool_decide (l' = l) then true else h
    | ERelease l' => if bool_decide (l' = l) then false else h
    | _ => h
    end) tr false.

#[local] Arguments holds : simpl never.
Lemma holds_app l tr tr' : holds l (tr ++ tr') =
  fold_left (λ h e, match e with
    | EAcquire l' => if bool_decide (l' = l) then true else h
    | ERelease l' => if bool_decide (l' = l) then false else h
    | _ => h
    end) tr' (holds l tr).
Proof. apply fold_left_app. Qed.

(** C29.  No wakeup is lost: sleep with lock [l] held leaves the caller
    SLEEPING on its channel, at every moment before that it holds [l] or
    ptable.lock, and it switches away with ptable.lock held and [l] free; a
    later wakeup on the channel makes it RUNNABLE.  sleep without a process or
    without a lock panics. *)
Theorem sleep_spec `{Ext} (me i : nat) (s : kst) (p : proc) (c : channel) (l : lockid) (fl : Z)
  (Hi : runs s me i) (Hp : ptable s !! i = Some p) (Hl : l ≠ PtableLock)
  (Hheld : holds l (trace s) = true)
  (Hncli : ncli <$> cpus s !! me = Some 1) (Hfl : Z.land fl FL_IF = 0) :
  (∃ ie s', sleep_enter me c (Some l) fl true s = Done ie s'
    ∧ ptable s' = <[i := set_state SLEEPING (set_chan c p)]> (ptable s)
    ∧ (∃ evs, trace s' = trace s ++ evs
        ∧ ∀ k, holds l (trace s ++ take k evs) || holds PtableLock (trace s ++ take k evs) = true)
    ∧ holds l (trace s') = false ∧ holds PtableLock (trace s') = true)
  ∧ (∀ s1 q, ptable s1 !! i = Some q → state q = SLEEPING → chan q = c →
      ∃ s2, wakeup c s1 = Done tt s2 ∧ ptable s2 !! i = Some (set_state RUNNABLE q))
  ∧ sleep_enter me c None fl true s = Panic "sleep without lk".
Proof.
  pose proof (proj2 (runs_curproc _ _ _) Hi) as Hi'. split; [|split].
  - unfold sleep_enter, myproc. run. change (λ cs : cpu, cpu_proc cs) with cpu_proc. rewrite Hi'. run.
    rewrite bool_decide_false by done. run. rewrite alter_alter, (alter_at_slot _ _ _ p) by done.
    rewrite (sched_run me fl _ i (set_state SLEEPING (set_chan c p))); [|done| |done|done|done].
    2:{ cbn. apply list_insert_here. by eapply lookup_lt_Some. }
    do 2 eexists. split; [reflexivity|]. cbn. split; [done|].
    rewrite <- !app_assoc. cbn [app].
    assert (HP : PtableLock ≠ l) by congruence.
    split; [eexists; split; [reflexivity|]|split].
    + intros k. rewrite !holds_app, Hheld.
      destruct k as [|[|[|k]]]; cbn; rewrite ?take_nil; cbn;
        repeat (case_bool_decide; try done); by rewrite ?orb_true_r.
    + rewrite holds_app, Hheld. cbn. repeat (case_bool_decide; try done).
    + rewrite holds_app. cbn. repeat (case_bool_decide; try done).
  - intros s1 q Hq Hs Hc. unfold wakeup, wakeup1. run. eexists. split; [reflexivity|]. cbn.
    rewrite list_lookup_fmap, Hq. cbn. unfold wake. by rewrite bool_decide_true.
  - unfold sleep_enter, myproc. run. change (λ cs : cpu, cpu_proc cs) with cpu_proc. by rewrite Hi'.
Qed.

Lemma sleep_spec_witness :
  let s := set_trace [EAcquire TicksLock] sample_running in
  ∃ ie s', @sleep_enter sample_ext 0 (AddrChan 9) (Some TicksLock) 0 true s = Done ie s'
    ∧ holds TicksLock (trace s') = false ∧ holds PtableLock (trace s') = true.
Proof.
  intros s. destruct (@sleep_spec sample_ext 0 1 s (sample_proc RUNNING 2 5 (Some 0%nat))
    (AddrChan 9) TicksLock 0) as [(ie & s' & E & _ & _ & H1 & H2) _]; try reflexivity; try discriminate.
  - eexists. split; reflexivity.
  - exists ie, s'. exact (conj E (conj H1 H2)).
Defined.

(** *** settickets and getpinfo *)

(** settickets and getpinfo: a count below 1 is refused and nothing
    changes; any other becomes the caller's tickets, and getpinfo then reports
    it for the caller's slot, and for every slot its pid, ticks, tickets and,
    as [inuse], whether it is not UNUSED; a null pointer is refused. *)
Theorem settickets_getpinfo (me i : nat) (s : kst) (p : proc) (number : Z) (buf : pstat)
  (Hi : runs s me i) (Hp : ptable s !! i = Some p) :
  (number < 1 → settickets me number s = Done (-1) s)
  ∧ getpinfo None s = Done (-1, None) s
  ∧ (1 <= number → ∃ s1 r s2, settickets me number s = Done 0 s1
      ∧ ptable s1 = <[i := set_tickets number p]> (ptable s)
      ∧ getpinfo (Some buf) s1 = Done (0, Some r) s2
      ∧ ptable s2 = ptable s1
      ∧ ps_tickets r !! i = Some number
      ∧ ∀ (k : nat) q, ptable s1 !! k = Some q →
          ps_pid r !! k = Some (pid q) ∧ ps_ticks r !! k = Some (ticks q)
          ∧ ps_tickets r !! k = Some (tickets q)
          ∧ ps_inuse r !! k = Some (if bool_decide (state q ≠ UNUSED) then 1 else 0)).
Proof.
  pose proof (proj2 (runs_curproc _ _ _) Hi) as Hi'. split; [|split; [done|]].
  - intros Hn. unfold settickets. by rewrite (proj2 (Z.ltb_lt _ _)).
  - intros Hn. unfold settickets. destruct (Z.ltb_spec number 1); [lia|]. run. rewrite Hi'. run.
    rewrite (alter_at_slot _ _ _ p) by done.
    assert (Hlen : (i < length (ptable s))%nat) by (by eapply lookup_lt_Some).
    do 3 eexists. split; [reflexivity|]. split; [done|]. split; [unfold getpinfo; run; reflexivity|].
    cbn. split; [done|]. split.
    + by rewrite list_lookup_fmap, list_insert_here.
    + intros k q Hq. by rewrite !list_lookup_fmap, Hq.
Qed.

Lemma settickets_getpinfo_witness :
  ∃ s1 r s2, settickets 0 40 sample_running = Done 0 s1
    ∧ getpinfo (Some (Pstat [] [] [] [])) s1 = Done (0, Some r) s2 ∧ ps_tickets r !! 1%nat = Some 40.
Proof.
  destruct (settickets_getpinfo 0 1 sample_running (sample_proc RUNNING 2 5 (Some 0%nat)) 40
    (Pstat [] [] [] [])) as (_ & _ & H).
  - eexists. split; reflexivity.
  - reflexivity.
  - destruct H as (s1 & r & s2 & E1 & _ & E2 & _ & Ht & _); [discriminate|].
    exists s1, r, s2. exact (conj E1 (conj E2 Ht)).
Defined.

(** growproc: when the allocator refuses, -1 and the size is kept;
    otherwise the new size is the one the allocator answers, the address space
    is switched, and the answer is 0. *)
Theorem growproc_spec `{Ext} (me i : nat) (s : kst) (p : proc) (n : Z)
  (Hi : runs s me i) (Hp : ptable s !! i = Some p) :
  let r := if 0 <? n then u32 (allocuvm_ret (trace s) (pgdir p) (sz p) (u32 (sz p + n)))
           else if n <? 0 then u32 (deallocuvm_ret (trace s) (pgdir p) (sz p) (u32 (sz p + n)))
           else sz p in
  ∃ v s', growproc me n s = Done v s' ∧
    ((v = -1 ∧ n ≠ 0 ∧ r = 0 ∧ ptable s' = ptable s)
     ∨ (v = 0 ∧ (n = 0 ∨ r ≠ 0) ∧ ptable s' = <[i := set_sz r p]> (ptable s)
        ∧ last (trace s') = Some (ESwitchuvm i))).
Proof.
  pose proof (proj2 (runs_curproc _ _ _) Hi) as Hi'. intros r. unfold growproc. run. rewrite Hi'. run.
  rewrite Hp. unfold r, allocuvm, deallocuvm. destruct (Z.ltb_spec 0 n); [|destruct (Z.ltb_spec n 0)]; run.
  - destruct (Z.eqb_spec (u32 (allocuvm_ret (trace s) (pgdir p) (sz p) (u32 (sz p + n)))) 0) as [E|E]; run;
      do 2 eexists; (split; [reflexivity|]); [left; split_and!; (done || lia)|right].
    cbn. rewrite (alter_at_slot _ _ _ p), last_snoc by done. split_and!; auto.
  - destruct (Z.eqb_spec (u32 (deallocuvm_ret (trace s) (pgdir p) (sz p) (u32 (sz p + n)))) 0) as [E|E]; run;
      do 2 eexists; (split; [reflexivity|]); [left; split_and!; (done || lia)|right].
    cbn. rewrite (alter_at_slot _ _ _ p), last_snoc by done. split_and!; auto.
  - do 2 eexists; (split; [reflexivity|]). right. cbn.
    rewrite (alter_at_slot _ _ _ p), last_snoc by done. split_and!; auto. left. lia.
Qed.

Lemma growproc_spec_witness :
  ∃ v s', @growproc sample_ext 0 4096 sample_running = Done v s' ∧ v = 0.
Proof.
  destruct (@growproc_spec sample_ext 0 1 sample_running (sample_proc RUNNING 2 5 (Some 0%nat)) 4096)
    as (v & s' & E & [(_ & _ & Hr & _)|(Hv & _)]).
  - eexists. split; reflexivity.
  - reflexivity.
  - discriminate Hr.
  - exists v, s'. exact (conj E Hv).
Defined.
