(* ===== verification/LotterySyscall.v ===== *)
(** syscall.c, sysproc.c and syscall.h (Lab2): fetching system call arguments
    from user memory, the system calls of sysproc.c and their dispatch.

    - The state is the kernel state of LotteryProc.v and the memory that the
      current process's page table maps.
    - An out-parameter is a value passed in and a value answered.
    - The handlers that are not in the repository, the variable [ticks] of the
      timer interrupt and the effect of growproc on the mapped memory are
      parameters (class [SysExt]).
    - The line that syscall() prints for an unknown number is left out. *)
From S2P Require Import Prelude Rand LotteryProc LotteryTable LotteryInv LotteryLife.

(** ** Definitions *)

Record sys := Sys { kern : kst; umem : mem }.

Notation Sy := (Prelude.M sys).

Definition set_umem (m : mem) (s : sys) : sys := Sys (kern s) m.
Definition set_kern (k : kst) (s : sys) : sys := Sys k (umem s).

(** Running a function of proc.c. *)
Definition lift {A} (c : K A) : Sy A := λ s,
  match c (kern s) with
  | Done a k => Done a (set_kern k s)
  | Panic w => Panic w
  | OutOfFuel => OutOfFuel
  end.

(** What a handler does: it returns a value, or (exit) gives up the CPU for
    good. *)
Inductive answer := Ret (v : Z) | Gone.

Class SysExt := {
  other_sys : Z → sys → outcome sys Z;
  ticks_ret : list event → Z;
  ticks_chan : Z;
  grow_mem : list event → mem → mem
}.

(** *** System call numbers *)

Definition SYS_fork : Z := 1.
Definition SYS_exit : Z := 2.
Definition SYS_wait : Z := 3.
Definition SYS_pipe : Z := 4.
Definition SYS_read : Z := 5.
Definition SYS_kill : Z := 6.
Definition SYS_exec : Z := 7.
Definition SYS_fstat : Z := 8.
Definition SYS_chdir : Z := 9.
Definition SYS_dup : Z := 10.
Definition SYS_getpid : Z := 11.
Definition SYS_sbrk : Z := 12.
Definition SYS_sleep : Z := 13.
Definition SYS_uptime : Z := 14.
Definition SYS_open : Z := 15.
Definition SYS_write : Z := 16.
Definition SYS_mknod : Z := 17.
Definition SYS_unlink : Z := 18.
Definition SYS_link : Z := 19.
Definition SYS_mkdir : Z := 20.
Definition SYS_close : Z := 21.
Definition SYS_settickets : Z := 22.
Definition SYS_getpinfo : Z := 23.

(** [sizeof(struct pstat)], and the structure in memory. *)
Definition sizeof_pstat : Z := 4 * (4 * Z.of_nat NPROC).
Fixpoint store_ints (m : mem) (a : Z) (l : list Z) : mem :=
  match l with
  | [] => m
  | v :: l' => store_ints (store 4 m a (u32 v)) (a + 4) l'
  end.
Definition store_pstat (m : mem) (a : Z) (r : pstat) : mem :=
  let row := 4 * Z.of_nat NPROC in
  let m := store_ints m a (ps_inuse r) in
  let m := store_ints m (a + row) (ps_tickets r) in
  let m := store_ints m (a + 2 * row) (ps_pid r) in
  store_ints m (a + 3 * row) (ps_ticks r).

Section Syscall.
Context `{Ext} `{SysExt}.

(** The running CPU, its flags register when it switches, what the rest of
    the system does while a caller sleeps, and a bound on the sleeps. *)
Variables (me : nat) (fl : Z) (others : kst → kst) (fuel : nat).

(** [*myproc()]. *)
Definition myself : Sy proc := lift (i ← curproc me; getp i).

(** *** Arguments *)

Definition fetchint (addr ip : Z) : Sy (Z * Z) :=
  p ← myself;
  if (sz p <=? addr) || (sz p <? u32 (addr + 4)) then mret (-1, ip)
  else m ← gets umem; mret (0, i32 (load 4 m addr)).

(** The loop of [fetchstr] over the [n] addresses from [s] to [ep]. *)
Fixpoint find_nul (m : mem) (s : Z) (n : nat) : option Z :=
  match n with
  | O => None
  | S n' => if bool_decide (m s = x00) then Some s else find_nul m (s + 1) n'
  end.
Definition fetchstr (addr pp : Z) : Sy (Z * Z) :=
  p ← myself;
  if sz p <=? addr then mret (-1, pp)
  else
    m ← gets umem;
    match find_nul m addr (Z.to_nat (sz p - addr)) with
    | Some s => mret (i32 (s - addr), addr)
    | None => mret (-1, addr)
    end.

Definition argint (n ip : Z) : Sy (Z * Z) :=
  p ← myself;
  fetchint (u32 (tf_esp (tf p) + 4 + 4 * n)) ip.

Definition argptr (n pp size : Z) : Sy (Z * Z) :=
  p ← myself;
  '(r, i) ← argint n 0;
  if r <? 0 then mret (-1, pp)
  else if (size <? 0) || (sz p <=? u32 i) || (sz p <? u32 (u32 i + size)) then mret (-1, pp)
  else mret (0, u32 i).

Definition argstr (n pp : Z) : Sy (Z * Z) :=
  '(r, addr) ← argint n 0;
  if r <? 0 then mret (-1, pp) else fetchstr (u32 addr) pp.

(** *** sysproc.c *)

Definition sys_fork : Sy Z := lift (fork me).
(** [exit] does not return. *)
Definition sys_exit : Sy answer := lift (exit me fl true);; mret Gone.
Definition sys_wait : Sy Z := lift (wait me fl others fuel).
Definition sys_kill : Sy Z :=
  '(r, n) ← argint 0 0;
  if r <? 0 then mret (-1) else lift (kill n).
Definition sys_getpid : Sy Z := p ← myself; mret (pid p).

Definition sys_sbrk : Sy Z :=
  '(r, n) ← argint 0 0;
  if r <? 0 then mret (-1)
  else
    p ← myself;
    let addr := i32 (sz p) in
    g ← lift (growproc me n);
    tr ← gets (trace ∘ kern);
    modify (λ s, set_umem (grow_mem tr (umem s)) s);;
    if g <? 0 then mret (-1) else mret addr.

(** The loop of [sys_sleep], with [ticks] and [tickslock]. *)
Definition read_ticks : Sy Z := tr ← gets (trace ∘ kern); mret (ticks_ret tr).
Fixpoint sleep_loop (ticks0 n : Z) (k : nat) : Sy Z :=
  t ← read_ticks;
  if u32 (t - ticks0) <? u32 n then
    p ← myself;
    if negb (killed p =? 0) then lift (release TicksLock);; mret (-1)
    else
      match k with
      | O => no_fuel
      | S k' =>
          i ← lift (curproc me);
          ie ← lift (sleep_enter me (AddrChan ticks_chan) (Some TicksLock) fl true);
          lift (modify others);;
          lift (sleep_leave me ie i TicksLock);;
          sleep_loop ticks0 n k'
      end
  else lift (release TicksLock);; mret 0.
Definition sys_sleep : Sy Z :=
  '(r, n) ← argint 0 0;
  if r <? 0 then mret (-1)
  else
    lift (acquire TicksLock);;
    ticks0 ← read_ticks;
    sleep_loop ticks0 n fuel.

Definition sys_uptime : Sy Z :=
  lift (acquire TicksLock);;
  xticks ← read_ticks;
  lift (release TicksLock);;
  mret (i32 xticks).

Definition sys_settickets : Sy Z :=
  '(r, n) ← argint 0 0;
  if r <? 0 then mret (-1) else lift (settickets me n).

Definition sys_getpinfo : Sy Z :=
  '(r, ps) ← argptr 0 0 sizeof_pstat;
  if r <? 0 then mret (-1)
  else
    '(v, o) ← lift (getpinfo (if ps =? 0 then None else Some (Pstat [] [] [] [])));
    match o with
    | Some info => modify (λ s, set_umem (store_pstat (umem s) ps info) s)
    | None => mret tt
    end;;
    mret v.

(** *** The table of syscall.h's numbers, and the dispatch *)

Definition returning (c : Sy Z) : Sy answer := v ← c; mret (Ret v).
(** The initialisers of the table; an index without one is null. *)
Definition syscalls_init : list (Z * Sy answer) :=
  [(SYS_fork, returning sys_fork); (SYS_exit, sys_exit);
   (SYS_wait, returning sys_wait); (SYS_pipe, returning (other_sys SYS_pipe));
   (SYS_read, returning (other_sys SYS_read)); (SYS_kill, returning sys_kill);
   (SYS_exec, returning (other_sys SYS_exec)); (SYS_fstat, returning (other_sys SYS_fstat));
   (SYS_chdir, returning (other_sys SYS_chdir)); (SYS_dup, returning (other_sys SYS_dup));
   (SYS_getpid, returning sys_getpid); (SYS_sbrk, returning sys_sbrk);
   (SYS_sleep, returning sys_sleep); (SYS_uptime, returning sys_uptime);
   (SYS_open, returning (other_sys SYS_open)); (SYS_write, returning (other_sys SYS_write));
   (SYS_mknod, returning (other_sys SYS_mknod)); (SYS_unlink, returning (other_sys SYS_unlink));
   (SYS_link, returning (other_sys SYS_link)); (SYS_mkdir, returning (other_sys SYS_mkdir));
   (SYS_close, returning (other_sys SYS_close)); (SYS_settickets, returning sys_settickets);
   (SYS_getpinfo, returning sys_getpinfo)].
Definition syscalls (num : Z) : option (Sy answer) :=
  snd ∘ snd <$> list_find (λ e, fst e = num) syscalls_init.
Definition NELEM_syscalls : Z := 24.

Definition set_eax (v : Z) (t : trapframe) : trapframe :=
  Trapframe (u32 v) (tf_esp t) (tf_eip t) (tf_eflags t) (tf_cs t) (tf_ds t) (tf_es t) (tf_ss t).
Definition put_eax (i : nat) (v : Z) : Sy unit :=
  lift (updp i (λ p, set_tf (set_eax v (tf p)) p)).

Definition syscall : Sy answer :=
  i ← lift (curproc me);
  p ← lift (getp i);
  let num := i32 (tf_eax (tf p)) in
  match (if (0 <? num) && (num <? NELEM_syscalls) then syscalls num else None) with
  | Some handler =>
      r ← handler;
      match r with
      | Ret v => put_eax i v;; mret (Ret v)
      | Gone => mret Gone
      end
  | None => put_eax i (-1);; mret (Ret (-1))
  end.
End Syscall.

(** State [s] with [v] in the saved %eax of slot [i]. *)
Definition with_eax (i : nat) (v : Z) (s : sys) : sys :=
  set_kern (set_ptable (alter (λ p, set_tf (set_eax v (tf p)) p) i (ptable (kern s))) (kern s)) s.
(** The caller in slot [i] runs user code, which leaves the registers [t] and
    the memory [m]. *)
Definition user_ran (i : nat) (t : trapframe) (m : mem) (s : sys) : sys :=
  Sys (set_ptable (alter (set_tf t) i (ptable (kern s))) (kern s)) m.

(** For evaluation: [ticks] counts the switches made so far; the caller, pid 2
    of [sample_running], has three pages and its stack at 0x2ff0. *)
Definition sample_sysext : SysExt := {|
  other_sys := λ _ s, Done 0 s;
  ticks_ret := λ tr, u32 (Z.of_nat (length (List.filter (λ e, match e with ESwtch => true | _ => false end) tr)));
  ticks_chan := 0x8010;
  grow_mem := λ _ m, m |}.
Definition sample_regs (num : Z) : trapframe := Trapframe num 0x2ff0 0 0 0 0 0 0.
Definition sample_caller (num : Z) : proc :=
  set_tf (sample_regs num) (set_sz 0x3000 (sample_proc RUNNING 2 5 (Some 0%nat))).
Definition sample_mem (arg : Z) : mem := store 4 (λ _, x41) 0x2ff4 arg.
Definition sample_sys (num arg : Z) : sys :=
  Sys (set_ptable (<[1%nat := sample_caller num]> (ptable sample_running)) sample_running) (sample_mem arg).

(** ** Lemmas *)

Lemma lift_run {A B} (c : K A) (k : A → Sy B) s :
  (lift c ≫= k) s =
  match c (kern s) with
  | Done a k' => k a (set_kern k' s)
  | Panic w => Panic w
  | OutOfFuel => OutOfFuel
  end.
Proof. unfold mbind, M_bind, lift. by destruct (c (kern s)). Qed.
Lemma set_kern_self s : set_kern (kern s) s = s.
Proof. by destruct s. Qed.

Section SyscallLemmas.
Context {X : Ext} {Y : SysExt}.
Variables (me i : nat).

(** The caller [p] runs on [me] in slot [i]. *)
Definition caller (p : proc) (s : sys) : Prop := runs (kern s) me i ∧ ptable (kern s) !! i = Some p.

Lemma myself_run {B} p (k : proc → Sy B) s : caller p s → (myself me ≫= k) s = k p s.
Proof.
  intros [Hi Hp]. unfold myself. rewrite lift_run.
  rewrite curproc_run. rewrite (proj2 (runs_curproc _ _ _) Hi). unfold getp. rewrite Hp.
  by rewrite set_kern_self.
Qed.

Lemma find_nul_spec m s n :
  match find_nul m s n with
  | Some e => s <= e < s + Z.of_nat n ∧ m e = x00 ∧ ∀ x, s <= x < e → m x ≠ x00
  | None => ∀ x, s <= x < s + Z.of_nat n → m x ≠ x00
  end.
Proof.
  revert s; induction n as [|n IH]; intros s; cbn [find_nul]; [lia|].
  case_bool_decide as Hs; [split; [lia|]; split; [done|lia]|].
  specialize (IH (s + 1)). destruct (find_nul m (s + 1) n) as [e|].
  - destruct IH as (? & ? & Hlt). split; [lia|]. split; [done|]. intros x ?.
    destruct (decide (x = s)) as [->|]; [done|]. apply Hlt. lia.
  - intros x ?. destruct (decide (x = s)) as [->|]; [done|]. apply IH. lia.
Qed.

Lemma argint_run p n ip s :
  caller p s → sz p <= 2 ^ 31 →
  let a := u32 (tf_esp (tf p) + 4 + 4 * n) in
  argint me n ip s = Done (if a + 4 <=? sz p then (0, i32 (load 4 (umem s) a)) else (-1, ip)) s.
Proof.
  intros Hc Hsz a. unfold argint. rewrite (myself_run p) by done. fold a.
  assert (Ha : 0 <= a) by apply u32_range.
  unfold fetchint. rewrite (myself_run p) by done.
  destruct (Z.leb_spec (sz p) a), (Z.leb_spec (a + 4) (sz p)); cbn [orb]; try lia; [done| |].
  - rewrite u32_small by lia. by destruct (Z.ltb_spec (sz p) (a + 4)); [lia|].
  - rewrite u32_small by lia. by destruct (Z.ltb_spec (sz p) (a + 4)); [|lia].
Qed.
End SyscallLemmas.

(** *** Storing [struct pstat] *)

Lemma store_ints_other m a l x :
  x < a ∨ a + 4 * Z.of_nat (length l) <= x → store_ints m a l x = m x.
Proof.
  revert m a; induction l as [|v l IH]; intros m a Hx; [done|]. cbn [store_ints length] in *.
  rewrite IH by lia. apply store_other. lia.
Qed.
Lemma load_store_ints_other m a l b :
  b + 4 <= a ∨ a + 4 * Z.of_nat (length l) <= b → load 4 (store_ints m a l) b = load 4 m b.
Proof. intros Hb. apply load_ext. intros x Hx. apply store_ints_other. lia. Qed.
Lemma load_store_ints m a l (k : nat) v :
  l !! k = Some v → load 4 (store_ints m a l) (a + 4 * Z.of_nat k) = u32 v.
Proof.
  revert m a k; induction l as [|w l IH]; intros m a k Hk; [done|]. cbn [store_ints].
  destruct k as [|k]; [injection Hk as ->|change (l !! k = Some v) in Hk].
  - change (4 * Z.of_nat 0) with 0. rewrite Z.add_0_r, load_store_ints_other by lia. apply load_store_same, u32_range.
  - replace (a + 4 * Z.of_nat (S k)) with (a + 4 + 4 * Z.of_nat k) by lia. by apply IH.
Qed.

(** The table as [getpinfo] reports it. *)
Definition info_of (t : list proc) : pstat :=
  Pstat ((λ p, if bool_decide (state p ≠ UNUSED) then 1 else 0) <$> t)
        (tickets <$> t) (pid <$> t) (ticks <$> t).

Lemma store_pstat_spec m a t :
  length t = NPROC →
  let m' := store_pstat m a (info_of t) in
  (∀ x, x < a ∨ a + sizeof_pstat <= x → m' x = m x)
  ∧ ∀ (k : nat) p, t !! k = Some p →
      load 4 m' (a + 4 * Z.of_nat k) = (if bool_decide (state p ≠ UNUSED) then 1 else 0)
      ∧ load 4 m' (a + 256 + 4 * Z.of_nat k) = u32 (tickets p)
      ∧ load 4 m' (a + 512 + 4 * Z.of_nat k) = u32 (pid p)
      ∧ load 4 m' (a + 768 + 4 * Z.of_nat k) = u32 (ticks p).
Proof.
  intros Hlen m'. subst m'. unfold store_pstat, info_of, sizeof_pstat. cbv zeta. change (length t = 64%nat) in Hlen.
  change (4 * Z.of_nat NPROC) with 256. cbn [ps_inuse ps_tickets ps_pid ps_ticks].
  change (2 * 256) with 512. change (3 * 256) with 768. change (4 * 256) with 1024.
  split.
  - intros x Hx. by rewrite !store_ints_other by (rewrite length_fmap, Hlen; cbn; lia).
  - intros k p Hk. assert (Hb : (k < 64)%nat) by (rewrite <- Hlen; by eapply lookup_lt_Some).
    split_and!.
    + rewrite !load_store_ints_other by (rewrite length_fmap, Hlen; cbn; lia).
      erewrite load_store_ints by (rewrite list_lookup_fmap, Hk; reflexivity).
      by case_bool_decide.
    + do 2 rewrite load_store_ints_other by (rewrite length_fmap, Hlen; cbn; lia).
      erewrite load_store_ints by (rewrite list_lookup_fmap, Hk; reflexivity). done.
    + rewrite load_store_ints_other by (rewrite length_fmap, Hlen; cbn; lia).
      erewrite load_store_ints by (rewrite list_lookup_fmap, Hk; reflexivity). done.
    + erewrite load_store_ints by (rewrite list_lookup_fmap, Hk; reflexivity). done.
Qed.

Lemma find_nul_ext (m m' : mem) s n :
  (∀ x, s <= x < s + Z.of_nat n → m' x = m x) → find_nul m' s n = find_nul m s n.
Proof.
  revert s; induction n as [|n IH]; intros s H; cbn [find_nul]; [done|].
  rewrite (H s) by lia. case_bool_decide; [done|]. apply IH. intros x Hx. apply H. lia.
Qed.

Section ArgumentLemmas.
Context {X : Ext} {Y : SysExt}.
Variables (me i : nat) (p : proc) (s : sys).
Hypotheses (Hc : caller me i p s) (Hsz : sz p <= 2 ^ 31).

Lemma argptr_run n pp size :
  is_int size →
  let a := u32 (tf_esp (tf p) + 4 + 4 * n) in
  let q := u32 (i32 (load 4 (umem s) a)) in
  argptr me n pp size s =
  Done (if (a + 4 <=? sz p) && (0 <=? size) && (q <? sz p) && (q + size <=? sz p)
        then (0, q) else (-1, pp)) s.
Proof using Hc Hsz.
  intros Hs a q. unfold is_int, INT_MAX in Hs. unfold argptr. rewrite (myself_run me i p) by done.
  erewrite bind_done by (by apply (argint_run me i p)). fold a. cbv beta zeta.
  destruct (a + 4 <=? sz p); [|done]. fold q. cbn [andb Z.ltb Z.compare].
  assert (Hq : 0 <= q) by apply u32_range.
  destruct (Z.ltb_spec size 0), (Z.leb_spec 0 size), (Z.leb_spec (sz p) q), (Z.ltb_spec q (sz p));
    cbn [orb andb]; try lia; try done.
  rewrite u32_small by lia.
  by destruct (Z.ltb_spec (sz p) (q + size)), (Z.leb_spec (q + size) (sz p)); try lia.
Qed.

Lemma argstr_run n pp :
  let a := u32 (tf_esp (tf p) + 4 + 4 * n) in
  let q := u32 (i32 (load 4 (umem s) a)) in
  argstr me n pp s =
  Done (if a + 4 <=? sz p then
          if q <? sz p then
            match find_nul (umem s) q (Z.to_nat (sz p - q)) with
            | Some e => (e - q, q) | None => (-1, q)
            end
          else (-1, pp)
        else (-1, pp)) s.
Proof using Hc Hsz.
  intros a q. unfold argstr.
  erewrite bind_done by (by apply (argint_run me i p)). fold a. cbv beta zeta.
  destruct (a + 4 <=? sz p); [|done]. fold q. cbn [Z.ltb Z.compare].
  unfold fetchstr. rewrite (myself_run me i p) by done.
  destruct (Z.leb_spec (sz p) q), (Z.ltb_spec q (sz p)); try lia; [done|]. run.
  assert (Hq : 0 <= q) by apply u32_range.
  pose proof (find_nul_spec (umem s) q (Z.to_nat (sz p - q))) as Hf.
  destruct (find_nul _ _ _) as [e|]; [|done]. run. rewrite i32_small; [done|].
  unfold is_int, INT_MIN, INT_MAX. lia.
Qed.
End ArgumentLemmas.

(** *** Sleeping *)

Lemma runs_run {B} me i (k : nat → Sy B) s :
  runs (kern s) me i → (lift (curproc me) ≫= k) s = k i s.
Proof.
  intros Hi. rewrite lift_run. unfold curproc, myproc. run.
  change (λ cs : cpu, cpu_proc cs) with cpu_proc. rewrite (proj2 (runs_curproc _ _ _) Hi). run.
  by rewrite set_kern_self.
Qed.

(** The kernel state in which a caller in slot [i] switches away in sleep. *)
Definition dozing (i : nat) (c : channel) (l : lockid) (k : kst) : kst :=
  set_trace (trace k ++ [EAcquire PtableLock; ERelease l; ESwtch])
    (set_ptable (alter (set_state SLEEPING ∘ set_chan c) i (ptable k)) k).

Lemma sleep_enter_run `{Ext} me i p fl c l k :
  runs k me i → ptable k !! i = Some p → l ≠ PtableLock →
  ncli <$> cpus k !! me = Some 1 → Z.land fl FL_IF = 0 →
  sleep_enter me c (Some l) fl true k =
  Done (default 0 (intena <$> cpus k !! me)) (dozing i c l k).
Proof.
  intros Hi Hp Hl Hn Hf. unfold sleep_enter, myproc. run. change (λ cs : cpu, cpu_proc cs) with cpu_proc.
  rewrite (proj2 (runs_curproc _ _ _) Hi). run. rewrite bool_decide_false by done. run.
  rewrite (sched_run me fl _ i (set_state SLEEPING (set_chan c p))); try done.
  - cbn. unfold dozing. rewrite alter_alter. f_equal. unfold set_trace, set_ptable. cbn. by rewrite <- !app_assoc.
  - cbn. by rewrite !list_lookup_alter_eq, Hp.
Qed.

Lemma sleep_leave_run me ie i l k :
  l ≠ PtableLock →
  sleep_leave me ie i l k = Done tt
    (set_trace (trace k ++ [ERelease PtableLock; EAcquire l])
      (set_ptable (alter (set_chan NoChan) i (ptable k))
        (set_cpus (alter (λ c, Cpu (apicid c) (ncli c) ie (cpu_proc c)) me (cpus k)) k))).
Proof.
  intros Hl. unfold sleep_leave, sched_resume. run. rewrite bool_decide_false by done.
  unfold acquire, emit. run. by rewrite <- app_assoc.
Qed.

Section Sleeping.
Context {X : Ext} {Y : SysExt}.
Variables (me i : nat) (fl : Z) (others : kst → kst).

(** A caller that sleeps comes back to its CPU, not killed. *)
Definition comes_back : Prop := ∀ k p, runs k me i → ptable k !! i = Some p → killed p = 0 →
  ncli <$> cpus k !! me = Some 1 →
  runs (others k) me i ∧ (∃ p', ptable (others k) !! i = Some p' ∧ killed p' = 0)
  ∧ ncli <$> cpus (others k) !! me = Some 1.
(** The timer has ticked when a caller that slept on [ticks] has its lock back. *)
Definition ticked : Prop := ∀ k tr, trace k = tr ++ [EAcquire PtableLock; ERelease TicksLock; ESwtch] →
  ∃ d, 1 <= d <= 2 ^ 31
    ∧ ticks_ret (trace (others k) ++ [ERelease PtableLock; EAcquire TicksLock]) = u32 (ticks_ret tr + d).

Definition awake (s : sys) : Prop := runs (kern s) me i
  ∧ (∃ p, ptable (kern s) !! i = Some p ∧ killed p = 0) ∧ ncli <$> cpus (kern s) !! me = Some 1.

Lemma sleep_loop_elapsed t0 n k s s' :
  sleep_loop me fl others t0 n k s = Done 0 s' →
  ∃ tr, trace (kern s') = tr ++ [ERelease TicksLock] ∧ u32 n <= u32 (ticks_ret tr - t0).
Proof.
  revert s; induction k as [|k IH]; intros s Hrun; cbn [sleep_loop] in Hrun;
    unfold read_ticks in Hrun; autorewrite with run in Hrun; cbn [compose] in Hrun;
    (destruct (Z.ltb_spec (u32 (ticks_ret (trace (kern s)) - t0)) (u32 n)) as [Hlt|Hge];
     [|rewrite lift_run in Hrun; injection Hrun as <-; by eexists]);
    apply bind_Done_inv in Hrun as (p & s1 & _ & Hrun);
    (destruct (negb (killed p =? 0)); [by rewrite lift_run in Hrun|]); [done|].
  apply bind_Done_inv in Hrun as (j & s2 & _ & Hrun).
  apply bind_Done_inv in Hrun as (ie & s3 & _ & Hrun).
  apply bind_Done_inv in Hrun as (u & s4 & _ & Hrun).
  apply bind_Done_inv in Hrun as (u' & s5 & _ & Hrun). by eapply IH.
Qed.

Lemma sleep_loop_ends t0 n k s :
  comes_back → ticked → Z.land fl FL_IF = 0 → awake s → 0 <= n <= INT_MAX →
  n - u32 (ticks_ret (trace (kern s)) - t0) <= Z.of_nat k →
  ∃ s', sleep_loop me fl others t0 n k s = Done 0 s'.
Proof.
  intros Hback Htick Hfl. revert s; induction k as [|k IH]; intros s Haw Hn He;
    cbn [sleep_loop]; unfold read_ticks; run;
    rewrite (u32_small n) by (unfold INT_MAX in *; lia);
    (destruct (Z.ltb_spec (u32 (ticks_ret (trace (kern s)) - t0)) n) as [Hlt|Hge];
     [|rewrite lift_run; by eexists]); [lia|].
  destruct Haw as (Hi & (p & Hp & Hk) & Hc).
  rewrite (myself_run me i p) by done. rewrite Hk. cbn [Z.eqb negb].
  rewrite (runs_run me i) by done.
  rewrite lift_run, (sleep_enter_run me i p) by done.
  rewrite lift_run. cbn [modify]. rewrite lift_run, sleep_leave_run by done.
  set (kd := dozing i _ _ _) in *.
  assert (Hpd : ptable kd !! i = Some (set_state SLEEPING (set_chan (AddrChan ticks_chan) p)))
    by (cbn; by rewrite list_lookup_alter_eq, Hp).
  destruct (Hback kd _ Hi Hpd Hk Hc) as (Hi' & (p' & Hp' & Hk') & Hc').
  destruct (Htick kd (trace (kern s)) eq_refl) as (d & Hd & Ed).
  cbn [kern set_kern] in *.
  apply IH; cbn [kern set_kern trace ptable cpus set_trace set_ptable set_cpus].
  - unfold awake. cbn. split; [|split].
    + destruct Hi' as (c & Hcc & Hci). eexists.
      split; [cbn; by rewrite list_lookup_alter_eq, Hcc|done].
    + exists (set_chan NoChan p'). split; [by rewrite list_lookup_alter_eq, Hp'|done].
    + rewrite list_lookup_alter_eq. destruct (cpus (others kd) !! me); simplify_eq/=. by f_equal.
  - done.
  - fold kd. rewrite Ed.
    assert (E : u32 (u32 (ticks_ret (trace (kern s)) + d) - t0)
                = u32 (ticks_ret (trace (kern s)) - t0) + d); [|lia].
    pose proof (u32_range (ticks_ret (trace (kern s)) - t0)) as Hr. unfold u32, INT_MAX in *. rewrite Zminus_mod_idemp_l.
    replace (ticks_ret (trace (kern s)) + d - t0) with (ticks_ret (trace (kern s)) - t0 + d) by lia.
    rewrite <- Zplus_mod_idemp_l. apply Z.mod_small. lia.
Qed.
End Sleeping.

(** *** The dispatch *)

Section Dispatch.
Context {X : Ext} {Y : SysExt}.
Variables (me i : nat) (fl : Z) (others : kst → kst) (fuel : nat).

Lemma syscall_run p s :
  caller me i p s →
  let num := i32 (tf_eax (tf p)) in
  syscall me fl others fuel s =
    match (if (0 <? num) && (num <? NELEM_syscalls) then syscalls me fl others fuel num else None) with
    | Some handler =>
        (r ← handler; match r with Ret v => put_eax i v;; mret (Ret v) | Gone => mret Gone end) s
    | None => Done (Ret (-1)) (with_eax i (-1) s)
    end.
Proof.
  intros [Hi Hp] num. unfold syscall. rewrite (runs_run me i), lift_run by done.
  unfold getp. rewrite Hp. rewrite set_kern_self. fold num. by repeat case_match.
Qed.

Lemma syscall_returns p s c v s' :
  caller me i p s → syscalls me fl others fuel (i32 (tf_eax (tf p))) = Some (returning c) →
  0 < i32 (tf_eax (tf p)) < NELEM_syscalls → c s = Done v s' →
  syscall me fl others fuel s = Done (Ret v) (with_eax i v s').
Proof.
  intros Hc Hh Hn E. rewrite (syscall_run p), Hh by done. unfold returning.
  rewrite (proj2 (Z.ltb_lt _ _)), (proj2 (Z.ltb_lt _ NELEM_syscalls)) by lia. cbn [andb].
  by erewrite bind_done by (erewrite bind_done by exact E; reflexivity).
Qed.
End Dispatch.

Lemma sample_ticks tr tr' :
  tr' = tr ++ [EAcquire PtableLock; ERelease TicksLock; ESwtch] →
  @ticks_ret sample_sysext (tr' ++ [ERelease PtableLock; EAcquire TicksLock]) =
  u32 (@ticks_ret sample_sysext tr + 1).
Proof.
  intros ->. cbn [ticks_ret sample_sysext]. rewrite !List.filter_app, !length_app. cbn.
  unfold u32. rewrite Zplus_mod_idemp_l. f_equal. lia.
Qed.

(** ** Properties *)

(** C14.  Arguments of a system call, for a process whose size is at most
    KERNBASE (2^31).  argint answers the int of the n-th stack word if its four
    bytes are below sz, and -1 otherwise, whatever the user's %esp; argptr
    answers a pointer only if its whole block is below sz; argstr answers the
    length up to the first NUL, which is below sz, or -1 when there is none.
    All three depend on no byte outside [0, sz). *)
Theorem argument_fetch `{Ext} `{SysExt} (me i : nat) (s : sys) (p : proc) (n ip pp size : Z)
  (Hc : caller me i p s) (Hsz : sz p <= 2 ^ 31) (Hsize : is_int size) :
  let a := u32 (tf_esp (tf p) + 4 + 4 * n) in
  let q := u32 (i32 (load 4 (umem s) a)) in
  argint me n ip s = Done (if a + 4 <=? sz p then (0, i32 (load 4 (umem s) a)) else (-1, ip)) s
  ∧ (∃ r q', argptr me n pp size s = Done (r, q') s
      ∧ (r = 0 ↔ a + 4 <= sz p ∧ 0 <= size ∧ q < sz p ∧ q + size <= sz p)
      ∧ (r = 0 ∧ q' = q ∨ r = -1 ∧ q' = pp))
  ∧ (∃ r q', argstr me n pp s = Done (r, q') s
      ∧ (0 <= r → q' = q ∧ q + r < sz p ∧ umem s (q + r) = x00 ∧ ∀ x, q <= x < q + r → umem s x ≠ x00)
      ∧ (r < 0 → r = -1 ∧ (sz p < a + 4 ∨ ∀ x, q <= x < sz p → umem s x ≠ x00)))
  ∧ ∀ m', (∀ x, 0 <= x < sz p → m' x = umem s x) →
      value (argint me n ip (set_umem m' s)) = value (argint me n ip s)
      ∧ value (argptr me n pp size (set_umem m' s)) = value (argptr me n pp size s)
      ∧ value (argstr me n pp (set_umem m' s)) = value (argstr me n pp s).
Proof.
  intros a q. assert (Ha : 0 <= a) by apply u32_range. assert (Hq : 0 <= q) by apply u32_range.
  split; [by apply (argint_run me i p)|]. split; [|split].
  - do 2 eexists. split; [by rewrite (argptr_run me i p) by done; fold a q; rewrite <- surjective_pairing|].
    destruct (Z.leb_spec (a + 4) (sz p)), (Z.leb_spec 0 size), (Z.ltb_spec q (sz p)),
      (Z.leb_spec (q + size) (sz p)); cbn; (split; [lia|auto]).
  - rewrite (argstr_run me i p) by done. fold a q. do 2 eexists. split; [by rewrite <- surjective_pairing|].
    pose proof (find_nul_spec (umem s) q (Z.to_nat (sz p - q))) as Hf.
    destruct (Z.leb_spec (a + 4) (sz p)); [|cbn; split; [lia|auto]].
    destruct (Z.ltb_spec q (sz p)); [|cbn; split; [lia|]; intros _; split; [done|right; lia]].
    destruct (find_nul _ _ _) as [e|]; cbn.
    + destruct Hf as (He & Hz & Hn). split; [|lia]. intros _. replace (q + (e - q)) with e by lia.
      split_and!; (done || lia).
    + split; [lia|]. intros _. split; [done|]. right. intros x Hx. apply Hf. lia.
  - intros m' Hm. assert (Hc' : caller me i p (set_umem m' s)) by done.
    rewrite !(argptr_run me i p), !(argstr_run me i p), !(argint_run me i p) by done.
    fold a. cbn [umem set_umem value].
    destruct (Z.leb_spec (a + 4) (sz p)); [|done].
    rewrite (load_ext 4 (umem s) m') by (intros; apply Hm; lia). fold q.
    destruct (Z.ltb_spec q (sz p)); [|done].
    by rewrite (find_nul_ext (umem s) m') by (intros; apply Hm; lia).
Qed.

(** The stack word is 40. *)
Lemma argument_fetch_witness :
  argint 0 0 0 (sample_sys 22 40) = Done (0, 40) (sample_sys 22 40).
Proof.
  destruct (@argument_fetch sample_ext sample_sysext 0 1 (sample_sys 22 40) (sample_caller 22) 0 0 0 8)
    as [E _].
  - split; [eexists; split; reflexivity|reflexivity].
  - discriminate.
  - split; discriminate.
  - exact E.
Defined.

(** C31.  syscall(): a number outside 1..23 answers -1 and changes nothing but
    %eax; every other number has a handler, whose answer goes to the caller's
    saved %eax, and whose failure to return is the call's.  The calls of
    sysproc.c that take an argument answer -1 and change nothing else when its
    word is not below sz. *)
Theorem syscall_dispatch `{Ext} `{SysExt} (me i : nat) (fl : Z) (others : kst → kst) (fuel : nat)
  (s : sys) (p : proc) (Hc : caller me i p s) (Hsz : sz p <= 2 ^ 31) :
  let num := i32 (tf_eax (tf p)) in
  (¬ 1 <= num <= 23 → syscall me fl others fuel s = Done (Ret (-1)) (with_eax i (-1) s))
  ∧ (1 <= num <= 23 → ∃ handler, syscalls me fl others fuel num = Some handler
      ∧ (∀ v s1, handler s = Done (Ret v) s1 → syscall me fl others fuel s = Done (Ret v) (with_eax i v s1))
      ∧ (∀ s1, handler s = Done Gone s1 → syscall me fl others fuel s = Done Gone s1)
      ∧ (∀ w, handler s = Panic w → syscall me fl others fuel s = Panic w))
  ∧ (num ∈ [6; 12; 13; 22; 23] → sz p < u32 (tf_esp (tf p) + 4) + 4 →
      syscall me fl others fuel s = Done (Ret (-1)) (with_eax i (-1) s)).
Proof.
  intros num.
  rewrite (syscall_run me i fl others fuel p) by done. fold num. destruct Hc as [Hi Hp].
  unfold NELEM_syscalls. split; [|split].
  - intros Hn. destruct (Z.ltb_spec 0 num), (Z.ltb_spec num 24); cbn [andb]; (done || lia).
  - intros Hn. rewrite (proj2 (Z.ltb_lt _ _)), (proj2 (Z.ltb_lt num _)) by lia. cbn [andb].
    assert (Hh : ∃ h, syscalls me fl others fuel num = Some h).
    { clear -Hn. destruct num as [|q|q]; [lia| |lia]. do 5 (destruct q as [q|q|]; try lia; try by eexists). }
    destruct Hh as [h ->]. exists h. split; [done|]. split_and!.
    + intros v s1 E. by erewrite bind_done by exact E.
    + intros s1 E. by erewrite bind_done by exact E.
    + intros w E. by apply bind_panic.
  - intros Hn Ha.
    assert (Hbad : argint me 0 0 s = Done (-1, 0) s).
    { rewrite (argint_run me i p) by done. change (4 * 0) with 0. rewrite Z.add_0_r.
      by rewrite (proj2 (Z.leb_gt _ _)). }
    assert (Hbad' : argptr me 0 0 sizeof_pstat s = Done (-1, 0) s).
    { unfold argptr. rewrite (myself_run me i p) by done. by erewrite bind_done by exact Hbad. }
    assert (∃ c, syscalls me fl others fuel num = Some (returning c) ∧ c s = Done (-1) s) as (c & -> & E).
    { repeat (apply elem_of_cons in Hn as [->|Hn]); [..|by apply elem_of_nil in Hn];
        (eexists; split; [reflexivity|]); unfold sys_kill, sys_sbrk, sys_sleep, sys_settickets, sys_getpinfo; by erewrite bind_done by eassumption. }
    assert (1 <= num <= 23).
    { repeat (apply elem_of_cons in Hn as [->|Hn]); [lia..|by apply elem_of_nil in Hn]. }
    rewrite (proj2 (Z.ltb_lt _ _)), (proj2 (Z.ltb_lt num _)) by lia. cbn [andb].
    unfold returning. by erewrite bind_done by (erewrite bind_done by exact E; reflexivity).
Qed.

(** The number is 0. *)
Lemma syscall_dispatch_witness :
  @syscall sample_ext sample_sysext 0 0 id 0 (sample_sys 0 0) = Done (Ret (-1)) (with_eax 1 (-1) (sample_sys 0 0)).
Proof.
  destruct (@syscall_dispatch sample_ext sample_sysext 0 1 0 id 0 (sample_sys 0 0) (sample_caller 0))
    as [E _].
  - split; [eexists; split; reflexivity|reflexivity].
  - discriminate.
  - apply E. intros [? _]. by vm_compute in H.
Defined.

(** C32.  sys_sleep answers 0 only when at least [n] ticks (as an unsigned
    number: a negative [n] counts as 2^32 + n) have passed since it read
    [ticks] first; for 0 <= n, when the timer ticks each time the caller
    sleeps and nobody kills it, the call answers 0 after at most n sleeps. *)
Theorem sys_sleep_ticks `{Ext} `{SysExt} (me i : nat) (fl : Z) (others : kst → kst) (fuel : nat)
  (s : sys) (p : proc) (Hc : caller me i p s) (Hsz : sz p <= 2 ^ 31)
  (Harg : u32 (tf_esp (tf p) + 4) + 4 <= sz p) :
  let n := i32 (load 4 (umem s) (u32 (tf_esp (tf p) + 4))) in
  let t0 := ticks_ret (trace (kern s) ++ [EAcquire TicksLock]) in
  (∀ s', sys_sleep me fl others fuel s = Done 0 s' →
     ∃ tr, trace (kern s') = tr ++ [ERelease TicksLock] ∧ u32 n <= u32 (ticks_ret tr - t0))
  ∧ (0 <= n → n <= Z.of_nat fuel → killed p = 0 → ncli <$> cpus (kern s) !! me = Some 1 →
     Z.land fl FL_IF = 0 → comes_back me i others → ticked others →
     ∃ s', sys_sleep me fl others fuel s = Done 0 s')
  ∧ (0 < u32 n → killed p ≠ 0 → ∃ s', sys_sleep me fl others fuel s = Done (-1) s').
Proof.
  intros n t0.
  assert (Hrun : sys_sleep me fl others fuel s =
    sleep_loop me fl others t0 n fuel (set_kern (set_trace (trace (kern s) ++ [EAcquire TicksLock]) (kern s)) s)).
  { unfold sys_sleep. erewrite bind_done by by apply (argint_run me i p). change (4 * 0) with 0.
    rewrite Z.add_0_r, (proj2 (Z.leb_le _ _)) by done. fold n. cbn [Z.ltb Z.compare]. by rewrite lift_run. }
  rewrite Hrun. destruct Hc as [Hi Hp]. split_and!.
  - intros s' E. by apply sleep_loop_elapsed in E.
  - intros Hn Hf Hk Hcl Hfl Hback Htick.
    apply (sleep_loop_ends me i); try done.
    + split; [done|]. split; [by exists p|done].
    + split; [done|]. apply i32_range.
    + cbn. fold t0. rewrite Z.sub_diag. change (u32 0) with 0. lia.
  - intros Hn Hk.
    assert (Hlt : u32 (t0 - t0) <? u32 n = true)
      by (rewrite Z.sub_diag; change (u32 0) with 0; by apply Z.ltb_lt).
    assert (Hke : negb (killed p =? 0) = true) by by destruct (Z.eqb_spec (killed p) 0).
    destruct fuel as [|k]; cbn [sleep_loop]; unfold read_ticks; run; fold t0; rewrite Hlt;
      rewrite (myself_run me i p) by done; rewrite Hke, lift_run; by eexists.
Qed.

(** A caller sleeps two ticks, alone on the machine. *)
Lemma sys_sleep_ticks_witness :
  ∃ s', @sys_sleep sample_ext sample_sysext 0 0 id 2 (sample_sys 13 2) = Done 0 s'.
Proof.
  destruct (@sys_sleep_ticks sample_ext sample_sysext 0 1 0 id 2 (sample_sys 13 2) (sample_caller 13))
    as (_ & E & _); try done.
  - split; [eexists; split; reflexivity|reflexivity].
  - apply E; try done.
    + intros k p Hi Hp Hk Hn. split; [done|]. split; [by exists p|done].
    + intros k tr Hk. exists 1. split; [done|]. by apply sample_ticks.
Defined.

(** C30.  settickets and getpinfo as user code makes them.  Call 22 with a
    number below 1 answers -1 and changes only %eax; otherwise it answers 0
    and the number becomes the caller's tickets.  When the caller then makes
    call 23, with registers and memory of its choice, for a non-null block that
    lies below sz, the answer is 0, no byte outside the block changes, and the
    block holds, at the offsets of struct pstat, whether each slot is not
    UNUSED, its tickets (the caller's being that number), pid and ticks. *)
Theorem settickets_getpinfo_calls `{Ext} `{SysExt} (me i : nat) (fl : Z) (others : kst → kst)
  (fuel : nat) (s : sys) (p : proc) (Hc : caller me i p s) (Hsz : sz p <= 2 ^ 31)
  (Hlen : length (ptable (kern s)) = NPROC) (Hnum : i32 (tf_eax (tf p)) = 22)
  (Harg : u32 (tf_esp (tf p) + 4) + 4 <= sz p) :
  let number := i32 (load 4 (umem s) (u32 (tf_esp (tf p) + 4))) in
  (number < 1 → syscall me fl others fuel s = Done (Ret (-1)) (with_eax i (-1) s))
  ∧ (1 <= number → ∃ s1, syscall me fl others fuel s = Done (Ret 0) s1 ∧ umem s1 = umem s
      ∧ ptable (kern s1) = <[i := set_tf (set_eax 0 (tf p)) (set_tickets number p)]> (ptable (kern s))
      ∧ ∀ t m, let s2 := user_ran i t m s1 in let q := u32 (i32 (load 4 m (u32 (tf_esp t + 4)))) in
          i32 (tf_eax t) = 23 → u32 (tf_esp t + 4) + 4 <= sz p → q ≠ 0 → q + sizeof_pstat <= sz p →
          ∃ s3, syscall me fl others fuel s2 = Done (Ret 0) s3
            ∧ (∀ x, x < q ∨ q + sizeof_pstat <= x → umem s3 x = m x)
            ∧ load 4 (umem s3) (q + 256 + 4 * Z.of_nat i) = number
            ∧ ∀ (k : nat) pk, ptable (kern s2) !! k = Some pk →
                load 4 (umem s3) (q + 4 * Z.of_nat k) = (if bool_decide (state pk ≠ UNUSED) then 1 else 0)
                ∧ load 4 (umem s3) (q + 256 + 4 * Z.of_nat k) = u32 (tickets pk)
                ∧ load 4 (umem s3) (q + 512 + 4 * Z.of_nat k) = u32 (pid pk)
                ∧ load 4 (umem s3) (q + 768 + 4 * Z.of_nat k) = u32 (ticks pk)).
Proof.
  intros number.
  assert (Harg22 : argint me 0 0 s = Done (0, number) s).
  { rewrite (argint_run me i p) by done. change (4 * 0) with 0. rewrite Z.add_0_r.
    by rewrite (proj2 (Z.leb_le _ _)). }
  destruct Hc as [Hi Hp]. pose proof (proj2 (runs_curproc _ _ _) Hi) as Hi'.
  assert (Hlt : (i < length (ptable (kern s)))%nat) by by eapply lookup_lt_Some.
  split.
  - intros Hn. apply (syscall_returns me i fl others fuel p s (sys_settickets me)); [done|by rewrite Hnum|by rewrite Hnum|].
    unfold sys_settickets. erewrite bind_done by exact Harg22. cbn [Z.ltb Z.compare]. unfold lift, settickets.
    rewrite (proj2 (Z.ltb_lt _ _)) by done. cbn. by rewrite set_kern_self.
  - intros Hn. eexists. split; [|split; [|split]].
    { eapply (syscall_returns me i fl others fuel p s (sys_settickets me)); [done|by rewrite Hnum|by rewrite Hnum|].
      unfold sys_settickets. erewrite bind_done by exact Harg22. cbn [Z.ltb Z.compare]. unfold lift, settickets.
      rewrite (proj2 (Z.ltb_ge number 1)) by done. run. rewrite Hi'. run. reflexivity. }
    { done. }
    { cbn. rewrite alter_alter. by rewrite (alter_at_slot _ _ _ p) by done. }
    set (s1 := with_eax _ _ _). intros t m s2 q Ht Ha Hq Hin.
    set (p2 := set_tf t (set_tickets number p)).
    assert (Hp2 : ptable (kern s2) !! i = Some p2).
    { cbn. rewrite !list_lookup_alter_eq, Hp. done. }
    assert (Hlen2 : length (ptable (kern s2)) = NPROC) by (cbn; by rewrite !length_alter).
    assert (Hc2 : caller me i p2 s2) by done.
    assert (Hptr : argptr me 0 0 sizeof_pstat s2 = Done (0, q) s2).
    { rewrite (argptr_run me i p2) by done. change (4 * 0) with 0. rewrite Z.add_0_r. cbn [umem user_ran s2].
      change (tf p2) with t. fold q. rewrite !(proj2 (Z.leb_le _ _)) by done. change (sz p2) with (sz p).
      change sizeof_pstat with 1024 in Hin. by rewrite (proj2 (Z.ltb_lt q (sz p))) by lia. }
    destruct (store_pstat_spec m q (ptable (kern s2)) Hlen2) as [Hout Hrow].
    exists (with_eax i 0 (Sys (set_trace (locked (trace (kern s2))) (kern s2))
      (store_pstat m q (info_of (ptable (kern s2)))))).
    split; [|split; [done|split; [|done]]].
    + eapply (syscall_returns me i fl others fuel p2 s2 (sys_getpinfo me)); [done|by change (tf p2) with t; rewrite Ht|by change (tf p2) with t; rewrite Ht|].
      unfold sys_getpinfo. erewrite bind_done by exact Hptr. cbn [Z.ltb Z.compare].
      destruct (Z.eqb_spec q 0); [done|]. rewrite lift_run. unfold getpinfo. run.
      unfold locked. by rewrite <- app_assoc.
    + change (load 4 (store_pstat m q (info_of (ptable (kern s2)))) (q + 256 + 4 * Z.of_nat i) = number).
      rewrite (proj1 (proj2 (Hrow i p2 Hp2))). cbn. apply u32_small.
      pose proof (i32_range (load 4 (umem s) (u32 (tf_esp (tf p) + 4)))) as Hr. fold number in Hr.
      unfold is_int, INT_MAX in Hr. lia.
Qed.

(** A block at 0x1000, with the pointer to it in the caller's stack word. *)
Lemma settickets_getpinfo_calls_witness :
  ∃ s1 s3, @syscall sample_ext sample_sysext 0 0 id 0 (sample_sys 22 40) = Done (Ret 0) s1
    ∧ @syscall sample_ext sample_sysext 0 0 id 0 (user_ran 1 (sample_regs 23) (sample_mem 0x1000) s1) = Done (Ret 0) s3
    ∧ load 4 (umem s3) 0x1104 = 40.
Proof.
  destruct (@settickets_getpinfo_calls sample_ext sample_sysext 0 1 0 id 0 (sample_sys 22 40)
    (sample_caller 22)) as [_ E]; try done.
  - split; [eexists; split; reflexivity|reflexivity].
  - destruct E as (s1 & E1 & _ & _ & H); [by vm_compute|].
    destruct (H (sample_regs 23) (sample_mem 0x1000)) as (s3 & E3 & _ & Hl & _); try done.
    exists s1, s3. exact (conj E1 (conj E3 Hl)).
Defined.
