(* ===== verification/LotteryCalls.v ===== *)
(** System calls on the process table (Lab2): syscall.c and sysproc.c over
    proc.c.  Each call of sysproc.c, whatever its arguments, keeps the table
    invariant of LotteryTable.v, through the sleeps it makes. *)
From S2P Require Import Prelude Rand LotteryProc LotteryTable LotteryInv LotteryLife LotterySyscall.

(** ** Definitions *)

(** Slot [i] runs on CPU [me], and the table keeps its invariant. *)
Definition sound (w : bool) (me i : nat) (k : kst) : Prop := inv w k ∧ runs k me i.
(** What a sleeper may expect of the rest of the system: from the state [b] in
    which its CPU is the scheduler's again, it comes back to a state that keeps
    the invariant, and runs ([rely_steps]: the steps of LotteryTable.v do). *)
Definition rely (w : bool) (me i : nat) (others : kst → kst) : Prop := ∀ k b p, runs k me i → ptable k !! i = Some p →
  state p = SLEEPING → scheduler_back me k = Done tt b → inv w b → sound w me i (others k).
(** The calls whose handlers are in files that the repository does not have. *)
Definition elsewhere : list Z :=
  [SYS_pipe; SYS_read; SYS_exec; SYS_fstat; SYS_chdir; SYS_dup; SYS_open; SYS_write; SYS_mknod; SYS_unlink;
   SYS_link; SYS_mkdir; SYS_close].

(** If [c] finishes from a sound state, it does so in a sound state. *)
Definition preserves (w : bool) (me i : nat) {A} (c : Sy A) : Prop :=
  ∀ s v s', sound w me i (kern s) → c s = Done v s' → sound w me i (kern s').
(** After the call that returns nothing, its CPU being the scheduler's. *)
Definition answered (w : bool) (me i : nat) (r : answer) (k : kst) : Prop :=
  match r with Ret _ => sound w me i k | Gone => ∃ b, scheduler_back me k = Done tt b ∧ inv w b end.

(** Slot [i] is dispatched when it is woken: the rest of the system for one
    process alone. *)
Definition woken (i : nat) (k : kst) : kst := set_ptable (alter (set_state RUNNING) i (ptable k)) k.

(** ** Lemmas *)

Create HintDb preserves discriminated.

Section preserves.
Context {X : Ext} {Y : SysExt} {w : bool} (me i : nat).

(** *** The rules of [preserves] *)

Lemma runs_same k k' : same_rest k k' → runs k me i → runs k' me i.
Proof.
  intros (_ & _ & Ec) (c & Hc & Hi).
  assert (Hf : (cpu_proc <$> cpus k') !! me = Some (Some i)) by (by rewrite Ec, list_lookup_fmap, Hc, <- Hi).
  rewrite list_lookup_fmap, fmap_Some in Hf. destruct Hf as (c' & Hc' & Hi'). by exists c'.
Qed.
Lemma sound_same k k' : sound w me i k → ptable k' = ptable k → same_rest k k' → sound w me i k'.
Proof. intros [I Hr] Ep Hs. split; [by eapply inv_same|by eapply runs_same]. Qed.

Lemma pres_ret {A} (a : A) : preserves w me i (mret a).
Proof. by intros s v s' I [= _ <-]. Qed.
Lemma pres_bind {A B} (c : Sy A) (k : A → Sy B) : preserves w me i c → (∀ a, preserves w me i (k a)) → preserves w me i (c ≫= k).
Proof. intros Hc Hk s v s' I H. apply bind_Done_inv in H as (a & s1 & H1 & H2). eapply Hk; [|done]. by eapply Hc. Qed.
Lemma pres_gets {A} (f : sys → A) : preserves w me i (gets f).
Proof. by intros s v s' I [= _ <-]. Qed.
Lemma pres_umem f : preserves w me i (modify (λ s, set_umem (f s) s)).
Proof. by intros s v s' I [= _ <-]. Qed.
Lemma pres_no_fuel {A} : preserves w me i (no_fuel : Sy A).
Proof. done. Qed.
Lemma pres_lift {A} (c : K A) : (∀ k v k', sound w me i k → c k = Done v k' → sound w me i k') → preserves w me i (lift c).
Proof.
  intros Hc s v s' I H. unfold lift in H. destruct (c (kern s)) as [a k'| |] eqn:E; simplify_eq. by eapply Hc.
Qed.
Lemma pres_if {A} (b : bool) (c d : Sy A) : preserves w me i c → preserves w me i d → preserves w me i (if b then c else d).
Proof. by destruct b. Qed.
Lemma sound_updp k j f : sound w me i k →
  (∀ p, state (f p) = state p ∧ pid (f p) = pid p ∧ parent (f p) = parent p
        ∧ (tickets (f p) = tickets p ∨ 1 <= tickets (f p))) →
  sound w me i (set_ptable (alter f j (ptable k)) k).
Proof. intros [I Hr] Hf. split; [by eapply (inv_set k _ j f)|done]. Qed.

(** Along the structure of the code, to the calls, which the hints know. *)
Ltac pres_tac :=
  repeat lazymatch goal with
  | |- ∀ _, _ => intro; cbv beta
  | |- preserves _ _ _ (_ ≫= _) => apply pres_bind
  | |- preserves _ _ _ (mret _) => apply pres_ret
  | |- preserves _ _ _ (gets _) => apply pres_gets
  | |- preserves _ _ _ (modify _) => apply pres_umem
  | |- preserves _ _ _ (if _ then _ else _) => apply pres_if
  | |- preserves _ _ _ (match ?x with _ => _ end) => destruct x
  | |- preserves _ _ _ (lift _) => first [solve [auto 1 with preserves] | apply pres_lift; intros; solve [eauto 2 with preserves]]
  | |- _ => solve [auto 2 with preserves]
  end.

(** *** The calls of proc.c *)

Lemma sound_fork k v k' : (∀ tr f, filedup_ret tr f = f) → (w = true → nextpid k < INT_MAX) → sound w me i k → fork me k = Done v k' → sound w me i k'.
Proof.
  intros Hdup Hmax [I Hr] H. split; [by eapply (inv_fork Hdup me v k)|].
  destruct (runs_running _ _ _ I Hr) as (p & Hp & Hst).
  destruct (fork_run me i k p Hdup Hr Hp) as (v' & k1 & E & Ec & _); [by rewrite Hst|].
  rewrite E in H. injection H as <- <-. by eapply runs_ext.
Qed.
Lemma sound_kill n k v k' : sound w me i k → kill n k = Done v k' → sound w me i k'.
Proof.
  intros [I Hr] H. split; [by eapply inv_kill|]. unfold kill in H. by runin H; simplify_eq.
Qed.
Lemma sound_growproc n k v k' : sound w me i k → growproc me n k = Done v k' → sound w me i k'.
Proof.
  intros [I Hr] H. split; [by eapply inv_growproc|]. unfold growproc, allocuvm, deallocuvm in H. by runin H; simplify_eq.
Qed.
Lemma sound_settickets n k v k' : sound w me i k → settickets me n k = Done v k' → sound w me i k'.
Proof.
  intros [I Hr] H. split; [by eapply inv_settickets|]. unfold settickets in H. by runin H; simplify_eq.
Qed.
Lemma sound_getpinfo o k v k' : sound w me i k → getpinfo o k = Done v k' → sound w me i k'.
Proof. intros I H. unfold getpinfo in H. runin H; simplify_eq; by eapply sound_same. Qed.
Lemma sound_curproc k v k' : sound w me i k → curproc me k = Done v k' → v = i ∧ k' = k.
Proof.
  intros [_ Hr] H. apply runs_curproc in Hr. unfold curproc, myproc in H. runin H; simplify_eq. split; [congruence|done].
Qed.
Lemma sound_getp j k v k' : sound w me i k → getp j k = Done v k' → sound w me i k'.
Proof. intros I H. unfold getp in H. runin H; by simplify_eq. Qed.
Lemma sound_lock (f : lockid → K unit) l k v k' : f = acquire ∨ f = release → sound w me i k → f l k = Done v k' → sound w me i k'.
Proof. intros [->| ->] I H; injection H as _ <-; by eapply sound_same. Qed.

(** *** Sleeping *)

Section sleeping.
Context (fl : Z) (others : kst → kst) (Hrely : rely w me i others).

(** One sleep, from the switch away to the return. *)
Lemma sound_nap c l k ie k1 k2 : sound w me i k → sleep_enter me c (Some l) fl true k = Done ie k1 →
  sleep_leave me ie i l (others k1) = Done tt k2 → sound w me i k2.
Proof using Hrely.
  intros [I Hr] H1 H2.
  destruct (scheduler_back me k1) as [[] b| |] eqn:Hb; [|by rewrite scheduler_back_run in Hb..].
  assert (H : (sleep_enter me c (Some l) fl true;; scheduler_back me) k = Done tt b) by (by erewrite bind_done).
  pose proof (inv_sleep me c l fl k b I H) as Ib.
  destruct (sleep_effect _ _ _ _ _ _ H) as (j & p & Hj & Hp & _ & Ep & _).
  assert (j = i) as -> by by eapply runs_det. assert (Eb : ptable b = ptable k1) by (rewrite scheduler_back_run in Hb; by simplify_eq). rewrite Eb in Ep.
  assert (Hr1 : runs k1 me i).
  { unfold sleep_enter, myproc in H1. runin H1; apply sched_effect in H1 as (? & ? & _ & _ & _ & ->); done. }
  assert (Hp1 : ptable k1 !! i = Some (set_state SLEEPING (set_chan c p))).
  { rewrite Ep. apply list_lookup_insert_eq. by eapply lookup_lt_Some. }
  destruct (Hrely k1 b _ Hr1 Hp1 eq_refl Hb Ib) as [I2 Hr2].
  apply sleep_leave_effect in H2 as [Ep2 Hs2]. split; [|by eapply runs_same].
  eapply inv_set; [exact I2|exact Ep2|exact Hs2|]. cbn. auto.
Qed.

Lemma sound_wait_loop fuel k v k' : sound w me i k → wait_loop me fl others fuel k = Done v k' → sound w me i k'.
Proof using Hrely.
  revert k. induction fuel as [|fuel IH]; intros k S H; [done|]. cbn [wait_loop] in H.
  apply bind_Done_inv in H as (r & k1 & H1 & H).
  apply wait_pass_effect in H1 as (j & Hj & [[-> ->]|[[-> Ht]|(c & q & -> & Hc & Hpar & Hz & Ep & Hs)]]).
  - apply bind_Done_inv in H as (j' & k2 & H2 & H). destruct (sound_curproc _ _ _ S H2) as [-> ->].
    apply bind_Done_inv in H as (ie & k3 & H3 & H). rewrite modify_bind in H.
    apply bind_Done_inv in H as ([] & k4 & H4 & H). eapply IH; [|exact H]. by eapply sound_nap.
  - injection H as _ <-. destruct Ht. by eapply sound_same.
  - injection H as _ <-. destruct S as [I Hr]. split; [|by eapply runs_same].
    eapply (inv_quiet k k1); [done| |done]. rewrite Ep, <- (alter_at_slot reap) by done.
    eapply Forall2_alter_quiet; [apply I|]. intros p Hp. simplify_eq. by apply quiet_reap.
Qed.
Lemma sound_wait fuel k v k' : sound w me i k → wait me fl others fuel k = Done v k' → sound w me i k'.
Proof using Hrely.
  intros S H. unfold wait in H. rewrite acquire_bind in H. eapply sound_wait_loop; [|exact H]. by eapply sound_same.
Qed.

(** *** The handlers of syscall.c and sysproc.c *)

Lemma pres_myself : preserves w me i (myself me).
Proof.
  apply pres_lift. intros k v k' S H. apply bind_Done_inv in H as (j & k1 & H1 & H).
  destruct (sound_curproc _ _ _ S H1) as [-> ->]. by eapply sound_getp.
Qed.
Lemma pres_acquire l : preserves w me i (lift (acquire l)).
Proof. apply pres_lift. intros k v k'. by apply sound_lock; left. Qed.
Lemma pres_release l : preserves w me i (lift (release l)).
Proof. apply pres_lift. intros k v k'. by apply sound_lock; right. Qed.
#[local] Hint Resolve pres_myself pres_acquire pres_release : preserves.

#[local] Hint Resolve sound_kill sound_growproc sound_settickets sound_getpinfo : preserves.
Lemma pres_fetchint addr ip : preserves w me i (fetchint me addr ip).
Proof. unfold fetchint. pres_tac. Qed.
#[local] Hint Resolve pres_fetchint : preserves.
Lemma pres_argint n ip : preserves w me i (argint me n ip).
Proof. unfold argint. pres_tac. Qed.
#[local] Hint Resolve pres_argint : preserves.
Lemma pres_argptr n pp size : preserves w me i (argptr me n pp size).
Proof. unfold argptr. pres_tac. Qed.
#[local] Hint Resolve pres_argptr : preserves.
Lemma pres_kill : preserves w me i (sys_kill me).
Proof. unfold sys_kill. pres_tac. Qed.
Lemma pres_sbrk : preserves w me i (sys_sbrk me).
Proof. unfold sys_sbrk. pres_tac. Qed.
Lemma pres_uptime : preserves w me i sys_uptime.
Proof. unfold sys_uptime, read_ticks. pres_tac. Qed.
Lemma pres_settickets : preserves w me i (sys_settickets me).
Proof. unfold sys_settickets. pres_tac. Qed.
Lemma pres_getpinfo : preserves w me i (sys_getpinfo me).
Proof. unfold sys_getpinfo. pres_tac. Qed.
Lemma pres_wait fuel : preserves w me i (sys_wait me fl others fuel).
Proof using Hrely. apply pres_lift. by apply sound_wait. Qed.

Lemma pres_nap c l (k : Sy Z) : preserves w me i k →
  preserves w me i (j ← lift (curproc me); ie ← lift (sleep_enter me c (Some l) fl true);
              lift (modify others);; lift (sleep_leave me ie j l);; k).
Proof using Hrely.
  intros Hk s v s' S H. rewrite (runs_run me i) in H by apply S. rewrite lift_run in H.
  destruct (sleep_enter _ _ _ _ _ _) as [ie k1| |] eqn:E1; try done. rewrite !lift_run in H. cbn [modify] in H.
  rewrite lift_run in H. destruct (sleep_leave _ _ _ _ _) as [[] k2| |] eqn:E2; try done.
  eapply Hk; [|exact H]. by eapply sound_nap.
Qed.
Lemma pres_sleep_loop t0 n fuel : preserves w me i (sleep_loop me fl others t0 n fuel).
Proof using Hrely.
  induction fuel as [|fuel IH]; cbn [sleep_loop]; unfold read_ticks;
    (apply pres_bind; [pres_tac|intros t]); (apply pres_if; [|pres_tac]);
    (apply pres_bind; [pres_tac|intros p]); (apply pres_if; [pres_tac|]); [done|].
  by apply pres_nap.
Qed.
Lemma pres_sleep fuel : preserves w me i (sys_sleep me fl others fuel).
Proof using Hrely. unfold sys_sleep, read_ticks. pose proof pres_sleep_loop. pres_tac. Qed.

(** *** The calls that do not sleep answer *)

Lemma lift_done {A} (c : K A) k v k' m : c k = Done v k' → lift c (Sys k m) = Done v (Sys k' m).
Proof. intros E. unfold lift. cbn [kern]. by rewrite E. Qed.

(** After its argument has been fetched. *)
Lemma after_argint p s (k : Z → Sy Z) : caller me i p s → sz p <= 2 ^ 31 → (∀ n, ∃ v s', k n s = Done v s') →
  ∃ v s', ('(r, n) ← argint me 0 0; if r <? 0 then mret (-1) else k n) s = Done v s'.
Proof.
  intros Hc Hsz Hk. erewrite bind_done by by apply (argint_run me i p). destruct (_ <=? sz p); [apply Hk|by do 2 eexists].
Qed.
Lemma calls_answer p s num fuel : (∀ tr f, filedup_ret tr f = f) → caller me i p s → sz p <= 2 ^ 31 → state p = RUNNING →
  num ∈ [1; 6; 11; 12; 14; 22; 23] →
  ∃ c v s', syscalls me fl others fuel num = Some (returning c) ∧ c s = Done v s'.
Proof.
  intros Hdup Hc Hsz Hst Hn. destruct s as [k m]. pose proof Hc as [Hr Hp]. cbn [kern] in Hr, Hp.
  pose proof (proj2 (runs_curproc _ _ _) Hr) as Hcp.
  repeat (apply elem_of_cons in Hn as [->|Hn]); [..|by apply elem_of_nil in Hn]; eexists.
  - destruct (fork_run me i k p Hdup Hr Hp) as (v & k' & E & _); [by rewrite Hst|].
    do 2 eexists. split; [reflexivity|]. by apply lift_done.
  - destruct (after_argint p (Sys k m) (λ n, lift (kill n)) Hc Hsz) as (v & s' & E); [|do 2 eexists; split; [reflexivity|exact E]].
    intros n. unfold kill, lift. run. destruct (find_pid n (ptable k)); run; by do 2 eexists.
  - do 2 eexists. split; [reflexivity|]. unfold sys_getpid. by rewrite (myself_run me i p).
  - destruct (after_argint p (Sys k m) (λ n, p ← myself me; g ← lift (growproc me n); tr ← gets (trace ∘ kern);
      modify (λ s, set_umem (grow_mem tr (umem s)) s);; if g <? 0 then mret (-1) else mret (i32 (sz p))) Hc Hsz)
      as (v & s' & E); [|do 2 eexists; split; [reflexivity|exact E]].
    intros n. rewrite (myself_run me i p) by done. destruct (growproc_spec me i k p n Hr Hp) as (g & k' & E & _).
    rewrite lift_run. cbn [kern]. rewrite E. run. destruct (g <? 0); by do 2 eexists.
  - do 2 eexists. split; [reflexivity|]. unfold sys_uptime, read_ticks. rewrite lift_run. run. rewrite lift_run. done.
  - destruct (after_argint p (Sys k m) (λ n, lift (settickets me n)) Hc Hsz) as (v & s' & E); [|do 2 eexists; split; [reflexivity|exact E]].
    intros n. unfold settickets, lift. destruct (n <? 1); [by do 2 eexists|]. run. rewrite Hcp. run. by do 2 eexists.
  - assert (∃ v s', sys_getpinfo me (Sys k m) = Done v s') as (v & s' & E); [|do 2 eexists; split; [reflexivity|exact E]].
    unfold sys_getpinfo. erewrite bind_done by by apply (argptr_run me i p (Sys k m) Hc Hsz 0 0 sizeof_pstat).
    destruct (_ && _); [|by do 2 eexists]. cbn [Z.ltb Z.compare]. rewrite lift_run. unfold getpinfo. cbn [kern].
    destruct (_ =? 0); run; by do 2 eexists.
Qed.

(** *** The dispatch *)

Definition handler_ok (s : sys) (h : Sy answer) : Prop := ∀ r s', h s = Done r s' → answered w me i r (kern s').
Lemma pres_ok s (c : Sy Z) : sound w me i (kern s) → preserves w me i c → handler_ok s (returning c).
Proof.
  intros S Hc r s' H. apply bind_Done_inv in H as (v & s1 & H1 & H). injection H as <- <-. by eapply Hc.
Qed.
Lemma handlers_ok fuel s : (∀ tr f, filedup_ret tr f = f) → (w = true → nextpid (kern s) < INT_MAX) →
  sound w me i (kern s) → Forall (λ e, e.1 ∉ elsewhere → handler_ok s e.2) (syscalls_init me fl others fuel).
Proof using Hrely.
  intros Hdup Hmax S. unfold syscalls_init.
  repeat apply Forall_cons_2; try (intros []; apply (bool_decide_unpack _); vm_compute; exact Logic.I);
    try (apply Forall_nil; exact I); intros _; cbn [snd].
  - intros r s' H. apply bind_Done_inv in H as (v & s1 & H1 & H). injection H as <- <-. unfold sys_fork, lift in H1.
    destruct (fork me (kern s)) as [x k'| |] eqn:E; simplify_eq. by eapply sound_fork.
  - intros r s' H. unfold sys_exit in H. rewrite lift_run in H.
    destruct (exit me fl true (kern s)) as [x k'| |] eqn:E; [|done..]. injection H as <- <-. cbn [answered kern set_kern].
    destruct (scheduler_back me k') as [[] b| |] eqn:Hb; [|by rewrite scheduler_back_run in Hb..].
    exists b. split; [done|]. eapply (inv_exit me fl (kern s)); [apply S|]. by erewrite bind_done.
  - apply pres_ok, pres_wait; done.
  - apply pres_ok, pres_kill; done.
  - apply pres_ok; [done|]. apply pres_bind; [apply pres_myself|]. intros. apply pres_ret.
  - apply pres_ok, pres_sbrk; done.
  - apply pres_ok, pres_sleep; done.
  - apply pres_ok, pres_uptime; done.
  - apply pres_ok, pres_settickets; done.
  - apply pres_ok, pres_getpinfo; done.
Qed.

Lemma pres_put_eax v : preserves w me i (put_eax i v).
Proof. apply pres_lift. intros k x k' S H. injection H as _ <-. apply sound_updp; [done|]. intros p. cbn. auto. Qed.
Lemma syscall_left p fuel s : (∀ tr f, filedup_ret tr f = f) → (w = true → nextpid (kern s) < INT_MAX) →
  inv w (kern s) → caller me i p s → i32 (tf_eax (tf p)) ∉ elsewhere → handler_ok s (syscall me fl others fuel).
Proof using Hrely.
  intros Hdup Hmax I Hc Hnum r s' H. assert (S : sound w me i (kern s)) by (split; [exact I|apply Hc]).
  rewrite (syscall_run me i fl others fuel p) in H by done.
  match type of H with match ?x with _ => _ end = _ => destruct x as [h|] eqn:Eh end.
  - apply bind_Done_inv in H as (v & s1 & H1 & H).
    assert (Hok : handler_ok s h).
    { destruct (_ && _); [|done]. unfold syscalls in Eh. apply fmap_Some in Eh as ([j e] & He & ->).
      apply list_find_Some in He as (He & He1 & _). pose proof (handlers_ok fuel s Hdup Hmax S) as HF.
      rewrite Forall_lookup in HF. apply (HF j e He). by rewrite He1. }
    specialize (Hok v s1 H1). destruct v as [v|]; [|by injection H as <- <-].
    apply bind_Done_inv in H as (u & s2 & H2 & H). injection H as <- <-. by eapply (pres_put_eax v).
  - injection H as <- <-. eapply (pres_put_eax (-1) s tt); [done|reflexivity].
Qed.
End sleeping.
End preserves.

(** A process alone is a rest of the system that a sleeper can rely on. *)
Lemma rely_woken {X : Ext} w me i : rely w me i (woken i).
Proof.
  intros k b p Hr Hp Hst Hb Ib. rewrite scheduler_back_run in Hb. injection Hb as <-. destruct Hr as (c & Hc & Hi).
  match type of Ib with inv _ ?x => set (b := x) in * end.
  set (b1 := set_ptable (alter (set_state RUNNABLE) i (ptable b)) b).
  assert (I1 : inv w b1).
  { eapply (inv_alter b b1 i); [exact Ib|reflexivity|done|]. intros q Hq.
    assert (q = p) as -> by (cbn in Hq; congruence). pose proof (so_tickets _ _ (inv_slots _ Ib) i p Hp) as Ht.
    unfold quiet, used, live in *. cbn. rewrite Hst in *. split_and!; try done; [|auto]. intros _. split_and!; try done. by apply Ht. }
  assert (Hp1 : ptable b1 !! i = Some (set_state RUNNABLE p)) by (cbn; by rewrite list_lookup_alter_eq, Hp).
  assert (Ec : cpus k = alter (λ c, Cpu (apicid c) (ncli c) (intena c) (Some i)) me (cpus b1)).
  { cbn. rewrite list_alter_alter_eq. apply list_eq. intros j. rewrite list_lookup_alter.
    case_decide as E; [subst j|done]. rewrite Hc. cbn. rewrite <- Hi. by destruct c. }
  split; [|by exists c].
  eapply (inv_start b1 (woken i k) me i); [exact I1| |exact Hp1|done| |exact Ec|done|done|..].
  - exists (Cpu (apicid c) (ncli c) (intena c) None). cbn. by rewrite list_lookup_alter_eq, Hc.
  - cbn. rewrite (alter_at_slot _ _ _ p), (alter_at_slot _ _ _ p) by done. by rewrite list_insert_insert_eq.
  - done.
  - done.
  - done.
  - done.
Qed.

(** So is any run of the system's other steps that ends when a scheduler picks
    the process on its CPU. *)
Lemma rely_steps {X : Ext} (w : bool) me i others : (∀ tr f, filedup_ret tr f = f) →
  (∀ k b p, runs k me i → ptable k !! i = Some p → state p = SLEEPING → scheduler_back me k = Done tt b →
    ∃ r, (if w then unwrapped b r else reachable b r) ∧ idle r me ∧ scheduler_pick me r = Done (Some i) (others k)) →
  rely w me i others.
Proof.
  intros Hdup H k b p Hr Hp Hst Hb Ib. destruct (H k b p Hr Hp Hst Hb) as (r & Hbr & Hid & E).
  assert (Ir : inv w r).
  { destruct w; revert Ib; clear -Hbr Hdup; induction Hbr as [|s1 s2 s3 Hs _ IH]; try done; intros I; apply IH.
    - destruct Hs as [Hs Hm]. by eapply (inv_step Hdup s1).
    - by eapply (inv_step Hdup s1). }
  assert (E' : resume me (λ j, mret j) r = Done i (others k)) by (unfold resume; by rewrite (bind_done _ _ _ _ _ E)).
  destruct (inv_resume me (λ j, mret j) r i (others k) Ir Hid E') as (j & s1 & I1 & R1 & [= -> ->]). by split.
Qed.

Lemma inv_sample_sys num arg : inv true (kern (sample_sys num arg)).
Proof.
  eapply (inv_set sample_running _ 1 (λ p, set_tf (sample_regs num) (set_sz 0x3000 p))); [apply inv_sample_running|reflexivity|done|].
  intros p. cbn. auto.
Qed.

(** ** Properties *)

(** C11.  The system calls of sysproc.c (fork, exit, wait, kill, getpid, sbrk,
    sleep, uptime, settickets, getpinfo), and the numbers that are no call's,
    keep the process table in order, whatever their arguments: a call that
    returns leaves the table invariant, and the caller running on its CPU, also
    when it slept on the way, provided that the rest of the system keeps the
    invariant meanwhile; after exit, which does not return, the invariant holds
    when the scheduler has the CPU again.  The part of the invariant about pids
    ([w]) is kept as long as nextpid is not yet INT_MAX.  fork, kill, getpid,
    sbrk, uptime, settickets and getpinfo always return to a process whose size
    is at most KERNBASE (2^31).  The calls whose handlers are in files that the
    repository does not have are not covered. *)
Theorem syscalls_keep_table `{Ext} `{SysExt} (w : bool) (me i : nat) (fl : Z) (others : kst → kst) (fuel : nat) (s : sys) (p : proc)
  (Hdup : ∀ tr f, filedup_ret tr f = f) (Hrely : rely w me i others) (I : inv w (kern s))
  (Hmax : w = true → nextpid (kern s) < INT_MAX) (Hc : caller me i p s) (Hnum : i32 (tf_eax (tf p)) ∉ elsewhere) :
  (∀ v s', syscall me fl others fuel s = Done (Ret v) s' → inv w (kern s') ∧ runs (kern s') me i)
  ∧ (∀ s', syscall me fl others fuel s = Done Gone s' → ∃ k, scheduler_back me (kern s') = Done tt k ∧ inv w k)
  ∧ (i32 (tf_eax (tf p)) ∈ [SYS_fork; SYS_kill; SYS_getpid; SYS_sbrk; SYS_uptime; SYS_settickets; SYS_getpinfo] →
     sz p <= 2 ^ 31 → ∃ v s', syscall me fl others fuel s = Done (Ret v) s').
Proof.
  pose proof (syscall_left me i fl others Hrely p fuel s Hdup Hmax I Hc Hnum) as Hl. split_and!.
  - intros v s' E. exact (Hl _ _ E).
  - intros s' E. exact (Hl _ _ E).
  - intros Hn Hsz. destruct (runs_running _ _ _ I (proj1 Hc)) as (q & Hq & Hst).
    assert (q = p) as -> by (destruct Hc; congruence).
    destruct (calls_answer me i fl others p s _ fuel Hdup Hc Hsz Hst Hn) as (c & v & s' & Hh & E).
    do 2 eexists. apply (syscall_returns me i fl others fuel p s c); [done|done| |exact E].
    clear -Hn. repeat (apply elem_of_cons in Hn as [->|Hn]); [done..|by apply elem_of_nil in Hn].
Qed.

(** The caller, pid 2, alone, sleeps for two ticks; then it forks. *)
Lemma syscalls_keep_table_witness :
  (∃ s', @syscall sample_ext sample_sysext 0 0 (woken 1) 2 (sample_sys 13 2) = Done (Ret 0) s' ∧ inv true (kern s'))
  ∧ ∃ s', @syscall sample_ext sample_sysext 0 0 (woken 1) 2 (sample_sys 1 0) = Done (Ret 5) s' ∧ inv true (kern s').
Proof.
  assert (Hc : ∀ num arg, caller 0 1 (sample_caller num) (sample_sys num arg)).
  { intros num arg. split; [eexists; split; reflexivity|reflexivity]. }
  assert (Hd : ∀ tr f, @filedup_ret sample_ext tr f = f) by reflexivity.
  assert (K : ∀ num arg v, i32 (tf_eax (tf (sample_caller num))) ∉ elsewhere →
    value (@syscall sample_ext sample_sysext 0 0 (woken 1) 2 (sample_sys num arg)) = Some (Ret v) →
    ∃ s', @syscall sample_ext sample_sysext 0 0 (woken 1) 2 (sample_sys num arg) = Done (Ret v) s' ∧ inv true (kern s')).
  { intros num arg v Hn E.
    destruct (@syscalls_keep_table sample_ext sample_sysext true 0 1 0 (woken 1) 2 (sample_sys num arg) (sample_caller num)
      Hd (@rely_woken sample_ext true 0 1) (inv_sample_sys num arg) (λ _, eq_refl) (Hc num arg) Hn) as (H & _).
    destruct (@syscall sample_ext sample_sysext 0 0 (woken 1) 2 (sample_sys num arg)) as [r s'| |]; [|discriminate E..].
    injection E as ->. exists s'. split; [reflexivity|]. exact (proj1 (H _ _ eq_refl)). }
  split; apply K; try (vm_compute; reflexivity); apply (bool_decide_unpack _); vm_compute; exact Logic.I.
Defined.
