(* ===== verification/LotteryTests.v ===== *)
(** testProcInfo.c and testTicket.c (Lab2): the user programs that show and set
    tickets, over the system calls of LotterySyscall.v.  What a call answers is
    an argument: the value and, for getpinfo, the structure it filled; atoi and
    getpid are arguments too. *)
From S2P Require Import Prelude LotteryProc LotteryTable LotteryLife LotterySyscall.

(** ** Definitions *)

(** The lines the programs print, and how they end: [exit] or an endless loop. *)
Inductive shown :=
  | GetpinfoFailed | Heading | Columns | Row (pid inuse tickets ticks : Z) | Total (ticks : Z)
  | UsageLine | Setting (pid tickets : Z) | SetticketsFailed (tickets : Z).
Inductive ended := Exits | Spins.

(** [a[i]] of an array of NPROC ints. *)
Definition elem (l : list Z) (i : nat) : Z := default 0 (l !! i).

(** testProcInfo's first loop: the ticks of the used slots, in an int. *)
Fixpoint sum_ticks (ps : pstat) (n i : nat) (total_ticks : Z) : Z :=
  match n with
  | O => total_ticks
  | S n' =>
      sum_ticks ps n' (S i)
        (if elem (ps_inuse ps) i =? 0 then total_ticks else i32 (total_ticks + elem (ps_ticks ps) i))
  end.
(** Its second loop. *)
Fixpoint rows (ps : pstat) (n i : nat) : list shown :=
  match n with
  | O => []
  | S n' =>
      (if elem (ps_inuse ps) i =? 0 then []
       else [Row (elem (ps_pid ps) i) (elem (ps_inuse ps) i) (elem (ps_tickets ps) i) (elem (ps_ticks ps) i)])
      ++ rows ps n' (S i)
  end.
Definition testProcInfo (getpinfo_ret : Z) (ps : pstat) : list shown :=
  if getpinfo_ret <? 0 then [GetpinfoFailed]
  else [Heading; Columns] ++ rows ps NPROC 0 ++ [Total (sum_ticks ps NPROC 0 0)].

Definition testTicket (argv : list (list byte)) (atoi : list byte → Z) (getpid : Z)
    (settickets_ret : Z → Z) : list shown * ended :=
  match argv with
  | [_; a] =>
      let tickets := atoi a in
      if settickets_ret tickets <? 0 then ([Setting getpid tickets; SetticketsFailed tickets], Exits)
      else ([Setting getpid tickets], Spins)
  | _ => ([UsageLine], Exits)
  end.

(** ** Lemmas *)

(** The row of a process. *)
Definition row_of (p : proc) : list shown :=
  if bool_decide (state p ≠ UNUSED) then [Row (pid p) 1 (tickets p) (ticks p)] else [].

Lemma elem_info (t : list proc) (i : nat) p :
  t !! i = Some p →
  elem (ps_inuse (info_of t)) i = (if bool_decide (state p ≠ UNUSED) then 1 else 0)
  ∧ elem (ps_pid (info_of t)) i = pid p ∧ elem (ps_tickets (info_of t)) i = tickets p
  ∧ elem (ps_ticks (info_of t)) i = ticks p.
Proof. intros Hp. unfold elem, info_of. cbn. by rewrite !list_lookup_fmap, Hp. Qed.

Lemma rows_info t n i :
  (i + n <= length t)%nat → rows (info_of t) n i = concat (row_of <$> take n (drop i t)).
Proof.
  revert i; induction n as [|n IH]; intros i Hn; cbn [rows]; [done|].
  destruct (lookup_lt_is_Some_2 t i ltac:(lia)) as [p Hp].
  rewrite (drop_S _ _ _ Hp). cbn [take fmap list_fmap concat]. rewrite IH by lia.
  destruct (elem_info t i p Hp) as (-> & -> & -> & ->). f_equal. unfold row_of. by case_bool_decide.
Qed.

(** testProcInfo run on what getpinfo reports of the process table shows every
    process in use, in the order of the table, with its tickets and ticks. *)
Lemma testProcInfo_rows (t : list proc) :
  length t = NPROC →
  testProcInfo 0 (info_of t)
  = [Heading; Columns] ++ concat (row_of <$> t) ++ [Total (sum_ticks (info_of t) NPROC 0 0)].
Proof.
  intros Hlen. unfold testProcInfo. cbn [Z.ltb Z.compare].
  by rewrite rows_info, drop_0, take_ge by lia.
Qed.
