(* ===== verification/Mp.v ===== *)
(** mp.c (Lab2): finding the MP floating pointer structure and the MP
    configuration table in physical memory, and reading the machine's CPUs and
    I/O APIC from the table's entries.

    - mp.h and memlayout.h are not in the repository: the layout of their
      structures, the entry types and [P2V] are the parameters of class
      [MpExt].  A field is a function of the memory and of its structure's
      address.
    - The memory [m] is only read.  The state is the globals that mpinit
      assigns and the port writes it makes. *)
From S2P Require Import Prelude.

(** ** Definitions *)

Definition NCPU : Z := 8.

Class MpExt := {
  P2V : Z → Z;
  sizeof_mp : Z; mp_physaddr : mem → Z → Z; mp_imcrp : mem → Z → Z;
  sizeof_mpconf : Z; conf_length : mem → Z → Z; conf_version : mem → Z → Z;
  conf_lapicaddr : mem → Z → Z;
  sizeof_mpproc : Z; mpproc_apicid : mem → Z → Z;
  sizeof_mpioapic : Z; mpioapic_apicno : mem → Z → Z;
  MPPROC : Z; MPBUS : Z; MPIOAPIC : Z; MPIOINTR : Z; MPLINTR : Z;
  inb : Z → Z
}.

(** [cpus[].apicid], [ncpu], [ioapicid], [lapic], and the calls of outb. *)
Record mpst := Mpst {
  apicids : list Z; ncpu : Z; ioapicid : Z; lapic : Z; outbs : list (Z * Z) }.

Notation Mp := (Prelude.M mpst).

Definition set_ioapicid v s := Mpst (apicids s) (ncpu s) v (lapic s) (outbs s).
Definition set_lapic v s := Mpst (apicids s) (ncpu s) (ioapicid s) v (outbs s).
Definition outb (port v : Z) : Mp unit :=
  modify (λ s, Mpst (apicids s) (ncpu s) (ioapicid s) (lapic s) (outbs s ++ [(port, v)])).
(** [cpus[ncpu].apicid = id; ncpu++]. *)
Definition add_cpu (id : Z) (s : mpst) : mpst :=
  Mpst (<[Z.to_nat (ncpu s) := id]> (apicids s)) (ncpu s + 1) (ioapicid s) (lapic s) (outbs s).

Section Mp.
Context `{MpExt}.
Variable m : mem.

Fixpoint sum_loop (a : Z) (n : nat) (acc : Z) : Z :=
  match n with
  | O => acc
  | S n' => sum_loop (a + 1) n' (i32 (acc + byteZ (m a)))
  end.
Definition sum (a len : Z) : Z := u8 (sum_loop a (Z.to_nat len) 0).

(** [memcmp(p, s, 4) == 0]. *)
Definition signed (p : Z) (s : list byte) : bool := bool_decide (bytes_at m p 4 = s).
Definition MP_sig : list byte := [x5f; x4d; x50; x5f].
Definition PCMP_sig : list byte := [x50; x43; x4d; x50].

(** The loop of [mpsearch1] from [p] to [e]; each turn advances by
    [sizeof_mp], so that [fuel] bounds their number. *)
Fixpoint mpsearch1_loop (fuel : nat) (p e : Z) : option Z :=
  match fuel with
  | O => None
  | S k =>
      if p <? e then
        if signed p MP_sig && (sum p sizeof_mp =? 0) then Some p
        else mpsearch1_loop k (p + sizeof_mp) e
      else None
  end.
Definition mpsearch1 (a len : Z) : option Z :=
  let addr := P2V a in mpsearch1_loop (Z.to_nat len) addr (addr + len).

Definition mpsearch : option Z :=
  let bda := P2V 0x400 in
  let p := Z.shiftl (Z.lor (Z.shiftl (byteZ (m (bda + 0x0F))) 8) (byteZ (m (bda + 0x0E)))) 4 in
  let rom := mpsearch1 0xF0000 0x10000 in
  if negb (p =? 0) then
    match mpsearch1 p 1024 with Some mp => Some mp | None => rom end
  else
    let p := Z.lor (Z.shiftl (byteZ (m (bda + 0x14))) 8) (byteZ (m (bda + 0x13))) * 1024 in
    match mpsearch1 (u32 (p - 1024)) 1024 with Some mp => Some mp | None => rom end.

(** [mpconfig]: the structure and its table. *)
Definition mpconfig : option (Z * Z) :=
  match mpsearch with
  | None => None
  | Some mp =>
      if mp_physaddr m mp =? 0 then None
      else
        let conf := P2V (mp_physaddr m mp) in
        if negb (signed conf PCMP_sig) then None
        else if negb (conf_version m conf =? 1) && negb (conf_version m conf =? 4) then None
        else if negb (sum conf (conf_length m conf) =? 0) then None
        else Some (mp, conf)
  end.

(** The loop over the entries.  [default] sets [ismp] and leaves the switch,
    not the loop: [p] stays. *)
Fixpoint mpinit_loop (fuel : nat) (p e : Z) (ismp : bool) : Mp bool :=
  match fuel with
  | O => no_fuel
  | S k =>
      if p <? e then
        let t := byteZ (m p) in
        if t =? MPPROC then
          n ← gets ncpu;
          (if n <? NCPU then modify (add_cpu (mpproc_apicid m p)) else mret tt);;
          mpinit_loop k (p + sizeof_mpproc) e ismp
        else if t =? MPIOAPIC then
          modify (set_ioapicid (mpioapic_apicno m p));;
          mpinit_loop k (p + sizeof_mpioapic) e ismp
        else if (t =? MPBUS) || (t =? MPIOINTR) || (t =? MPLINTR) then
          mpinit_loop k (p + 8) e ismp
        else mpinit_loop k p e false
      else mret ismp
  end.

Definition mpinit (fuel : nat) : Mp unit :=
  match mpconfig with
  | None => panic "Expect to run on an SMP"
  | Some (mp, conf) =>
      modify (set_lapic (conf_lapicaddr m conf));;
      ismp ← mpinit_loop fuel (conf + sizeof_mpconf) (conf + conf_length m conf) true;
      if negb ismp then panic "Didn't find a suitable machine"
      else if negb (mp_imcrp m mp =? 0) then
        outb 0x22 0x70;; outb 0x23 (Z.lor (inb 0x23) 1)
      else mret tt
  end.

(** *** The abstract table *)

Inductive entry := Processor (id : Z) | IoApic (id : Z) | Other.

(** What the bytes at [p] are, and where the next entry starts. *)
Definition entry_at (p : Z) : option (entry * Z) :=
  let t := byteZ (m p) in
  if t =? MPPROC then Some (Processor (mpproc_apicid m p), p + sizeof_mpproc)
  else if t =? MPIOAPIC then Some (IoApic (mpioapic_apicno m p), p + sizeof_mpioapic)
  else if (t =? MPBUS) || (t =? MPIOINTR) || (t =? MPLINTR) then Some (Other, p + 8)
  else None.

(** The region from [p] to [e] is the entries [l]; or known entries lead to
    one of an unknown type. *)
Inductive entries (e : Z) : Z → list entry → Prop :=
  | entries_nil p : e <= p → entries e p []
  | entries_cons p x p' l : p < e → entry_at p = Some (x, p') → entries e p' l → entries e p (x :: l).
Inductive corrupt (e : Z) : Z → Prop :=
  | corrupt_here p : p < e → entry_at p = None → corrupt e p
  | corrupt_later p x p' : p < e → entry_at p = Some (x, p') → corrupt e p' → corrupt e p.

(** The processors and the last I/O APIC that entries describe. *)
Fixpoint processors (l : list entry) : list Z :=
  match l with
  | [] => []
  | Processor id :: l' => id :: processors l'
  | _ :: l' => processors l'
  end.
Fixpoint last_ioapic (l : list entry) (d : Z) : Z :=
  match l with
  | [] => d
  | IoApic id :: l' => last_ioapic l' id
  | _ :: l' => last_ioapic l' d
  end.
End Mp.

(** *** Specifications *)

Definition byte_sum (m : mem) (a len : Z) : Z :=
  foldr (λ b acc, byteZ b + acc) 0 (bytes_at m a (Z.to_nat len)).

Section MpSpec.
Context `{MpExt}.
Variable m : mem.

Definition valid_mp (p : Z) : Prop :=
  bytes_at m p 4 = MP_sig ∧ byte_sum m p sizeof_mp mod 256 = 0.
(** [p] is the first valid structure among the multiples of [sizeof_mp] in
    the [len] bytes at the physical address [a]; there is none. *)
Definition first_in (a len p : Z) : Prop := ∃ k : nat,
  p = P2V a + Z.of_nat k * sizeof_mp ∧ p < P2V a + len ∧ valid_mp p
  ∧ ∀ j, (j < k)%nat → ¬ valid_mp (P2V a + Z.of_nat j * sizeof_mp).
Definition none_in (a len : Z) : Prop := ∀ k : nat,
  P2V a + Z.of_nat k * sizeof_mp < P2V a + len → ¬ valid_mp (P2V a + Z.of_nat k * sizeof_mp).

(** The first KB of the EBDA, or without one the last KB of base memory. *)
Definition first_area : Z :=
  let b k := byteZ (m (P2V 0x400 + k)) in
  let ebda := Z.shiftl (Z.lor (Z.shiftl (b 0x0F) 8) (b 0x0E)) 4 in
  if ebda =? 0 then u32 (Z.lor (Z.shiftl (b 0x14) 8) (b 0x13) * 1024 - 1024) else ebda.
Definition found_mp (p : Z) : Prop :=
  first_in first_area 1024 p ∨ none_in first_area 1024 ∧ first_in 0xF0000 0x10000 p.

Definition valid_conf (mp conf : Z) : Prop :=
  mp_physaddr m mp ≠ 0 ∧ conf = P2V (mp_physaddr m mp) ∧ bytes_at m conf 4 = PCMP_sig
  ∧ (conf_version m conf = 1 ∨ conf_version m conf = 4)
  ∧ byte_sum m conf (conf_length m conf) mod 256 = 0.

(** What entries do to the globals. *)
Definition apply_entry (s : mpst) (x : entry) : mpst :=
  match x with
  | Processor id => if ncpu s <? NCPU then add_cpu id s else s
  | IoApic id => set_ioapicid id s
  | Other => s
  end.
End MpSpec.

(** For evaluation: the layouts of the MultiProcessor Specification, and a
    memory with a structure in the EBDA at 0x9fc00 and a table at 0xf5000 of
    two processors (0 and 5), a bus and an I/O APIC (9). *)
Definition sample_mpext : MpExt := {|
  P2V := λ a, a + 2 ^ 31;
  sizeof_mp := 16; mp_physaddr := λ m p, load 4 m (p + 4); mp_imcrp := λ m p, byteZ (m (p + 12));
  sizeof_mpconf := 44; conf_length := λ m p, load 2 m (p + 4); conf_version := λ m p, byteZ (m (p + 6));
  conf_lapicaddr := λ m p, load 4 m (p + 36);
  sizeof_mpproc := 20; mpproc_apicid := λ m p, byteZ (m (p + 1));
  sizeof_mpioapic := 8; mpioapic_apicno := λ m p, byteZ (m (p + 1));
  MPPROC := 0; MPBUS := 1; MPIOAPIC := 2; MPIOINTR := 3; MPLINTR := 4; inb := λ _, 0x1e |}.
Definition put (a : Z) (l : list Z) (m : mem) : mem := λ x,
  if (a <=? x) && (x <? a + Z.of_nat (length l)) then Zbyte (default 0 (l !! Z.to_nat (x - a))) else m x.
Definition sample_conf : list Z :=
  [80; 67; 77; 80; 100; 0; 4; 121; 0; 0; 0; 0; 0; 0; 0; 0; 0; 0; 0; 0; 0; 0; 0; 0; 0; 0; 0; 0; 0; 0; 0; 0; 0; 0; 0; 0; 0; 0; 224; 254; 0; 0; 0; 0].
Definition sample_entries : list Z :=
  [0; 0; 0; 0; 0; 0; 0; 0; 0; 0; 0; 0; 0; 0; 0; 0; 0; 0; 0; 0;
   0; 5; 0; 0; 0; 0; 0; 0; 0; 0; 0; 0; 0; 0; 0; 0; 0; 0; 0; 0;
   1; 0; 0; 0; 0; 0; 0; 0; 2; 9; 0; 0; 0; 0; 0; 0].
Definition sample_physical : mem :=
  put (2 ^ 31 + 0x40e) [192; 159] (put (2 ^ 31 + 0x9fc00)
    [95; 77; 80; 95; 0; 80; 15; 0; 1; 4; 193; 0; 128; 0; 0; 0]
    (put (2 ^ 31 + 0xf5000) (sample_conf ++ sample_entries) (λ _, x00))).
Definition sample_mpst : mpst := Mpst (replicate 8 0) 0 0 0 [].

(** ** Lemmas *)

Lemma bytes_at_S m a n : bytes_at m a (S n) = m a :: bytes_at m (a + 1) n.
Proof.
  unfold bytes_at. cbn [seq]. rewrite fmap_cons, Z.add_0_r. f_equal.
  rewrite <- fmap_S_seq, <- list_fmap_compose. apply list_fmap_ext. intros i x _. cbn. f_equal. lia.
Qed.

Lemma u8_i32 z : u8 (i32 z) = u8 z.
Proof.
  assert (∃ k, i32 z = z + k * 2 ^ 24 * 2 ^ 8) as [k ->]; [|unfold u8; apply Z_mod_plus_full].
  unfold i32. pose proof (Z.div_mod z (2 ^ 32) ltac:(done)) as E. destruct (_ <? _).
  - exists (- (z / 2 ^ 32)). lia.
  - exists (- (z / 2 ^ 32) - 1). lia.
Qed.

Lemma sum_spec m a len : sum m a len = byte_sum m a len mod 256.
Proof.
  unfold sum, byte_sum. change 256 with (2 ^ 8).
  enough (∀ n a acc, u8 (sum_loop m a n acc) = (acc + foldr (λ b acc, byteZ b + acc) 0 (bytes_at m a n)) mod 2 ^ 8) as E
    by by rewrite E.
  clear. induction n as [|n IH]; intros a acc; [cbn; by rewrite Z.add_0_r|].
  cbn [sum_loop]. rewrite IH, bytes_at_S. cbn [foldr].
  rewrite <- Zplus_mod_idemp_l. fold (u8 (i32 (acc + byteZ (m a)))). rewrite u8_i32. unfold u8.
  rewrite Zplus_mod_idemp_l. f_equal. lia.
Qed.

Section MpLemmas.
Context {X : MpExt} (m : mem).
Hypothesis Hmp : 0 < sizeof_mp.

Lemma valid_test p :
  signed m p MP_sig && (sum m p sizeof_mp =? 0) = true ↔ valid_mp m p.
Proof. unfold signed, valid_mp. by rewrite andb_true_iff, bool_decide_eq_true, Z.eqb_eq, sum_spec. Qed.

Lemma mpsearch1_loop_spec fuel p e :
  e - p <= Z.of_nat fuel →
  match mpsearch1_loop m fuel p e with
  | Some q => ∃ k : nat, q = p + Z.of_nat k * sizeof_mp ∧ q < e ∧ valid_mp m q
      ∧ ∀ j, (j < k)%nat → ¬ valid_mp m (p + Z.of_nat j * sizeof_mp)
  | None => ∀ k : nat, p + Z.of_nat k * sizeof_mp < e → ¬ valid_mp m (p + Z.of_nat k * sizeof_mp)
  end.
Proof using Hmp.
  revert p; induction fuel as [|fuel IH]; intros p Hf; cbn [mpsearch1_loop]; [intros k; nia|].
  destruct (Z.ltb_spec p e); [|intros k; nia].
  destruct (_ && _) eqn:Et.
  - apply valid_test in Et. exists 0%nat. rewrite Z.add_0_r. split_and!; [done..|lia].
  - assert (Hnv : ¬ valid_mp m p) by (rewrite <- valid_test; congruence).
    assert (Hs : ∀ k : nat, p + Z.of_nat (S k) * sizeof_mp = p + sizeof_mp + Z.of_nat k * sizeof_mp) by lia.
    assert (Hf' : e - (p + sizeof_mp) <= Z.of_nat fuel) by lia.
    specialize (IH _ Hf'). destruct (mpsearch1_loop _ _ _ _) as [q|].
    + destruct IH as (k & -> & Hlt & Hv & Hmin). exists (S k). split_and!; [lia|done..|].
      intros [|j] Hj; [by rewrite Z.add_0_r|]. rewrite Hs. apply Hmin. lia.
    + intros [|k]; [by rewrite Z.add_0_r|]. rewrite Hs. apply IH.
Qed.

Lemma mpsearch1_spec a len :
  match mpsearch1 m a len with Some p => first_in m a len p | None => none_in m a len end.
Proof using Hmp. apply mpsearch1_loop_spec. lia. Qed.

Lemma mpsearch_area :
  mpsearch m = match mpsearch1 m (first_area m) 1024 with
               | Some p => Some p | None => mpsearch1 m 0xF0000 0x10000 end.
Proof using. unfold mpsearch, first_area. cbv zeta. by destruct (_ =? 0). Qed.

Lemma mpsearch_spec :
  match mpsearch m with
  | Some p => found_mp m p
  | None => none_in m (first_area m) 1024 ∧ none_in m 0xF0000 0x10000
  end.
Proof using Hmp.
  rewrite mpsearch_area. pose proof (mpsearch1_spec (first_area m) 1024) as H1.
  pose proof (mpsearch1_spec 0xF0000 0x10000) as H2. unfold found_mp.
  destruct (mpsearch1 m (first_area m) 1024); [by left|].
  destruct (mpsearch1 m 0xF0000 0x10000); auto.
Qed.

(** *** The entries *)

Lemma mpinit_loop_entries e p l fuel ismp s :
  entries m e p l → (length l < fuel)%nat →
  mpinit_loop m fuel p e ismp s = Done ismp (foldl apply_entry s l).
Proof using.
  intros Hl. revert fuel s; induction Hl as [p Hp|p x p' l Hp Hx Hl IH]; intros [|fuel] s Hf;
    try (cbn in Hf; lia); cbn [mpinit_loop].
  { by rewrite (proj2 (Z.ltb_ge p e)). }
  rewrite (proj2 (Z.ltb_lt p e)) by done. cbn in Hf. unfold entry_at in Hx.
  destruct (_ =? MPPROC); [|destruct (_ =? MPIOAPIC); [|destruct (_ || _ || _); [|done]]];
    injection Hx as <- <-; cbn [foldl apply_entry].
  - run. destruct (ncpu s <? NCPU); run; apply IH; lia.
  - run. apply IH; lia.
  - apply IH; lia.
Qed.

Lemma mpinit_loop_corrupt e p fuel ismp s :
  corrupt m e p → mpinit_loop m fuel p e ismp s = OutOfFuel.
Proof using.
  intros Hc. revert ismp s p Hc; induction fuel as [|fuel IH]; intros ismp s p Hc; [done|].
  cbn [mpinit_loop].
  assert (Hp : p < e) by by destruct Hc. rewrite (proj2 (Z.ltb_lt p e)) by done.
  destruct Hc as [p _ Hx|p x p' _ Hx Hc]; pose proof Hx as Hx'; unfold entry_at in Hx';
    (destruct (_ =? MPPROC); [|destruct (_ =? MPIOAPIC); [|destruct (_ || _ || _)]]); simplify_eq; try done.
  - apply IH. by apply corrupt_here.
  - run. destruct (ncpu s <? NCPU); run; by apply IH.
  - run. by apply IH.
  - by apply IH.
Qed.

Lemma entries_or_corrupt e p :
  0 < sizeof_mpproc → 0 < sizeof_mpioapic → (∃ l, entries m e p l) ∨ corrupt m e p.
Proof using.
  intros H1 H2. remember (Z.to_nat (e - p)) as n eqn:En. revert p En.
  induction (lt_wf n) as [n _ IH]; intros p En.
  destruct (Z.le_gt_cases e p) as [Hp|Hp]; [left; exists []; by constructor|].
  destruct (entry_at m p) as [[x p']|] eqn:Hx; [|right; by apply corrupt_here].
  assert (p < p').
  { unfold entry_at in Hx. repeat case_match; simplify_eq; lia. }
  destruct (IH (Z.to_nat (e - p')) ltac:(lia) p' eq_refl) as [(l & Hl)|Hc].
  - left. exists (x :: l). by econstructor.
  - right. by econstructor.
Qed.

Lemma apply_entries l s :
  0 <= ncpu s <= NCPU → Z.of_nat (length (apicids s)) = NCPU →
  let s' := foldl apply_entry s l in
  let ids := take (Z.to_nat (NCPU - ncpu s)) (processors l) in
  ncpu s' = ncpu s + Z.of_nat (length ids)
  ∧ apicids s' = take (Z.to_nat (ncpu s)) (apicids s) ++ ids
                 ++ drop (Z.to_nat (ncpu s) + length ids) (apicids s)
  ∧ ioapicid s' = last_ioapic l (ioapicid s) ∧ lapic s' = lapic s ∧ outbs s' = outbs s.
Proof using.
  revert s; induction l as [|x l IH]; intros s Hn Hlen; cbn [foldl].
  { cbn. rewrite take_nil. cbn. rewrite Nat.add_0_r, take_drop. split_and!; (done || lia). }
  destruct x as [id|id|]; cbn [apply_entry processors last_ioapic]; [|by apply (IH (set_ioapicid id s))|by apply IH].
  destruct (Z.ltb_spec (ncpu s) NCPU) as [Hlt|Hge].
  - destruct (IH (add_cpu id s)) as (E1 & E2 & E3 & E4 & E5); [cbn; lia|cbn; by rewrite length_insert|].
    cbn [ncpu add_cpu apicids] in *.
    replace (Z.to_nat (NCPU - ncpu s)) with (S (Z.to_nat (NCPU - (ncpu s + 1)))) by lia. cbn [take].
    set (ids := take _ (processors l)) in *. split_and!; [cbn [length]; lia| |done..].
    rewrite E2. replace (Z.to_nat (ncpu s + 1)) with (S (Z.to_nat (ncpu s))) by lia.
    rewrite (take_S_r _ _ id) by (apply list_lookup_insert_eq; lia).
    rewrite take_insert_ge, drop_insert_lt by lia. cbn. rewrite <- app_assoc. cbn.
    by rewrite Nat.add_succ_r.
  - destruct (IH s Hn Hlen) as (E1 & E2 & E3 & E4 & E5).
    assert (Hz : Z.to_nat (NCPU - ncpu s) = 0%nat) by lia. rewrite Hz in *. by split_and!.
Qed.
End MpLemmas.

Lemma mpconfig_found :
  @mpconfig sample_mpext sample_physical = Some (2 ^ 31 + 0x9fc00, 2 ^ 31 + 0xf5000).
Proof. vm_compute. reflexivity. Qed.

(** ** Properties *)

(** C34.  The search for the MP tables.  mpconfig answers a structure and its
    table exactly when the first valid structure (signature and checksum) of
    the first search area, the EBDA or else the last KB of base memory, or
    without one there of the BIOS ROM, has a table with the right signature,
    version and checksum at its non-null address; otherwise it answers none. *)
Theorem mpconfig_spec `{MpExt} (m : mem) (Hmp : 0 < sizeof_mp) :
  match mpconfig m with
  | Some (mp, conf) => found_mp m mp ∧ valid_conf m mp conf
  | None => (none_in m (first_area m) 1024 ∧ none_in m 0xF0000 0x10000)
            ∨ ∃ mp, found_mp m mp ∧ ∀ conf, ¬ valid_conf m mp conf
  end.
Proof.
  unfold mpconfig. pose proof (mpsearch_spec m Hmp) as Hs.
  destruct (mpsearch m) as [mp|]; [|by left].
  unfold signed, valid_conf. rewrite sum_spec.
  set (conf := P2V (mp_physaddr m mp)).
  assert (Hno : ¬ (mp_physaddr m mp ≠ 0 ∧ bytes_at m conf 4 = PCMP_sig
    ∧ (conf_version m conf = 1 ∨ conf_version m conf = 4)
    ∧ byte_sum m conf (conf_length m conf) mod 256 = 0) → ∀ c, ¬ valid_conf m mp c).
  { unfold valid_conf. intros Hn c (? & -> & ?). apply Hn. tauto. }
  destruct (Z.eqb_spec (mp_physaddr m mp) 0); [right; exists mp; split; [done|apply Hno; tauto]|].
  case_bool_decide; cbn [negb]; [|right; exists mp; split; [done|apply Hno; tauto]].
  destruct (Z.eqb_spec (conf_version m conf) 1), (Z.eqb_spec (conf_version m conf) 4); cbn [negb andb];
    try (right; exists mp; split; [done|apply Hno; tauto]);
    (destruct (Z.eqb_spec (byte_sum m conf (conf_length m conf) mod 256) 0); cbn [negb];
      [tauto|right; exists mp; split; [done|apply Hno; tauto]]).
Qed.

Lemma mpconfig_spec_witness :
  @mpconfig sample_mpext sample_physical = Some (2 ^ 31 + 0x9fc00, 2 ^ 31 + 0xf5000)
  ∧ @valid_conf sample_mpext sample_physical (2 ^ 31 + 0x9fc00) (2 ^ 31 + 0xf5000).
Proof.
  split; [exact mpconfig_found|]. pose proof (@mpconfig_spec sample_mpext sample_physical eq_refl) as H.
  rewrite mpconfig_found in H. apply H.
Defined.

(** C33.  mpinit, with enough fuel for the entries.  Without a table it panics.
    Over a table whose entries are all of known types it ends, with the
    local APIC's address, the last I/O APIC's id, and the first NCPU processors
    of the table, in its order, in cpus[].  A table with an entry of an unknown
    type makes it run for ever: [default] leaves the switch but neither the
    loop nor the entry, and the panic after the loop is never reached. *)
Theorem mpinit_spec `{MpExt} (m : mem) (s : mpst) (Hproc : 0 < sizeof_mpproc)
  (Hioapic : 0 < sizeof_mpioapic) (Hlen : Z.of_nat (length (apicids s)) = NCPU) (Hn : ncpu s = 0) :
  match mpconfig m with
  | None => ∀ fuel, mpinit m fuel s = Panic "Expect to run on an SMP"
  | Some (mp, conf) =>
      let p := conf + sizeof_mpconf in
      let e := conf + conf_length m conf in
      (∀ l fuel, entries m e p l → (length l < fuel)%nat → ∃ s', mpinit m fuel s = Done tt s'
         ∧ ncpu s' = Z.min NCPU (Z.of_nat (length (processors l)))
         ∧ take (Z.to_nat (ncpu s')) (apicids s') = take (Z.to_nat NCPU) (processors l)
         ∧ drop (Z.to_nat (ncpu s')) (apicids s') = drop (Z.to_nat (ncpu s')) (apicids s)
         ∧ ioapicid s' = last_ioapic l (ioapicid s) ∧ lapic s' = conf_lapicaddr m conf
         ∧ outbs s' = outbs s ++ (if mp_imcrp m mp =? 0 then [] else [(0x22, 0x70); (0x23, Z.lor (inb 0x23) 1)]))
      ∧ (corrupt m e p → ∀ fuel, mpinit m fuel s = OutOfFuel)
      ∧ ((∃ l, entries m e p l) ∨ corrupt m e p)
  end.
Proof.
  unfold mpinit. destruct (mpconfig m) as [[mp conf]|]; [|done].
  split_and!; [| |by apply entries_or_corrupt].
  - intros l fuel Hl Hf.
    destruct (apply_entries l (set_lapic (conf_lapicaddr m conf) s)) as (E1 & E2 & E3 & E4 & E5);
      [cbn; rewrite Hn; done|done|]. cbn [ncpu apicids ioapicid lapic outbs set_lapic] in *.
    run. erewrite bind_done by by apply mpinit_loop_entries. cbn [negb].
    set (s' := foldl _ _ _) in *.
    rewrite Hn in *. cbn [Z.to_nat take app] in E2. rewrite Z.sub_0_r, Z.add_0_l, Nat.add_0_l in *.
    change (take (Z.to_nat 0) (apicids s)) with (@nil Z) in E2. cbn [app] in E2.
    set (ids := take _ _) in *.
    assert (Hids : Z.of_nat (length ids) = Z.min NCPU (Z.of_nat (length (processors l)))).
    { subst ids. rewrite length_take. unfold NCPU. lia. }
    assert (Hfin : ∃ s2, (if negb (mp_imcrp m mp =? 0) then outb 34 112;; outb 35 (Z.lor (inb 35) 1) else mret tt) s'
        = Done tt s2 ∧ ncpu s2 = ncpu s' ∧ apicids s2 = apicids s' ∧ ioapicid s2 = ioapicid s' ∧ lapic s2 = lapic s'
        ∧ outbs s2 = outbs s' ++ (if mp_imcrp m mp =? 0 then [] else [(0x22, 0x70); (0x23, Z.lor (inb 0x23) 1)])).
    { destruct (mp_imcrp m mp =? 0); cbn [negb]; eexists; (split; [reflexivity|]); cbn; split_and!; try done.
      - by rewrite app_nil_r.
      - by rewrite <- app_assoc. }
    destruct Hfin as (s2 & Er & F1 & F2 & F3 & F4 & F5). exists s2. rewrite F1, F2, F3, F4, F5, E1, E2, Nat2Z.id.
    split_and!; [done|done|by rewrite take_app_length|by rewrite drop_app_length|done|done|by rewrite E5].
  - intros Hc fuel. run. unfold mbind, M_bind. by rewrite mpinit_loop_corrupt.
Qed.

Lemma mpinit_spec_witness :
  ∃ s', @mpinit sample_mpext sample_physical 5 sample_mpst = Done tt s' ∧ ncpu s' = 2.
Proof.
  pose proof (@mpinit_spec sample_mpext sample_physical sample_mpst eq_refl eq_refl eq_refl eq_refl) as H.
  rewrite mpconfig_found in H. destruct H as [H _].
  destruct (H [Processor 0; Processor 5; Other; IoApic 9] 5%nat) as (s' & E & En & _).
  - do 4 (eapply entries_cons; [vm_compute; reflexivity..|]). apply entries_nil. by vm_compute.
  - cbn; lia.
  - exists s'. split; [exact E|]. exact En.
Defined.
