(* ===== verification/Xargs.v ===== *)
(** xargs.c (Lab1): reading a line, splitting it into arguments in place, and
    running the command once per line.

    - Memory is byte-addressed; a [char *] is an address, and an array of them
      a list of addresses of the array's length.
    - The standard input is the sequence of answers of read(0, _, 1): a byte,
      or [None] for an answer <= 0, which is also every answer past its end.
    - The results of fork are a parameter.  A child only executes the command;
      what it executes is recorded with the memory it sees. *)
From S2P Require Import Prelude.

(** ** Definitions *)

Definition MAXARG : nat := 32.
Definition newline : byte := x0a.
Notation stdin := (list (option byte)).

(** [buf[i] = '\0'; return i;] *)
Definition end_line (m : mem) (buf i : Z) (inp : stdin) : Z * mem * stdin :=
  (i, store8 m (buf + i) x00, inp).
(** [read_line]'s loop, with [n = max_len - i]. *)
Fixpoint read_loop (n : nat) (m : mem) (buf i : Z) (inp : stdin) : Z * mem * stdin :=
  match n with
  | O => end_line m buf i inp
  | S n' =>
      match inp with
      | Some b :: inp' =>
          let m := store8 m (buf + i) b in
          if bool_decide (b = newline) then end_line m buf i inp'
          else read_loop n' m buf (i + 1) inp'
      | _ => if i =? 0 then (0, m, tail inp) else end_line m buf i (tail inp)
      end
  end.
Definition read_line (m : mem) (buf max_len : Z) (inp : stdin) : Z * mem * stdin :=
  read_loop (Z.to_nat max_len) m buf 0 inp.

Definition blank (b : byte) : bool := bool_decide (b = x20) || bool_decide (b = x09).

Fixpoint skip_blanks (fuel : nat) (m : mem) (p : Z) : option Z :=
  match fuel with
  | O => None
  | S k => if blank (m p) then skip_blanks k m (p + 1) else Some p
  end.
Fixpoint skip_word (fuel : nat) (m : mem) (p : Z) : option Z :=
  match fuel with
  | O => None
  | S k =>
      if bool_decide (m p ≠ x00) && negb (blank (m p)) then skip_word k m (p + 1) else Some p
  end.

(** [parse_args]'s loop; [fuel] bounds each scan and the number of turns. *)
Fixpoint parse_loop (fuel : nat) (m : mem) (p : Z) (i : nat) (argv : list Z) : option (mem * list Z * nat) :=
  match fuel with
  | O => None
  | S k =>
      if bool_decide (m p ≠ x00) && (i <? MAXARG - 1)%nat then
        p ← skip_blanks fuel m p;
        if bool_decide (m p = x00) then Some (m, argv, i)
        else
          let argv := <[i := p]> argv in
          p ← skip_word fuel m p;
          if bool_decide (m p ≠ x00) then parse_loop k (store8 m p x00) (p + 1) (S i) argv
          else parse_loop k m p (S i) argv
      else Some (m, argv, i)
  end.
Definition parse_args (fuel : nat) (m : mem) (line : Z) (argv : list Z) (argc : nat) : option (mem * list Z * nat) :=
  '(m, argv, i) ← parse_loop fuel m line argc argv;
  Some (m, <[i := 0]> argv, i).

(** A child's exec: the memory, and the array of the arguments. *)
Record exec_call := ExecCall { x_mem : mem; x_argv : list Z }.

Definition sizeof_buf : Z := 512.

Section Main.
Variable fork_ret : nat → Z.

(** The loop of [main] over the lines: its exit status, and the commands run. *)
Fixpoint main_loop (fuel : nat) (m : mem) (buf : Z) (argv : list Z) (argc : nat) (inp : stdin)
    (calls : list exec_call) : option (Z * list exec_call) :=
  match fuel with
  | O => None
  | S k =>
      let '(n, m, inp) := read_line m buf sizeof_buf inp in
      if 0 <? n then
        '(m, argv, _) ← parse_args (S (Z.to_nat sizeof_buf)) m buf argv (argc - 1);
        if fork_ret (length calls) <? 0 then Some (1, calls)
        else main_loop k m buf argv argc inp (calls ++ [ExecCall m argv])
      else Some (0, calls)
  end.

(** [main]: [buf] and [xargs_argv] are its arrays, as the stack holds them. *)
Definition main (fuel : nat) (m : mem) (buf : Z) (xargs_argv argv : list Z) (inp : stdin)
    : option (Z * list exec_call) :=
  let argc := length argv in
  if (argc <? 2)%nat then Some (1, [])
  else main_loop fuel m buf (list_inserts 0 (tail argv) xargs_argv) argc inp [].
End Main.

(** *** Specification *)

(** [s] is the C string at [p]. *)
Definition str_at (m : mem) (p : Z) (s : list byte) : Prop :=
  (∀ (k : nat) b, s !! k = Some b → m (p + Z.of_nat k) = b ∧ b ≠ x00)
  ∧ m (p + Z.of_nat (length s)) = x00.

(** The words of a line, by splitting it at every blank. *)
Fixpoint split_blank (s : list byte) : list (list byte) :=
  match s with
  | [] => [[]]
  | b :: s' =>
      if blank b then [] :: split_blank s'
      else match split_blank s' with w :: ws => (b :: w) :: ws | [] => [[b]] end
  end.
Definition words (s : list byte) : list (list byte) := filter (λ w, w ≠ []) (split_blank s).

(** What a child executes: the strings [ws], and a null pointer. *)
Definition runs_command (ws : list (list byte)) (c : exec_call) : Prop :=
  (∀ (k : nat) w, ws !! k = Some w → ∃ q, x_argv c !! k = Some q ∧ q ≠ 0 ∧ str_at (x_mem c) q w)
  ∧ x_argv c !! length ws = Some 0.

(** A line that fits the buffer, and the input that holds lines. *)
Definition line_ok (l : list byte) : Prop :=
  l ≠ [] ∧ Z.of_nat (length l) < sizeof_buf ∧ newline ∉ l ∧ x00 ∉ l.
Definition typed (ls : list (list byte)) : stdin := Some <$> concat ((λ l, l ++ [newline]) <$> ls).

(** ** Lemmas *)

Lemma store8_same m a b : store8 m a b a = b.
Proof. unfold store8. by rewrite Z.eqb_refl. Qed.
Lemma store8_other m a b x : x ≠ a → store8 m a b x = m x.
Proof. intros H. unfold store8. by rewrite (proj2 (Z.eqb_neq x a)). Qed.

(** *** Words *)

Lemma split_blank_cons s : ∃ w ws, split_blank s = w :: ws.
Proof.
  destruct s as [|b s]; cbn; [by eexists _, _|]. destruct (blank b); [by eexists _, _|].
  destruct (split_blank s); by eexists _, _.
Qed.
Lemma words_blank b s : blank b = true → words (b :: s) = words s.
Proof. intros Hb. unfold words. cbn. by rewrite Hb. Qed.
Lemma split_blank_app w s :
  Forall (λ b, blank b = false) w →
  ∃ h t, split_blank s = h :: t ∧ split_blank (w ++ s) = (w ++ h) :: t.
Proof.
  intros Hw. destruct (split_blank_cons s) as (h & t & E). exists h, t. split; [done|].
  induction Hw as [|b w Hb Hw IH]; [done|]. cbn. by rewrite Hb, IH.
Qed.
Lemma words_word w s :
  w ≠ [] → Forall (λ b, blank b = false) w → (∀ b, head s = Some b → blank b = true) →
  words (w ++ s) = w :: words s.
Proof.
  intros Hne Hw Hs. unfold words.
  destruct (split_blank_app w s Hw) as (h & t & E & ->). rewrite E.
  assert (h = []) as ->.
  { destruct s as [|b s]; cbn in E; [by injection E|]. rewrite (Hs b) in E by done. by injection E. }
  rewrite app_nil_r, list.filter_cons_True, list.filter_cons_False; [done|naive_solver|done].
Qed.
Lemma words_nil : words [] = [].
Proof. done. Qed.

(** *** Strings in memory *)

Lemma str_at_cons m p b s : str_at m p (b :: s) ↔ m p = b ∧ b ≠ x00 ∧ str_at m (p + 1) s.
Proof.
  unfold str_at. cbn [length]. split.
  - intros [H He]. destruct (H 0%nat b eq_refl) as [H0 Hb]. rewrite Z.add_0_r in H0.
    split_and!; [done|done| |by rewrite <- He; f_equal; lia].
    intros k c Hk. rewrite <- Z.add_assoc, Z.add_1_l, <- Nat2Z.inj_succ. by apply H.
  - intros (H0 & Hb & H & He). split; [|by rewrite <- He; f_equal; lia].
    intros [|k] c Hk; simplify_eq/=; [by rewrite Z.add_0_r|].
    replace (p + Z.of_nat (S k)) with (p + 1 + Z.of_nat k) by lia. by apply H.
Qed.
Lemma str_at_nil m p : str_at m p [] ↔ m p = x00.
Proof. unfold str_at. cbn. rewrite Z.add_0_r. split; [by intros [_ ?]|]. by intros ?; split. Qed.
Lemma str_at_ext (m m' : mem) p s :
  (∀ x, p <= x <= p + Z.of_nat (length s) → m' x = m x) → str_at m p s → str_at m' p s.
Proof.
  intros Hm [H He]. split; [|by rewrite Hm by lia].
  intros k b Hk. assert (k < length s)%nat by by eapply lookup_lt_Some.
  rewrite Hm by lia. by apply H.
Qed.
Lemma str_at_app m p s t : str_at m p (s ++ t) → str_at m (p + Z.of_nat (length s)) t.
Proof.
  revert p; induction s as [|b s IH]; intros p; cbn [app length]; [by rewrite Z.add_0_r|].
  rewrite str_at_cons. intros (_ & _ & H). apply IH in H.
  by replace (p + Z.of_nat (S (length s))) with (p + 1 + Z.of_nat (length s)) by lia.
Qed.
(** Cutting a string by a NUL. *)
Lemma str_at_cut m p w b s :
  str_at m p (w ++ b :: s) → str_at (store8 m (p + Z.of_nat (length w)) x00) p w.
Proof.
  intros [H _]. split; [|apply store8_same].
  intros k c Hk. assert (k < length w)%nat by by eapply lookup_lt_Some.
  rewrite store8_other by lia. apply H. by rewrite lookup_app_l.
Qed.

(** *** The scans *)

Lemma skip_blanks_spec m p s fuel :
  str_at m p s → (length s < fuel)%nat →
  ∃ bs s', s = bs ++ s' ∧ (∀ b, head s' = Some b → blank b = false)
    ∧ skip_blanks fuel m p = Some (p + Z.of_nat (length bs)) ∧ words s = words s'.
Proof.
  revert p fuel; induction s as [|b s IH]; intros p [|fuel] Hs Hf; cbn in Hf; try lia; cbn [skip_blanks].
  - apply str_at_nil in Hs. rewrite Hs. exists [], []. cbn. rewrite Z.add_0_r. by split_and!.
  - apply str_at_cons in Hs as (-> & Hb & Hs). destruct (blank b) eqn:Eb.
    + destruct (IH (p + 1) fuel Hs ltac:(lia)) as (bs & s' & -> & Hh & -> & Hw).
      exists (b :: bs), s'. cbn [length app]. split_and!; [done|done|f_equal; lia|by rewrite words_blank].
    + exists [], (b :: s). cbn. rewrite Z.add_0_r. split_and!; [done| |done..]. by intros ? [= <-].
Qed.

Lemma skip_word_spec m p s fuel :
  str_at m p s → (length s < fuel)%nat →
  ∃ w s', s = w ++ s' ∧ Forall (λ b, blank b = false) w ∧ (∀ b, head s' = Some b → blank b = true)
    ∧ skip_word fuel m p = Some (p + Z.of_nat (length w)).
Proof.
  revert p fuel; induction s as [|b s IH]; intros p [|fuel] Hs Hf; cbn in Hf; try lia; cbn [skip_word].
  - apply str_at_nil in Hs. rewrite Hs. exists [], []. cbn. rewrite Z.add_0_r. by split_and!.
  - apply str_at_cons in Hs as (-> & Hb & Hs). rewrite bool_decide_true by done. destruct (blank b) eqn:Eb; cbn [negb andb].
    + exists [], (b :: s). cbn. rewrite Z.add_0_r. split_and!; [done|done| |done]. by intros ? [= <-].
    + destruct (IH (p + 1) fuel Hs ltac:(lia)) as (w & s' & -> & Hw & Hh & ->).
      exists (b :: w), s'. cbn [length app]. split_and!; [done|by constructor|done|f_equal; lia].
Qed.

(** *** parse_args *)

(** What the loop has done from [p], [i] and [argv] on. *)
Record parsed (m : mem) (p : Z) (len : nat) (i : nat) (argv : list Z) (ws : list (list byte))
    (m' : mem) (argv' : list Z) : Prop := {
  pa_mem : ∀ x, x < p ∨ p + Z.of_nat len <= x → m' x = m x;
  pa_len : length argv' = length argv;
  pa_old : ∀ j, (j < i)%nat → argv' !! j = argv !! j;
  pa_new : ∀ k w, ws !! k = Some w → ∃ q, argv' !! (i + k)%nat = Some q ∧ p <= q ∧ str_at m' q w }.

Lemma parsed_nil m p len i argv : parsed m p len i argv [] m argv.
Proof. by constructor. Qed.

(** One word [w] found at [q], cut at its end, and the rest of the loop. *)
Lemma parsed_cons m p len i argv q w m1 p1 len1 ws m' argv' :
  (i < length argv)%nat → p <= q → q + Z.of_nat (length w) < p1 ∨ len1 = 0%nat →
  p <= p1 → p1 + Z.of_nat len1 <= p + Z.of_nat len →
  (∀ x, x < p ∨ p + Z.of_nat len <= x → m1 x = m x) → str_at m1 q w →
  parsed m1 p1 len1 (S i) (<[i := q]> argv) ws m' argv' →
  parsed m p len i argv (w :: ws) m' argv'.
Proof.
  intros Hi Hq Hend Hp1 Hlen1 Hm1 Hw [Hmem Hlen Hold Hnew]. constructor.
  - intros x Hx. rewrite Hmem by lia. by apply Hm1.
  - by rewrite Hlen, length_insert.
  - intros j Hj. rewrite Hold by lia. apply list_lookup_insert_ne. lia.
  - intros [|k] w' Hk; simplify_eq/=.
    + exists q. rewrite Nat.add_0_r, Hold, list_lookup_insert_eq by lia. split_and!; [done..|].
      eapply str_at_ext, Hw. intros x Hx. apply Hmem. lia.
    + destruct (Hnew k w' Hk) as (q' & Hq' & ? & ?). exists q'. split_and!; [|lia|done].
      by rewrite Nat.add_succ_r.
Qed.

Lemma parse_loop_spec fuel m p s i argv :
  str_at m p s → (length s < fuel)%nat → (MAXARG - 1 <= length argv)%nat →
  ∃ m' argv', parse_loop fuel m p i argv
      = Some (m', argv', (i + length (take (MAXARG - 1 - i) (words s)))%nat)
    ∧ parsed m p (length s) i argv (take (MAXARG - 1 - i) (words s)) m' argv'.
Proof.
  revert m p s i argv; induction fuel as [|fuel IH]; intros m p s i argv Hs Hf Hargv; [lia|].
  cbn [parse_loop].
  destruct (Nat.ltb_spec i (MAXARG - 1)) as [Hi|Hi].
  2:{ rewrite andb_false_r. replace (MAXARG - 1 - i)%nat with 0%nat by lia. cbn [take length].
      rewrite Nat.add_0_r. do 2 eexists. split; [done|apply parsed_nil]. }
  rewrite andb_true_r. destruct s as [|c s0].
  { apply str_at_nil in Hs as Hz. rewrite Hz, bool_decide_false by auto. rewrite words_nil, take_nil.
    cbn [length]. rewrite Nat.add_0_r. do 2 eexists. split; [done|apply parsed_nil]. }
  assert (Hc : m p ≠ x00) by (apply str_at_cons in Hs as (-> & ? & _); done).
  rewrite bool_decide_true by done. remember (c :: s0) as s eqn:Es. clear c s0 Es Hc.
  destruct (skip_blanks_spec m p s (S fuel) Hs Hf) as (bs & s1 & -> & Hh1 & -> & ->).
  apply str_at_app in Hs. rewrite length_app in Hf |- *. cbn [mbind option_bind].
  set (q := p + Z.of_nat (length bs)) in *.
  destruct s1 as [|c s0].
  { apply str_at_nil in Hs as Hz. rewrite bool_decide_true by done. rewrite words_nil, take_nil.
    cbn [length]. rewrite Nat.add_0_r. do 2 eexists. split; [done|apply parsed_nil]. }
  assert (Hc : m q = c ∧ c ≠ x00) by (apply str_at_cons in Hs as (-> & ? & _); done).
  destruct Hc as [-> Hc0]. rewrite bool_decide_false by done.
  destruct (skip_word_spec m q (c :: s0) (S fuel) Hs ltac:(lia)) as (w & s2 & E & Hwb & Hh2 & ->).
  cbn [mbind option_bind]. rewrite E in *.
  assert (Hw : w ≠ []).
  { destruct w; [|done]. cbn in E. subst s2. pose proof (Hh1 c eq_refl). pose proof (Hh2 c eq_refl). congruence. }
  rewrite (words_word w s2) by done. clear Hh1 Hc0 E c s0.
  replace (MAXARG - 1 - i)%nat with (S (MAXARG - 1 - S i)) by lia. cbn [take length].
  rewrite length_app in *. set (r := q + Z.of_nat (length w)) in *.
  assert (length w ≠ 0)%nat by by destruct w.
  pose proof (str_at_app _ _ _ _ Hs) as Hs2. fold r in Hs2.
  destruct s2 as [|c s2].
  - apply str_at_nil in Hs2 as Hz. rewrite bool_decide_false by auto. cbn [length] in *.
    destruct (IH m r [] (S i) (<[i:=q]> argv) Hs2) as (m' & argv' & -> & Hp);
      [cbn; lia|by rewrite length_insert|].
    exists m', argv'. split; [do 2 f_equal; lia|].
    eapply (parsed_cons _ _ _ _ _ q w m r 0%nat); try done; try lia.
    rewrite app_nil_r in Hs. done.
  - apply str_at_cons in Hs2 as Hz. destruct Hz as (-> & Hc & Hs3). rewrite bool_decide_true by done.
    cbn [length] in *.
    assert (Hs3' : str_at (store8 m r x00) (r + 1) s2).
    { eapply str_at_ext, Hs3. intros x Hx. apply store8_other. lia. }
    rewrite (words_blank c s2) by by apply Hh2.
    destruct (IH (store8 m r x00) (r + 1) s2 (S i) (<[i:=q]> argv) Hs3') as (m' & argv' & -> & Hp);
      [lia|by rewrite length_insert|].
    exists m', argv'. split; [do 2 f_equal; lia|].
    eapply (parsed_cons _ _ _ _ _ q w (store8 m r x00) (r + 1) (length s2)); try done; try lia.
    + intros x Hx. apply store8_other. lia.
    + by eapply str_at_cut.
Qed.

(** *** read_line *)

(** What stops the reading of a line before [t]. *)
Definition stops_at (t : stdin) : Prop :=
  head t = Some (Some newline) ∨ head t = Some None ∨ t = [].

Lemma read_loop_spec n m buf i inp :
  0 <= i →
  ∃ l t m' rest, read_loop n m buf i inp = (i + Z.of_nat (length l), m', rest)
    ∧ inp = (Some <$> l) ++ t ∧ newline ∉ l
    ∧ ((length l = n ∧ rest = t) ∨ ((length l < n)%nat ∧ rest = tail t ∧ stops_at t))
    ∧ (∀ x, x < buf + i ∨ buf + i + Z.of_nat (length l) < x → m' x = m x)
    ∧ (∀ (k : nat) b, l !! k = Some b → m' (buf + i + Z.of_nat k) = b)
    ∧ (0 < i + Z.of_nat (length l) ∨ n = 0%nat → m' (buf + i + Z.of_nat (length l)) = x00).
Proof.
  revert m i inp; induction n as [|n IH]; intros m i inp Hi; cbn [read_loop].
  { unfold end_line. exists [], inp. do 2 eexists. cbn. rewrite !Z.add_0_r.
    split_and!; [done|done|by intros ?%elem_of_nil|by left| |done|intros _; apply store8_same].
    intros x Hx. apply store8_other. lia. }
  assert (Hend : ∀ t inp' : stdin, inp = t → inp' = tail t → stops_at t → ∀ m0 : mem,
    (∀ x, x ≠ buf + i → m0 x = m x) → ∀ m', m' = store8 m0 (buf + i) x00 ∨ m' = m0 ∧ i = 0 →
    ∃ l t m'' rest, (i, m', inp') = (i + Z.of_nat (length l), m'', rest)
    ∧ inp = (Some <$> l) ++ t ∧ newline ∉ l
    ∧ ((length l = S n ∧ rest = t) ∨ ((length l < S n)%nat ∧ rest = tail t ∧ stops_at t))
    ∧ (∀ x, x < buf + i ∨ buf + i + Z.of_nat (length l) < x → m'' x = m x)
    ∧ (∀ (k : nat) b, l !! k = Some b → m'' (buf + i + Z.of_nat k) = b)
    ∧ (0 < i + Z.of_nat (length l) ∨ S n = 0%nat → m'' (buf + i + Z.of_nat (length l)) = x00)).
  { intros t inp' -> -> Ht m0 Hm0 m' Hm'. exists [], t, m', (tail t). cbn. rewrite !Z.add_0_r.
    split_and!; [done|done|by intros ?%elem_of_nil|right; split_and!; [lia|done|done]| |done|].
    - intros x Hx. destruct Hm' as [->|[-> _]]; rewrite ?store8_other by lia; apply Hm0; lia.
    - intros [?|?]; [|done]. destruct Hm' as [->|[_ ?]]; [apply store8_same|lia]. }
  destruct inp as [|[b|] inp].
  - destruct (Z.eqb_spec i 0) as [->|]; 
      (eapply (Hend [] [] eq_refl eq_refl ltac:(by right; right) m); [done|auto]).
  - case_bool_decide as Hb.
    + subst b. apply (Hend (Some newline :: inp) inp eq_refl eq_refl ltac:(by left) (store8 m (buf + i) newline)); [|by left].
      intros x Hx. by apply store8_other.
    + destruct (IH (store8 m (buf + i) b) (i + 1) inp ltac:(lia)) as (l & t & m' & rest & -> & -> & Hn & Hor & Hout & Hin & Hz).
      exists (b :: l), t, m', rest. cbn [length fmap list_fmap app]. split_and!.
      * do 2 f_equal. lia.
      * done.
      * intros [?|?]%elem_of_cons; congruence.
      * destruct Hor as [[? ?]|(? & ? & ?)]; [left|right]; split_and!; (done || lia).
      * intros x Hx. rewrite Hout by lia. apply store8_other. lia.
      * intros [|k] c Hk; simplify_eq/=.
        -- rewrite Z.add_0_r, Hout by lia. apply store8_same.
        -- replace (buf + i + Z.of_nat (S k)) with (buf + (i + 1) + Z.of_nat k) by lia. by apply Hin.
      * intros _. replace (buf + i + Z.of_nat (S (length l))) with (buf + (i + 1) + Z.of_nat (length l)) by lia.
        apply Hz. lia.
  - destruct (Z.eqb_spec i 0) as [->|]; 
      (eapply (Hend (None :: inp) inp eq_refl eq_refl ltac:(by right; left) m); [done|auto]).
Qed.

Lemma fmap_Some_prefix (l l' : list byte) (t t' : stdin) :
  (Some <$> l) ++ Some newline :: t = (Some <$> l') ++ t' → newline ∉ l → newline ∉ l' →
  stops_at t' → l' = l ∧ t' = Some newline :: t.
Proof.
  revert l'; induction l as [|b l IH]; intros [|b' l'] E Hl Hl' Ht; simplify_eq/=.
  - done.
  - by destruct Hl'; left.
  - destruct Ht as [Ht|[Ht|Ht]]; simplify_eq/=. by destruct Hl; left.
  - apply not_elem_of_cons in Hl as [_ Hl], Hl' as [_ Hl']. by destruct (IH l') as [-> ->].
Qed.

(** A line of the input, read whole. *)
Lemma read_line_line m buf l rest :
  line_ok l →
  ∃ m', read_line m buf sizeof_buf ((Some <$> l) ++ Some newline :: rest) = (Z.of_nat (length l), m', rest)
    ∧ str_at m' buf l ∧ ∀ x, x < buf ∨ buf + Z.of_nat (length l) < x → m' x = m x.
Proof.
  intros (Hne & Hlen & Hnl & Hz). unfold read_line.
  destruct (read_loop_spec (Z.to_nat sizeof_buf) m buf 0 ((Some <$> l) ++ Some newline :: rest) ltac:(lia))
    as (l' & t & m' & rest' & -> & E & Hnl' & Hor & Hout & Hin & Hend).
  rewrite Z.add_0_l, !Z.add_0_r in *.
  assert (l' = l ∧ t = Some newline :: rest ∧ rest' = rest) as (-> & _ & ->).
  { destruct Hor as [[Hl' ->]|(_ & -> & Ht)].
    - exfalso. assert (Hk : ((Some <$> l) ++ Some newline :: rest) !! length l = Some (Some newline)).
      { rewrite lookup_app_r, length_fmap, Nat.sub_diag by (by rewrite length_fmap). done. }
      rewrite E, lookup_app_l, list_lookup_fmap in Hk by (rewrite length_fmap; lia).
      apply fmap_Some in Hk as (b & Hb & [= <-]). apply Hnl'. by eapply list_elem_of_lookup_2.
    - destruct (fmap_Some_prefix l l' rest t) as [-> ->]; done. }
  exists m'. split; [done|]. split; [split|done].
  - intros k b Hk. split; [by apply Hin|]. intros ->. apply Hz. by eapply list_elem_of_lookup_2.
  - apply Hend. left. destruct l; [done|cbn; lia].
Qed.

Lemma read_line_stop m buf rest :
  stops_at rest → ∃ m' rest', read_line m buf sizeof_buf rest = (0, m', rest').
Proof.
  intros [H|[H|H]]; destruct rest as [|[b|] rest]; simplify_eq/=; by do 2 eexists.
Qed.

Section Loop.
Variables (fork_ret : nat → Z) (buf : Z) (cmd : list (list byte)).
Hypotheses (Hfork : ∀ n, 0 <= fork_ret n) (Hbuf : 0 < buf) (Hcmd : (length cmd <= MAXARG - 1)%nat).

(** The command's own arguments are in place, out of the buffer. *)
Definition cmd_in (m : mem) (argv : list Z) : Prop :=
  length argv = MAXARG ∧ ∀ (k : nat) w, cmd !! k = Some w →
    ∃ q, argv !! k = Some q ∧ q ≠ 0 ∧ str_at m q w
      ∧ (q + Z.of_nat (length w) < buf ∨ buf + sizeof_buf <= q).

Lemma cmd_in_keep m m' argv argv' :
  cmd_in m argv → length argv' = length argv →
  (∀ j, (j < length cmd)%nat → argv' !! j = argv !! j) →
  (∀ x, x < buf ∨ buf + sizeof_buf <= x → m' x = m x) → cmd_in m' argv'.
Proof.
  intros [Hlen Hin] Hl Hold Hm. split; [congruence|]. intros k w Hk.
  destruct (Hin k w Hk) as (q & Hq & Hq0 & Hs & Hd). exists q.
  rewrite Hold by by eapply lookup_lt_Some. split_and!; [done|done| |done].
  eapply str_at_ext, Hs. intros x Hx. apply Hm. lia.
Qed.

(** One line: the child's arguments, and what the next line starts from. *)
Lemma parse_args_line m argv l :
  cmd_in m argv → line_ok l → str_at m buf l →
  ∃ m' argv' n, parse_args (S (Z.to_nat sizeof_buf)) m buf argv (length cmd) = Some (m', argv', n)
    ∧ cmd_in m' argv'
    ∧ runs_command (cmd ++ take (MAXARG - 1 - length cmd) (words l)) (ExecCall m' argv').
Proof using Hbuf Hcmd.
  intros Hc (Hne & Hlen & _) Hs. pose proof (proj1 Hc) as Hal.
  unfold parse_args. set (ws := take _ (words l)).
  assert (Hws : (length ws <= MAXARG - 1 - length cmd)%nat) by (subst ws; rewrite length_take; lia).
  destruct (parse_loop_spec (S (Z.to_nat sizeof_buf)) m buf l (length cmd) argv Hs)
    as (m' & argv' & -> & [Hmem Hl Hold Hnew]); [lia|rewrite Hal; unfold MAXARG; lia|]. fold ws in Hnew |- *.
  cbn [mbind option_bind]. set (n := (length cmd + length ws)%nat).
  assert (Hn : (n < length argv')%nat) by (rewrite Hl, Hal; subst n; unfold MAXARG in *; lia).
  do 3 eexists. split; [done|].
  assert (Hkeep : cmd_in m' (<[n := 0]> argv')).
  { eapply cmd_in_keep; [done|by rewrite length_insert| |].
    - intros j Hj. rewrite list_lookup_insert_ne by (subst n; lia). by apply Hold.
    - intros x Hx. apply Hmem. lia. }
  split; [done|]. split; cbn [x_argv x_mem].
  - intros k w Hk. apply lookup_app_Some in Hk as [Hk|[Hge Hk]].
    + destruct Hkeep as [_ Hkeep]. destruct (Hkeep k w Hk) as (q & ? & ? & ? & _). by exists q.
    + destruct (Hnew _ _ Hk) as (q & Hq & Hge' & Hw). exists q.
      assert (k - length cmd < length ws)%nat by by eapply lookup_lt_Some.
      rewrite list_lookup_insert_ne by (subst n; lia).
      replace (length cmd + (k - length cmd))%nat with k in Hq by lia. split_and!; [done|lia|done].
  - rewrite length_app. by apply list_lookup_insert_eq.
Qed.

Lemma main_loop_lines ls rest fuel m argv calls :
  cmd_in m argv → Forall line_ok ls → stops_at rest → (length ls < fuel)%nat →
  ∃ more, main_loop fork_ret fuel m buf argv (S (length cmd)) (typed ls ++ rest) calls
      = Some (0, calls ++ more)
    ∧ Forall2 (λ l c, runs_command (cmd ++ take (MAXARG - 1 - length cmd) (words l)) c) ls more.
Proof using Hbuf Hcmd Hfork.
  revert m argv calls fuel; induction ls as [|l ls IH]; intros m argv calls [|fuel] Hc Hls Hrest Hf;
    cbn in Hf; try lia; cbn [main_loop].
  - destruct (read_line_stop m buf rest Hrest) as (m' & rest' & E). cbn [typed concat fmap list_fmap app].
    rewrite E. cbn. exists []. rewrite app_nil_r. by split.
  - apply Forall_cons in Hls as [Hl Hls].
    replace (typed (l :: ls) ++ rest) with ((Some <$> l) ++ Some newline :: (typed ls ++ rest)).
    2:{ unfold typed. cbn. by rewrite !fmap_app, <- !app_assoc. }
    destruct (read_line_line m buf l (typed ls ++ rest) Hl) as (m1 & -> & Hs & Hm1).
    assert (Hpos : 0 <? Z.of_nat (length l) = true).
    { destruct Hl as (Hne & _). destruct l; [done|by apply Z.ltb_lt; cbn; lia]. }
    rewrite Hpos. cbn [Nat.sub]. rewrite Nat.sub_0_r.
    assert (Hc1 : cmd_in m1 argv).
    { eapply cmd_in_keep; [done|done|done|]. intros x Hx. apply Hm1. destruct Hl as (_ & ? & _). lia. }
    destruct (parse_args_line m1 argv l Hc1 Hl Hs) as (m2 & argv2 & n & -> & Hc2 & Hrun).
    cbn [mbind option_bind]. rewrite (proj2 (Z.ltb_ge _ 0)) by apply Hfork.
    destruct (IH m2 argv2 (calls ++ [ExecCall m2 argv2]) fuel Hc2 Hls Hrest ltac:(lia)) as (more & -> & Hall).
    exists (ExecCall m2 argv2 :: more). rewrite <- app_assoc. split; [done|]. by constructor.
Qed.
End Loop.

(** ** Properties *)

(** C24.  xargs: given a command of at most MAXARG - 1 words outside the
    buffer, an input of non-empty lines that fit the buffer, followed by its
    end, a failed read or a blank line, and no failing fork, xargs exits with
    0 and has run the command once per line, in order, each time with the
    line's words (split at blanks) after the command's own, as many as the
    array holds.  A blank line ends it like the end of the input. *)
Theorem xargs_runs (fork_ret : nat → Z) (fuel : nat) (m : mem) (buf : Z) (xargs_argv argv : list Z)
  (cmd : list (list byte)) (ls : list (list byte)) (rest : stdin)
  (Hfork : ∀ n, 0 <= fork_ret n) (Hbuf : 0 < buf) (Harr : length xargs_argv = MAXARG)
  (Hargc : length argv = S (length cmd)) (Hcmd : (1 <= length cmd <= MAXARG - 1)%nat)
  (Hin : ∀ (k : nat) w, cmd !! k = Some w → ∃ q, argv !! S k = Some q ∧ q ≠ 0 ∧ str_at m q w
     ∧ (q + Z.of_nat (length w) < buf ∨ buf + sizeof_buf <= q))
  (Hls : Forall line_ok ls) (Hrest : stops_at rest) (Hfuel : (length ls < fuel)%nat) :
  ∃ calls, main fork_ret fuel m buf xargs_argv argv (typed ls ++ rest) = Some (0, calls)
    ∧ Forall2 (λ l c, runs_command (cmd ++ take (MAXARG - 1 - length cmd) (words l)) c) ls calls.
Proof.
  unfold main. rewrite Hargc. destruct (Nat.ltb_spec (S (length cmd)) 2); [lia|].
  assert (Hc : cmd_in buf cmd m (list_inserts 0 (tail argv) xargs_argv)).
  { split; [by rewrite length_inserts|]. intros k w Hk. destruct (Hin k w Hk) as (q & Hq & ?). exists q.
    split; [|done]. destruct argv as [|a argv]; [done|]. cbn in *.
    rewrite list_lookup_inserts by (apply lookup_lt_Some in Hk; unfold MAXARG in *; lia). by rewrite Nat.sub_0_r. }
  destruct (main_loop_lines fork_ret buf cmd Hfork Hbuf (proj2 Hcmd) ls rest fuel m _ [] Hc Hls Hrest Hfuel)
    as (calls & -> & Hall). by exists calls.
Qed.

(** echo hi, on the lines "a b" and "c". *)
Definition sample_words : list (list byte) := [[x65; x63; x68; x6f]; [x68; x69]].
Definition sample_mem : mem := λ x,
  default x00 ([x00; x65; x63; x68; x6f; x00; x68; x69; x00] !! Z.to_nat x).
Definition sample_lines : list (list byte) := [[x61; x20; x62]; [x63]].

Lemma xargs_runs_witness :
  ∃ c1 c2, main (λ _, 7) 3 sample_mem 1000 (replicate 32 0) [900; 1; 6] (typed sample_lines) = Some (0, [c1; c2])
    ∧ runs_command (sample_words ++ [[x61]; [x62]]) c1 ∧ runs_command (sample_words ++ [[x63]]) c2.
Proof.
  destruct (xargs_runs (λ _, 7) 3 sample_mem 1000 (replicate 32 0) [900; 1; 6] sample_words sample_lines [])
    as (calls & E & Hall); try done; try (cbn; lia).
  - intros [|[|k]] w Hk; cbn in Hk; simplify_eq.
    + exists 1. split_and!; [done|done| |left; cbn; lia]. split; [|done].
      by intros [|[|[|[|k]]]] b Hb; cbn in Hb; simplify_eq.
    + exists 6. split_and!; [done|done| |left; cbn; lia]. split; [|done].
      by intros [|[|k]] b Hb; cbn in Hb; simplify_eq.
  - repeat constructor; try done; intros Hb; repeat (apply elem_of_cons in Hb as [Hb|Hb]; [done|]);
      by apply elem_of_nil in Hb.
  - by right; right.
  - rewrite app_nil_r in E. inversion Hall as [|? c1 ? l1 H1 Hall1]; subst.
    inversion Hall1 as [|? c2 ? l2 H2 Hall2]; subst. inversion Hall2; subst.
    exists c1, c2. split; [exact E|]. split; [exact H1|exact H2].
Defined.

(** C39.  read_line, on any input: it stores the bytes up to the first newline,
    failed read or end of the input, at most max_len, and answers how many;
    outside [buf, buf + answer] memory is unchanged.  When max_len bytes come
    without a newline, the terminating NUL goes to buf[max_len], one past an
    array of that size. *)
Theorem read_line_bounds (m : mem) (buf max_len : Z) (inp : stdin) (Hmax : 0 <= max_len) :
  ∃ l t m' rest, read_line m buf max_len inp = (Z.of_nat (length l), m', rest)
    ∧ inp = (Some <$> l) ++ t ∧ newline ∉ l
    ∧ (Z.of_nat (length l) = max_len ∧ rest = t
       ∨ Z.of_nat (length l) < max_len ∧ rest = tail t ∧ stops_at t)
    ∧ (∀ x, x < buf ∨ buf + Z.of_nat (length l) < x → m' x = m x)
    ∧ (∀ (k : nat) b, l !! k = Some b → m' (buf + Z.of_nat k) = b)
    ∧ (l ≠ [] → m' (buf + Z.of_nat (length l)) = x00)
    ∧ (Z.of_nat (length l) = max_len → m' (buf + max_len) = x00).
Proof.
  unfold read_line.
  destruct (read_loop_spec (Z.to_nat max_len) m buf 0 inp ltac:(lia))
    as (l & t & m' & rest & -> & E & Hnl & Hor & Hout & Hin & Hend).
  rewrite Z.add_0_l, !Z.add_0_r in *. exists l, t, m', rest.
  split; [done|]. split; [done|]. split; [done|]. split; [|split; [done|split; [done|split]]].
  - destruct Hor as [[? ?]|(? & ? & ?)]; [left|right]; split_and!; (done || lia).
  - intros Hl. apply Hend. left. destruct l; [done|cbn; lia].
  - intros El. rewrite <- El. apply Hend. destruct l; [right|left]; cbn in *; lia.
Qed.

(** Three bytes read into an array of two: buf[2] is overwritten. *)
Lemma read_line_bounds_witness :
  ∃ m' rest, read_line (λ _, x41) 100 2 (Some <$> [x61; x62; x63]) = (2, m', rest) ∧ m' 102 = x00.
Proof.
  destruct (read_line_bounds (λ _, x41) 100 2 (Some <$> [x61; x62; x63]))
    as (l & t & m' & rest & E & _ & _ & _ & _ & _ & _ & Hz); [lia|].
  assert (Hl : Z.of_nat (length l) = 2) by (by injection E as <- _ _).
  exists m', rest. rewrite Hl in E. exact (conj E (Hz Hl)).
Defined.
