(* ===== verification/Find.v ===== *)
(** find.c (Lab1): walking a directory tree and printing the files of a name.

    - A path is the list of its bytes, without NUL.
    - The file system, which does not change during the walk, and the constants
      of the kernel's headers are the parameters of class [FindExt].  [open]
      may depend on the number of descriptors the walk holds open.
    - The output is the sequence of the lines printed, on either descriptor. *)
From S2P Require Import Prelude.

(** ** Definitions *)

Notation path := (list byte).

Record dirent := Dirent { inum : Z; name : list byte }.

Class FindExt := {
  DIRSIZ : nat; T_DIR : Z; T_FILE : Z;
  open_ok : nat → path → bool;
  fstat_type : path → option Z;
  stat_type : path → option Z;
  read_dir : path → list dirent;
  (* what lies after [de] on the stack: a name of DIRSIZ bytes has no NUL *)
  after_de : list byte
}.

Inductive line :=
  | Found (p : path) | CannotOpen (p : path) | CannotStat (p : path) | NotDir (p : path)
  | TooLong | Usage.

Definition slash : byte := x2f.
Definition dot : byte := x2e.
Definition sizeof_buf : Z := 512.

Section Find.
Context `{FindExt}.

(** [fmtname]: the index after the last slash among the first [n] bytes, and
    the name: the rest of the path itself, or the static buffer. *)
Fixpoint name_start (p : path) (n : nat) : nat :=
  match n with
  | O => O
  | S k => if bool_decide (p !! k = Some slash) then S k else name_start p k
  end.
Definition fmtname (p : path) : list byte :=
  let p := drop (name_start p (length p)) p in
  if (DIRSIZ <=? length p)%nat then p
  else p ++ replicate (DIRSIZ - length p + 1) x00.

(** [buf], after [memmove(p, de.name, DIRSIZ); p[DIRSIZ] = 0]. *)
Definition entry_path (dir : path) (e : dirent) : path :=
  cstr (dir ++ [slash] ++ take DIRSIZ (name e) ++ [x00]).
(** [strcmp(de.name, s) == 0]. *)
Definition name_is (e : dirent) (s : list byte) : bool :=
  bool_decide (cstr (name e ++ after_de) = s).

(** The loop over the entries; [walk] is the recursive call. *)
Fixpoint find_entries (walk : path → option (list line)) (dir : path) (filename : list byte)
    (es : list dirent) : option (list line) :=
  match es with
  | [] => Some []
  | e :: es' =>
      if inum e =? 0 then find_entries walk dir filename es'
      else
        let buf := entry_path dir e in
        out ← match stat_type buf with
              | None => Some [CannotStat buf]
              | Some ty =>
                  if (ty =? T_FILE) && name_is e filename then Some [Found buf]
                  else if (ty =? T_DIR) && negb (name_is e [dot]) && negb (name_is e [dot; dot])
                  then walk buf
                  else Some []
              end;
        rest ← find_entries walk dir filename es';
        Some (out ++ rest)
  end.

(** [find], with [d] descriptors open; [fuel] bounds the depth. *)
Fixpoint find (fuel : nat) (d : nat) (dir : path) (filename : list byte) : option (list line) :=
  match fuel with
  | O => None
  | S k =>
      if negb (open_ok d dir) then Some [CannotOpen dir]
      else
        match fstat_type dir with
        | None => Some [CannotStat dir]
        | Some ty =>
            if negb (ty =? T_DIR) then Some [NotDir dir]
            else if sizeof_buf <? Z.of_nat (length dir) + 1 + Z.of_nat DIRSIZ + 1 then Some [TooLong]
            else find_entries (λ p, find k (S d) p filename) dir filename (read_dir dir)
        end
  end.

(** [main]: the exit status and the output. *)
Definition main (fuel : nat) (argv : list path) : option (Z * list line) :=
  match argv with
  | [_; dir; filename] => out ← find fuel 0 dir filename; Some (0, out)
  | _ => Some (1, [Usage])
  end.

(** *** Specification *)

(** A directory that the walk reads, with [d] descriptors open. *)
Definition readable (d : nat) (dir : path) : Prop :=
  open_ok d dir = true ∧ fstat_type dir = Some T_DIR
  ∧ Z.of_nat (length dir) + 1 + Z.of_nat DIRSIZ + 1 <= sizeof_buf.

(** The file [q] of the wanted name lies below [dir]. *)
Inductive below (filename : list byte) : nat → path → path → Prop :=
  | below_here d dir e :
      readable d dir → e ∈ read_dir dir → inum e ≠ 0 →
      stat_type (entry_path dir e) = Some T_FILE → name_is e filename = true →
      below filename d dir (entry_path dir e)
  | below_sub d dir e q :
      readable d dir → e ∈ read_dir dir → inum e ≠ 0 →
      stat_type (entry_path dir e) = Some T_DIR →
      name_is e [dot] = false → name_is e [dot; dot] = false →
      below filename (S d) (entry_path dir e) q → below filename d dir q.
End Find.

(** ** Lemmas *)

Section FindLemmas.
Context {X : FindExt}.

Lemma entry_path_longer dir e : x00 ∉ dir → (length dir < length (entry_path dir e))%nat.
Proof. intros Hd. unfold entry_path. rewrite cstr_app by done. rewrite length_app.
  cbn [app cstr]. rewrite bool_decide_false by done. cbn. lia. Qed.

Hypothesis Htypes : T_FILE ≠ T_DIR.

(** The entry [e] of [dir] has [q] printed. *)
Definition leads (walk : path → option (list line)) (dir : path) (filename : list byte) (e : dirent) (q : path) : Prop :=
  let buf := entry_path dir e in
  stat_type buf = Some T_FILE ∧ name_is e filename = true ∧ q = buf
  ∨ stat_type buf = Some T_DIR ∧ name_is e [dot] = false ∧ name_is e [dot; dot] = false
    ∧ ∃ o, walk buf = Some o ∧ Found q ∈ o.

Lemma find_entries_spec walk dir filename es :
  (∀ e, e ∈ es → ∃ out, walk (entry_path dir e) = Some out) →
  ∃ out, find_entries walk dir filename es = Some out
    ∧ ∀ q, Found q ∈ out ↔ ∃ e, e ∈ es ∧ inum e ≠ 0 ∧ leads walk dir filename e q.
Proof using Htypes.
  induction es as [|e es IH]; intros Hw; cbn [find_entries].
  { exists []. split; [done|]. intros q. split; [by intros ?%elem_of_nil|].
    by intros (e & ?%elem_of_nil & _). }
  destruct IH as (rest & -> & Hrest). { intros e' He'. apply Hw. by right. }
  destruct (Z.eqb_spec (inum e) 0) as [Hz|Hz].
  { exists rest. split; [done|]. intros q. rewrite Hrest. split.
    - intros (e' & He' & ?). exists e'. split; [by right|done].
    - intros (e' & [->|He']%elem_of_cons & Hi & ?); [done|]. by exists e'. }
  destruct (Hw e ltac:(left)) as (o & Ho).
  assert (Hhere : ∀ r out, r = Some out → (∀ q, Found q ∈ out ↔ leads walk dir filename e q) →
    ∃ out', (out ← r; Some (out ++ rest)) = Some out'
      ∧ ∀ q, Found q ∈ out' ↔ ∃ e', e' ∈ e :: es ∧ inum e' ≠ 0 ∧ leads walk dir filename e' q).
  { intros r out -> Hout. eexists. split; [done|]. intros q. rewrite elem_of_app, Hout, Hrest. split.
    - intros [Hq|(e' & He' & Hq)]; [exists e; split; [left|done]|exists e'; split; [by right|done]].
    - intros (e' & [->|He']%elem_of_cons & Hi & Hq); [by left|right; by exists e']. }
  unfold leads in Hhere. cbv zeta in Hhere. set (buf := entry_path dir e) in *.
  destruct (stat_type buf) as [ty|].
  2:{ eapply Hhere; [done|]. intros q. rewrite list_elem_of_singleton. naive_solver. }
  destruct (Z.eqb_spec ty T_FILE) as [->|Hty], (name_is e filename); cbn [andb].
  { eapply Hhere; [done|]. intros q. rewrite list_elem_of_singleton. naive_solver. }
  all: match goal with |- context [?ty =? T_DIR] => destruct (Z.eqb_spec ty T_DIR) as [Hd|Hd] end;
    destruct (name_is e [dot]), (name_is e [dot; dot]); cbn [andb negb];
    (eapply Hhere; [first [exact Ho|reflexivity]|]); intros q; rewrite ?elem_of_nil; naive_solver.
Qed.

Lemma below_readable filename d dir q : below filename d dir q → readable d dir.
Proof. by destruct 1. Qed.

Lemma find_total filename fuel d dir :
  x00 ∉ dir → (512 <= length dir + fuel)%nat → (0 < fuel)%nat →
  ∃ out, find fuel d dir filename = Some out ∧ ∀ q, Found q ∈ out ↔ below filename d dir q.
Proof using Htypes.
  revert d dir; induction fuel as [|k IH]; intros d dir Hdir Hf Hpos; [lia|]. cbn [find].
  assert (Hstop : ∀ l, ¬ readable d dir → (∀ q, l ≠ Found q) →
    ∃ out, Some [l] = Some out ∧ ∀ q, Found q ∈ out ↔ below filename d dir q).
  { intros l Hn Hl. eexists. split; [done|]. intros q. split.
    - intros [E|?%elem_of_nil]%elem_of_cons; [by destruct (Hl q)|done].
    - intros Hb. by destruct Hn; eapply below_readable. }
  unfold readable in Hstop. destruct (open_ok d dir) eqn:Ho; cbn [negb]; [|apply Hstop; naive_solver].
  destruct (fstat_type dir) as [ty|] eqn:Es; [|apply Hstop; naive_solver].
  destruct (Z.eqb_spec ty T_DIR) as [->|Ht]; cbn [negb]; [|apply Hstop; naive_solver].
  destruct (Z.ltb_spec sizeof_buf (Z.of_nat (length dir) + 1 + Z.of_nat DIRSIZ + 1)) as [Hl|Hl];
    [apply Hstop; [intros (_ & _ & ?); lia|done]|].
  assert (Hr : readable d dir) by by split_and!. clear Hstop. unfold sizeof_buf in Hl.
  assert (Hsub : ∀ e, ∃ out, find k (S d) (entry_path dir e) filename = Some out
    ∧ ∀ q, Found q ∈ out ↔ below filename (S d) (entry_path dir e) q).
  { intros e. pose proof (entry_path_longer dir e Hdir). apply IH; [apply cstr_no_nul|lia|lia]. }
  destruct (find_entries_spec (λ p, find k (S d) p filename) dir filename (read_dir dir))
    as (out & -> & Hout).
  { intros e _. destruct (Hsub e) as (out & ? & _). by exists out. }
  exists out. split; [done|]. intros q. rewrite Hout. split.
  - intros (e & He & Hi & [(Hty & Hn & ->)|(Hty & H1 & H2 & o & Eo & Hq)]).
    + by apply below_here.
    + destruct (Hsub e) as (o' & Eo' & Ho'). rewrite Eo' in Eo. simplify_eq.
      eapply below_sub; try done. by apply Ho'.
  - intros Hb. destruct Hb as [d dir e _ He Hi Hty Hn|d dir e q _ He Hi Hty H1 H2 Hb].
    + exists e. split_and!; [done..|]. by left.
    + exists e. split_and!; [done..|].
      right. destruct (Hsub e) as (o & Eo & Ho'). split_and!; [done..|]. exists o.
      split; [done|]. by apply Ho'.
Qed.
End FindLemmas.

(** *** Names *)

Lemma not_nul_take (l : list byte) n : x00 ∉ l → x00 ∉ take n l.
Proof. intros Hl Hn. apply Hl. rewrite <- (take_drop n l), elem_of_app. by left. Qed.

Lemma name_start_spec (p : path) n :
  (n <= length p)%nat →
  (name_start p n <= n)%nat
  ∧ (∀ k, (name_start p n <= k < n)%nat → p !! k ≠ Some slash)
  ∧ (name_start p n = 0%nat ∨ p !! pred (name_start p n) = Some slash).
Proof.
  induction n as [|n IH]; intros Hn; cbn [name_start]; [split_and!; [done|lia|by left]|].
  case_bool_decide as Hs; [split_and!; [done|lia|by right]|].
  destruct (IH ltac:(lia)) as (Hle & Hno & Hor). split_and!; [lia| |done].
  intros k Hk. destruct (decide (k = n)) as [->|]; [done|]. apply Hno. lia.
Qed.

(** fmtname answers the last component of the path. *)
Lemma fmtname_spec `{FindExt} p :
  x00 ∉ p → ∃ pre s, p = pre ++ s ∧ cstr (fmtname p) = s ∧ slash ∉ s
    ∧ (pre = [] ∨ last pre = Some slash).
Proof.
  intros Hp. destruct (name_start_spec p (length p) (le_n _)) as (Hle & Hno & Hor).
  unfold fmtname. set (n := name_start p (length p)) in *. exists (take n p), (drop n p).
  assert (Hd : x00 ∉ drop n p). { intros Hd. apply Hp. rewrite <- (take_drop n p), elem_of_app. by right. }
  split; [by rewrite take_drop|]. split; [|split].
  - destruct (_ <=? _)%nat; [by apply cstr_id|]. rewrite cstr_app by done.
    rewrite Nat.add_1_r. cbn. by rewrite app_nil_r.
  - intros Hs. apply list_elem_of_lookup in Hs as (k & Hk). rewrite lookup_drop in Hk.
    apply lookup_lt_Some in Hk as Hlt. apply (Hno (n + k)%nat); [lia|done].
  - destruct Hor as [E|Hs]; [left; by rewrite E|].
    destruct n as [|n']; [by left|]. right. rewrite last_lookup, length_take_le by lia.
    by rewrite lookup_take_lt by lia.
Qed.

(** ** Properties *)

(** C25.  find, on any unchanging file system, with links that make cycles or
    not: the walk ends, within a depth of 512 since each path is longer than
    its directory's, and prints exactly the files of the wanted name that lie
    below the directory through directories it can read: those it can open
    with the descriptors its own recursion leaves, and whose path fits its
    buffer.  With another number of arguments it prints its usage and fails. *)
Theorem find_prints `{FindExt} (Htypes : T_FILE ≠ T_DIR) (fuel : nat) (argv : list path)
  (Hargv : ∀ p, p ∈ argv → x00 ∉ p) (Hfuel : (512 <= fuel)%nat) :
  match argv with
  | [_; dir; filename] =>
      ∃ out, main fuel argv = Some (0, out) ∧ ∀ q, Found q ∈ out ↔ below filename 0 dir q
  | _ => main fuel argv = Some (1, [Usage])
  end.
Proof.
  destruct argv as [|a [|dir [|filename [|x argv]]]]; try done.
  destruct (find_total Htypes filename fuel 0 dir) as (out & E & Hout); [|lia|lia|].
  - apply Hargv. right. by left.
  - exists out. split; [|done]. cbn. by rewrite E.
Qed.

(** A directory "d" with the file "a", a subdirectory "d/d" that is "d" again
    (a cycle), and its own "." *)
Definition padded (l : list byte) : list byte := l ++ replicate (14 - length l) x00.
Definition sample_findext : FindExt := {|
  DIRSIZ := 14; T_DIR := 1; T_FILE := 2;
  open_ok := λ d _, (d <? 13)%nat;
  fstat_type := λ _, Some 1;
  stat_type := λ p, Some (if bool_decide (last p = Some x61) then 2 else 1);
  read_dir := λ _, [Dirent 1 (padded [dot]); Dirent 2 (padded [x61]); Dirent 3 (padded [x64])];
  after_de := [x00] |}.

Lemma find_prints_witness :
  ∃ out, @main sample_findext 512 [[x66]; [x64]; [x61]] = Some (0, out)
    ∧ Found [x64; slash; x64; slash; x61] ∈ out.
Proof.
  destruct (@find_prints sample_findext ltac:(discriminate) 512 [[x66]; [x64]; [x61]]) as (out & E & Hout).
  - intros p Hp Hz. repeat (apply elem_of_cons in Hp as [->|Hp];
      [apply list_elem_of_singleton in Hz; discriminate|]). by apply elem_of_nil in Hp.
  - reflexivity.
  - exists out. split; [exact E|]. apply Hout.
    set (sub := @entry_path sample_findext [x64] (Dirent 3 (padded [x64]))).
    assert (E1 : sub = [x64; slash; x64]) by (vm_compute; reflexivity).
    assert (E2 : [x64; slash; x64; slash; x61] = @entry_path sample_findext sub (Dirent 2 (padded [x61])))
      by (vm_compute; reflexivity).
    rewrite E2.
    refine (@below_sub sample_findext _ 0 [x64] (Dirent 3 (padded [x64])) _ _ _ _ _ _ _ _).
    + split_and!; vm_compute; reflexivity || discriminate.
    + right. right. left.
    + discriminate.
    + vm_compute; reflexivity.
    + vm_compute; reflexivity.
    + vm_compute; reflexivity.
    + fold sub. refine (@below_here sample_findext _ 1 sub (Dirent 2 (padded [x61])) _ _ _ _ _).
      * rewrite E1. split_and!; vm_compute; reflexivity || discriminate.
      * right. left.
      * discriminate.
      * vm_compute; reflexivity.
      * vm_compute; reflexivity.
Defined.

(** What find compares and prints for an entry.  A name shorter than
    DIRSIZ is compared and printed as it is.  A name of DIRSIZ bytes is printed
    as it is, but the comparison runs past the end of the entry: it succeeds
    only if the bytes that follow it on the stack begin with NUL. *)
Theorem find_entry_names `{FindExt} (dir nm s : list byte) (e : dirent)
  (Hdir : x00 ∉ dir) (Hnm : x00 ∉ nm) :
  ((length nm < DIRSIZ)%nat → name e = nm ++ replicate (DIRSIZ - length nm) x00 →
     entry_path dir e = dir ++ slash :: nm ∧ (name_is e s = true ↔ nm = s))
  ∧ (length nm = DIRSIZ → name e = nm →
     entry_path dir e = dir ++ slash :: nm
     ∧ (name_is e s = true ↔ nm ++ cstr after_de = s)
     ∧ (name_is e nm = true ↔ after_de = [] ∨ head after_de = Some x00)).
Proof.
  assert (Hpath : ∀ tl, take DIRSIZ (name e) = nm ++ tl → cstr (tl ++ [x00]) = [] →
    entry_path dir e = dir ++ slash :: nm).
  { intros tl Ht Hz. unfold entry_path. rewrite Ht. rewrite cstr_app by done. cbn [app cstr].
    rewrite bool_decide_false by done. rewrite <- app_assoc, cstr_app, Hz by done. by rewrite app_nil_r. }
  unfold name_is. split.
  - intros Hlen Hn. rewrite Hn. destruct (DIRSIZ - length nm)%nat as [|k] eqn:Ek; [lia|]. split.
    + apply (Hpath (replicate (S k) x00)); [|done].
      rewrite Hn. apply take_ge. rewrite length_app, length_replicate. lia.
    + rewrite <- app_assoc, cstr_app by done. cbn. by rewrite app_nil_r, bool_decide_eq_true.
  - intros Hlen Hn. split; [|split].
    + apply (Hpath []); [|done]. rewrite Hn, app_nil_r. apply take_ge. lia.
    + rewrite Hn, cstr_app by done. by rewrite bool_decide_eq_true.
    + rewrite Hn, cstr_app, bool_decide_eq_true by done. destruct after_de as [|b l]; cbn.
      * rewrite app_nil_r. naive_solver.
      * case_bool_decide as Hb; [subst; rewrite app_nil_r; naive_solver|]. split.
        -- intros E. rewrite <- (app_nil_r nm) in E at 2. by apply app_inv_head in E.
        -- intros [?|?]; naive_solver.
Qed.

Lemma find_entry_names_witness :
  @entry_path sample_findext [x64] (Dirent 2 (padded [x61])) = [x64; slash; x61].
Proof.
  destruct (@find_entry_names sample_findext [x64] [x61] [x61] (Dirent 2 (padded [x61]))) as [Hs _].
  - intros Hz. apply list_elem_of_singleton in Hz. discriminate.
  - intros Hz. apply list_elem_of_singleton in Hz. discriminate.
  - apply Hs; [cbn; lia|reflexivity].
Defined.
