(* ===== verification/Pingpong.v ===== *)
(** pingpong.c and sleep.c (Lab1).

    pingpong: a parent and its child exchange a message over one pipe.  A step
    runs one process up to and including its next system call; wait and exit do
    what they do in proc.c, and the pipe is a parameter (class [BytePipe]) with
    its documented behaviour as laws.  The two messages are the
    MSGSIZE bytes found at the string literals, which are shorter: what follows
    them in memory is a parameter.

    sleep: the checks of its argument; atoi() is a parameter. *)
From S2P Require Import Prelude.

(** ** Definitions *)

Definition MSGSIZE : nat := 16.

Inductive pc :=
  | PWrite | PWait | PRead | PPrint (buf : list byte)
  | CRead | CPrint (buf : list byte) | CWrite
  | Exit | Exited.

#[export] Instance pc_eq_dec : EqDecision pc.
Proof. solve_decision. Defined.

Record line := Received { l_pid : Z; l_text : list byte }.

(** Process 0 is the parent, process 1 its child. *)
Record st := St { queue : list byte; at_pc : list pc; printed : list line }.

Definition ping : list byte := [x70; x69; x6e; x67].
Definition pong : list byte := [x70; x6f; x6e; x67].

(** The kernel's pipes, on the bytes they hold, while both ends are open: the
    answer is [None] while the caller waits. *)
Class BytePipe := {
  bp_read : nat → list byte → option (list byte * list byte);
  bp_write : list byte → list byte → option (list byte)
}.
(** A read of an empty pipe waits, any other takes the bytes there are, up to
    [n]; an empty pipe takes a message of up to 512 bytes at once. *)
Class BytePipeLaws `{BytePipe} := {
  bp_empty n : bp_read n [] = None;
  bp_some n q : q ≠ [] → bp_read n q = Some (take n q, drop n q);
  bp_room m : (length m <= 512)%nat → bp_write [] m = Some m
}.

Section Pingpong.
Context `{BytePipe}.
Variables (pids : nat → Z) (after_ping after_pong buf0 : list byte).

Definition message (literal after : list byte) : list byte := take MSGSIZE (literal ++ [x00] ++ after).
(** [read(fd[0], buf, MSGSIZE)] and [write(fd[1], m, MSGSIZE)]: both processes
    keep both ends of the pipe open. *)
Definition do_read (k : list byte → pc) (s : st) : option (pc * st) :=
  '(b, q) ← bp_read MSGSIZE (queue s);
  Some (k (b ++ drop (length b) buf0), St q (at_pc s) (printed s)).
Definition do_write (m : list byte) (k : pc) (s : st) : option (pc * st) :=
  q ← bp_write (queue s) m;
  Some (k, St q (at_pc s) (printed s)).
Definition do_print (me : nat) (buf : list byte) (k : pc) (s : st) : option (pc * st) :=
  Some (k, St (queue s) (at_pc s) (printed s ++ [Received (pids me) (cstr buf)])).

Definition step1 (me : nat) (s : st) : option st :=
  k ← at_pc s !! me;
  '(k', s) ← match k with
    | PWrite => do_write (message ping after_ping) PWait s
    | PWait => if bool_decide (at_pc s !! 1%nat = Some Exited) then Some (PRead, s) else None
    | PRead => do_read PPrint s
    | PPrint buf => do_print me buf Exit s
    | CRead => do_read CPrint s
    | CPrint buf => do_print me buf CWrite s
    | CWrite => do_write (message pong after_pong) Exit s
    | Exit => Some (Exited, s)
    | Exited => None
    end;
  Some (St (queue s) (<[me := k']> (at_pc s)) (printed s)).

(** After pipe() and fork(): a failed fork (-1) takes the child's branch. *)
Definition start (fork_ok : bool) : st := St [] (if fork_ok then [PWrite; CRead] else [CRead]) [].
Definition step (s s' : st) : Prop := ∃ me, step1 me s = Some s'.

(** A schedule, to evaluate. *)
Fixpoint play (l : list nat) (s : st) : option st :=
  match l with [] => Some s | me :: l' => s ← step1 me s; play l' s end.

(** [main] of sleep.c: its exit status, and the ticks it sleeps for. *)
Definition sleep_main (atoi : list byte → Z) (argv : list (list byte)) : Z * option Z :=
  match argv with
  | [_; a] =>
      let time := atoi a in
      if time <=? 0 then (1, None) else (0, Some time)
  | _ => (1, None)
  end.
End Pingpong.

(** ** Lemmas *)

Section PingpongLemmas.
Context {BP : BytePipe} {BL : BytePipeLaws}.
Variables (pids : nat → Z) (after_ping after_pong buf0 : list byte).
Hypotheses (Hping : length after_ping = 11%nat) (Hpong : length after_pong = 11%nat)
           (Hbuf : length buf0 = MSGSIZE).
Notation go := (step pids after_ping after_pong buf0).

Lemma play_nsteps l s s' : play pids after_ping after_pong buf0 l s = Some s' → nsteps go (length l) s s'.
Proof using.
  revert s; induction l as [|me l IH]; intros s; cbn; [intros [= ->]; constructor|].
  intros (s1 & H1 & H)%bind_Some. econstructor; [by exists me|by apply IH].
Qed.

Lemma message_length l after : length l = 4%nat → length after = 11%nat → length (message l after) = MSGSIZE.
Proof. intros Hl Ha. unfold message. rewrite length_take, !length_app, Hl, Ha. done. Qed.
Lemma message_text l after : x00 ∉ l → length l = 4%nat → cstr (message l after) = l.
Proof.
  intros Hz Hl. unfold message. rewrite take_app_ge by (rewrite Hl; unfold MSGSIZE; lia).
  rewrite cstr_app by done. rewrite Hl. cbn. by rewrite app_nil_r.
Qed.

(** The one execution. *)
Definition trail : list st :=
  let ping' := message ping after_ping in
  let pong' := message pong after_pong in
  let l1 := Received (pids 1%nat) ping in
  let l2 := Received (pids 0%nat) pong in
  [St [] [PWrite; CRead] []; St ping' [PWait; CRead] []; St [] [PWait; CPrint ping'] [];
   St [] [PWait; CWrite] [l1]; St pong' [PWait; Exit] [l1]; St pong' [PWait; Exited] [l1];
   St pong' [PRead; Exited] [l1]; St [] [PPrint pong'; Exited] [l1];
   St [] [Exit; Exited] [l1; l2]; St [] [Exited; Exited] [l1; l2]].

Lemma do_read_message k s :
  length (queue s) = MSGSIZE → do_read buf0 k s = Some (k (queue s), St [] (at_pc s) (printed s)).
Proof using Hbuf BL.
  clear Hping Hpong. intros Hm. unfold do_read. rewrite bp_some by (intros E; by rewrite E in Hm).
  cbn [mbind option_bind]. rewrite take_ge, !drop_ge by lia. by rewrite app_nil_r.
Qed.
Lemma do_read_empty k s : queue s = [] → do_read buf0 k s = None.
Proof using BL. intros Hq. unfold do_read. by rewrite Hq, bp_empty. Qed.
Lemma do_write_message m k s :
  queue s = [] → length m = MSGSIZE → do_write m k s = Some (k, St m (at_pc s) (printed s)).
Proof using BL.
  clear Hping Hpong Hbuf. intros Hq Hm. unfold do_write.
  rewrite Hq, bp_room by (rewrite Hm; unfold MSGSIZE; lia). done.
Qed.

(** Where one process of a state of the trail leads, if anywhere. *)
Lemma trail_run n s me :
  trail !! n = Some s →
  match step1 pids after_ping after_pong buf0 me s with
  | Some s' => trail !! S n = Some s'
  | None => True
  end.
Proof using Hping Hpong Hbuf BL.
  assert (H1 := message_length ping after_ping eq_refl Hping).
  assert (H2 := message_length pong after_pong eq_refl Hpong).
  assert (T1 : cstr (message ping after_ping) = ping)
    by (apply message_text; [refine (bool_decide_unpack _ _); by vm_compute|done]).
  assert (T2 : cstr (message pong after_pong) = pong)
    by (apply message_text; [refine (bool_decide_unpack _ _); by vm_compute|done]).
  unfold trail, step1, do_print. revert H1 H2 T1 T2.
  generalize (message ping after_ping) as ping', (message pong after_pong) as pong'. intros ping' pong' H1 H2 T1 T2 Hn.
  do 10 (destruct n as [|n]; [injection Hn as <-; destruct me as [|[|me]]; cbn [at_pc lookup list_lookup mbind option_bind];
    rewrite ?do_read_message, ?do_read_empty, ?do_write_message, ?T1, ?T2 by done;
    cbn; rewrite ?T1, ?T2; done|]); done.
Qed.
Lemma trail_step n s s' : trail !! n = Some s → go s s' → trail !! S n = Some s'.
Proof using Hping Hpong Hbuf BL.
  intros Hn (me & Hs). pose proof (trail_run n s me Hn) as Ht. by rewrite Hs in Ht.
Qed.
(** Each state but the last has a step. *)
Lemma trail_next n s : trail !! n = Some s → (n < 9)%nat → ∃ s', go s s'.
Proof using Hping Hpong Hbuf BL.
  assert (H1 := message_length ping after_ping eq_refl Hping).
  assert (H2 := message_length pong after_pong eq_refl Hpong).
  unfold trail. intros Hn Hlt.
  do 9 (destruct n as [|n]; [injection Hn as <-; eexists;
    first [exists 0%nat; unfold step1, do_print; cbn [at_pc lookup list_lookup mbind option_bind];
           rewrite ?do_read_message, ?do_write_message by done; reflexivity
          |exists 1%nat; unfold step1, do_print; cbn [at_pc lookup list_lookup mbind option_bind];
           rewrite ?do_read_message, ?do_write_message by done; reflexivity]|]). lia.
Qed.
End PingpongLemmas.

(** ** Properties *)

(** C40.  pingpong, when fork succeeds, in any order of the steps: it takes nine
    steps and is never stuck before; the child prints the text "ping", then the
    parent the text "pong", although both messages carry 11 bytes read past
    their literals.  When fork fails the process takes the child's branch and
    waits for ever for its own message. *)
Theorem pingpong_runs `{BytePipe} (Hpipe : BytePipeLaws) (pids : nat → Z) (after_ping after_pong buf0 : list byte) (n : nat) (s : st)
  (Hping : length after_ping = 11%nat) (Hpong : length after_pong = 11%nat) (Hbuf : length buf0 = MSGSIZE) :
  let step := step pids after_ping after_pong buf0 in
  (nsteps step n (start true) s →
     (n <= 9)%nat ∧ ((n < 9)%nat → ∃ s', step s s')
     ∧ (n = 9%nat → at_pc s = [Exited; Exited]
          ∧ printed s = [Received (pids 1%nat) ping; Received (pids 0%nat) pong]))
  ∧ ∀ s', ¬ step (start false) s'.
Proof.
  intros step. split; [|intros s' ([|me] & Hs); [|done]; cbn in Hs; unfold do_read in Hs; cbn in Hs;
    by rewrite bp_empty in Hs].
  intros Hn. assert (Ht : trail pids after_ping after_pong !! n = Some s).
  { assert (H0 : trail pids after_ping after_pong !! 0%nat = Some (start true)) by done.
    revert H0. generalize 0%nat at 1 as i. assert (Hi : ∀ i, trail pids after_ping after_pong !! i = Some (start true) →
      trail pids after_ping after_pong !! (i + n)%nat = Some s); [|by intros; apply (Hi 0%nat)].
    induction Hn as [x|n x y z Hs _ IH]; intros i Hi; [by rewrite Nat.add_0_r|].
    rewrite Nat.add_succ_r, <- Nat.add_succ_l. apply IH.
    by eapply (trail_step pids after_ping after_pong buf0 Hping Hpong Hbuf). }
  assert (Hlt : (n < 10)%nat) by (by apply lookup_lt_Some in Ht).
  split; [lia|]. split.
  - intros H9. by eapply (trail_next pids after_ping after_pong buf0 Hping Hpong Hbuf).
  - intros ->. by injection Ht as <-.
Qed.

Definition sample_pipe : BytePipe := {|
  bp_read := λ n q, match q with [] => None | _ => Some (take n q, drop n q) end;
  bp_write := λ q m, if bool_decide (length (q ++ m) <= 512)%nat then Some (q ++ m) else None |}.
Lemma sample_pipe_laws : @BytePipeLaws sample_pipe.
Proof.
  constructor; [done|by intros n [|b q]|]. intros m Hm. cbn. by rewrite bool_decide_true.
Qed.

Lemma pingpong_runs_witness :
  let tail := replicate 11 x41 in
  ∃ s, nsteps (@step sample_pipe Z.of_nat tail tail (replicate 16 x00)) 9 (start true) s
    ∧ printed s = [Received 1 ping; Received 0 pong].
Proof.
  intros tail. set (go := @step sample_pipe Z.of_nat tail tail (replicate 16 x00)).
  destruct (@play sample_pipe Z.of_nat tail tail (replicate 16 x00) [0; 1; 1; 1; 1; 0; 0; 0; 0]%nat (start true))
    as [s|] eqn:E; [|vm_compute in E; discriminate E].
  assert (Hn : nsteps go 9 (start true) s) by exact (@play_nsteps sample_pipe _ _ _ _ _ _ _ E).
  exists s. split; [exact Hn|].
  destruct (@pingpong_runs sample_pipe sample_pipe_laws Z.of_nat tail tail (replicate 16 x00) 9 s eq_refl eq_refl eq_refl)
    as [H _].
  apply H; [exact Hn|reflexivity].
Defined.
