(* ===== verification/Primes.v ===== *)
(** primes.c (Lab1): a sieve made of a chain of processes and pipes, with one
    process per prime.

    - A state holds the processes in the order of their creation, the queue of
      every pipe and the numbers printed.  A step runs one process up to and
      including its next system call; which process steps is arbitrary.
    - Reading and writing a pipe are parameters (class [PipeExt]) with the
      documented behaviour as laws (class [PipeLaws]); fork, close, wait and
      exit do to descriptors and processes what they do in proc.c.
    - A file descriptor is the end of the pipe it refers to; [open_ends] are
      those a process has open. *)
From S2P Require Import Prelude.

(** ** Definitions *)

Inductive pipe_end := READ | WRITE.

#[export] Instance pipe_end_eq_dec : EqDecision pipe_end.
Proof. solve_decision. Defined.

(** Where a process is in main(), with its local variables: [p] and [r] are the
    pipes of [p] and [right_pipe], [l] the one [left_read] reads from. *)
Inductive pc :=
  | MPipe | MFork (p : nat) | MCloseR (p : nat) | MWrite (p : nat) (i : Z) | MCloseW (p : nat) | MWait
  | SCloseW (p : nat) | SRead (l : nat) | SPrint (l : nat) (prime : Z) | SPipe (l : nat) (prime : Z)
  | SFork (l : nat) (prime : Z) (r : nat)
  | CCloseW (l r : nat) | CCloseL (l r : nat)
  | PCloseR (l : nat) (prime : Z) (r : nat) | PRead (l : nat) (prime : Z) (r : nat)
  | PWrite (l : nat) (prime : Z) (r : nat) (num : Z)
  | PCloseL (l r : nat) | PCloseW (r : nat) | PWait
  | SEnd (l : nat) | Exit | Exited.

#[export] Instance pc_eq_dec : EqDecision pc.
Proof. solve_decision. Defined.

Record proc := Proc { at_pc : pc; open_ends : list (nat * pipe_end); parent : option nat }.

Record st := St { procs : list proc; pipes : list (list Z); reaped : list nat; out : list Z }.

Definition set_proc (me : nat) (P : proc) (s : st) : st :=
  St (<[me := P]> (procs s)) (pipes s) (reaped s) (out s).
Definition set_pipe (p : nat) (q : list Z) (s : st) : st :=
  St (procs s) (<[p := q]> (pipes s)) (reaped s) (out s).

Definition is_open (s : st) (e : nat * pipe_end) : bool :=
  existsb (λ P, bool_decide (e ∈ open_ends P)) (procs s).
Definition close_end (e : nat * pipe_end) (P : proc) : list (nat * pipe_end) :=
  filter (λ x, x ≠ e) (open_ends P).

(** The kernel's pipes, on the queue and whether the other end is open: the
    answer of a call is [None] while the caller waits; a read answers a number,
    or none at the end of the data. *)
Class PipeExt := {
  pipe_read : list Z → bool → option (option Z * list Z);
  pipe_write : list Z → Z → bool → option (list Z)
}.
(** A read takes the oldest number, ends when no writer is left, and waits
    otherwise; a write with a reader appends, unless the pipe is full; a pipe
    that is empty is not full. *)
Class PipeLaws `{PipeExt} := {
  pl_data x q w : pipe_read (x :: q) w = Some (Some x, q);
  pl_end : pipe_read [] false = Some (None, []);
  pl_write q x : match pipe_write q x true with Some q' => q' = q ++ [x] | None => q ≠ [] end;
  pl_broken q x : is_Some (pipe_write q x false);
  pl_wait : pipe_read [] true = None
}.

Section Primes.
Context `{PipeExt}.

(** The calls, made by process [me], which goes on at [k]. *)
Definition goto (me : nat) (P : proc) (k : pc) (s : st) : st :=
  set_proc me (Proc k (open_ends P) (parent P)) s.
Definition do_close (me : nat) (P : proc) (e : nat * pipe_end) (k : pc) (s : st) : st :=
  set_proc me (Proc k (close_end e P) (parent P)) s.
Definition do_pipe (me : nat) (P : proc) (k : nat → pc) (s : st) : st :=
  let p := length (pipes s) in
  set_proc me (Proc (k p) ((p, READ) :: (p, WRITE) :: open_ends P) (parent P))
    (St (procs s) (pipes s ++ [[]]) (reaped s) (out s)).
Definition do_fork (me : nat) (P : proc) (k child : pc) (s : st) : st :=
  let s := goto me P k s in
  St (procs s ++ [Proc child (open_ends P) (Some me)]) (pipes s) (reaped s) (out s).
Definition do_write (me : nat) (P : proc) (p : nat) (x : Z) (k : pc) (s : st) : option st :=
  q ← pipes s !! p;
  q' ← pipe_write q x (is_open s (p, READ));
  Some (goto me P k (set_pipe p q' s)).
Definition do_read (me : nat) (P : proc) (p : nat) (k : Z → pc) (eof : pc) (s : st) : option st :=
  q ← pipes s !! p;
  '(o, q') ← pipe_read q (is_open s (p, WRITE));
  Some (goto me P (match o with Some x => k x | None => eof end) (set_pipe p q' s)).
Definition child_of (me : nat) (s : st) (kP : nat * proc) : bool :=
  bool_decide (parent (snd kP) = Some me) && bool_decide (fst kP ∉ reaped s).
Definition do_wait (me : nat) (P : proc) (k : pc) (s : st) : option st :=
  let kids := List.filter (child_of me s) (imap pair (procs s)) in
  match kids with
  | [] => Some (goto me P k s)
  | _ =>
      match List.filter (λ kP, bool_decide (at_pc (snd kP) = Exited)) kids with
      | [] => None
      | (c, _) :: _ =>
          let s := goto me P k s in Some (St (procs s) (pipes s) (reaped s ++ [c]) (out s))
      end
  end.

(** One step of process [me]; [fork_ok] is whether a fork in it succeeds. *)
Definition step1 (fork_ok : bool) (me : nat) (s : st) : option st :=
  P ← procs s !! me;
  match at_pc P with
  | MPipe => Some (do_pipe me P MFork s)
  | MFork p =>
      if fork_ok then Some (do_fork me P (MCloseR p) (SCloseW p) s) else Some (goto me P (SCloseW p) s)
  | MCloseR p => Some (do_close me P (p, READ) (MWrite p 2) s)
  | MWrite p i =>
      if i <=? 35 then do_write me P p i (MWrite p (i + 1)) s else Some (goto me P (MCloseW p) s)
  | MCloseW p => Some (do_close me P (p, WRITE) MWait s)
  | MWait => do_wait me P Exit s
  | SCloseW p => Some (do_close me P (p, WRITE) (SRead p) s)
  | SRead l => do_read me P l (SPrint l) (SEnd l) s
  | SPrint l prime =>
      let s := goto me P (SPipe l prime) s in
      Some (St (procs s) (pipes s) (reaped s) (out s ++ [prime]))
  | SPipe l prime => Some (do_pipe me P (SFork l prime) s)
  | SFork l prime r =>
      if fork_ok then Some (do_fork me P (PCloseR l prime r) (CCloseW l r) s)
      else Some (goto me P (PCloseR l prime r) s)
  | CCloseW l r => Some (do_close me P (r, WRITE) (CCloseL l r) s)
  | CCloseL l r => Some (do_close me P (l, READ) (SRead r) s)
  | PCloseR l prime r => Some (do_close me P (r, READ) (PRead l prime r) s)
  | PRead l prime r =>
      do_read me P l (λ num, if Z.rem num prime =? 0 then PRead l prime r else PWrite l prime r num)
        (PCloseL l r) s
  | PWrite l prime r num => do_write me P r num (PRead l prime r) s
  | PCloseL l r => Some (do_close me P (l, READ) (PCloseW r) s)
  | PCloseW r => Some (do_close me P (r, WRITE) PWait s)
  | PWait => do_wait me P Exit s
  | SEnd l => Some (do_close me P (l, READ) Exit s)
  | Exit => Some (set_proc me (Proc Exited [] (parent P)) s)
  | Exited => None
  end.

Definition init : st := St [Proc MPipe [] None] [] [] [].

(** A step of any process, when forks succeed. *)
Definition step (s s' : st) : Prop := ∃ me, step1 true me s = Some s'.
Definition all_exited (s : st) : Prop := Forall (λ P, at_pc P = Exited) (procs s).

(** A schedule, to evaluate: the first process that can step does. *)
Fixpoint first_step (n : nat) (s : st) : option st :=
  match n with
  | O => None
  | S n' => match first_step n' s with Some s' => Some s' | None => step1 true n' s end
  end.
Fixpoint greedy (fuel : nat) (n : nat) (s : st) : nat * st :=
  match fuel with
  | O => (n, s)
  | S k => match first_step (length (procs s)) s with Some s' => greedy k (S n) s' | None => (n, s) end
  end.
End Primes.

(** *** The sieve on lists *)

Definition keep (prime : Z) (l : list Z) : list Z := List.filter (λ n, negb (Z.rem n prime =? 0)) l.
Fixpoint sieve_fuel (fuel : nat) (l : list Z) : list Z :=
  match fuel, l with
  | S k, p :: l' => p :: sieve_fuel k (keep p l')
  | _, _ => []
  end.
Definition sieve (l : list Z) : list Z := sieve_fuel (length l) l.

(** The numbers main() writes, and the primes among them. *)
Definition numbers : list Z := seqZ 2 34.
Definition is_prime (n : Z) : bool :=
  (2 <=? n) && forallb (λ d, negb (Z.rem n d =? 0)) (seqZ 2 (n - 2)).
Definition primes : list Z := List.filter is_prime numbers.

(** Pipes with room for [cap] numbers. *)
Definition bounded_pipe (cap : nat) : PipeExt := {|
  pipe_read := λ q w, match q with
                      | x :: q' => Some (Some x, q')
                      | [] => if w then None else Some (None, [])
                      end;
  pipe_write := λ q x r, if negb r then Some q
                         else if (length q <? cap)%nat then Some (q ++ [x]) else None |}.
Lemma bounded_pipe_laws cap : (1 <= cap)%nat → @PipeLaws (bounded_pipe cap).
Proof.
  intros Hcap. constructor; [done|done| |by eexists|done]. intros q x.
  cbn [pipe_write bounded_pipe negb].
  destruct (Nat.ltb_spec (length q) cap); [done|]. intros ->. cbn in *. lia.
Qed.

Example greedy_run :
  let '(n, s) := @greedy (bounded_pipe 3) 5000 0 init in
  out s = [2; 3; 5; 7; 11; 13; 17; 19; 23; 29; 31].
Proof. vm_compute. reflexivity. Qed.
