(* ===== verification/PrimesInv.v ===== *)
(** The chain of processes of primes.c (Primes.v): the invariant of its
    reachable states, a measure that every step decreases, and progress; so
    every execution ends with the primes printed in order.

    [A j] is the sequence of numbers still to arrive at process [j]: what its
    left pipe holds and what its left neighbour has yet to write. *)
From S2P Require Import Prelude Primes.

(** ** Definitions *)

(** What a process has yet to write to its right pipe, given what arrives. *)
Definition writes (k : pc) (a : list Z) : list Z :=
  match k with
  | MCloseR _ => numbers
  | MWrite _ i => seqZ i (36 - i)
  | PCloseR _ p _ | PRead _ p _ => keep p a
  | PWrite _ p _ n => n :: keep p a
  | _ => []
  end.
(** What the last process and those it will create have yet to print. *)
Definition future (k : pc) (a : list Z) : list Z :=
  match k with
  | MPipe | MFork _ => sieve numbers
  | SCloseW _ | SRead _ | CCloseW _ _ | CCloseL _ _ => sieve a
  | SPrint _ p => p :: sieve (keep p a)
  | SPipe _ p | SFork _ p _ => sieve (keep p a)
  | _ => []
  end.
(** The process has closed its right pipe; it has seen the end of its left one. *)
Definition closed (k : pc) : bool :=
  match k with MWait | PWait | Exit | Exited => true | _ => false end.
Definition seen_eof (k : pc) : bool :=
  match k with PCloseL _ _ | PCloseW _ | PWait | SEnd _ | Exit | Exited => true | _ => false end.

(** Process [j] of the chain: its locals, its open ends, whether it is the last. *)
Definition local (j : nat) (lastp : bool) (np : nat) (P : proc) : Prop :=
  let E := open_ends P in
  match at_pc P with
  | MPipe => j = 0%nat ∧ lastp = true ∧ np = 0%nat ∧ E = []
  | MFork p => j = 0%nat ∧ lastp = true ∧ np = 1%nat ∧ p = 0%nat ∧ E = [(0%nat, READ); (0%nat, WRITE)]
  | MCloseR p => j = 0%nat ∧ lastp = false ∧ p = 0%nat ∧ E = [(0%nat, READ); (0%nat, WRITE)]
  | MWrite p i => j = 0%nat ∧ lastp = false ∧ p = 0%nat ∧ 2 <= i <= 36 ∧ E = [(0%nat, WRITE)]
  | MCloseW p => j = 0%nat ∧ lastp = false ∧ p = 0%nat ∧ E = [(0%nat, WRITE)]
  | MWait => j = 0%nat ∧ lastp = false ∧ E = []
  | SCloseW p => j = 1%nat ∧ lastp = true ∧ np = j ∧ p = 0%nat ∧ E = [(0%nat, READ); (0%nat, WRITE)]
  | SRead l | SPrint l _ | SPipe l _ => j = S l ∧ lastp = true ∧ np = j ∧ E = [(l, READ)]
  | SFork l _ r => j = S l ∧ r = j ∧ lastp = true ∧ np = S j ∧ E = [(r, READ); (r, WRITE); (l, READ)]
  | CCloseW l r => r = S l ∧ j = S r ∧ lastp = true ∧ np = j ∧ E = [(r, READ); (r, WRITE); (l, READ)]
  | CCloseL l r => r = S l ∧ j = S r ∧ lastp = true ∧ np = j ∧ E = [(r, READ); (l, READ)]
  | PCloseR l _ r => j = S l ∧ r = j ∧ lastp = false ∧ E = [(r, READ); (r, WRITE); (l, READ)]
  | PRead l _ r | PWrite l _ r _ => j = S l ∧ r = j ∧ lastp = false ∧ E = [(r, WRITE); (l, READ)]
  | PCloseL l r => j = S l ∧ r = j ∧ lastp = false ∧ E = [(r, WRITE); (l, READ)]
  | PCloseW r => (0 < j)%nat ∧ r = j ∧ lastp = false ∧ E = [(r, WRITE)]
  | PWait => (0 < j)%nat ∧ lastp = false ∧ E = []
  | SEnd l => j = S l ∧ lastp = true ∧ np = j ∧ E = [(l, READ)]
  | Exit | Exited => (lastp = true → np = j) ∧ (j = 0%nat → lastp = false) ∧ E = []
  end.

(** A bound on the steps that a process and its future children still take. *)
Definition cost (n : Z) : Z := 20 * (1 + n) * (1 + n).
Definition rank (k : pc) (a : list Z) : Z :=
  let n := Z.of_nat (length a) in
  match k with
  | MPipe => cost 34 + 51 | MFork _ => cost 34 + 50
  | MCloseR _ => 39 | MWrite _ i => 4 + (36 - i) | MCloseW _ => 3 | MWait => 2
  | SCloseW _ => cost n + 4 | SRead _ => cost n + 3
  | SPrint _ _ => cost n + 3 * n + 30 | SPipe _ _ => cost n + 3 * n + 29 | SFork _ _ _ => cost n + 3 * n + 28
  | CCloseW _ _ => cost n + 5 | CCloseL _ _ => cost n + 4
  | PCloseR _ _ _ => 6 + 3 * n | PRead _ _ _ => 5 + 3 * n | PWrite _ _ _ _ => 7 + 3 * n
  | PCloseL _ _ => 4 | PCloseW _ => 3 | PWait => 2
  | SEnd _ => 2 | Exit => 1 | Exited => 0
  end.
Fixpoint ranks (j : nat) (A : nat → list Z) (l : list proc) : Z :=
  match l with
  | [] => 0
  | P :: l' => rank (at_pc P) (A j) + ranks (S j) A l'
  end.
Definition measure (A : nat → list Z) (s : st) : Z := ranks 0 A (procs s).

Definition is_last (s : st) (j : nat) : bool := bool_decide (S j = length (procs s)).

(** Neighbours [P], [P'] with the pipe [q] between them. *)
Definition link (j : nat) (P P' : proc) (a a' q : list Z) : Prop :=
  a' = q ++ writes (at_pc P) a ∧ (seen_eof (at_pc P') = true → closed (at_pc P) = true)
  ∧ parent P' = Some j.

Record inv (A : nat → list Z) (s : st) : Prop := {
  iv_local : ∀ j P, procs s !! j = Some P → local j (is_last s j) (length (pipes s)) P;
  iv_link : ∀ j P P', procs s !! j = Some P → procs s !! S j = Some P' →
    ∃ q, pipes s !! j = Some q ∧ link j P P' (A j) (A (S j)) q;
  iv_first : ∃ P, procs s !! 0%nat = Some P ∧ parent P = None;
  iv_out : ∀ j P, procs s !! j = Some P → is_last s j = true →
    out s ++ future (at_pc P) (A j) = sieve numbers;
  iv_fresh : ∀ j, is_last s j = true → pipes s !! j = None ∨ pipes s !! j = Some [];
  iv_reaped : ∀ k, k ∈ reaped s → ∃ j P, k = S j ∧ procs s !! j = Some P
    ∧ (at_pc P = Exit ∨ at_pc P = Exited) }.

Definition upd (A : nat → list Z) (j : nat) (a : list Z) : nat → list Z :=
  λ k, if decide (k = j) then a else A k.

(** ** Lemmas *)

(** *** The sieve *)

Lemma keep_length p l : (length (keep p l) <= length l)%nat.
Proof. unfold keep. induction l as [|x l IH]; cbn; [done|]. destruct (negb _); cbn; lia. Qed.
Lemma sieve_fuel_enough k l : (length l <= k)%nat → sieve_fuel k l = sieve l.
Proof.
  unfold sieve. remember (length l) as n eqn:En. assert (Hn : (length l <= n)%nat) by lia. clear En.
  revert k l Hn; induction n as [|n IH]; intros k l Hn Hk.
  - destruct l; [|cbn in Hn; lia]. by destruct k.
  - destruct l as [|p l]; [by destruct k|]. destruct k as [|k]; [lia|]. cbn.
    pose proof (keep_length p l). cbn in Hn. rewrite (IH k) by lia. done.
Qed.
Lemma sieve_cons p l : sieve (p :: l) = p :: sieve (keep p l).
Proof. unfold sieve at 1. cbn. rewrite sieve_fuel_enough; [done|apply keep_length]. Qed.
Lemma keep_cons p n l :
  keep p (n :: l) = (if Z.rem n p =? 0 then [] else [n]) ++ keep p l.
Proof. unfold keep. cbn. by destruct (_ =? 0). Qed.

Lemma sieve_numbers : sieve numbers = primes.
Proof. vm_compute. reflexivity. Qed.

(** *** Updates *)

Lemma upd_same A j a : upd A j a j = a.
Proof. unfold upd. by rewrite decide_True. Qed.
Lemma upd_other A j a k : k ≠ j → upd A j a k = A k.
Proof. intros. unfold upd. by rewrite decide_False. Qed.

Lemma ranks_ext j A B l :
  (∀ k, (j <= k < j + length l)%nat → A k = B k) → ranks j A l = ranks j B l.
Proof.
  revert j; induction l as [|P l IH]; intros j H; cbn in *; [done|]. rewrite (H j) by lia. f_equal.
  apply IH. intros k Hk. apply H. lia.
Qed.
Lemma ranks_upd j A l me P P' a :
  l !! me = Some P →
  ranks j (upd A (j + me) a) (<[me := P']> l)
  = ranks j A l - rank (at_pc P) (A (j + me)%nat) + rank (at_pc P') a.
Proof.
  revert j me; induction l as [|Q l IH]; intros j [|me] H; simplify_eq/=.
  - rewrite Nat.add_0_r, upd_same. rewrite (ranks_ext (S j) _ A); [lia|]. intros k Hk. apply upd_other. lia.
  - rewrite upd_other by lia. rewrite Nat.add_succ_r. specialize (IH (S j) me H).
    cbn [Nat.add] in IH. rewrite IH. lia.
Qed.
(** With the arrivals unchanged. *)
Lemma ranks_insert A l me P P' :
  l !! me = Some P →
  ranks 0 A (<[me := P']> l) = ranks 0 A l - rank (at_pc P) (A me) + rank (at_pc P') (A me).
Proof.
  intros H. pose proof (ranks_upd 0 A l me P P' (A me) H) as E. cbn [Nat.add] in E. rewrite <- E.
  apply ranks_ext. intros k _.
  unfold upd. case_decide; [by subst|done].
Qed.
Lemma ranks_app j A l k : ranks j A (l ++ k) = ranks j A l + ranks (j + length l) A k.
Proof.
  revert j; induction l as [|P l IH]; intros j; cbn; [by rewrite Nat.add_0_r|].
  rewrite IH. cbn. rewrite Nat.add_succ_r. lia.
Qed.
Lemma rank_nonneg j b np P a : local j b np P → 0 <= rank (at_pc P) a.
Proof. unfold local, rank, cost. destruct (at_pc P); intros; lia. Qed.
Lemma ranks_nonneg j A l : (∀ k P, l !! k = Some P → 0 <= rank (at_pc P) (A (j + k)%nat)) → 0 <= ranks j A l.
Proof.
  revert j; induction l as [|P l IH]; intros j H; cbn; [done|].
  pose proof (H 0%nat P eq_refl) as H0. rewrite Nat.add_0_r in H0.
  assert (0 <= ranks (S j) A l); [|lia]. apply IH. intros k Q Hk. rewrite Nat.add_succ_comm. by apply (H (S k)).
Qed.
Lemma measure_nonneg A s : inv A s → 0 <= measure A s.
Proof. intros I. apply ranks_nonneg. intros k P Hk. eapply rank_nonneg, (iv_local _ _ I). exact Hk. Qed.

(** A step that changes one process, the queues next to it and the output. *)
Lemma chain_change A s me P P' a' ps rp o :
  inv A s → procs s !! me = Some P → parent P' = parent P →
  length ps = length (pipes s) →
  (∀ j, j ≠ me → S j ≠ me → ps !! j = pipes s !! j) →
  local me (is_last s me) (length (pipes s)) P' →
  (∀ j L, S j = me → procs s !! j = Some L →
     ∃ q, ps !! j = Some q ∧ a' = q ++ writes (at_pc L) (A j)
       ∧ (seen_eof (at_pc P') = true → closed (at_pc L) = true)) →
  (∀ R, procs s !! S me = Some R →
     ∃ q, ps !! me = Some q ∧ A (S me) = q ++ writes (at_pc P') a'
       ∧ (closed (at_pc P) = true → closed (at_pc P') = true)) →
  (is_last s me = false → o = out s) →
  (is_last s me = true → ps !! me = pipes s !! me) →
  (is_last s me = true → o ++ future (at_pc P') a' = sieve numbers) →
  rank (at_pc P') a' < rank (at_pc P) (A me) →
  (at_pc P = Exit ∨ at_pc P = Exited → at_pc P' = Exit ∨ at_pc P' = Exited) →
  (∀ k, k ∈ rp → k ∈ reaped s ∨ k = S me ∧ at_pc P' = Exit) →
  let s' := St (<[me := P']> (procs s)) ps rp o in
  inv (upd A me a') s' ∧ measure (upd A me a') s' < measure A s.
Proof.
  intros I Hme Hpar Hlen Hps Hloc Hleft Hright Hno Hfr Hout Hrank Hex Hrp s'.
  assert (Hl : ∀ j, is_last s' j = is_last s j) by (intros j; unfold is_last; cbn; by rewrite length_insert).
  assert (Hlt : (me < length (procs s))%nat) by by eapply lookup_lt_Some.
  assert (Hother : ∀ j, j ≠ me → procs s' !! j = procs s !! j)
    by (intros j Hj; cbn; by apply list_lookup_insert_ne).
  assert (Hsame : procs s' !! me = Some P') by (cbn; by apply list_lookup_insert_eq).
  split; [constructor|].
  - intros j Q HQ. rewrite Hl. cbn [pipes s']. rewrite Hlen. destruct (decide (j = me)) as [->|Hj].
    + rewrite Hsame in HQ. by injection HQ as <-.
    + apply (iv_local _ _ I). by rewrite <- Hother.
  - intros j Q Q' HQ HQ'. cbn [pipes s']. unfold link.
    destruct (decide (j = me)) as [->|Hj].
    + rewrite Hsame in HQ. injection HQ as <-. rewrite Hother in HQ' by lia.
      destruct (iv_link _ _ I me P Q' Hme HQ') as (q0 & _ & _ & Hc & Hp).
      destruct (Hright Q' HQ') as (q & Hq & Ha & Hcl). exists q.
      rewrite upd_same, upd_other by lia. split_and!; auto.
    + rewrite Hother in HQ by done. destruct (decide (S j = me)) as [Ej|Ej].
      * destruct (Hleft j Q Ej HQ) as (q & Hq & Ha & Hc). exists q. rewrite Ej in *.
        rewrite Hsame in HQ'. injection HQ' as <-. rewrite upd_same, upd_other by done.
        assert (Hm : procs s !! S j = Some P) by by rewrite Ej.
        destruct (iv_link _ _ I j Q P HQ Hm) as (q0 & _ & _ & _ & Hp).
        split_and!; [done..|by rewrite Hpar].
      * rewrite Hother in HQ' by done. destruct (iv_link _ _ I j Q Q' HQ HQ') as (q & Hq & Hlk).
        exists q. rewrite Hps, !upd_other by done. by split.
  - destruct (iv_first _ _ I) as (Q & HQ & Hp). destruct (decide (0%nat = me)) as [<-|Hj].
    + exists P'. split; [done|]. congruence.
    + exists Q. by rewrite Hother.
  - intros j Q HQ Hlast. rewrite Hl in Hlast. cbn [out s']. destruct (decide (j = me)) as [->|Hj].
    + rewrite Hsame in HQ. injection HQ as <-. rewrite upd_same. by apply Hout.
    + rewrite upd_other by done. rewrite Hother in HQ by done.
      rewrite Hno; [by apply (iv_out _ _ I)|].
      unfold is_last in *. apply bool_decide_eq_true in Hlast. apply bool_decide_eq_false. lia.
  - intros j Hlast. rewrite Hl in Hlast. cbn [pipes s']. destruct (decide (j = me)) as [->|Hj].
    + rewrite Hfr by done. by apply (iv_fresh _ _ I).
    + rewrite Hps; [by apply (iv_fresh _ _ I)|done|].
      unfold is_last in Hlast. apply bool_decide_eq_true in Hlast. lia.
  - intros k Hk. destruct (Hrp k Hk) as [Hk'|[-> E]]; [|exists me, P'; by auto].
    destruct (iv_reaped _ _ I k Hk') as (j & Q & -> & HQ & Hq).
    destruct (decide (j = me)) as [->|Hj].
    + exists me, P'. split_and!; [done..|]. apply Hex. by simplify_eq.
    + exists j, Q. by rewrite Hother.
  - unfold measure. cbn [procs s']. change (upd A me a') with (upd A (0 + me) a'). rewrite (ranks_upd 0 A (procs s) me P P' a' Hme). cbn. lia.
Qed.

Lemma local_np j np np' P : local j false np P → local j false np' P.
Proof. unfold local. destruct (at_pc P); naive_solver. Qed.

Lemma is_last_spec s j : is_last s j = true ↔ S j = length (procs s).
Proof. unfold is_last. by rewrite bool_decide_eq_true. Qed.
Lemma is_last_false s j : is_last s j = false ↔ S j ≠ length (procs s).
Proof. unfold is_last. by rewrite bool_decide_eq_false. Qed.

(** The last process makes its right pipe. *)
Lemma chain_pipe A s me P K :
  inv A s → procs s !! me = Some P → is_last s me = true → length (pipes s) = me →
  let k := K me in
  local me true (S me) (Proc k ((me, READ) :: (me, WRITE) :: open_ends P) (parent P)) →
  future k (A me) = future (at_pc P) (A me) → seen_eof k = false →
  rank k (A me) < rank (at_pc P) (A me) →
  ¬ (at_pc P = Exit ∨ at_pc P = Exited) →
  let s' := do_pipe me P K s in
  inv A s' ∧ measure A s' < measure A s.
Proof.
  intros I Hme Hlast Hnp k Hloc Hfut Heof Hrank Hex s'.
  assert (Hl : ∀ j, is_last s' j = is_last s j) by (intros j; unfold is_last; cbn; by rewrite length_insert).
  assert (Hlt : (me < length (procs s))%nat) by by eapply lookup_lt_Some.
  apply is_last_spec in Hlast as Hlast'.
  assert (Hother : ∀ j, j ≠ me → procs s' !! j = procs s !! j)
    by (intros j Hj; cbn; by apply list_lookup_insert_ne).
  set (P' := Proc k ((me, READ) :: (me, WRITE) :: open_ends P) (parent P)) in *.
  assert (Hsame : procs s' !! me = Some P') by (cbn; rewrite Hnp; by apply list_lookup_insert_eq).
  split; [constructor|].
  - intros j Q HQ. rewrite Hl. cbn [pipes s' do_pipe set_proc]. rewrite length_app, Nat.add_1_r, Hnp.
    destruct (decide (j = me)) as [->|Hj].
    + rewrite Hsame in HQ. injection HQ as <-. by rewrite Hlast.
    + rewrite Hother in HQ by done. pose proof (iv_local _ _ I j Q HQ) as HL.
      assert (E : is_last s j = false) by (apply is_last_false; lia). rewrite E in *. by eapply local_np.
  - intros j Q Q' HQ HQ'. cbn [pipes s' do_pipe set_proc].
    assert (Hj : (S j < length (procs s))%nat) by (apply lookup_lt_Some in HQ'; cbn in HQ'; by rewrite length_insert in HQ').
    rewrite Hother in HQ by lia. destruct (decide (S j = me)) as [Ej|Ej].
    + assert (Hm : procs s !! S j = Some P) by by rewrite Ej.
      destruct (iv_link _ _ I j Q P HQ Hm) as (q & Hq & Ha & _ & Hp). exists q.
      rewrite Ej in HQ'. rewrite Hsame in HQ'. injection HQ' as <-.
      split; [by apply lookup_app_l_Some|]. unfold link. cbn [at_pc P' parent]. rewrite Heof. by split_and!.
    + rewrite Hother in HQ' by done. destruct (iv_link _ _ I j Q Q' HQ HQ') as (q & Hq & Hlk).
      exists q. split; [by apply lookup_app_l_Some|done].
  - destruct (iv_first _ _ I) as (Q & HQ & Hp). destruct (decide (0%nat = me)) as [<-|Hj].
    + exists P'. split; [done|]. cbn. congruence.
    + exists Q. by rewrite Hother.
  - intros j Q HQ Hlj. rewrite Hl in Hlj. apply is_last_spec in Hlj.
    assert (j = me) as -> by lia. rewrite Hsame in HQ. injection HQ as <-. cbn [at_pc P']. rewrite Hfut.
    by apply (iv_out _ _ I).
  - intros j Hlj. rewrite Hl in Hlj. apply is_last_spec in Hlj. assert (j = me) as -> by lia.
    right. cbn. rewrite lookup_app_r, Hnp, Nat.sub_diag by lia. done.
  - intros j Hj. destruct (iv_reaped _ _ I j Hj) as (i & Q & -> & HQ & Hq).
    exists i, Q. rewrite Hother; [done|]. intros ->. simplify_eq. by apply Hex.
  - unfold measure. cbn [procs s' do_pipe set_proc]. rewrite Hnp. fold k. fold P'.
    rewrite (ranks_insert A _ _ P) by done. cbn [at_pc P']. lia.
Qed.

(** The last process forks, and its child becomes the last. *)
Lemma chain_fork A s me P k child :
  inv A s → procs s !! me = Some P → is_last s me = true → length (pipes s) = S me →
  let a' := writes k (A me) in
  local me false (S me) (Proc k (open_ends P) (parent P)) →
  local (S me) true (S me) (Proc child (open_ends P) (Some me)) →
  future child a' = future (at_pc P) (A me) → seen_eof k = false → seen_eof child = false →
  rank k (A me) + rank child a' < rank (at_pc P) (A me) →
  ¬ (at_pc P = Exit ∨ at_pc P = Exited) →
  let s' := do_fork me P k child s in
  inv (upd A (S me) a') s' ∧ measure (upd A (S me) a') s' < measure A s.
Proof.
  intros I Hme Hlast Hnp a' Hlocp Hlocc Hfut Hek Hec Hrank Hex s'.
  apply is_last_spec in Hlast as Hlen.
  set (P' := Proc k (open_ends P) (parent P)) in *. set (C := Proc child (open_ends P) (Some me)) in *.
  assert (Hprocs : procs s' = <[me := P']> (procs s) ++ [C]) by done.
  assert (Hother : ∀ j, (j < me)%nat → procs s' !! j = procs s !! j).
  { intros j Hj. rewrite Hprocs, lookup_app_l, list_lookup_insert_ne by (rewrite ?length_insert; lia). done. }
  assert (Hsame : procs s' !! me = Some P').
  { rewrite Hprocs, lookup_app_l by (rewrite length_insert; lia). apply list_lookup_insert_eq. lia. }
  assert (Hchild : procs s' !! S me = Some C).
  { rewrite Hprocs, lookup_app_r by (rewrite length_insert; lia). by rewrite length_insert, Hlen, Nat.sub_diag. }
  assert (Hcase : ∀ j Q, procs s' !! j = Some Q →
    (j < me)%nat ∧ procs s !! j = Some Q ∨ j = me ∧ Q = P' ∨ j = S me ∧ Q = C).
  { intros j Q HQ. assert (Hj : (j < S (S me))%nat).
    { apply lookup_lt_Some in HQ. rewrite Hprocs, length_app, length_insert in HQ. cbn in HQ. lia. }
    destruct (decide (j = S me)) as [->|]; [right; right; split; congruence|].
    destruct (decide (j = me)) as [->|]; [right; left; split; congruence|].
    left. rewrite Hother in HQ by lia. split; [lia|done]. }
  assert (Hlast' : ∀ j, is_last s' j = bool_decide (j = S me)).
  { intros j. unfold is_last. rewrite Hprocs, length_app, length_insert. cbn. apply bool_decide_ext. lia. }
  assert (Hpipe : pipes s !! me = Some []).
  { destruct (iv_fresh _ _ I me Hlast) as [E|E]; [|done]. apply lookup_ge_None in E. lia. }
  split; [constructor|].
  - intros j Q HQ. rewrite Hlast'. change (pipes s') with (pipes s). rewrite Hnp.
    destruct (Hcase j Q HQ) as [[Hj HQ']|[[-> ->]|[-> ->]]].
    + rewrite bool_decide_false by lia. pose proof (iv_local _ _ I j Q HQ') as HL.
      assert (E : is_last s j = false) by (apply is_last_false; lia). rewrite E in HL. by eapply local_np.
    + by rewrite bool_decide_false by lia.
    + by rewrite bool_decide_true by lia.
  - intros j Q Q' HQ HQ'. change (pipes s') with (pipes s).
    destruct (Hcase _ _ HQ) as [[Hj HQ1]|[[-> ->]|[-> ->]]].
    + destruct (Hcase _ _ HQ') as [[Hj' HQ1']|[[Ej ->]|[Ej _]]]; [| |lia].
      * rewrite !upd_other by lia. by apply (iv_link _ _ I).
      * assert (Hm : procs s !! S j = Some P) by by rewrite Ej.
        destruct (iv_link _ _ I j Q P HQ1 Hm) as (q & Hq & Ha & _ & Hp). exists q. split; [done|].
        unfold link. cbn [at_pc parent P']. rewrite !upd_other, Hek by lia. by split_and!.
    + rewrite Hchild in HQ'. injection HQ' as <-. exists []. split; [done|]. unfold link.
      cbn [at_pc parent P' C]. rewrite upd_same, upd_other, Hec by lia. by split_and!.
    + apply lookup_lt_Some in HQ'. rewrite Hprocs, length_app, length_insert in HQ'. cbn in HQ'. lia.
  - destruct (iv_first _ _ I) as (Q & HQ & Hp). destruct (decide (0%nat = me)) as [<-|Hj].
    + exists P'. split; [done|]. cbn. congruence.
    + exists Q. by rewrite Hother by lia.
  - intros j Q HQ Hlj. rewrite Hlast' in Hlj. apply bool_decide_eq_true in Hlj as ->.
    rewrite Hchild in HQ. injection HQ as <-. rewrite upd_same. cbn [at_pc C]. rewrite Hfut.
    by apply (iv_out _ _ I).
  - intros j Hlj. rewrite Hlast' in Hlj. apply bool_decide_eq_true in Hlj as ->.
    left. apply lookup_ge_None. change (pipes s') with (pipes s). lia.
  - intros j Hj. destruct (iv_reaped _ _ I j Hj) as (i & Q & -> & HQ & Hq).
    exists i, Q. rewrite Hother; [done|]. apply lookup_lt_Some in HQ as ?.
    destruct (decide (i = me)) as [->|]; [|lia]. by simplify_eq.
  - unfold measure. rewrite Hprocs, ranks_app, length_insert. cbn [ranks Nat.add at_pc C].
    replace (length (procs s)) with (S me) by lia. rewrite upd_same.
    rewrite (ranks_ext 0 _ A) by (intros j Hj; rewrite length_insert in Hj; apply upd_other; lia).
    rewrite (ranks_insert A _ _ P) by done. cbn [at_pc P']. lia.
Qed.

(** *** The system calls *)

(** A state that keeps the invariant and is nearer to the end. *)
Definition better (A : nat → list Z) (s s' : st) : Prop :=
  ∃ A', inv A' s' ∧ measure A' s' < measure A s.

Lemma closed_writes k a : closed k = true → writes k a = [].
Proof. by destruct k. Qed.
Lemma local_writer j np P :
  local j false np P → closed (at_pc P) = false → (j, WRITE) ∈ open_ends P.
Proof.
  unfold local. destruct (at_pc P); intros HL Hc; try done; destruct_and!; subst; try done;
    match goal with E : open_ends P = _ |- _ => rewrite E end; set_solver.
Qed.
Lemma local_reader j b np P :
  local (S j) b np P → seen_eof (at_pc P) = false → (j, READ) ∈ open_ends P.
Proof.
  unfold local. destruct (at_pc P); intros HL Hc; try done; destruct_and!; simplify_eq; try done;
    match goal with E : open_ends P = _ |- _ => rewrite E end; set_solver.
Qed.
Lemma is_open_spec s e : is_open s e = true ↔ ∃ j P, procs s !! j = Some P ∧ e ∈ open_ends P.
Proof.
  unfold is_open. rewrite existsb_exists. setoid_rewrite bool_decide_eq_true. split.
  - intros (P & HP & He). apply list_elem_of_In, list_elem_of_lookup in HP as (j & HP). by exists j, P.
  - intros (j & P & HP & He). exists P. split; [|done]. apply list_elem_of_In. by eapply list_elem_of_lookup_2.
Qed.

Section Calls.
Context {PE : PipeExt} {PL : PipeLaws}.
Variables (A : nat → list Z) (s : st) (me : nat) (P : proc).
Hypotheses (I : inv A s) (Hme : procs s !! me = Some P).

(** A change of the process alone. *)
Lemma chain_move k E rp :
  local me (is_last s me) (length (pipes s)) (Proc k E (parent P)) →
  writes k (A me) = writes (at_pc P) (A me) →
  (seen_eof k = true → seen_eof (at_pc P) = true ∨ me = 0%nat) →
  (closed (at_pc P) = true → closed k = true) →
  (is_last s me = true → future k (A me) = future (at_pc P) (A me)) →
  rank k (A me) < rank (at_pc P) (A me) →
  (at_pc P = Exit ∨ at_pc P = Exited → k = Exit ∨ k = Exited) →
  (∀ c, c ∈ rp → c ∈ reaped s ∨ c = S me ∧ k = Exit) →
  better A s (St (<[me := Proc k E (parent P)]> (procs s)) (pipes s) rp (out s)).
Proof using I Hme.
  intros Hloc Hw Heof Hcl Hfut Hrank Hex Hrp. exists (upd A me (A me)).
  apply (chain_change A s me P (Proc k E (parent P)) (A me) (pipes s) rp (out s) I Hme); try done.
  - intros j L Ej HL. assert (Hm : procs s !! S j = Some P) by by rewrite Ej.
    destruct (iv_link _ _ I j L P HL Hm) as (q & Hq & Ha & Hc & _). rewrite Ej in Ha. exists q.
    split_and!; [done..|]. intros H. destruct (Heof H); [auto|lia].
  - intros R HR. destruct (iv_link _ _ I me P R Hme HR) as (q & Hq & Ha & _). exists q.
    cbn [at_pc]. rewrite Hw. by split_and!.
  - intros Hlast. cbn [at_pc]. rewrite Hfut by done. by apply (iv_out _ _ I).
Qed.

Lemma not_last_next : is_last s me = false → ∃ R, procs s !! S me = Some R.
Proof using Hme.
  intros Hl. apply is_last_false in Hl. apply lookup_lt_is_Some_2. apply lookup_lt_Some in Hme. lia.
Qed.

(** A number read from the left pipe. *)
Lemma chain_read l x q k :
  me = S l → pipes s !! l = Some (x :: q) →
  local me (is_last s me) (length (pipes s)) (Proc k (open_ends P) (parent P)) →
  (∀ a, writes k a = writes (at_pc P) (x :: a)) →
  seen_eof k = false → closed (at_pc P) = false →
  (∀ a, future k a = future (at_pc P) (x :: a)) →
  (∀ a, rank k a < rank (at_pc P) (x :: a)) →
  better A s (St (<[me := Proc k (open_ends P) (parent P)]> (procs s)) (<[l := q]> (pipes s)) (reaped s) (out s)).
Proof using I Hme.
  intros -> Hq Hloc Hw Heof Hcl Hfut Hrank.
  assert (Hlt : (l < length (procs s))%nat) by (apply lookup_lt_Some in Hme; lia).
  destruct (lookup_lt_is_Some_2 _ _ Hlt) as (L & HL).
  destruct (iv_link _ _ I l L P HL Hme) as (q0 & Hq0 & Ha & Hc & _). rewrite Hq in Hq0. injection Hq0 as <-.
  cbn in Ha. set (a := q ++ writes (at_pc L) (A l)) in *.
  exists (upd A (S l) a).
  apply (chain_change A s (S l) P (Proc k (open_ends P) (parent P)) a _ (reaped s) (out s) I Hme); try done.
  - by rewrite length_insert.
  - intros j _ Hj. apply list_lookup_insert_ne. lia.
  - intros j L' [= ->] HL'. simplify_eq. exists q. rewrite list_lookup_insert_eq by by eapply lookup_lt_Some.
    cbn [at_pc]. split_and!; [done..|congruence].
  - intros R HR. destruct (iv_link _ _ I (S l) P R Hme HR) as (q' & Hq' & Ha' & _). exists q'.
    rewrite list_lookup_insert_ne by lia. cbn [at_pc]. rewrite Hw, <- Ha. split_and!; [done..|congruence].
  - intros _. apply list_lookup_insert_ne. lia.
  - intros Hl. cbn [at_pc]. rewrite Hfut, <- Ha. by apply (iv_out _ _ I).
  - cbn [at_pc]. rewrite Ha. apply Hrank.
  - intros [E|E]; by rewrite E in Hcl.
  - by left.
Qed.

(** The end of the left pipe: nothing is to arrive. *)
Lemma read_eof l :
  me = S l → pipes s !! l = Some [] → is_open s (l, WRITE) = false →
  A me = [] ∧ ∃ L, procs s !! l = Some L ∧ closed (at_pc L) = true.
Proof using I Hme.
  intros -> Hq Ho.
  assert (Hlt : (l < length (procs s))%nat) by (apply lookup_lt_Some in Hme; lia).
  destruct (lookup_lt_is_Some_2 _ _ Hlt) as (L & HL).
  destruct (iv_link _ _ I l L P HL Hme) as (q0 & Hq0 & Ha & _). rewrite Hq in Hq0. injection Hq0 as <-.
  assert (Hc : closed (at_pc L) = true).
  { destruct (closed (at_pc L)) eqn:Ec; [done|]. exfalso.
    assert (Hl : is_last s l = false) by (apply is_last_false; apply lookup_lt_Some in Hme; lia).
    pose proof (iv_local _ _ I l L HL) as HLL. rewrite Hl in HLL.
    pose proof (local_writer _ _ _ HLL Ec).
    assert (is_open s (l, WRITE) = true) by (apply is_open_spec; by exists l, L). congruence. }
  split; [|by exists L]. rewrite Ha. by rewrite closed_writes.
Qed.

Lemma chain_eof l k :
  me = S l → pipes s !! l = Some [] → is_open s (l, WRITE) = false →
  local me (is_last s me) (length (pipes s)) (Proc k (open_ends P) (parent P)) →
  writes k [] = writes (at_pc P) [] → closed (at_pc P) = false →
  future k [] = future (at_pc P) [] → rank k [] < rank (at_pc P) [] →
  better A s (St (<[me := Proc k (open_ends P) (parent P)]> (procs s)) (pipes s) (reaped s) (out s)).
Proof using I Hme.
  intros El Hq Ho Hloc Hw Hcl Hfut Hrank. destruct (read_eof l El Hq Ho) as (Ha & L & HL & HcL).
  exists (upd A me (A me)).
  apply (chain_change A s me P (Proc k (open_ends P) (parent P)) (A me) _ (reaped s) (out s) I Hme);
    rewrite ?Ha; try done.
  - intros j L' Ej HL'. assert (j = l) as -> by lia. rewrite Hq. exists []. simplify_eq.
    by rewrite closed_writes.
  - intros R HR. destruct (iv_link _ _ I me P R Hme HR) as (q & Hq' & Ha' & _). exists q.
    cbn [at_pc]. rewrite Ha in Ha'. rewrite Hw. split_and!; [done..|congruence].
  - intros Hl. cbn [at_pc]. rewrite Hfut. rewrite <- Ha. by apply (iv_out _ _ I).
  - intros [E|E]; by rewrite E in Hcl.
  - by left.
Qed.

(** A write: the reader is there, and the number goes to the queue. *)
Lemma chain_write x k s' :
  is_last s me = false → closed (at_pc P) = false → closed k = false → seen_eof k = false →
  do_write me P me x k s = Some s' →
  local me false (length (pipes s)) (Proc k (open_ends P) (parent P)) →
  writes (at_pc P) (A me) = x :: writes k (A me) → rank k (A me) < rank (at_pc P) (A me) →
  better A s s'.
Proof using I Hme PL.
  intros Hl Hcl Hk Hek Hrun Hloc Hw Hrank.
  destruct (not_last_next Hl) as (R & HR). destruct (iv_link _ _ I me P R Hme HR) as (q & Hq & Ha & Hc & _).
  unfold do_write in Hrun. rewrite Hq in Hrun. cbn [mbind option_bind] in Hrun.
  assert (Ho : is_open s (me, READ) = true).
  { apply is_open_spec. exists (S me), R. split; [done|]. eapply local_reader; [by eapply iv_local|].
    destruct (seen_eof (at_pc R)); [|done]. by rewrite Hc in Hcl. }
  rewrite Ho in Hrun. pose proof (pl_write q x) as Hpw.
  destruct (pipe_write q x true) as [q'|]; [|done]. subst q'. injection Hrun as <-.
  exists (upd A me (A me)).
  apply (chain_change A s me P (Proc k (open_ends P) (parent P)) (A me) (<[me := q ++ [x]]> (pipes s)) (reaped s) (out s) I Hme); try done.
  - by rewrite length_insert.
  - intros j Hj _. by apply list_lookup_insert_ne.
  - by rewrite Hl.
  - intros j L Ej HL. assert (Hm : procs s !! S j = Some P) by by rewrite Ej.
    destruct (iv_link _ _ I j L P HL Hm) as (q' & Hq' & Ha' & _). rewrite Ej in Ha'. exists q'.
    rewrite list_lookup_insert_ne by lia. cbn [at_pc]. split_and!; [done..|congruence].
  - intros R' HR'. simplify_eq. exists (q ++ [x]).
    rewrite list_lookup_insert_eq by by eapply lookup_lt_Some. cbn [at_pc].
    rewrite Ha, Hw, <- app_assoc. split_and!; [done..|congruence].
  - congruence.
  - congruence.
  - intros [E|E]; by rewrite E in Hcl.
  - by left.
Qed.

(** The only child of a process is its right neighbour. *)
Lemma only_child c C : procs s !! c = Some C → parent C = Some me → c = S me.
Proof using I.
  intros HC Hp. destruct c as [|j].
  - destruct (iv_first _ _ I) as (Q & HQ & Hn). congruence.
  - destruct (lookup_lt_is_Some_2 (procs s) j) as (Q & HQ); [apply lookup_lt_Some in HC; lia|].
    destruct (iv_link _ _ I j Q C HQ HC) as (_ & _ & _ & _ & Hp'). congruence.
Qed.

Lemma kids_spec c C :
  (c, C) ∈ List.filter (child_of me s) (imap pair (procs s)) ↔
  procs s !! c = Some C ∧ parent C = Some me ∧ c ∉ reaped s.
Proof using.
  rewrite list_elem_of_In, filter_In, <- list_elem_of_In, list_elem_of_lookup.
  unfold child_of. rewrite andb_true_iff, !bool_decide_eq_true. cbn [fst snd]. split.
  - intros [[i Hi] [? ?]]. rewrite list_lookup_imap in Hi. apply fmap_Some in Hi as (C' & HC & [= -> ->]). done.
  - intros (HC & ? & ?). split; [|done]. exists c. by rewrite list_lookup_imap, HC.
Qed.

Lemma chain_wait s' :
  do_wait me P Exit s = Some s' → is_last s me = false → at_pc P = MWait ∨ at_pc P = PWait →
  local me false (length (pipes s)) (Proc Exit (open_ends P) (parent P)) →
  better A s s'.
Proof using I Hme.
  intros Hrun Hl Hpc Hloc. unfold do_wait in Hrun.
  set (kids := List.filter _ _) in Hrun.
  assert (Hkids : ∀ c C, (c, C) ∈ kids ↔ procs s !! c = Some C ∧ parent C = Some me ∧ c ∉ reaped s)
    by apply kids_spec.
  assert (Hmove : ∀ rp, (∀ c, c ∈ rp → c ∈ reaped s ∨ c = S me) →
    better A s (St (<[me := Proc Exit (open_ends P) (parent P)]> (procs s)) (pipes s) rp (out s))).
  { intros rp Hrp. apply chain_move; try (destruct Hpc as [-> | ->]; done).
    - by rewrite Hl.
    - intros _. pose proof (iv_local _ _ I me P Hme) as HL. unfold local in HL.
      destruct Hpc as [E|E]; rewrite E in *; [right; apply HL|by left].
    - by left.
    - intros c Hc. destruct (Hrp c Hc); auto. }
  destruct kids as [|kid kids'].
  - injection Hrun as <-. apply Hmove. auto.
  - destruct (List.filter _ (kid :: kids')) as [|[c C] rest] eqn:Ef; [done|]. injection Hrun as <-.
    apply Hmove. intros c' [Hc|Hc]%elem_of_app; [by left|]. apply list_elem_of_singleton in Hc as ->. right.
    assert (HC : (c, C) ∈ kid :: kids').
    { apply list_elem_of_In. eapply (proj1 (filter_In _ _ _)). rewrite Ef. by left. }
    apply Hkids in HC as (HC & Hp & _). by eapply only_child.
Qed.
End Calls.

(** *** Steps *)

Lemma cost_mono n : 0 <= n → cost n + 43 + 3 * n < cost (n + 1).
Proof. unfold cost. nia. Qed.

(** Goals about the new place of a process, from the description [HL] of the
    old one. *)
Ltac open_ends_of HE :=
  unfold close_end; rewrite HE;
  repeat first [rewrite list.filter_cons_True by (intros [=]; lia)
               | rewrite list.filter_cons_False by (intros ?; congruence)
               | rewrite list.filter_nil].
Ltac place :=
  match goal with HE : open_ends _ = _ |- local _ _ _ (Proc _ _ _) =>
    unfold local; cbn [at_pc open_ends]; try open_ends_of HE; split_and!; try done; try lia
  end.

(** A change of the process alone, by [H] (chain_move). *)
Ltac moved H :=
  apply H; try done; try (by intros [|]); try (by intros ? ?; left); try (by intros _; left); try (cbn [rank]; lia); try place.

Section Steps.
Context {PE : PipeExt} {PL : PipeLaws}.

Lemma do_read_inv me P p k eof s s' :
  do_read me P p k eof s = Some s' →
  (∃ x q, pipes s !! p = Some (x :: q) ∧ s' = goto me P (k x) (set_pipe p q s))
  ∨ (pipes s !! p = Some [] ∧ is_open s (p, WRITE) = false ∧ s' = goto me P eof s).
Proof using PL.
  unfold do_read. intros (q & Hq & H)%bind_Some. destruct q as [|x q].
  - right. destruct (is_open _ _); [by rewrite pl_wait in H|]. rewrite pl_end in H. injection H as <-.
    split_and!; [done..|]. f_equal. unfold set_pipe. rewrite list_insert_id by done. by destruct s.
  - left. rewrite pl_data in H. exists x, q. by injection H as <-.
Qed.

Lemma step_better A s s' : inv A s → step s s' → better A s s'.
Proof using PL.
  intros I (me & Hrun). unfold step1 in Hrun. apply bind_Some in Hrun as (P & Hme & Hrun).
  pose proof (iv_local _ _ I me P Hme) as HL.
  pose proof (chain_move A s me P I Hme) as Hmove.
  unfold local in HL. destruct (at_pc P) eqn:Ep; cbn [future writes rank closed seen_eof] in *.
  - (* MPipe *) destruct HL as (-> & Hl & Hnp & HE). injection Hrun as <-. exists A.
    apply (chain_pipe A s 0 P MFork I Hme Hl Hnp); rewrite ?Ep; try done; try (by intros [|]).
    rewrite HE. by split_and!.
  - (* MFork *) destruct HL as (-> & Hl & Hnp & -> & HE). injection Hrun as <-. eexists.
    apply (chain_fork A s 0 P (MCloseR 0) (SCloseW 0) I Hme Hl Hnp); rewrite ?Ep; try done; try (by intros [|]).
    all: by rewrite HE; split_and!.
  - (* MCloseR *) destruct HL as (-> & Hl & -> & HE). injection Hrun as <-.
    moved Hmove.
  - (* MWrite *) destruct HL as (-> & Hl & -> & Hi & HE). destruct (Z.leb_spec i 35).
    + eapply (chain_write A s 0 P I Hme i (MWrite 0 (i + 1))); rewrite ?Ep; try done.
      * place.
      * cbn [writes]. replace (36 - i) with (Z.succ (36 - (i + 1))) by lia.
        rewrite seqZ_cons by lia. repeat f_equal; lia.
      * cbn. lia.
    + injection Hrun as <-. assert (i = 36) as -> by lia.
      moved Hmove.
  - (* MCloseW *) destruct HL as (-> & Hl & -> & HE). injection Hrun as <-.
    moved Hmove.
  - (* MWait *) destruct HL as (-> & Hl & HE).
    eapply (chain_wait A s 0 P I Hme); [done|done|by left|]. by rewrite HE.
  - (* SCloseW *) destruct HL as (-> & Hl & Hnp & -> & HE). injection Hrun as <-.
    moved Hmove.
  - (* SRead *) destruct HL as (-> & Hl & Hnp & HE). apply do_read_inv in Hrun as [(x & q & Hq & ->)|(Hq & Ho & ->)].
    + apply (chain_read A s (S l) P I Hme l x q (SPrint l x)); rewrite ?Ep; try done.
      * intros a. cbn [future]. by rewrite sieve_cons.
      * intros a. cbn [rank length]. pose proof (cost_mono (Z.of_nat (length a)) ltac:(lia)).
        replace (Z.of_nat (S (length a))) with (Z.of_nat (length a) + 1) by lia. lia.
    + apply (chain_eof A s (S l) P I Hme l (SEnd l)); rewrite ?Ep; done.
  - (* SPrint *) destruct HL as (-> & Hl & Hnp & HE). injection Hrun as <-.
    exists (upd A (S l) (A (S l))).
    apply (chain_change A s (S l) P (Proc (SPipe l prime) (open_ends P) (parent P)) (A (S l))
             (pipes s) (reaped s) (out s ++ [prime]) I Hme); rewrite ?Ep; try done; try (by intros [|]).
    + intros j L [= ->] HL. destruct (iv_link _ _ I l L P HL Hme) as (q & Hq & Ha & _). by exists q.
    + intros R HR. apply lookup_lt_Some in HR. apply is_last_spec in Hl. lia.
    + congruence.
    + intros _. rewrite <- app_assoc. cbn [at_pc future app].
      pose proof (iv_out _ _ I _ _ Hme Hl) as Ho. by rewrite Ep in Ho.
    + cbn [rank at_pc]. lia.
    + by left.
  - (* SPipe *) destruct HL as (-> & Hl & Hnp & HE). injection Hrun as <-. exists A.
    apply (chain_pipe A s (S l) P (SFork l prime) I Hme Hl Hnp); rewrite ?Ep; try done; try (by intros [|]).
    + rewrite HE. by split_and!.
    + cbn. lia.
  - (* SFork *) destruct HL as (-> & -> & Hl & Hnp & HE). injection Hrun as <-. eexists.
    apply (chain_fork A s (S l) P (PCloseR l prime (S l)) (CCloseW l (S l)) I Hme Hl Hnp); rewrite ?Ep; try done; try (by intros [|]).
    + cbn [rank writes]. pose proof (keep_length prime (A (S l))). unfold cost. nia.
  - (* CCloseW *) destruct HL as (-> & -> & Hl & Hnp & HE). injection Hrun as <-.
    moved Hmove.
  - (* CCloseL *) destruct HL as (-> & -> & Hl & Hnp & HE). injection Hrun as <-.
    moved Hmove.
  - (* PCloseR *) destruct HL as (-> & -> & Hl & HE). injection Hrun as <-.
    moved Hmove.
  - (* PRead *) destruct HL as (-> & -> & Hl & HE). apply do_read_inv in Hrun as [(x & q & Hq & ->)|(Hq & Ho & ->)].
    + apply (chain_read A s (S l) P I Hme l x q); rewrite ?Ep; try done;
        destruct (_ =? 0) eqn:E; try done.
      all: intros a; cbn [writes rank length]; rewrite ?keep_cons, ?E; first [done|lia].
    + apply (chain_eof A s (S l) P I Hme l (PCloseL l (S l))); rewrite ?Ep; done.
  - (* PWrite *) destruct HL as (-> & -> & Hl & HE).
    eapply (chain_write A s (S l) P I Hme num (PRead l prime (S l))); rewrite ?Ep; try done.
    cbn [rank]. lia.
  - (* PCloseL *) destruct HL as (-> & -> & Hl & HE). injection Hrun as <-.
    moved Hmove.
  - (* PCloseW *) destruct HL as (Hj & -> & Hl & HE). injection Hrun as <-.
    moved Hmove.
  - (* PWait *) destruct HL as (Hj & Hl & HE).
    eapply (chain_wait A s me P I Hme); [done|done|by right|]. rewrite HE. by split_and!.
  - (* SEnd *) destruct HL as (-> & Hl & Hnp & HE). injection Hrun as <-.
    moved Hmove.
  - (* Exit *) destruct HL as (Hnp & Hj & HE). injection Hrun as <-.
    moved Hmove. by right.
  - done.
Qed.
End Steps.

(** *** Progress *)

Lemma last_not_exited (l : list proc) :
  Forall (λ P, at_pc P = Exited) l
  ∨ ∃ j P, l !! j = Some P ∧ at_pc P ≠ Exited
      ∧ ∀ k Q, (j < k)%nat → l !! k = Some Q → at_pc Q = Exited.
Proof.
  induction l as [|P l [IH|(j & Q & HQ & Hne & Hmax)]]; [by left| |].
  - destruct (decide (at_pc P = Exited)) as [E|E]; [left; by constructor|].
    right. exists 0%nat, P. split_and!; [done..|]. intros [|k] Q Hk HQ; [lia|].
    rewrite Forall_forall in IH. by eapply IH, list_elem_of_lookup_2.
  - right. exists (S j), Q. split_and!; [done..|]. intros [|k] R Hk HR; [lia|]. apply (Hmax k); [lia|done].
Qed.

(** The step of the process that [HP] finds at the place [EP]. *)
Ltac run_at HP EP :=
  match type of HP with procs _ !! ?n = _ =>
    exists n; unfold step1; rewrite HP; cbn [mbind option_bind]; rewrite EP
  end.

Section Progress.
Context {PE : PipeExt} {PL : PipeLaws}.
Variables (A : nat → list Z) (s : st).
Hypothesis I : inv A s.

Notation steps me := (∃ s', step1 true me s = Some s').

Lemma writer_holds k P x :
  procs s !! k = Some P → (x, WRITE) ∈ open_ends P →
  k = x ∧ closed (at_pc P) = false
  ∨ k = S x ∧ ∀ l p r, at_pc P ≠ SRead l ∧ at_pc P ≠ PRead l p r.
Proof using I.
  intros HP Hx. pose proof (iv_local _ _ I k P HP) as HL. unfold local in HL.
  destruct (at_pc P); destruct_and!; subst;
    match goal with E : open_ends P = _ |- _ => rewrite E in Hx end;
    repeat (apply elem_of_cons in Hx as [Hx|Hx]); try (by apply elem_of_nil in Hx); simplify_eq;
    auto.
Qed.

(** A process that is about to read: it or one before it steps. *)
Lemma reader_steps j P l :
  procs s !! j = Some P → j = S l → (at_pc P = SRead l ∨ ∃ p r, at_pc P = PRead l p r) →
  ∃ me, steps me.
Proof using I PL.
  revert j P; induction l as [l IH] using lt_wf_ind; intros j P HP -> Hpc.
  assert (Hlt : (l < length (procs s))%nat) by (apply lookup_lt_Some in HP; lia).
  destruct (lookup_lt_is_Some_2 _ _ Hlt) as (L & HL).
  destruct (iv_link _ _ I l L P HL HP) as (q & Hq & _).
  assert (Hread : (∃ x q', q = x :: q') ∨ is_open s (l, WRITE) = false → steps (S l)).
  { intros Hor. unfold step1. rewrite HP. cbn [mbind option_bind].
    destruct Hpc as [-> |(p & r & ->)]; unfold do_read; rewrite Hq; cbn [mbind option_bind];
      (destruct q as [|x' q']; [destruct Hor as [(? & ? & ?)|Ho]; [done|]; rewrite Ho, pl_end|rewrite pl_data];
       by eexists). }
  destruct q as [|x q']; [|exists (S l); apply Hread; left; by eexists _, _].
  destruct (is_open s (l, WRITE)) eqn:Ho; [|exists (S l); apply Hread; by right].
  apply is_open_spec in Ho as (k & K & HK & Hin).
  destruct (writer_holds k K l HK Hin) as [[-> Hcl]|[-> Hno]].
  2:{ simplify_eq. destruct Hpc as [E|(p & r & E)]; [by destruct (Hno l 0 0%nat)|by destruct (Hno l p r)]. }
  assert (K = L) as -> by congruence. clear HK. pose proof (iv_local _ _ I l L HL) as HLoc. unfold local in HLoc.
  assert (Hnl : is_last s l = false) by (apply is_last_false; apply lookup_lt_Some in HP; lia).
  assert (Hwrite : ∀ x k, do_write l L l x k s ≠ None).
  { intros x k. unfold do_write. rewrite Hq. cbn [mbind option_bind].
    destruct (is_open s (l, READ)).
    - pose proof (pl_write [] x) as Hpw. by destruct (pipe_write [] x true).
    - destruct (pl_broken [] x) as [q' ->]. done. }
  destruct (at_pc L) eqn:EK; destruct_and!; try congruence; try discriminate Hcl; subst;
    try (run_at HL EK; by eexists).
  - run_at HL EK. destruct (i <=? 35); [|by eexists].
    specialize (Hwrite i (MWrite 0 (i + 1))). destruct (do_write _ _ _ _ _ _); [by eexists|done].
  - eapply (IH l0); [lia|exact HL|done|right; by eexists _, _].
  - run_at HL EK.
    specialize (Hwrite num (PRead l0 prime (S l0))). destruct (do_write _ _ _ _ _ _); [by eexists|done].
Qed.

Lemma progress : all_exited s ∨ ∃ s', step s s'.
Proof using I PL.
  destruct (last_not_exited (procs s)) as [H|(j & P & HP & Hne & Hmax)]; [by left|]. right.
  assert (Hsteps : (∃ me, steps me) → ∃ s', step s s').
  { intros (me & s' & H). by exists s', me. }
  apply Hsteps. pose proof (iv_local _ _ I j P HP) as HLoc. unfold local in HLoc.
  assert (Hnext : is_last s j = false → ∃ R, procs s !! S j = Some R ∧ at_pc R = Exited ∧ parent R = Some j
    ∧ closed (at_pc P) = true).
  { intros Hl. destruct (not_last_next s j P HP Hl) as (R & HR).
    pose proof (Hmax (S j) R ltac:(lia) HR) as E.
    destruct (iv_link _ _ I j P R HP HR) as (q & _ & _ & Hc & Hp). exists R. rewrite E in Hc. auto. }
  assert (Hwait : is_last s j = false → at_pc P ≠ Exit → ∃ s', do_wait j P Exit s = Some s').
  { intros Hl HnE. destruct (Hnext Hl) as (R & HR & ER & Hp & _). unfold do_wait.
    set (kids := List.filter (child_of j s) _).
    assert (Hin : (S j, R) ∈ kids).
    { apply kids_spec. split_and!; [done..|]. intros Hr.
      destruct (iv_reaped _ _ I _ Hr) as (i & Q & [= <-] & HQ & Hor). simplify_eq. by destruct Hor. }
    destruct kids as [|kid kids']; [by apply elem_of_nil in Hin|].
    destruct (List.filter _ (kid :: kids')) as [|[c C] rest] eqn:Ef; [|by eexists].
    exfalso. assert (Hf : (S j, R) ∈ @nil (nat * proc)); [|by apply elem_of_nil in Hf].
    rewrite <- Ef. apply list_elem_of_In, filter_In. split; [by apply list_elem_of_In|].
    by apply bool_decide_eq_true. }
  destruct (at_pc P) eqn:EP; destruct_and!; subst; try done;
    try (run_at HP EP; by eexists).
  - destruct (Hnext ltac:(done)) as (_ & _ & _ & _ & [=]).
  - run_at HP EP. apply Hwait; done.
  - eapply (reader_steps _ P l HP); auto.
  - eapply (reader_steps _ P l HP); eauto.
  - destruct (Hnext ltac:(done)) as (_ & _ & _ & _ & [=]).
  - run_at HP EP. apply Hwait; done.
Qed.
End Progress.

(** *** Executions *)

Definition start : nat → list Z := λ _, [].

Lemma chain_start : inv start init.
Proof.
  constructor.
  - intros [|j] P HP; [|by destruct j]. injection HP as <-. by split_and!.
  - by intros [|j] P P' HP HP'.
  - by eexists.
  - intros [|j] P HP _; [|by destruct j]. by injection HP as <-.
  - intros j _. by left.
  - by intros k ?%elem_of_nil.
Qed.

Lemma nsteps_inv {PE : PipeExt} {PL : PipeLaws} n s s' A :
  inv A s → nsteps step n s s' → ∃ A', inv A' s' ∧ measure A' s' <= measure A s - Z.of_nat n.
Proof.
  intros I Hn. revert A I; induction Hn as [s|n s s1 s' Hs _ IH]; intros A I.
  { exists A. split; [done|]. lia. }
  destruct (step_better A s s1 I Hs) as (A1 & I1 & Hm).
  destruct (IH A1 I1) as (A' & I' & Hm'). exists A'. split; [done|]. lia.
Qed.

Lemma inv_output A s : inv A s → ∃ rest, out s ++ rest = primes.
Proof.
  intros I. destruct (iv_first _ _ I) as (P0 & H0 & _). apply lookup_lt_Some in H0.
  destruct (lookup_lt_is_Some_2 (procs s) (pred (length (procs s)))) as (P & HP); [lia|].
  eexists. rewrite <- sieve_numbers. eapply (iv_out _ _ I); [exact HP|]. apply is_last_spec. lia.
Qed.
Lemma inv_exited A s : inv A s → all_exited s → out s = primes.
Proof.
  intros I Hall. destruct (iv_first _ _ I) as (P0 & H0 & _). apply lookup_lt_Some in H0.
  destruct (lookup_lt_is_Some_2 (procs s) (pred (length (procs s)))) as (P & HP); [lia|].
  assert (Ho : out s ++ future (at_pc P) (A (pred (length (procs s)))) = sieve numbers)
    by (eapply (iv_out _ _ I); [exact HP|]; apply is_last_spec; lia).
  assert (E : at_pc P = Exited) by by eapply (Forall_lookup_1 _ _ _ _ Hall).
  rewrite E in Ho. cbn [future] in Ho. rewrite app_nil_r in Ho. by rewrite Ho, sieve_numbers.
Qed.

(** The schedule of [greedy] is an execution. *)
Lemma first_step_step `{PipeExt} n s s' : first_step n s = Some s' → step s s'.
Proof.
  induction n as [|n IH]; cbn; [done|]. destruct (first_step n s); [by auto|].
  intros Hn. by exists n.
Qed.
Lemma greedy_nsteps `{PipeExt} fuel n s m s' :
  greedy fuel n s = (m, s') → ∃ k, m = (n + k)%nat ∧ nsteps step k s s'.
Proof.
  revert n s; induction fuel as [|fuel IH]; intros n s; cbn [greedy].
  { intros [= -> ->]. exists 0%nat. split; [lia|constructor]. }
  destruct (first_step (length (procs s)) s) as [s1|] eqn:E.
  - intros Hm. destruct (IH _ _ Hm) as (k & -> & Hk). exists (S k). split; [lia|].
    econstructor; [by eapply first_step_step|done].
  - intros [= -> ->]. exists 0%nat. split; [lia|constructor].
Qed.

(** ** Properties *)

(** C5.  The chain of processes, for pipes of any capacity and in any order of
    the processes' steps, when forks succeed: an execution has at most 24551
    steps; at every moment the numbers printed are the first primes up to 35,
    in order; some process can step until all of them have exited, so there is
    no deadlock; and then exactly the primes up to 35 have been printed. *)
Theorem primes_printed `{PipeExt} (Hpipes : PipeLaws) (n : nat) (s : st)
  (Hrun : nsteps step n init s) :
  (Z.of_nat n <= 24551) ∧ (∃ rest, out s ++ rest = primes)
  ∧ ((∃ s', step s s') ∨ all_exited s)
  ∧ (all_exited s → out s = primes).
Proof.
  destruct (nsteps_inv n init s start chain_start Hrun) as (A & I & Hm).
  pose proof (measure_nonneg A s I). split; [|split; [|split]].
  - change (measure start init) with 24551 in Hm. lia.
  - by eapply inv_output.
  - destruct (progress A s I); auto.
  - by apply (inv_exited A).
Qed.

(** With pipes of three numbers, the first process that can step does. *)
Lemma primes_printed_witness :
  ∃ n s, nsteps (@step (bounded_pipe 3)) n init s ∧ all_exited s
    ∧ out s = [2; 3; 5; 7; 11; 13; 17; 19; 23; 29; 31].
Proof.
  destruct (@greedy (bounded_pipe 3) 5000 0 init) as [m s] eqn:E.
  destruct (@greedy_nsteps (bounded_pipe 3) 5000 0 init m s E) as (n & _ & Hn).
  exists n, s. split; [exact Hn|].
  destruct (@primes_printed (bounded_pipe 3) (bounded_pipe_laws 3 ltac:(lia)) n s Hn) as (_ & _ & _ & Hout).
  assert (Hall : all_exited s).
  { change s with (snd (m, s)). rewrite <- E. vm_compute. repeat constructor. }
  split; [exact Hall|]. rewrite (Hout Hall). vm_compute. reflexivity.
Defined.
