(* ===== verification/Riscv.v ===== *)
(** What the Lab3 sources take from files that are not in the repository:
    the Sv39 page-table format and the page macros of riscv.h, and the page
    allocator of kalloc.c.  Both are classes: the operations, and, apart, the
    documented laws the proofs use; a concrete instance of each shows that the
    laws can hold. *)
From S2P Require Import Prelude.

(** ** Definitions *)

(** *** riscv.h *)
Class Riscv := {
  PGSIZE : Z; MAXVA : Z;
  PTE_V : Z; PTE_R : Z; PTE_W : Z; PTE_X : Z; PTE_U : Z;
  PX : nat → Z → Z;          (* the 9-bit index of a level *)
  PTE2PA : Z → Z; PA2PTE : Z → Z; PTE_FLAGS : Z → Z;
  PGROUNDUP : Z → Z; PGROUNDDOWN : Z → Z }.

(** The Sv39 format (the comment above [walk] in vm.c describes the address
    fields): 512 entries of 8 bytes in a page, the flags in the low ten bits of
    an entry and the page number above them. *)
Class RiscvLaws (R : Riscv) : Prop := {
  pgsize_4096 : PGSIZE = 4096;
  maxva_range : 0 < MAXVA <= 2 ^ 39;
  maxva_top : MAXVA mod 2 ^ 30 = 0;
  pte_v_bit : PTE_V = 1; pte_r_bit : PTE_R = 2; pte_w_bit : PTE_W = 4;
  pte_x_bit : PTE_X = 8; pte_u_bit : PTE_U = 16;
  px_field : ∀ l va, 0 <= va < 2 ^ 64 → PX l va = (va / 2 ^ (12 + 9 * Z.of_nat l)) mod 512;
  pte2pa_field : ∀ pte, 0 <= pte < 2 ^ 54 → PTE2PA pte = pte / 2 ^ 10 * 2 ^ 12;
  pa2pte_field : ∀ pa, 0 <= pa < 2 ^ 56 → PA2PTE pa = pa / 2 ^ 12 * 2 ^ 10;
  pte_flags_field : ∀ pte, 0 <= pte < 2 ^ 64 → PTE_FLAGS pte = pte mod 2 ^ 10;
  pgroundup_def : ∀ a, 0 <= a < 2 ^ 64 → PGROUNDUP a = u64 (a + 4095) / 4096 * 4096;
  pgrounddown_def : ∀ a, 0 <= a < 2 ^ 64 → PGROUNDDOWN a = a / 4096 * 4096 }.

(** A page of physical memory: aligned, not the page at 0, below 2^56. *)
Definition is_page (p : Z) : Prop := p mod 4096 = 0 ∧ 0 < p ∧ p + 4096 <= 2 ^ 56.
(** The address [x] lies in the page [p]. *)
Definition in_page (p x : Z) : Prop := p <= x < p + 4096.

(** *** kalloc.c *)
Class Allocator := {
  astate : Type;
  do_kalloc : astate → mem → Z * astate * mem;
  do_kfree : Z → astate → mem → option (astate * mem);   (* None: kfree panics *)
  free : astate → gset Z }.

(** kalloc answers a free page, or 0 when there is none; kfree makes a page
    free.  Both touch the contents of free pages only. *)
Class AllocatorLaws (L : Allocator) : Prop := {
  free_page : ∀ a p, p ∈ free a → is_page p;
  kalloc_none : ∀ a m, free a = ∅ → do_kalloc a m = (0, a, m);
  kalloc_some : ∀ a m, free a ≠ ∅ → ∃ p a' m', do_kalloc a m = (p, a', m')
    ∧ p ∈ free a ∧ free a' = free a ∖ {[p]}
    ∧ ∀ x, (∀ q, q ∈ free a → ¬ in_page q x) → m' x = m x;
  kfree_page : ∀ a m p, is_page p → p ∉ free a → ∃ a' m', do_kfree p a m = Some (a', m')
    ∧ free a' = {[p]} ∪ free a
    ∧ ∀ x, (∀ q, q ∈ free a' → ¬ in_page q x) → m' x = m x }.

(** *** The kernel state of the memory functions, and the calls *)
Record vst `{Allocator} := Vst { vmem : mem; alloc : astate }.
Notation V := (M vst).

Section calls.
Context {R : Riscv} {L : Allocator}.

Definition set_vmem (m : mem) (s : vst) : vst := Vst _ m (alloc s).
Definition kalloc : V Z := λ s,
  let '(p, a, m) := do_kalloc (alloc s) (vmem s) in Done p (Vst _ m a).
Definition kfree (p : Z) : V unit := λ s,
  match do_kfree p (alloc s) (vmem s) with
  | Some (a, m) => Done tt (Vst _ m a)
  | None => Panic "kfree"
  end.
Definition read64 (a : Z) : V Z := gets (λ s, load64 (vmem s) a).
Definition write64 (a v : Z) : V unit := modify (λ s, set_vmem (store64 (vmem s) a v) s).
Definition do_memset (a : Z) (c : byte) (n : Z) : V unit := modify (λ s, set_vmem (memset (vmem s) a c n) s).
Definition do_memmove (d s n : Z) : V unit := modify (λ st, set_vmem (memmove (vmem st) d s n) st).
End calls.

(** *** Instances *)
Definition sv39 : Riscv := {|
  PGSIZE := 4096; MAXVA := 2 ^ 38;
  PTE_V := 1; PTE_R := 2; PTE_W := 4; PTE_X := 8; PTE_U := 16;
  PX := λ l va, Z.land (Z.shiftr va (12 + 9 * Z.of_nat l)) 511;
  PTE2PA := λ pte, u64 (Z.shiftl (Z.shiftr pte 10) 12);
  PA2PTE := λ pa, u64 (Z.shiftl (Z.shiftr pa 12) 10);
  PTE_FLAGS := λ pte, Z.land pte 1023;
  PGROUNDUP := λ a, Z.land (u64 (a + 4095)) (u64 (Z.lnot 4095));
  PGROUNDDOWN := λ a, Z.land a (u64 (Z.lnot 4095)) |}.

#[export] Instance is_page_dec p : Decision (is_page p).
Proof. unfold is_page. apply _. Defined.

(** A stack of free pages; both calls fill the page with junk. *)
Definition page_stack : Allocator := {|
  astate := list Z;
  do_kalloc := λ a m,
    match filter is_page a with
    | [] => (0, a, m)
    | p :: a' => (p, filter (λ q, q ≠ p) a', memset m p x05 4096)
    end;
  do_kfree := λ p a m,
    if bool_decide (is_page p) then Some (p :: a, memset m p x01 4096) else None;
  free := λ a, list_to_set (filter is_page a) |}.

(** ** Lemmas *)

Lemma land_page_mask a : 0 <= a < 2 ^ 64 → Z.land a (u64 (Z.lnot 4095)) = a / 4096 * 4096.
Proof.
  intros Ha. change (u64 (Z.lnot 4095)) with (Z.shiftl (Z.ones 52) 12).
  change 4096 with (2 ^ 12). rewrite <- Z.shiftr_div_pow2, <- Z.shiftl_mul_pow2 by lia.
  apply Z.bits_inj'. intros n Hn. rewrite Z.land_spec.
  destruct (Z.ltb_spec n 12) as [?|?].
  { rewrite !Z.shiftl_spec_low by lia. by rewrite andb_false_r. }
  rewrite !Z.shiftl_spec, Z.shiftr_spec by lia. replace (n - 12 + 12) with n by lia.
  rewrite Z.testbit_ones by lia. destruct (Z.ltb_spec (n - 12) 52) as [?|?].
  - rewrite (proj2 (Z.leb_le _ _)) by lia. by rewrite andb_true_r.
  - rewrite andb_false_r, andb_false_r. symmetry. apply Z.testbit_false; [lia|].
    rewrite Z.div_small; [done|]. split; [lia|]. apply Z.lt_le_trans with (2 ^ 64); [lia|].
    apply Z.pow_le_mono_r; lia.
Qed.

Lemma sv39_laws : RiscvLaws sv39.
Proof.
  constructor; try done.
  - intros l va Hva. cbn. rewrite Z.shiftr_div_pow2 by lia.
    change 511 with (Z.ones 9). rewrite Z.land_ones by lia. done.
  - intros pte Hp. cbn. rewrite Z.shiftl_mul_pow2, Z.shiftr_div_pow2 by lia.
    apply u64_small. Z.to_euclidean_division_equations; lia.
  - intros pa Hp. cbn. rewrite Z.shiftl_mul_pow2, Z.shiftr_div_pow2 by lia.
    apply u64_small. Z.to_euclidean_division_equations; lia.
  - intros pte Hp. cbn. change 1023 with (Z.ones 10). by rewrite Z.land_ones by lia.
  - intros a Ha. apply land_page_mask, u64_range.
  - intros a Ha. by apply land_page_mask.
Qed.

Lemma page_stack_laws : AllocatorLaws page_stack.
Proof.
  assert (Hmem : ∀ (a : @astate page_stack) p, p ∈ @free page_stack a ↔ p ∈ (a : list Z) ∧ is_page p).
  { intros a p. cbn. rewrite elem_of_list_to_set, list.list_elem_of_filter. tauto. }
  constructor.
  - intros a p Hp. by apply Hmem in Hp as [_ ?].
  - intros a m Hf. cbn in *. destruct (filter is_page a) as [|p a']; [done|].
    exfalso. assert (p ∈ (∅ : gset Z)); [|set_solver]. rewrite <- Hf. cbn. set_solver.
  - intros a m Hf. cbn in *. destruct (filter is_page a) as [|p a'] eqn:E; [by destruct Hf|].
    assert (Ha' : Forall is_page a').
    { apply Forall_forall. intros q Hq. assert (q ∈ filter is_page a) as Hq' by (rewrite E; by right).
      by apply list.list_elem_of_filter in Hq' as [? _]. }
    eexists _, _, _. split; [reflexivity|]. split; [set_solver|]. split.
    + apply set_eq. intros q. rewrite elem_of_list_to_set, elem_of_difference, elem_of_list_to_set,
        elem_of_singleton, !list.list_elem_of_filter, elem_of_cons.
      rewrite Forall_forall in Ha'. naive_solver.
    + intros x Hx. apply memset_other. unfold in_page in Hx. specialize (Hx p ltac:(set_solver)). lia.
  - intros a m p Hp Hn. cbn. rewrite bool_decide_true by done. eexists _, _. split; [done|].
    rewrite list.filter_cons_True by done. split; [done|]. intros x Hx. apply memset_other.
    specialize (Hx p ltac:(set_solver)). unfold in_page in Hx. lia.
Qed.

(** *** Page arithmetic *)
Section laws.
Context {R : Riscv} {RL : RiscvLaws R}.

Lemma maxva_page : MAXVA mod 4096 = 0.
Proof using RL. pose proof maxva_top. Z.to_euclidean_division_equations; lia. Qed.

Lemma pgrounddown_le a : 0 <= a < 2 ^ 64 →
  PGROUNDDOWN a mod 4096 = 0 ∧ PGROUNDDOWN a <= a < PGROUNDDOWN a + 4096.
Proof. intros Ha. rewrite pgrounddown_def by done. Z.to_euclidean_division_equations; lia. Qed.
Lemma pgroundup_ge a : 0 <= a <= 2 ^ 64 - 4096 →
  PGROUNDUP a mod 4096 = 0 ∧ a <= PGROUNDUP a < a + 4096.
Proof.
  intros Ha. rewrite pgroundup_def by lia. rewrite u64_small by lia.
  Z.to_euclidean_division_equations; lia.
Qed.

(** *** Page-table entries *)
Definition mk_pte (pa perm : Z) : Z := Z.lor (Z.lor (PA2PTE pa) perm) PTE_V.

Lemma testbit_high b n i : 0 <= b < 2 ^ n → n <= i → 0 <= n → Z.testbit b i = false.
Proof.
  intros Hb Hi Hn. apply Z.testbit_false; [lia|]. rewrite Z.div_small; [done|].
  split; [lia|]. apply Z.lt_le_trans with (2 ^ n); [lia|]. apply Z.pow_le_mono_r; lia.
Qed.
Lemma lor_disjoint a n b : 0 <= n → 0 <= b < 2 ^ n → Z.lor (a * 2 ^ n) b = a * 2 ^ n + b.
Proof.
  intros Hn Hb. rewrite <- Z.shiftl_mul_pow2 by done.
  assert (E : Z.land (Z.shiftl a n) b = 0).
  { apply Z.bits_inj'. intros i Hi. rewrite Z.land_spec, Z.bits_0.
    destruct (Z.ltb_spec i n) as [?|?]; [by rewrite Z.shiftl_spec_low|].
    by rewrite (testbit_high b n i), andb_false_r. }
  rewrite Z.add_nocarry_lxor by done. symmetry. by apply Z.lxor_lor.
Qed.
Lemma lor_range b c n : 0 <= n → 0 <= b < 2 ^ n → 0 <= c < 2 ^ n → 0 <= Z.lor b c < 2 ^ n.
Proof.
  intros Hn Hb Hc. split; [apply Z.lor_nonneg; lia|].
  destruct (Z.eqb_spec (Z.lor b c) 0) as [->|Hne]; [lia|].
  apply Z.log2_lt_pow2; [pose proof (proj2 (Z.lor_nonneg b c) ltac:(lia)); lia|].
  rewrite Z.log2_lor by lia.
  assert (Hl : ∀ x, 0 <= x < 2 ^ n → x = 0 ∨ Z.log2 x < n).
  { intros x Hx. destruct (Z.eqb_spec x 0); [by left|right]. apply Z.log2_lt_pow2; lia. }
  assert (0 < n). { destruct (Z.eqb_spec n 0) as [->|]; [|lia]. assert (b = 0 ∧ c = 0) as [-> ->] by lia. done. }
  destruct (Hl b Hb) as [->|?], (Hl c Hc) as [->|?]; cbn [Z.log2]; lia.
Qed.

Section mk_pte.
Context (pa perm : Z) (Hpa : is_page pa) (Hperm : 0 <= perm < 1024).

Lemma mk_pte_value : mk_pte pa perm = pa / 4096 * 1024 + Z.lor perm 1.
Proof using RL Hpa Hperm.
  unfold mk_pte. destruct Hpa as (_ & ? & ?). rewrite pa2pte_field, pte_v_bit by lia.
  rewrite <- Z.lor_assoc. apply (lor_disjoint _ 10); [lia|]. by apply (lor_range perm 1 10).
Qed.
Lemma mk_pte_range : 0 <= mk_pte pa perm < 2 ^ 54.
Proof using RL Hpa Hperm.
  rewrite mk_pte_value. pose proof (lor_range perm 1 10 ltac:(lia) Hperm ltac:(lia)).
  destruct Hpa as (_ & ? & ?). Z.to_euclidean_division_equations; lia.
Qed.
Lemma mk_pte_pa : PTE2PA (mk_pte pa perm) = pa.
Proof using RL Hpa Hperm.
  rewrite pte2pa_field by apply mk_pte_range. rewrite mk_pte_value.
  pose proof (lor_range perm 1 10 ltac:(lia) Hperm ltac:(lia)).
  destruct Hpa as (? & ? & ?). Z.to_euclidean_division_equations; lia.
Qed.
Lemma mk_pte_flags : PTE_FLAGS (mk_pte pa perm) = Z.lor perm 1.
Proof using RL Hpa Hperm.
  pose proof mk_pte_range. rewrite pte_flags_field by lia. rewrite mk_pte_value.
  pose proof (lor_range perm 1 10 ltac:(lia) Hperm ltac:(lia)).
  Z.to_euclidean_division_equations; lia.
Qed.
Lemma mk_pte_bits b : 0 <= b < 1024 → Z.land (mk_pte pa perm) b = Z.land (Z.lor perm 1) b.
Proof using RL Hpa Hperm.
  intros Hb. rewrite mk_pte_value.
  pose proof (lor_range perm 1 10 ltac:(lia) Hperm ltac:(lia)).
  change 1024 with (2 ^ 10). rewrite <- lor_disjoint by lia. rewrite Z.land_lor_distr_l.
  assert (E : Z.land (pa / 4096 * 2 ^ 10) b = 0).
  { rewrite <- Z.shiftl_mul_pow2 by lia. apply Z.bits_inj'. intros i Hi. rewrite Z.land_spec, Z.bits_0.
    destruct (Z.ltb_spec i 10) as [?|?]; [by rewrite Z.shiftl_spec_low|].
    by rewrite (testbit_high b 10 i), andb_false_r. }
  by rewrite E.
Qed.
End mk_pte.
End laws.

#[export] Hint Resolve mk_pte_range : cmem.
