(* ===== verification/Vm.v ===== *)
(** vm.c (Lab3): Sv39 page tables in physical memory, user address spaces and
    the copies between user and kernel memory.  Data and operations; the
    invariants and properties are in PageTable.v and the files after it.

    - A [pagetable_t], a [pte_t *] and every other kernel pointer is a physical
      address (the kernel maps physical memory one to one).
    - A loop whose length depends on an argument runs on fuel computed from
      that argument; that it is enough is part of each operation's property. *)
From S2P Require Import Prelude Riscv.

(** ** Definitions *)

(** Constants of memlayout.h and symbols of the linker script. *)
Class Layout := {
  UART0 : Z; VIRTIO0 : Z; PLIC : Z; KERNBASE : Z; PHYSTOP : Z; TRAMPOLINE : Z;
  KSTACK : nat → Z; etext : Z; trampoline : Z }.

Section vm.
Context {R : Riscv} {L : Allocator}.

(** Flag tests on an entry. *)
Definition has (pte flag : Z) : bool := negb (Z.land pte flag =? 0).

(** The descent through the levels above 0. *)
Fixpoint walk_down (level : nat) (pagetable va : Z) (alloc : bool) : V Z :=
  match level with
  | O => mret (pagetable + 8 * PX 0 va)
  | S l =>
      let slot := pagetable + 8 * PX level va in
      pte ← read64 slot;
      if has pte PTE_V then walk_down l (PTE2PA pte) va alloc
      else if negb alloc then mret 0
      else
        p ← kalloc;
        if p =? 0 then mret 0
        else
          do_memset p x00 PGSIZE;;
          write64 slot (Z.lor (PA2PTE p) PTE_V);;
          walk_down l p va alloc
  end.
Definition walk (pagetable va : Z) (alloc : bool) : V Z :=
  if MAXVA <=? va then panic "walk" else walk_down 2 pagetable va alloc.

Definition walkaddr (pagetable va : Z) : V Z :=
  if MAXVA <=? va then mret 0
  else
    slot ← walk pagetable va false;
    if slot =? 0 then mret 0
    else
      pte ← read64 slot;
      if negb (has pte PTE_V) then mret 0
      else if negb (has pte PTE_U) then mret 0
      else mret (PTE2PA pte).

Fixpoint mappages_loop (fuel : nat) (pagetable a last pa perm : Z) : V Z :=
  match fuel with
  | O => no_fuel
  | S fuel' =>
      slot ← walk pagetable a true;
      if slot =? 0 then mret (-1)
      else
        pte ← read64 slot;
        if has pte PTE_V then panic "mappages: remap"
        else
          write64 slot (Z.lor (Z.lor (PA2PTE pa) perm) PTE_V);;
          if a =? last then mret 0
          else mappages_loop fuel' pagetable (u64 (a + PGSIZE)) last (u64 (pa + PGSIZE)) perm
  end.
Definition mappages (pagetable va size pa perm : Z) : V Z :=
  if size =? 0 then panic "mappages: size"
  else
    let a := PGROUNDDOWN va in
    let last := PGROUNDDOWN (u64 (va + size - 1)) in
    let fuel := S (Z.to_nat ((if a <=? last then last - a else MAXVA - a) / PGSIZE)) in
    mappages_loop fuel pagetable a last pa perm.

Fixpoint uvmunmap_loop (fuel : nat) (pagetable a stop : Z) (do_free : bool) : V unit :=
  match fuel with
  | O => no_fuel
  | S fuel' =>
      if a <? stop then
        slot ← walk pagetable a false;
        if slot =? 0 then panic "uvmunmap: walk"
        else
          pte ← read64 slot;
          if negb (has pte PTE_V) then panic "uvmunmap: not mapped"
          else if PTE_FLAGS pte =? PTE_V then panic "uvmunmap: not a leaf"
          else
            (if do_free then kfree (PTE2PA pte) else mret tt);;
            write64 slot 0;;
            uvmunmap_loop fuel' pagetable (u64 (a + PGSIZE)) stop do_free
      else mret tt
  end.
Definition uvmunmap (pagetable va npages : Z) (do_free : bool) : V unit :=
  if negb (va mod PGSIZE =? 0) then panic "uvmunmap: not aligned"
  else
    let stop := u64 (va + npages * PGSIZE) in
    uvmunmap_loop (S (Z.to_nat ((stop - va) / PGSIZE))) pagetable va stop do_free.

Definition uvmcreate : V Z :=
  p ← kalloc;
  if p =? 0 then mret 0 else do_memset p x00 PGSIZE;; mret p.

Definition uvmfirst (pagetable src sz : Z) : V unit :=
  if PGSIZE <=? sz then panic "uvmfirst: more than a page"
  else
    p ← kalloc;
    do_memset p x00 PGSIZE;;
    mappages pagetable 0 PGSIZE p (Z.lor (Z.lor (Z.lor PTE_W PTE_R) PTE_X) PTE_U);;
    do_memmove p src sz.

Definition uvmdealloc (pagetable oldsz newsz : Z) : V Z :=
  if oldsz <=? newsz then mret oldsz
  else
    (if PGROUNDUP newsz <? PGROUNDUP oldsz then
       let npages := i32 ((PGROUNDUP oldsz - PGROUNDUP newsz) / PGSIZE) in
       uvmunmap pagetable (PGROUNDUP newsz) (u64 npages) true
     else mret tt);;
    mret newsz.

Fixpoint uvmalloc_loop (fuel : nat) (pagetable a oldsz newsz xperm : Z) : V Z :=
  match fuel with
  | O => no_fuel
  | S fuel' =>
      if a <? newsz then
        p ← kalloc;
        if p =? 0 then uvmdealloc pagetable a oldsz;; mret 0
        else
          do_memset p x00 PGSIZE;;
          r ← mappages pagetable a PGSIZE p (Z.lor (Z.lor PTE_R PTE_U) xperm);
          if negb (r =? 0) then
            kfree p;; uvmdealloc pagetable a oldsz;; mret 0
          else uvmalloc_loop fuel' pagetable (u64 (a + PGSIZE)) oldsz newsz xperm
      else mret newsz
  end.
Definition uvmalloc (pagetable oldsz newsz xperm : Z) : V Z :=
  if newsz <? oldsz then mret oldsz
  else
    let oldsz := PGROUNDUP oldsz in
    let fuel := S (S (Z.to_nat ((newsz - oldsz) / PGSIZE))) in
    uvmalloc_loop fuel pagetable oldsz oldsz newsz xperm.

(** [for(i = 0; i < 512; i++)]: [n] more turns from [i]. *)
Fixpoint for_entries (n : nat) (i : Z) (body : Z → V unit) : V unit :=
  match n with
  | O => mret tt
  | S n' => body i;; for_entries n' (i + 1) body
  end.

(** [fuel] bounds the depth of the recursion. *)
Fixpoint freewalk (fuel : nat) (pagetable : Z) : V unit :=
  match fuel with
  | O => no_fuel
  | S fuel' =>
      for_entries 512 0 (λ i,
        pte ← read64 (pagetable + 8 * i);
        if has pte PTE_V && (Z.land pte (Z.lor (Z.lor PTE_R PTE_W) PTE_X) =? 0) then
          freewalk fuel' (PTE2PA pte);;
          write64 (pagetable + 8 * i) 0
        else if has pte PTE_V then panic "freewalk: leaf"
        else mret tt);;
      kfree pagetable
  end.

Definition uvmfree (pagetable sz : Z) : V unit :=
  (if 0 <? sz then uvmunmap pagetable 0 (PGROUNDUP sz / PGSIZE) true else mret tt);;
  freewalk 3 pagetable.

(** The lines vmprint prints: the header, and one per valid entry, with the
    string of [point] it starts with. *)
Inductive vline := Header (pagetable : Z) | Entry (dots : string) (i pte pa : Z).
Definition point (k : Z) : string :=
  if k =? 0 then ".." else if k =? 1 then ".. .." else ".. .. ..".
Fixpoint vmprint (fuel : nat) (m : mem) (pagetable level : Z) : list vline :=
  match fuel with
  | O => []
  | S fuel' =>
      (if level =? 1 then [Header pagetable] else []) ++
      flat_map (λ i,
        let pte := load64 m (pagetable + 8 * i) in
        if has pte PTE_V then
          Entry (point (level - 1)) i pte (PTE2PA pte)
          :: (if negb (level =? 3) then vmprint fuel' m (PTE2PA pte) (level + 1) else [])
        else []) (seqZ 0 512)
  end.

Fixpoint uvmcopy_loop (fuel : nat) (old new i sz : Z) : V Z :=
  match fuel with
  | O => no_fuel
  | S fuel' =>
      let err := uvmunmap new 0 (i / PGSIZE) true;; mret (-1) in
      if i <? sz then
        slot ← walk old i false;
        if slot =? 0 then panic "uvmcopy: pte should exist"
        else
          pte ← read64 slot;
          if negb (has pte PTE_V) then panic "uvmcopy: page not present"
          else
            p ← kalloc;
            if p =? 0 then err
            else
              do_memmove p (PTE2PA pte) PGSIZE;;
              r ← mappages new i PGSIZE p (PTE_FLAGS pte);
              if negb (r =? 0) then kfree p;; err
              else uvmcopy_loop fuel' old new (u64 (i + PGSIZE)) sz
      else mret 0
  end.
Definition uvmcopy (old new sz : Z) : V Z :=
  uvmcopy_loop (S (S (Z.to_nat (sz / PGSIZE)))) old new 0 sz.

Definition uvmclear (pagetable va : Z) : V unit :=
  slot ← walk pagetable va false;
  if slot =? 0 then panic "uvmclear"
  else
    pte ← read64 slot;
    write64 slot (Z.land pte (Z.lnot PTE_U)).

Fixpoint copyout_loop (fuel : nat) (pagetable dstva src len : Z) : V Z :=
  match fuel with
  | O => no_fuel
  | S fuel' =>
      if 0 <? len then
        let va0 := PGROUNDDOWN dstva in
        pa0 ← walkaddr pagetable va0;
        if pa0 =? 0 then mret (-1)
        else
          let n := PGSIZE - (dstva - va0) in
          let n := if len <? n then len else n in
          do_memmove (pa0 + (dstva - va0)) src n;;
          copyout_loop fuel' pagetable (u64 (va0 + PGSIZE)) (src + n) (len - n)
      else mret 0
  end.
Definition copyout (pagetable dstva src len : Z) : V Z :=
  copyout_loop (S (S (Z.to_nat (len / PGSIZE + 1)))) pagetable dstva src len.

Fixpoint copyin_loop (fuel : nat) (pagetable dst srcva len : Z) : V Z :=
  match fuel with
  | O => no_fuel
  | S fuel' =>
      if 0 <? len then
        let va0 := PGROUNDDOWN srcva in
        pa0 ← walkaddr pagetable va0;
        if pa0 =? 0 then mret (-1)
        else
          let n := PGSIZE - (srcva - va0) in
          let n := if len <? n then len else n in
          do_memmove dst (pa0 + (srcva - va0)) n;;
          copyin_loop fuel' pagetable (dst + n) (u64 (va0 + PGSIZE)) (len - n)
      else mret 0
  end.
Definition copyin (pagetable dst srcva len : Z) : V Z :=
  copyin_loop (S (S (Z.to_nat (len / PGSIZE + 1)))) pagetable dst srcva len.

(** The inner loop of [copyinstr]: [n] bytes from [p]; it ends with whether a
    NUL was copied, and with [max] and [dst]. *)
Fixpoint copy_bytes (n : nat) (p max dst : Z) : V (bool * Z * Z) :=
  match n with
  | O => mret (false, max, dst)
  | S n' =>
      b ← gets (λ s, vmem s p);
      if bool_decide (b = x00) then
        modify (λ s, set_vmem (store8 (vmem s) dst x00) s);; mret (true, max, dst)
      else
        modify (λ s, set_vmem (store8 (vmem s) dst b) s);;
        copy_bytes n' (p + 1) (max - 1) (dst + 1)
  end.
Fixpoint copyinstr_loop (fuel : nat) (pagetable dst srcva max : Z) : V Z :=
  match fuel with
  | O => no_fuel
  | S fuel' =>
      if 0 <? max then
        let va0 := PGROUNDDOWN srcva in
        pa0 ← walkaddr pagetable va0;
        if pa0 =? 0 then mret (-1)
        else
          let n := PGSIZE - (srcva - va0) in
          let n := if max <? n then max else n in
          r ← copy_bytes (Z.to_nat n) (pa0 + (srcva - va0)) max dst;
          let '(got_null, max', dst') := r in
          if got_null : bool then mret 0
          else copyinstr_loop fuel' pagetable dst' (u64 (va0 + PGSIZE)) max'
      else mret (-1)
  end.
Definition copyinstr (pagetable dst srcva max : Z) : V Z :=
  copyinstr_loop (S (S (Z.to_nat (max / PGSIZE + 1)))) pagetable dst srcva max.

(** *** The kernel's page table *)
Context {KL : Layout}.

Definition kvmmap (kpgtbl va pa sz perm : Z) : V unit :=
  r ← mappages kpgtbl va sz pa perm;
  if negb (r =? 0) then panic "kvmmap" else mret tt.

(** proc.c: a page for each process's kernel stack. *)
Fixpoint proc_mapstacks (n i : nat) (kpgtbl : Z) : V unit :=
  match n with
  | O => mret tt
  | S n' =>
      pa ← kalloc;
      if pa =? 0 then panic "kalloc"
      else
        kvmmap kpgtbl (KSTACK i) pa PGSIZE (Z.lor PTE_R PTE_W);;
        proc_mapstacks n' (S i) kpgtbl
  end.

Definition kvmmake : V Z :=
  kpgtbl ← kalloc;
  do_memset kpgtbl x00 PGSIZE;;
  kvmmap kpgtbl UART0 UART0 PGSIZE (Z.lor PTE_R PTE_W);;
  kvmmap kpgtbl VIRTIO0 VIRTIO0 PGSIZE (Z.lor PTE_R PTE_W);;
  kvmmap kpgtbl PLIC PLIC 0x400000 (Z.lor PTE_R PTE_W);;
  kvmmap kpgtbl KERNBASE KERNBASE (u64 (etext - KERNBASE)) (Z.lor PTE_R PTE_X);;
  kvmmap kpgtbl etext etext (u64 (PHYSTOP - etext)) (Z.lor PTE_R PTE_W);;
  kvmmap kpgtbl TRAMPOLINE trampoline PGSIZE (Z.lor PTE_R PTE_X);;
  proc_mapstacks 64 0 kpgtbl;;
  mret kpgtbl.
End vm.
