(* ===== verification/PageTable.v ===== *)
(** The page-table invariant of vm.c (Lab3), the abstract content of a page
    table, and what [walk] does to both.

    A ghost map [T] gives each page-table page its level and the high part of
    the virtual addresses it serves.  Because it is a function of the page,
    two virtual pages never share a slot. *)
From S2P Require Import Prelude Riscv Vm.

(** ** Definitions *)

(** The bits of [va] above the index of level [l]. *)
Definition above (l : nat) (va : Z) : Z := va / 2 ^ (12 + 9 * (Z.of_nat l + 1)).

Notation tables := (gmap Z (nat * Z)).

Section defs.
Context {R : Riscv} {L : Allocator}.

(** The slot that holds the entry of [va], read off the memory, and the entry:
    0 when a level is missing. *)
Fixpoint slot_at (m : mem) (level : nat) (pt va : Z) : option Z :=
  match level with
  | O => Some (pt + 8 * PX 0 va)
  | S l =>
      let pte := load64 m (pt + 8 * PX level va) in
      if has pte PTE_V then slot_at m l (PTE2PA pte) va else None
  end.
Definition slot (m : mem) (root va : Z) : option Z := slot_at m 2 root va.
Definition entry (m : mem) (root va : Z) : Z :=
  match slot m root va with Some a => load64 m a | None => 0 end.

(** [T] describes the page table at [root]: a valid entry above level 0 points
    to the table of its part of the address space and has no other flag, and
    every table but the root is pointed to. *)
Record pt_ok (m : mem) (root : Z) (T : tables) : Prop := {
  pt_root : T !! root = Some (2%nat, 0);
  pt_page : ∀ p l pre, T !! p = Some (l, pre) → is_page p ∧ (l <= 2)%nat;
  pt_bound : ∀ p l pre, T !! p = Some (l, pre) → 0 <= pre ∧ pre * 2 ^ (12 + 9 * (Z.of_nat l + 1)) < MAXVA;
  pt_child : ∀ p l pre i, T !! p = Some (S l, pre) → 0 <= i < 512 →
    has (load64 m (p + 8 * i)) PTE_V = true →
    ∃ q, T !! q = Some (l, pre * 512 + i) ∧ load64 m (p + 8 * i) = Z.lor (PA2PTE q) PTE_V;
  pt_parent : ∀ q l pre, T !! q = Some (l, pre) → q ≠ root →
    ∃ p, T !! p = Some (S l, pre / 512) ∧ load64 m (p + 8 * (pre mod 512)) = Z.lor (PA2PTE q) PTE_V }.

(** No page of the table is free. *)
Definition pt_inv (s : vst) (root : Z) (T : tables) : Prop :=
  pt_ok (vmem s) root T ∧ dom T ## free (alloc s).

(** [m'] differs from [m] in the pages [P] only. *)
Definition same_off (P : gset Z) (m m' : mem) : Prop :=
  ∀ x, (∀ q, q ∈ P → ¬ in_page q x) → m' x = m x.

(** Growing the table: free pages become tables. *)
Record pt_frame (root : Z) (s : vst) (T : tables) (s' : vst) (T' : tables) : Prop := {
  pg_sub : T ⊆ T';
  pg_inv : pt_inv s' root T';
  pg_free : free (alloc s') ⊆ free (alloc s);
  pg_dom : dom T' = dom T ∪ (free (alloc s) ∖ free (alloc s'));
  pg_mem : same_off (dom T ∪ free (alloc s)) (vmem s) (vmem s');
  pg_kids : ∀ p l pre i, T !! p = Some (S l, pre) → 0 <= i < 512 →
    has (load64 (vmem s) (p + 8 * i)) PTE_V = true →
    load64 (vmem s') (p + 8 * i) = load64 (vmem s) (p + 8 * i) }.
(** ... and no entry changes. *)
Record pt_grow (root : Z) (s : vst) (T : tables) (s' : vst) (T' : tables) : Prop := {
  pg_frame :> pt_frame root s T s' T';
  pg_entry : ∀ va, 0 <= va < MAXVA → entry (vmem s') root va = entry (vmem s) root va }.
(** Every table that [T'] adds to [T] serves an address with [P]. *)
Definition adds_for (P : Z → Prop) (T T' : tables) : Prop := ∀ q l pre,
  T' !! q = Some (l, pre) → T !! q = Some (l, pre) ∨ ∃ va, P va ∧ (l <= 1)%nat ∧ pre = above l va.
End defs.

Section page_table.
Context {R : Riscv} {L : Allocator} {RL : RiscvLaws R} {AL : AllocatorLaws L}.
Implicit Types (m : mem) (T : tables) (s : vst).

(** ** Lemmas: addresses *)

Lemma va_range va : 0 <= va < MAXVA → 0 <= va < 2 ^ 39.
Proof using RL. pose proof maxva_range. lia. Qed.
Lemma px_range l va : 0 <= va < MAXVA → 0 <= PX l va < 512.
Proof using RL.
  intros Hva%va_range. rewrite px_field by lia. apply Z.mod_pos_bound. lia.
Qed.
Lemma above_S l va : 0 <= va < MAXVA → above l va = above (S l) va * 512 + PX (S l) va.
Proof using RL.
  intros Hva%va_range. unfold above. rewrite px_field by lia.
  set (k := 12 + 9 * (Z.of_nat l + 1)).
  replace (12 + 9 * (Z.of_nat (S l) + 1)) with (k + 9) by lia.
  replace (12 + 9 * Z.of_nat (S l)) with k by lia.
  rewrite Z.pow_add_r, <- Z.div_div by lia. change (2 ^ 9) with 512.
  pose proof (Z.div_mod (va / 2 ^ k) 512). lia.
Qed.
Lemma above_root va : 0 <= va < MAXVA → above 2 va = 0.
Proof using RL. intros Hva%va_range. apply Z.div_small. done. Qed.
Lemma vpn_above va : 0 <= va < MAXVA → va / 4096 = above 0 va * 512 + PX 0 va.
Proof using RL.
  intros Hva%va_range. unfold above. rewrite px_field by lia.
  change (12 + 9 * (Z.of_nat 0 + 1)) with 21. change (12 + 9 * Z.of_nat 0) with 12.
  change (2 ^ 12) with 4096. change (2 ^ 21) with (4096 * 512).
  rewrite <- Z.div_div by lia. pose proof (Z.div_mod (va / 4096) 512). lia.
Qed.
(** The last index and the table prefix determine the virtual page, and back. *)
Lemma above_px_inj va va' : 0 <= va < MAXVA → 0 <= va' < MAXVA →
  above 0 va = above 0 va' → PX 0 va = PX 0 va' → va / 4096 = va' / 4096.
Proof using RL. intros H H' E1 E2. rewrite !vpn_above by done. congruence. Qed.
Lemma px_page l va va' : 0 <= va < MAXVA → 0 <= va' < MAXVA → va / 4096 = va' / 4096 → PX l va = PX l va'.
Proof using RL.
  intros H%va_range H'%va_range E. rewrite !px_field, !Z.pow_add_r, <- !Z.div_div by lia.
  change (2 ^ 12) with 4096. by rewrite E.
Qed.

Lemma slots_disjoint p q i j :
  is_page p → is_page q → 0 <= i < 512 → 0 <= j < 512 → (p, i) ≠ (q, j) →
  p + 8 * i + 8 <= q + 8 * j ∨ q + 8 * j + 8 <= p + 8 * i.
Proof using.
  intros (Hp & _) (Hq & _) Hi Hj Hne.
  destruct (Z.eq_dec p q) as [->|Hpq].
  - assert (i ≠ j) by congruence. lia.
  - Z.to_euclidean_division_equations; lia.
Qed.
Lemma in_page_eq p q x : is_page p → is_page q → in_page p x → in_page q x → p = q.
Proof using. intros (Hp & _) (Hq & _). unfold in_page. Z.to_euclidean_division_equations; lia. Qed.

Lemma has_0 f : has 0 f = false.
Proof using. unfold has. by rewrite Z.land_0_l. Qed.
Lemma kid_is_mk_pte q : Z.lor (PA2PTE q) PTE_V = mk_pte q 0.
Proof using. unfold mk_pte. by rewrite Z.lor_0_r. Qed.
Lemma kid_pa q : is_page q → PTE2PA (Z.lor (PA2PTE q) PTE_V) = q.
Proof using RL. intros Hq. rewrite kid_is_mk_pte. by apply mk_pte_pa. Qed.
Lemma kid_valid q : is_page q → has (Z.lor (PA2PTE q) PTE_V) PTE_V = true.
Proof using RL.
  intros Hq. rewrite kid_is_mk_pte. unfold has. rewrite pte_v_bit, mk_pte_bits by done. done.
Qed.
Lemma kid_range q : is_page q → 0 <= Z.lor (PA2PTE q) PTE_V < 2 ^ 64.
Proof using RL. intros Hq. rewrite kid_is_mk_pte. pose proof (mk_pte_range q 0 Hq). lia. Qed.
(** ** Lemmas: slots and entries *)

Lemma slot_at_table m root T l p va a :
  pt_ok m root T → 0 <= va < MAXVA → T !! p = Some (l, above l va) →
  slot_at m l p va = Some a → ∃ q, T !! q = Some (0%nat, above 0 va) ∧ a = q + 8 * PX 0 va.
Proof using RL.
  intros I Hva. revert p. induction l as [|l IH]; intros p Hp Ha.
  - exists p. cbn in Ha. split; [done|congruence].
  - cbn [slot_at] in Ha. destruct (has _ _) eqn:Hv; [|done].
    destruct (pt_child _ _ _ I p l _ _ Hp (px_range _ _ Hva) Hv) as (q & Hq & E).
    rewrite E, kid_pa in Ha by (by eapply pt_page).
    apply (IH q); [|done]. by rewrite (above_S l va).
Qed.
Lemma slot_table m root T va a :
  pt_ok m root T → 0 <= va < MAXVA → slot m root va = Some a →
  ∃ q, T !! q = Some (0%nat, above 0 va) ∧ a = q + 8 * PX 0 va.
Proof using RL.
  intros I Hva. apply (slot_at_table _ _ _ _ _ _ _ I Hva). rewrite above_root by done. apply I.
Qed.
Lemma slot_nonzero m root T va a :
  pt_ok m root T → 0 <= va < MAXVA → slot m root va = Some a → a ≠ 0.
Proof using RL.
  intros I Hva Ha. destruct (slot_table _ _ _ _ _ I Hva Ha) as (q & Hq & ->).
  destruct (pt_page _ _ _ I _ _ _ Hq) as [(_ & Hq0 & _) _]. pose proof (px_range 0 va Hva). lia.
Qed.

(** The memory changes only where no interior slot of [T] lies. *)
Definition interior_same T m m' : Prop := ∀ p l pre i,
  T !! p = Some (S l, pre) → 0 <= i < 512 → load64 m' (p + 8 * i) = load64 m (p + 8 * i).

Lemma slot_at_ext m m' root T l p va :
  pt_ok m root T → interior_same T m m' → 0 <= va < MAXVA → T !! p = Some (l, above l va) →
  slot_at m' l p va = slot_at m l p va.
Proof using RL.
  intros I Hs Hva. revert p. induction l as [|l IH]; intros p Hp; [done|].
  cbn [slot_at]. rewrite (Hs p l _ _ Hp (px_range _ _ Hva)).
  destruct (has _ _) eqn:Hv; [|done].
  destruct (pt_child _ _ _ I p l _ _ Hp (px_range _ _ Hva) Hv) as (q & Hq & E).
  rewrite E, kid_pa by (by eapply pt_page). apply IH. by rewrite (above_S l va).
Qed.
Lemma slot_ext m m' root T va :
  pt_ok m root T → interior_same T m m' → 0 <= va < MAXVA → slot m' root va = slot m root va.
Proof using RL.
  intros I Hs Hva. apply (slot_at_ext _ _ _ _ _ _ _ I Hs Hva). rewrite above_root by done. apply I.
Qed.
Lemma pt_ok_ext m m' root T : pt_ok m root T → interior_same T m m' → pt_ok m' root T.
Proof using.
  intros I Hs. constructor; [apply I|apply I|apply I|..].
  - intros p l pre i Hp Hi Hv. rewrite (Hs p l pre i Hp Hi) in Hv |- *. by apply (pt_child _ _ _ I p l pre i).
  - intros q l pre Hq Hne. destruct (pt_parent _ _ _ I _ _ _ Hq Hne) as (p & Hp & E).
    exists p. split; [done|]. rewrite <- E. eapply Hs; [done|]. apply Z.mod_pos_bound. lia.
Qed.

Lemma load64_same_off P m m' p i :
  same_off P m m' → (∀ q, q ∈ P → is_page q) → is_page p → p ∉ P → 0 <= i < 512 →
  load64 m' (p + 8 * i) = load64 m (p + 8 * i).
Proof using.
  intros Hs HP Hp Hn Hi. apply load64_ext. intros x Hx. apply Hs. intros q Hq Hin.
  assert (q = p); [|congruence].
  eapply in_page_eq; [by apply HP|done|exact Hin|]. unfold in_page. lia.
Qed.

(** A change off the table pages. *)
Lemma table_same m m' root T P :
  pt_ok m root T → same_off P m m' → (∀ q, q ∈ P → is_page q) → dom T ## P →
  pt_ok m' root T ∧ (∀ va, 0 <= va < MAXVA → slot m' root va = slot m root va)
  ∧ (∀ va, 0 <= va < MAXVA → entry m' root va = entry m root va)
  ∧ (∀ p x i, T !! p = Some x → 0 <= i < 512 → load64 m' (p + 8 * i) = load64 m (p + 8 * i)).
Proof using RL.
  intros I Hs HP Hd.
  assert (Hall : ∀ p x i, T !! p = Some x → 0 <= i < 512 → load64 m' (p + 8 * i) = load64 m (p + 8 * i)).
  { intros p [l pre] i Hp Hi. assert (p ∈ dom T) by by eapply elem_of_dom_2.
    eapply load64_same_off; [done|done| | |done]; [by eapply (pt_page _ _ _ I)|].
    intros Hq. by eapply elem_of_disjoint. }
  assert (Hint : interior_same T m m') by (intros p l pre i Hp Hi; by eapply Hall).
  split; [by eapply pt_ok_ext|]. split; [intros; by eapply slot_ext|]. split; [|done].
  intros va Hva. unfold entry. rewrite (slot_ext _ _ _ _ _ I Hint Hva).
  destruct (slot m root va) as [a|] eqn:Ha; [|done].
  destruct (slot_table _ _ _ _ _ I Hva Ha) as (q & Hq & ->). eapply Hall; [done|by apply px_range].
Qed.

(** Writing the slot of a virtual page. *)
Lemma write_slot m root T va a v :
  pt_ok m root T → 0 <= va < MAXVA → slot m root va = Some a → 0 <= v < 2 ^ 64 →
  pt_ok (store64 m a v) root T
  ∧ (∀ va', 0 <= va' < MAXVA → slot (store64 m a v) root va' = slot m root va')
  ∧ (∀ va', 0 <= va' < MAXVA → entry (store64 m a v) root va' =
       if va' / 4096 =? va / 4096 then v else entry m root va').
Proof using RL.
  intros I Hva Ha Hv. destruct (slot_table _ _ _ _ _ I Hva Ha) as (q & Hq & ->).
  destruct (pt_page _ _ _ I _ _ _ Hq) as [Hpq _]. pose proof (px_range 0 va Hva) as Hpx.
  set (m' := store64 m (q + 8 * PX 0 va) v).
  assert (Hint : interior_same T m m').
  { intros p l pre i Hp Hi. apply load64_store64_other.
    destruct (slots_disjoint p q i (PX 0 va)); try done; [by eapply pt_page| |lia|lia].
    intros E. simplify_eq. }
  split; [by eapply pt_ok_ext|]. split; [intros; by eapply slot_ext|].
  intros va' Hva'. unfold entry. rewrite (slot_ext _ _ _ _ _ I Hint Hva').
  destruct (Z.eqb_spec (va' / 4096) (va / 4096)) as [E|E].
  - assert (slot m root va' = Some (q + 8 * PX 0 va)) as ->.
    { rewrite <- Ha. unfold slot. cbn. by rewrite !(px_page _ _ _ Hva' Hva E). }
    by apply load64_store64_same.
  - destruct (slot m root va') as [a'|] eqn:Ha'; [|done].
    destruct (slot_table _ _ _ _ _ I Hva' Ha') as (q' & Hq' & ->).
    apply load64_store64_other.
    destruct (slots_disjoint q' q (PX 0 va') (PX 0 va)) as [?|?]; try done; try lia.
    + by eapply pt_page.
    + by apply px_range.
    + intros E'. simplify_eq. apply E. by apply above_px_inj.
Qed.

Lemma slot_at_zero m l p va a :
  0 <= va < MAXVA → (∀ i, 0 <= i < 512 → load64 m (p + 8 * i) = 0) →
  slot_at m l p va = Some a → load64 m a = 0.
Proof using RL.
  intros Hva Hz Ha. destruct l as [|l]; cbn [slot_at] in Ha.
  - injection Ha as <-. by apply Hz, px_range.
  - rewrite Hz, has_0 in Ha by (by apply px_range). done.
Qed.

(** Linking a fresh, zeroed page [p] as the missing table of [va] below [q]. *)
Section add_table.
Context (m : mem) (root : Z) (T : tables) (va : Z) (l : nat) (p q : Z).
Context (I : pt_ok m root T) (Hva : 0 <= va < MAXVA).
Context (Hq : T !! q = Some (S l, above (S l) va)) (Hp : is_page p) (Hfresh : T !! p = None).
Context (Hzero : ∀ i, 0 <= i < 512 → load64 m (p + 8 * i) = 0).
Context (Hinv : has (load64 m (q + 8 * PX (S l) va)) PTE_V = false).
Notation m2 := (store64 m (q + 8 * PX (S l) va) (Z.lor (PA2PTE p) PTE_V)).
Notation T' := (<[p := (l, above l va)]> T).

Lemma add_other r i :
  is_page r → 0 <= i < 512 → (r, i) ≠ (q, PX (S l) va) →
  load64 m2 (r + 8 * i) = load64 m (r + 8 * i).
Proof using All.
  intros Hr Hi Hne. apply load64_store64_other.
  destruct (slots_disjoint r q i (PX (S l) va)); try done; try lia.
  - by eapply pt_page.
  - by apply px_range.
Qed.
Lemma add_slot : load64 m2 (q + 8 * PX (S l) va) = Z.lor (PA2PTE p) PTE_V.
Proof using All. by apply load64_store64_same, kid_range. Qed.
Lemma add_pq : p ≠ q.
Proof using All. intros ->. congruence. Qed.
Lemma add_in_p i : 0 <= i < 512 → load64 m2 (p + 8 * i) = 0.
Proof using All.
  intros Hi. rewrite add_other; [by apply Hzero|done|done|]. pose proof add_pq. congruence.
Qed.

Lemma add_table_ok : pt_ok m2 root T'.
Proof using All.
  assert (Hlift : ∀ r x, T !! r = Some x → T' !! r = Some x).
  { intros r x Hr. rewrite lookup_insert_ne; [done|]. intros <-. congruence. }
  constructor.
  - apply Hlift, I.
  - intros r l' pre Hr. apply lookup_insert_Some in Hr as [[<- E]|[_ Hr]]; [|by eapply (pt_page _ _ _ I)].
    injection E as <- <-. split; [done|]. pose proof (proj2 (pt_page _ _ _ I _ _ _ Hq)). lia.
  - intros r l' pre Hr. apply lookup_insert_Some in Hr as [[<- E]|[_ Hr]]; [|by eapply (pt_bound _ _ _ I)].
    injection E as <- <-. unfold above. pose proof (Z.pow_pos_nonneg 2 (12 + 9 * (Z.of_nat l + 1)) ltac:(lia) ltac:(lia)).
    split; [apply Z.div_pos; lia|]. pose proof (Z.mul_div_le va (2 ^ (12 + 9 * (Z.of_nat l + 1)))). lia.
  - intros r l' pre i Hr Hi Hv. apply lookup_insert_Some in Hr as [[<- E]|[Hne Hr]].
    + by rewrite add_in_p, has_0 in Hv by done.
    + destruct (decide ((r, i) = (q, PX (S l) va))) as [E|Hs].
      * injection E as -> ->. rewrite Hq in Hr. injection Hr as <- <-. exists p. rewrite add_slot. split; [|done].
        rewrite lookup_insert_eq. f_equal. f_equal. by apply above_S.
      * rewrite add_other in Hv |- *; [|by eapply pt_page|done|done|by eapply pt_page|done|done].
        destruct (pt_child _ _ _ I r l' pre i Hr Hi Hv) as (k & Hk & E). exists k. auto.
  - intros r l' pre Hr Hne. apply lookup_insert_Some in Hr as [[<- E]|[_ Hr]].
    + injection E as <- <-. exists q. pose proof (px_range (S l) va Hva). pose proof (above_S l va Hva).
      assert (above l va / 512 = above (S l) va ∧ above l va mod 512 = PX (S l) va) as [-> ->]
        by (Z.to_euclidean_division_equations; lia).
      split; [by apply Hlift|]. apply add_slot.
    + destruct (pt_parent _ _ _ I _ _ _ Hr Hne) as (k & Hk & E). exists k. split; [by apply Hlift|].
      rewrite <- E. apply add_other; [by eapply pt_page|apply Z.mod_pos_bound; lia|].
      intros [= -> Hi]. rewrite Hi in E. rewrite E, kid_valid in Hinv; [done|by eapply pt_page].
Qed.

(** No address changes its entry. *)
Lemma add_slot_at va' k r :
  0 <= va' < MAXVA → T !! r = Some (k, above k va') →
  slot_at m2 k r va' = slot_at m k r va'
  ∨ (slot_at m k r va' = None ∧ ∀ a, slot_at m2 k r va' = Some a → load64 m2 a = 0).
Proof using All.
  intros Hva'. revert r. induction k as [|k IH]; intros r Hr; [by left|]. cbn [slot_at].
  pose proof (px_range (S k) va' Hva') as Hpx.
  destruct (decide ((r, PX (S k) va') = (q, PX (S l) va))) as [[= -> E]|Hne].
  - assert (k = l) as -> by congruence. right. rewrite E, Hinv. split; [done|].
    rewrite add_slot, kid_valid, kid_pa by done. intros a Ha.
    eapply slot_at_zero; [done| |exact Ha]. apply add_in_p.
  - rewrite add_other; [|by eapply pt_page|done|done].
    destruct (has (load64 m (r + 8 * PX (S k) va')) PTE_V) eqn:Hv; [|by left].
    destruct (pt_child _ _ _ I r k _ _ Hr Hpx Hv) as (c & Hc & E).
    rewrite E, kid_pa by (by eapply pt_page). apply IH. by rewrite (above_S k va').
Qed.
Lemma add_entry va' : 0 <= va' < MAXVA → entry m2 root va' = entry m root va'.
Proof using All.
  intros Hva'. unfold entry, slot.
  destruct (add_slot_at va' 2 root Hva') as [E|[E H]]; [rewrite above_root by done; apply I|..].
  - rewrite E. destruct (slot_at m 2 root va') as [a|] eqn:Ha; [|done].
    destruct (slot_table _ _ _ _ _ I Hva' Ha) as (r & Hr & ->).
    apply add_other; [by eapply pt_page|by apply px_range|]. intros [= -> _]. congruence.
  - rewrite E. destruct (slot_at m2 2 root va') as [a|]; [|done]. by apply H.
Qed.
End add_table.

(** ** Lemmas: the allocator's calls *)

Lemma same_off_refl P m : same_off P m m.
Proof. done. Qed.
Lemma same_off_trans P Q m1 m2 m3 : same_off P m1 m2 → same_off Q m2 m3 → same_off (P ∪ Q) m1 m3.
Proof.
  intros H1 H2 x Hx. rewrite H2, H1; [done|..]; intros q Hq; apply Hx; set_solver.
Qed.
Lemma same_off_mono P Q m1 m2 : P ⊆ Q → same_off P m1 m2 → same_off Q m1 m2.
Proof. intros HPQ H x Hx. apply H. intros q Hq. apply Hx. set_solver. Qed.
Lemma same_off_memset (P : gset Z) m p c n : p ∈ P → n <= 4096 → same_off P m (memset m p c n).
Proof.
  intros Hp Hn x Hx. apply memset_other. specialize (Hx p Hp). unfold in_page in Hx. lia.
Qed.
Lemma same_off_memmove (P : gset Z) m p off src n :
  p ∈ P → 0 <= off → off + n <= 4096 → same_off P m (memmove m (p + off) src n).
Proof.
  intros Hp Ho Hn x Hx. apply memmove_other. specialize (Hx p Hp). unfold in_page in Hx. lia.
Qed.
Lemma same_off_store (P : gset Z) m p i v :
  p ∈ P → 0 <= i < 512 → same_off P m (store64 m (p + 8 * i) v).
Proof.
  intros Hp Hi x Hx. apply store64_other. specialize (Hx p Hp). unfold in_page in Hx. lia.
Qed.
(** Two changes in a row, within one set of pages. *)
Lemma same_off_seq P m1 m2 m3 : same_off P m1 m2 → same_off P m2 m3 → same_off P m1 m3.
Proof. intros H1 H2 x Hx. by rewrite H2, H1. Qed.

Lemma free_pages s q : q ∈ free (alloc s) → is_page q.
Proof. apply free_page. Qed.

Lemma kalloc_wp s (Q : Z → vst → Prop) :
  (free (alloc s) = ∅ → Q 0 s) →
  (∀ p s', p ∈ free (alloc s) → is_page p → p ≠ 0 → free (alloc s') = free (alloc s) ∖ {[p]} →
     same_off (free (alloc s)) (vmem s) (vmem s') → Q p s') →
  wp kalloc Q s.
Proof.
  intros H0 H1. unfold wp, kalloc. destruct (decide (free (alloc s) = ∅)) as [He|He].
  - rewrite kalloc_none by done. destruct s. by apply H0.
  - destruct (kalloc_some (alloc s) (vmem s) He) as (p & a' & m' & E & Hp & Hf & Hm). rewrite E.
    apply H1; try done; [by eapply free_page|]. apply free_page in Hp as (_ & ? & _). lia.
Qed.
Lemma kfree_wp s p (Q : unit → vst → Prop) :
  is_page p → p ∉ free (alloc s) →
  (∀ s', free (alloc s') = {[p]} ∪ free (alloc s) →
     same_off ({[p]} ∪ free (alloc s)) (vmem s) (vmem s') → Q tt s') →
  wp (kfree p) Q s.
Proof.
  intros Hp Hn H. unfold wp, kfree.
  destruct (kfree_page (alloc s) (vmem s) p Hp Hn) as (a' & m' & E & Hf & Hm). rewrite E.
  apply H; cbn; [done|]. by rewrite <- Hf.
Qed.

(** ** Lemmas: walk *)

Lemma walk_down_noalloc l p va s :
  walk_down l p va false s = Done (default 0 (slot_at (vmem s) l p va)) s.
Proof.
  revert p. induction l as [|l IH]; intros p; [done|]. cbn [walk_down slot_at]. unfold read64. run.
  destruct (has _ _); [apply IH|done].
Qed.
Lemma walk_noalloc root va s :
  va < MAXVA → walk root va false s = Done (default 0 (slot (vmem s) root va)) s.
Proof. intros Hva. unfold walk. rewrite (proj2 (Z.leb_gt _ _)) by done. apply walk_down_noalloc. Qed.

Lemma pt_frame_refl root s T : pt_inv s root T → pt_frame root s T s T.
Proof. intros I. constructor; try done. set_solver. Qed.
Lemma pt_grow_refl root s T : pt_inv s root T → pt_grow root s T s T.
Proof. intros I. constructor; [by apply pt_frame_refl|done]. Qed.
Lemma pt_frame_trans root s1 T1 s2 T2 s3 T3 :
  pt_frame root s1 T1 s2 T2 → pt_frame root s2 T2 s3 T3 → pt_frame root s1 T1 s3 T3.
Proof.
  intros [A1 A2 A3 A4 A5 A6] [B1 B2 B3 B4 B5 B6]. constructor.
  - by etransitivity.
  - done.
  - by etransitivity.
  - rewrite B4, A4. apply set_eq. intros x. rewrite !elem_of_union, !elem_of_difference.
    specialize (A3 x). specialize (B3 x). destruct (decide (x ∈ free (alloc s2))); naive_solver.
  - eapply same_off_seq; [exact A5|]. eapply same_off_mono; [|exact B5]. rewrite A4. set_solver.
  - intros p l pre i Hp Hi Hv. rewrite (B6 p l pre i), (A6 p l pre i); try done.
    + by eapply lookup_weaken.
    + by rewrite (A6 p l pre i).
Qed.
Lemma pt_grow_trans root s1 T1 s2 T2 s3 T3 :
  pt_grow root s1 T1 s2 T2 → pt_grow root s2 T2 s3 T3 → pt_grow root s1 T1 s3 T3.
Proof.
  intros [A A7] [B B7]. constructor; [by eapply pt_frame_trans|].
  intros va Hva. by rewrite B7, A7.
Qed.

(** One missing table is added. *)
Lemma pt_grow_table root s s1 T va l q p :
  pt_inv s root T → 0 <= va < MAXVA → T !! q = Some (S l, above (S l) va) →
  has (load64 (vmem s) (q + 8 * PX (S l) va)) PTE_V = false →
  p ∈ free (alloc s) → free (alloc s1) = free (alloc s) ∖ {[p]} →
  same_off (free (alloc s)) (vmem s) (vmem s1) →
  let m1 := memset (vmem s1) p x00 4096 in
  let m2 := store64 m1 (q + 8 * PX (S l) va) (Z.lor (PA2PTE p) PTE_V) in
  pt_grow root s T (set_vmem m2 s1) (<[p := (l, above l va)]> T)
  ∧ load64 m2 (q + 8 * PX (S l) va) = Z.lor (PA2PTE p) PTE_V.
Proof.
  intros [I D] Hva Hq Hinv Hp Hf Hm m1 m2.
  assert (HpT : p ∉ dom T) by set_solver.
  assert (Hfresh : T !! p = None) by by apply not_elem_of_dom.
  assert (Hpp : is_page p) by by eapply free_page.
  assert (Hoff : same_off (free (alloc s)) (vmem s) m1).
  { eapply same_off_seq; [exact Hm|]. by apply same_off_memset. }
  destruct (table_same _ _ _ _ _ I Hoff (free_pages s) D) as (I1 & _ & He1 & Hl1).
  pose proof (px_range (S l) va Hva) as Hpx.
  assert (Hzero : ∀ i, 0 <= i < 512 → load64 m1 (p + 8 * i) = 0) by (intros; apply load64_memset0; lia).
  assert (Hinv1 : has (load64 m1 (q + 8 * PX (S l) va)) PTE_V = false) by (by erewrite Hl1).
  assert (HqT : q ∈ dom T) by by eapply elem_of_dom_2.
  split; [|by eapply add_slot]. constructor; [constructor|].
  - by apply insert_subseteq.
  - split; [by eapply add_table_ok|]. cbn. rewrite dom_insert_L, Hf. set_solver.
  - cbn. rewrite Hf. set_solver.
  - cbn. rewrite dom_insert_L, Hf. apply set_eq. intros x. destruct (decide (x = p)); set_solver.
  - cbn. eapply same_off_seq; [|by apply same_off_store; [apply elem_of_union_l, HqT|]].
    eapply same_off_mono; [|exact Hoff]. set_solver.
  - intros r l' pre i Hr Hi Hv. cbn. unfold m2.
    rewrite (add_other m1 root T va l p q I1 Hva Hq Hpp Hfresh Hzero Hinv1 r i).
    + by eapply Hl1.
    + by eapply pt_page.
    + done.
    + intros [= -> ->]. congruence.
  - intros va' Hva'. cbn. unfold m2. rewrite <- He1 by done. by eapply add_entry.
Qed.

Lemma adds_for_refl P T : adds_for P T T.
Proof. intros q l pre Hq. by left. Qed.
Lemma adds_for_trans P T1 T2 T3 : adds_for P T1 T2 → adds_for P T2 T3 → adds_for P T1 T3.
Proof. intros H1 H2 q l pre Hq. destruct (H2 _ _ _ Hq) as [?|?]; [by apply H1|by right]. Qed.
Lemma adds_for_mono (P Q : Z → Prop) T1 T2 : (∀ va, P va → Q va) → adds_for P T1 T2 → adds_for Q T1 T2.
Proof. intros HPQ H q l pre Hq. destruct (H _ _ _ Hq) as [?|(va & ? & ?)]; eauto. Qed.
Lemma adds_for_insert m root T q va l p : pt_ok m root T → T !! q = Some (S l, above (S l) va) →
  adds_for (eq va) T (<[p := (l, above l va)]> T).
Proof.
  intros I Hq r l' pre Hr. apply lookup_insert_Some in Hr as [[_ E]|[_ ?]]; [right|by left].
  injection E as <- <-. exists va. pose proof (pt_page _ _ _ I _ _ _ Hq). split_and!; (done || lia).
Qed.

Lemma walk_down_alloc root va l p s T :
  pt_inv s root T → 0 <= va < MAXVA → T !! p = Some (l, above l va) →
  wp (walk_down l p va true) (λ a s', ∃ T', pt_grow root s T s' T' ∧ adds_for (eq va) T T' ∧
     (a = 0 ∧ free (alloc s') = ∅ ∨ slot_at (vmem s') l p va = Some a)) s.
Proof.
  intros I Hva. revert p s T I. induction l as [|l IH]; intros p s T I Hp.
  { apply wp_ret. exists T. split; [by apply pt_grow_refl|]. split; [apply adds_for_refl|by right]. }
  cbn [walk_down]. apply wp_bind, wp_gets. pose proof (px_range (S l) va Hva) as Hpx.
  destruct (has (load64 (vmem s) (p + 8 * PX (S l) va)) PTE_V) eqn:Hv.
  - destruct (pt_child _ _ _ (proj1 I) p l _ _ Hp Hpx Hv) as (q & Hq & E).
    assert (Hqp : is_page q) by (by eapply (pt_page _ _ _ (proj1 I))).
    rewrite E, kid_pa by done. eapply wp_mono; [apply (IH q s T I)|].
    { by rewrite (above_S l va). }
    intros a s' (T' & Hg & Hn & Ha). exists T'. split; [done|]. split; [done|].
    destruct Ha as [?|Ha]; [by left|right].
    cbn [slot_at]. rewrite (pg_kids _ _ _ _ _ Hg p l _ _ Hp Hpx Hv), E, kid_valid, kid_pa by done. done.
  - cbn [negb]. apply wp_bind, kalloc_wp.
    + intros He. cbn. exists T. split; [by apply pt_grow_refl|]. split; [apply adds_for_refl|by left].
    + intros q s1 Hqf Hqp Hq0 Hf Hm. rewrite (proj2 (Z.eqb_neq q 0)) by done.
      rewrite pgsize_4096. apply wp_bind, wp_modify. apply wp_bind, wp_modify.
      destruct (pt_grow_table root s s1 T va l p q I Hva Hp Hv Hqf Hf Hm) as [Hg Hld].
      cbn [vmem set_vmem]. eapply wp_mono; [apply IH; [by apply Hg|]|].
      { by rewrite lookup_insert_eq. }
      intros a s' (T' & Hg' & Hn & Ha). exists T'. split; [by eapply pt_grow_trans|].
      split; [eapply adds_for_trans; [by eapply adds_for_insert; [apply I|]|exact Hn]|].
      destruct Ha as [?|Ha]; [by left|right]. cbn [slot_at].
      rewrite (pg_kids _ _ _ _ _ Hg' p l (above (S l) va) (PX (S l) va));
        [|eapply lookup_weaken; [exact Hp|by apply Hg]|done|].
      * cbn [vmem set_vmem]. rewrite Hld, kid_valid, kid_pa by done. done.
      * cbn [vmem set_vmem]. by rewrite Hld, kid_valid.
Qed.

Lemma walk_alloc_adds root va s T :
  pt_inv s root T → 0 <= va < MAXVA →
  wp (walk root va true) (λ a s', ∃ T', pt_grow root s T s' T' ∧ adds_for (eq va) T T' ∧
     (a = 0 ∧ free (alloc s') = ∅ ∨ a ≠ 0 ∧ slot (vmem s') root va = Some a)) s.
Proof.
  intros I Hva. unfold walk. rewrite (proj2 (Z.leb_gt _ _)) by lia.
  eapply wp_mono; [apply (walk_down_alloc root va 2 root s T I Hva)|].
  { rewrite above_root by done. apply I. }
  intros a s' (T' & Hg & Hn & Ha). exists T'. split; [done|]. split; [done|].
  destruct Ha as [?|Ha]; [by left|right]. split; [|done]. eapply slot_nonzero; [|done|exact Ha]. apply Hg.
Qed.
Lemma walk_alloc root va s T :
  pt_inv s root T → 0 <= va < MAXVA →
  wp (walk root va true) (λ a s', ∃ T', pt_grow root s T s' T' ∧
     (a = 0 ∧ free (alloc s') = ∅ ∨ a ≠ 0 ∧ slot (vmem s') root va = Some a)) s.
Proof.
  intros I Hva. eapply wp_mono; [by apply walk_alloc_adds|]. intros a s' (T' & Hg & _ & Ha). by exists T'.
Qed.

(** The entry a present slot holds. *)
Lemma entry_slot m root va a : slot m root va = Some a → entry m root va = load64 m a.
Proof. unfold entry. by intros ->. Qed.
Lemma entry_valid_slot m root va f : has (entry m root va) f = true → ∃ a, slot m root va = Some a.
Proof. unfold entry. destruct (slot m root va); [eauto|]. by rewrite has_0. Qed.

(** Writing a present entry. *)
Lemma pt_frame_write root s T va a v :
  pt_inv s root T → 0 <= va < MAXVA → slot (vmem s) root va = Some a → 0 <= v < 2 ^ 64 →
  pt_frame root s T (set_vmem (store64 (vmem s) a v) s) T
  ∧ (∀ va', 0 <= va' < MAXVA → slot (store64 (vmem s) a v) root va' = slot (vmem s) root va')
  ∧ ∀ va', 0 <= va' < MAXVA → entry (store64 (vmem s) a v) root va' =
      if va' / 4096 =? va / 4096 then v else entry (vmem s) root va'.
Proof.
  intros [I D] Hva Ha Hv. destruct (write_slot _ _ _ _ _ v I Hva Ha Hv) as (I' & Hs & He).
  split; [|done]. destruct (slot_table _ _ _ _ _ I Hva Ha) as (q & Hq & ->).
  pose proof (px_range 0 va Hva) as Hpx. constructor; cbn; try done; [set_solver| |].
  - apply same_off_store; [|done]. apply elem_of_union_l. by eapply elem_of_dom_2.
  - intros p l pre i Hp Hi _. apply load64_store64_other.
    destruct (slots_disjoint p q i (PX 0 va)); try done; try lia.
    + by eapply (pt_page _ _ _ I).
    + by eapply (pt_page _ _ _ I).
    + intros E. simplify_eq.
Qed.
End page_table.
