(* ===== verification/Mappings.v ===== *)
(** walkaddr, mappages and uvmunmap of vm.c (Lab3): their effect on the
    entries of a page table. *)
From S2P Require Import Prelude Riscv Vm PageTable.

Section mappings.
Context {R : Riscv} {L : Allocator} {RL : RiscvLaws R} {AL : AllocatorLaws L}.
Implicit Types (m : mem) (T : tables) (s : vst).

(** ** Lemmas: walkaddr *)

(** The physical address of the user page of [va], 0 when there is none. *)
Definition upage m root va : Z :=
  let e := entry m root va in
  if has e PTE_V && has e PTE_U then PTE2PA e else 0.

Lemma walkaddr_run root va s T :
  pt_inv s root T → 0 <= va →
  walkaddr root va s = Done (if MAXVA <=? va then 0 else upage (vmem s) root va) s.
Proof.
  intros [I _] Hva. unfold walkaddr. destruct (Z.leb_spec MAXVA va) as [?|Hlt]; [done|].
  erewrite bind_done by by apply walk_noalloc. unfold upage, entry.
  destruct (slot (vmem s) root va) as [a|] eqn:Ha; cbn [default id].
  - pose proof (slot_nonzero _ _ _ _ _ I (conj Hva Hlt) Ha) as Hne.
    rewrite (proj2 (Z.eqb_neq _ _)) by done. unfold read64. run.
    destruct (has _ PTE_V), (has _ PTE_U); done.
  - rewrite Z.eqb_refl, !has_0. done.
Qed.

(** ** Lemmas: mappages *)

Lemma page_plus a : a mod 4096 = 0 → (a + 4096) mod 4096 = 0.
Proof. intros. Z.to_euclidean_division_equations; lia. Qed.

(** The entries after mapping the pages of [a, stop) to those from [pa]. *)
Definition mapped (a stop pa perm : Z) (e : Z → Z) (va : Z) : Z :=
  if (a <=? va) && (va <? stop) then mk_pte (pa + (va / 4096 * 4096 - a)) perm else e va.

Lemma mapped_in a stop pa perm e va : a <= va < stop → mapped a stop pa perm e va = mk_pte (pa + (va / 4096 * 4096 - a)) perm.
Proof. intros H. unfold mapped. by rewrite (proj2 (Z.leb_le _ _)), (proj2 (Z.ltb_lt _ _)) by lia. Qed.
Lemma mapped_out a stop pa perm e va : va < a ∨ stop <= va → mapped a stop pa perm e va = e va.
Proof. intros H. unfold mapped. zcases; done. Qed.

Lemma mappages_loop_adds root last perm fuel a pa s T :
  pt_inv s root T → a mod 4096 = 0 → last mod 4096 = 0 → 0 <= a <= last → last < MAXVA →
  (Z.to_nat ((last - a) / 4096) < fuel)%nat → 0 <= perm < 1024 →
  (∀ k, 0 <= k <= (last - a) / 4096 → is_page (pa + k * 4096)) →
  (∀ va, a <= va < last + 4096 → has (entry (vmem s) root va) PTE_V = false) →
  wp (mappages_loop fuel root a last pa perm) (λ r s', ∃ T' stop,
     pt_frame root s T s' T' ∧ adds_for (λ va, a <= va < last + 4096) T T'
     ∧ (r = 0 ∧ stop = last + 4096 ∨ r = -1 ∧ a <= stop <= last ∧ stop mod 4096 = 0 ∧ free (alloc s') = ∅)
     ∧ ∀ va, 0 <= va < MAXVA →
         entry (vmem s') root va = mapped a stop pa perm (entry (vmem s) root) va) s.
Proof.
  revert a pa s T. induction fuel as [|fuel IH]; intros a pa s T I Ha Hl Hal Hlm Hf Hperm Hpa Hfree; [lia|].
  cbn [mappages_loop]. assert (Hava : 0 <= a < MAXVA) by lia.
  wp_seq (walk_alloc_adds root a s T I Hava). intros sl s1 (T1 & Hg & Hn0 & Hsl).
  assert (Hn : adds_for (λ va, a <= va < last + 4096) T T1) by (revert Hn0; apply adds_for_mono; intros ? <-; lia).
  destruct Hsl as [[-> He]|[Hne Hsl]].
  { cbn. exists T1, a. split; [apply Hg|]. split; [done|]. split; [right; split_and!; (done || lia)|].
    intros va Hva. rewrite mapped_out by lia. by apply Hg. }
  rewrite (proj2 (Z.eqb_neq _ _)) by done. apply wp_bind, wp_gets.
  assert (Hv : has (load64 (vmem s1) sl) PTE_V = false).
  { rewrite <- (entry_slot _ root a _ Hsl), (pg_entry _ _ _ _ _ Hg) by done. apply Hfree. lia. }
  rewrite Hv. apply wp_bind, wp_modify.
  assert (Hpa0 : is_page pa) by (specialize (Hpa 0); rewrite Z.mul_0_l, Z.add_0_r in Hpa; apply Hpa; Z.to_euclidean_division_equations; lia).
  assert (Hr : 0 <= mk_pte pa perm < 2 ^ 64) by (pose proof (mk_pte_range pa perm Hpa0 Hperm); lia).
  destruct (pt_frame_write root s1 T1 a sl (mk_pte pa perm) (pg_inv _ _ _ _ _ Hg) Hava Hsl Hr)
    as (Hw & _ & He). fold (mk_pte pa perm).
  set (s2 := set_vmem (store64 (vmem s1) sl (mk_pte pa perm)) s1) in *.
  assert (He2 : ∀ va, 0 <= va < MAXVA →
    entry (vmem s2) root va = mapped a (a + 4096) pa perm (entry (vmem s) root) va).
  { intros va Hva. unfold s2. cbn [vmem set_vmem]. rewrite He by done. unfold mapped.
    rewrite (pg_entry _ _ _ _ _ Hg) by done.
    destruct (Z.eqb_spec (va / 4096) (a / 4096)) as [E|E].
    - assert (va / 4096 * 4096 = a) as -> by (Z.to_euclidean_division_equations; lia).
      rewrite (proj2 (Z.leb_le _ _)), (proj2 (Z.ltb_lt _ _)) by (Z.to_euclidean_division_equations; lia).
      by rewrite Z.sub_diag, Z.add_0_r.
    - zcases; try done. exfalso. Z.to_euclidean_division_equations; lia. }
  assert (Hfr : pt_frame root s T s2 T1) by (eapply pt_frame_trans; [apply Hg|exact Hw]).
  destruct (Z.eqb_spec a last) as [->|Hnl].
  { apply wp_ret. exists T1, (last + 4096). auto 6. }
  assert (Hstep : a + 4096 <= last) by (Z.to_euclidean_division_equations; lia).
  pose proof maxva_range. pose proof maxva_page.
  assert (last + 4096 <= MAXVA) by (Z.to_euclidean_division_equations; lia).
  rewrite pgsize_4096, (u64_small (a + 4096)) by lia.
  assert (Hpa1 : is_page (pa + 4096)) by (specialize (Hpa 1); rewrite Z.mul_1_l in Hpa; apply Hpa; Z.to_euclidean_division_equations; lia).
  rewrite (u64_small (pa + 4096)) by (destruct Hpa1 as (_ & ? & ?); lia).
  eapply wp_mono; [apply (IH (a + 4096) (pa + 4096) s2 T1)|]; try done; try lia.
  - apply Hfr.
  - by apply page_plus.
  - Z.to_euclidean_division_equations; lia.
  - intros k Hk. replace (pa + 4096 + k * 4096) with (pa + (k + 1) * 4096) by lia.
    apply Hpa. Z.to_euclidean_division_equations; lia.
  - intros va Hva. rewrite He2 by lia. rewrite mapped_out by lia. apply Hfree. lia.
  - intros r s' (T' & stop & Hfr' & Hn' & Hor & He'). exists T', stop.
    split; [by eapply pt_frame_trans|].
    split; [eapply adds_for_trans; [exact Hn|]; revert Hn'; apply adds_for_mono; intros; lia|]. split; [destruct Hor as [?|(? & ? & ?)]; [by left|right; split_and!; (done || lia || tauto)]|].
    assert (a + 4096 <= stop) by (destruct Hor as [[_ ->]|(_ & ? & _)]; lia).
    intros va Hva. rewrite He' by done. unfold mapped. rewrite He2 by done. unfold mapped.
    zcases; try done. f_equal. lia.
Qed.

Lemma mappages_loop_wp root last perm fuel a pa s T :
  pt_inv s root T → a mod 4096 = 0 → last mod 4096 = 0 → 0 <= a <= last → last < MAXVA →
  (Z.to_nat ((last - a) / 4096) < fuel)%nat → 0 <= perm < 1024 →
  (∀ k, 0 <= k <= (last - a) / 4096 → is_page (pa + k * 4096)) →
  (∀ va, a <= va < last + 4096 → has (entry (vmem s) root va) PTE_V = false) →
  wp (mappages_loop fuel root a last pa perm) (λ r s', ∃ T' stop,
     pt_frame root s T s' T'
     ∧ (r = 0 ∧ stop = last + 4096 ∨ r = -1 ∧ a <= stop <= last ∧ stop mod 4096 = 0 ∧ free (alloc s') = ∅)
     ∧ ∀ va, 0 <= va < MAXVA →
         entry (vmem s') root va = mapped a stop pa perm (entry (vmem s) root) va) s.
Proof.
  intros. eapply wp_mono; [by apply mappages_loop_adds|].
  intros r s' (T' & stop & Hfr & _ & H'). exists T', stop. tauto.
Qed.

(** The call with its arguments checked and rounded. *)
Lemma mappages_run root va size pa perm s : 0 <= va → 0 < size → va + size <= MAXVA →
  let first := va / 4096 * 4096 in let last := (va + size - 1) / 4096 * 4096 in
  mappages root va size pa perm s =
    mappages_loop (S (Z.to_nat ((last - first) / 4096))) root first last pa perm s.
Proof.
  intros Hva Hsize Hmax first last. pose proof maxva_range.
  assert (first <= last) by (unfold first, last; Z.to_euclidean_division_equations; lia).
  unfold mappages. rewrite (proj2 (Z.eqb_neq size 0)) by lia.
  rewrite !pgrounddown_def, u64_small by (try apply u64_range; lia). fold first last.
  by rewrite (proj2 (Z.leb_le first last)), pgsize_4096 by lia.
Qed.

(** Whole pages. *)
Lemma mappages_wp root va size pa perm s T :
  pt_inv s root T → va mod 4096 = 0 → size mod 4096 = 0 → 0 <= va → 0 < size → va + size <= MAXVA → 0 <= perm < 1024 →
  (∀ k, 0 <= k < size / 4096 → is_page (pa + k * 4096)) →
  (∀ va', va <= va' < va + size → has (entry (vmem s) root va') PTE_V = false) →
  wp (mappages root va size pa perm) (λ r s', ∃ T' stop,
     pt_frame root s T s' T' ∧ adds_for (λ va', va <= va' < va + size) T T'
     ∧ (r = 0 ∧ stop = va + size ∨ r = -1 ∧ free (alloc s') = ∅)
     ∧ ∀ va', 0 <= va' < MAXVA → entry (vmem s') root va' = mapped va stop pa perm (entry (vmem s) root) va') s.
Proof.
  intros I Hva Hsz H0 Hpos Hm Hperm Hpa Hfree. set (last := va + size - 4096).
  assert (Hargs : va / 4096 * 4096 = va ∧ (va + size - 1) / 4096 * 4096 = last ∧ va <= last ∧ last mod 4096 = 0
    ∧ (last - va) / 4096 + 1 = size / 4096)
    by (unfold last; Z.to_euclidean_division_equations; lia).
  destruct Hargs as (E1 & E2 & Hle & Hlm & Hq). unfold wp. rewrite mappages_run by done. cbv zeta. rewrite E1, E2.
  assert (El : va + size = last + 4096) by (unfold last; lia).
  eapply wp_mono; [apply (mappages_loop_adds root last perm _ va pa s T)|]; try done; try lia.
  - intros k Hk. apply Hpa. lia.
  - intros va' Hva'. apply Hfree. lia.
  - intros r s' (T' & stop & Hfr & Hn & Hor & He). exists T', stop. rewrite El. tauto.
Qed.

(** A page of the range that is already mapped: the call does not answer 0. *)
Lemma mappages_loop_remap root last perm fuel a pa s T va :
  pt_inv s root T → a mod 4096 = 0 → last mod 4096 = 0 → 0 <= a <= last → last < MAXVA →
  (Z.to_nat ((last - a) / 4096) < fuel)%nat → 0 <= perm < 1024 →
  (∀ k, 0 <= k <= (last - a) / 4096 → is_page (pa + k * 4096)) →
  a <= va < last + 4096 → has (entry (vmem s) root va) PTE_V = true →
  mappages_loop fuel root a last pa perm s = Panic "mappages: remap"
  ∨ ∃ s', mappages_loop fuel root a last pa perm s = Done (-1) s'.
Proof.
  revert a pa s T. induction fuel as [|fuel IH]; intros a pa s T I Ha Hl Hal Hlm Hf Hperm Hpa Hva Hv; [lia|].
  cbn [mappages_loop]. assert (Hava : 0 <= a < MAXVA) by lia.
  destruct (proj1 (wp_done _ _ _) (walk_alloc root a s T I Hava)) as (sl & s1 & E & T1 & Hg & Hsl).
  rewrite (bind_done _ _ _ _ _ E). destruct Hsl as [[-> _]|[Hne Hsl]]; [right; by eexists|].
  rewrite (proj2 (Z.eqb_neq _ _)) by done. unfold read64, write64. autorewrite with run.
  destruct (has (load64 (vmem s1) sl) PTE_V) eqn:Hvs; [by left|]. autorewrite with run.
  pose proof maxva_range. pose proof maxva_page.
  assert (last + 4096 <= MAXVA) by (Z.to_euclidean_division_equations; lia).
  assert (Hpg : va / 4096 ≠ a / 4096).
  { intros Epg. rewrite <- (entry_slot _ root a _ Hsl), (pg_entry _ _ _ _ _ Hg) in Hvs by done.
    assert (entry (vmem s) root a = entry (vmem s) root va) as Ee; [|congruence].
    unfold entry, slot. cbn. by rewrite !(px_page _ a va) by (done || lia). }
  assert (a + 4096 <= va) by (Z.to_euclidean_division_equations; lia).
  assert (a + 4096 <= last) by (Z.to_euclidean_division_equations; lia).
  rewrite (proj2 (Z.eqb_neq a last)) by lia.
  assert (Hpk : ∀ k, 0 <= k <= (last - (a + 4096)) / 4096 → is_page (pa + 4096 + k * 4096)).
  { intros k Hk. replace (pa + 4096 + k * 4096) with (pa + (k + 1) * 4096) by lia.
    apply Hpa. Z.to_euclidean_division_equations; lia. }
  assert (Hq0 : 0 <= (last - (a + 4096)) / 4096) by (apply Z.div_pos; lia).
  assert (Hpa0 : is_page pa).
  { specialize (Hpa 0). rewrite Z.mul_0_l, Z.add_0_r in Hpa. apply Hpa. Z.to_euclidean_division_equations; lia. }
  assert (Hpa1 : is_page (pa + 4096)) by (specialize (Hpk 0); rewrite Z.mul_0_l, Z.add_0_r in Hpk; apply Hpk; lia).
  assert (Hr : 0 <= mk_pte pa perm < 2 ^ 64) by (pose proof (mk_pte_range pa perm Hpa0 Hperm); lia).
  destruct (pt_frame_write root s1 T1 a sl (mk_pte pa perm) (pg_inv _ _ _ _ _ Hg) Hava Hsl Hr) as (Hw & _ & He).
  fold (mk_pte pa perm). rewrite pgsize_4096, (u64_small (a + 4096)), (u64_small (pa + 4096)) by (lia || destruct Hpa1 as (_ & ? & ?); lia).
  apply (IH (a + 4096) (pa + 4096) _ T1); try done; try lia.
  - apply Hw.
  - by apply page_plus.
  - Z.to_euclidean_division_equations; lia.
  - cbn [vmem set_vmem]. rewrite He, (proj2 (Z.eqb_neq _ _)), (pg_entry _ _ _ _ _ Hg) by (done || lia). done.
Qed.

(** ** Lemmas: uvmunmap *)

(** The pages the entries of [a, stop) point to. *)
Definition pages_of m root (a stop p : Z) : Prop :=
  ∃ va, a <= va < stop ∧ p = PTE2PA (entry m root va).

(** Freeing those pages is possible: they are distinct, and neither free nor tables. *)
Definition freeable s root T (a stop : Z) : Prop :=
  (∀ va, a <= va < stop → let p := PTE2PA (entry (vmem s) root va) in
     is_page p ∧ p ∉ free (alloc s) ∧ p ∉ dom T)
  ∧ ∀ va va', a <= va < stop → a <= va' < stop →
      PTE2PA (entry (vmem s) root va) = PTE2PA (entry (vmem s) root va') → va / 4096 = va' / 4096.

Lemma entry_page m root va va' : 0 <= va < MAXVA → 0 <= va' < MAXVA → va / 4096 = va' / 4096 →
  entry m root va = entry m root va'.
Proof. intros H H' E. unfold entry, slot. cbn. by rewrite !(px_page _ va va'). Qed.

Lemma uvmunmap_loop_wp root stop do_free fuel a s T :
  pt_inv s root T → a mod 4096 = 0 → stop mod 4096 = 0 → 0 <= a <= stop → stop <= MAXVA →
  (Z.to_nat ((stop - a) / 4096) < fuel)%nat →
  (∀ va, a <= va < stop → has (entry (vmem s) root va) PTE_V = true
                         ∧ PTE_FLAGS (entry (vmem s) root va) ≠ PTE_V) →
  (do_free = true → freeable s root T a stop) →
  wp (uvmunmap_loop fuel root a stop do_free) (λ _ s', pt_inv s' root T
     ∧ (∀ p, p ∈ free (alloc s') ↔ p ∈ free (alloc s) ∨ do_free = true ∧ pages_of (vmem s) root a stop p)
     ∧ same_off (dom T ∪ free (alloc s')) (vmem s) (vmem s')
     ∧ ∀ va, 0 <= va < MAXVA →
         entry (vmem s') root va = if (a <=? va) && (va <? stop) then 0 else entry (vmem s) root va) s.
Proof.
  revert a s. induction fuel as [|fuel IH]; intros a s I Ha Hst Hr Hm Hf Hv Hfree; [lia|].
  cbn [uvmunmap_loop]. destruct (Z.ltb_spec a stop) as [Hlt|Hge].
  2:{ apply wp_ret. split; [done|]. split; [|split; [done|]].
      - intros p. split; [by left|]. intros [?|[_ (va & ? & _)]]; [done|lia].
      - intros va Hva. zcases; done. }
  assert (Hava : 0 <= a < MAXVA) by lia.
  eapply wp_bind_done; [apply walk_noalloc; lia|].
  destruct (Hv a ltac:(lia)) as [Hva Hfl]. destruct (entry_valid_slot _ _ _ _ Hva) as [sl Hsl].
  rewrite Hsl. cbn [default id]. rewrite (proj2 (Z.eqb_neq _ _)) by (eapply slot_nonzero; [apply I|done|done]).
  apply wp_bind, wp_gets. cbv beta. rewrite <- (entry_slot _ _ _ _ Hsl), Hva. cbn [negb].
  rewrite (proj2 (Z.eqb_neq _ _)) by done.
  assert (Hstop : a + 4096 <= stop) by (Z.to_euclidean_division_equations; lia).
  set (p := PTE2PA (entry (vmem s) root a)).
  (* the state after the page is freed *)
  apply wp_bind. eapply (wp_mono _ (λ _ s1,
    (∀ q, q ∈ free (alloc s1) ↔ q ∈ free (alloc s) ∨ do_free = true ∧ q = p)
    ∧ same_off (free (alloc s1)) (vmem s) (vmem s1) ∧ dom T ## free (alloc s1)
    ∧ (∀ q, q ∈ free (alloc s1) → is_page q))).
  { destruct I as [_ D]. destruct do_free.
    - destruct (proj1 (Hfree eq_refl) a ltac:(lia)) as (Hp & Hnf & HnT). fold p in Hp, Hnf, HnT.
      apply kfree_wp; [done|done|]. intros s1 Hf1 Hm1. split.
      { intros q. rewrite Hf1, elem_of_union, elem_of_singleton. clear. intuition. }
      split; [by rewrite Hf1|]. split; [rewrite Hf1; clear -D HnT; set_solver|]. intros q. apply free_pages.
    - apply wp_ret. split; [intros q; clear; intuition discriminate|]. split; [done|]. split; [done|]. intros q. apply free_pages. }
  intros [] s1 (Hf1 & Hm1 & Hd1 & Hp1).
  destruct (table_same _ _ _ _ _ (proj1 I) Hm1 Hp1 Hd1) as (I1 & Hs1 & He1 & _).
  apply wp_bind, wp_modify.
  assert (Hsl1 : slot (vmem s1) root a = Some sl) by by rewrite Hs1.
  destruct (pt_frame_write root s1 T a sl 0 (conj I1 Hd1) Hava Hsl1 ltac:(lia)) as (Hw & _ & He2).
  set (s2 := set_vmem (store64 (vmem s1) sl 0) s1) in *.
  assert (Hent : ∀ va, 0 <= va < MAXVA → entry (vmem s2) root va =
    if va / 4096 =? a / 4096 then 0 else entry (vmem s) root va).
  { intros va Hva0. unfold s2. cbn [vmem set_vmem]. rewrite He2, He1 by done. done. }
  assert (Hfar : ∀ va, a + 4096 <= va < stop → entry (vmem s2) root va = entry (vmem s) root va).
  { intros va Hva0. rewrite Hent, (proj2 (Z.eqb_neq _ _)) by (Z.to_euclidean_division_equations; lia). done. }
  pose proof maxva_range. rewrite pgsize_4096, (u64_small (a + 4096)) by lia.
  eapply wp_mono; [apply (IH (a + 4096) s2)|]; try done; try lia.
  - apply Hw.
  - by apply page_plus.
  - Z.to_euclidean_division_equations; lia.
  - intros va Hva0. rewrite Hfar by lia. apply Hv. lia.
  - intros ->. destruct (Hfree eq_refl) as [HF1 HF2]. split.
    + intros va Hva0. rewrite Hfar by lia. destruct (HF1 va ltac:(lia)) as (? & Hnf & ?).
      split_and!; [done| |done]. cbn [alloc s2 set_vmem]. unfold s2. cbn. rewrite Hf1.
      intros [?|[_ E]]; [done|]. specialize (HF2 va a ltac:(lia) ltac:(lia) E).
      Z.to_euclidean_division_equations; lia.
    + intros va va' Hva0 Hva1. rewrite !Hfar by lia. apply HF2; lia.
  - intros [] s' (I' & Hf' & Hm' & He'). split; [done|]. split; [|split].
    + intros q. rewrite Hf'. unfold s2 at 1. cbn [alloc set_vmem]. rewrite Hf1.
      split.
      * intros [[?|[? ->]]|[? (va & Hva0 & ->)]]; [by left|right|right]; (split; [done|]).
        -- exists a. split; [lia|done].
        -- exists va. rewrite Hfar by lia. split; [lia|done].
      * intros [?|[? (va & Hva0 & ->)]]; [by left; left|].
        destruct (Z.ltb_spec va (a + 4096)) as [?|?].
        -- left; right. split; [done|]. unfold p. f_equal. apply entry_page; try lia. Z.to_euclidean_division_equations; lia.
        -- right. split; [done|]. exists va. rewrite Hfar by lia. split; [lia|done].
    + eapply same_off_seq; [|exact Hm']. eapply same_off_seq.
      * eapply same_off_mono; [|exact Hm1]. intros q Hq. rewrite elem_of_union, Hf'. by right; left.
      * destruct (slot_table _ _ _ _ _ I1 Hava Hsl1) as (q & Hq & Eq). subst sl. unfold s2. cbn [vmem set_vmem].
        apply same_off_store; [|by apply px_range]. apply elem_of_union_l. by eapply elem_of_dom_2.
    + intros va Hva0. rewrite He', Hent by done.
      destruct (Z.eqb_spec (va / 4096) (a / 4096)); zcases; try done; exfalso; Z.to_euclidean_division_equations; lia.
Qed.

(** A zeroed page is an empty table. *)
Lemma empty_table m root :
  is_page root → (∀ i, 0 <= i < 512 → load64 m (root + 8 * i) = 0) →
  pt_ok m root {[root := (2%nat, 0)]} ∧ ∀ va, 0 <= va < MAXVA → entry m root va = 0.
Proof.
  intros Hr Hz. split.
  - constructor.
    + apply lookup_singleton_eq.
    + intros p l pre Hp. apply lookup_singleton_Some in Hp as [<- E]. injection E as <- <-. auto.
    + intros p l pre Hp. apply lookup_singleton_Some in Hp as [<- E]. injection E as <- <-.
      pose proof maxva_range. lia.
    + intros p l pre i Hp Hi Hv. apply lookup_singleton_Some in Hp as [<- _]. by rewrite Hz, has_0 in Hv.
    + intros q l pre Hq Hne. by apply lookup_singleton_Some in Hq as [<- _].
  - intros va Hva. unfold entry. destruct (slot m root va) as [a|] eqn:Ha; [|done].
    by apply (slot_at_zero m 2 root va a Hva Hz).
Qed.
End mappings.

(** Eight free pages and an empty table, for evaluating the operations. *)
Definition sample_root : Z := 0x10000.
Definition sample_vst : @vst page_stack :=
  @Vst page_stack (λ _, x00) [0x20000; 0x21000; 0x22000; 0x23000; 0x24000; 0x25000; 0x26000; 0x27000].
Definition sample_T : tables := {[sample_root := (2%nat, 0)]}.

Lemma zero_load64 a : load64 (λ _, x00) a = 0.
Proof. reflexivity. Qed.
Lemma sample_inv : @pt_inv sv39 page_stack sample_vst sample_root sample_T.
Proof.
  split.
  - apply (@empty_table sv39 sv39_laws); [by split|]. intros. apply zero_load64.
  - unfold sample_T. rewrite dom_singleton_L. rewrite disjoint_singleton_l.
    cbn [sample_vst alloc free page_stack]. rewrite elem_of_list_to_set, list.list_elem_of_filter.
    intros [_ H]. repeat (apply elem_of_cons in H as [H|H]; [discriminate H|]). by apply elem_of_nil in H.
Qed.
Lemma sample_entry va : 0 <= va < 2 ^ 38 → @entry sv39 (@vmem page_stack sample_vst) sample_root va = 0.
Proof.
  apply (@empty_table sv39 sv39_laws); [by split|]. intros. apply zero_load64.
Qed.

(** ** Properties *)

(** C18.  walk: an address at or above MAXVA panics; without allocation it
    answers the slot of the address, or 0 when a level is missing, and changes
    nothing; with allocation it answers the slot, having taken free pages for
    the missing levels and changed no entry, or 0 when no free page is left. *)
Theorem walk_spec `{R : Riscv, L : Allocator} {RL : RiscvLaws R} {AL : AllocatorLaws L}
  (root va : Z) (s : vst) (T : tables) (I : pt_inv s root T) (Hva : 0 <= va) :
  (MAXVA <= va → ∀ b, walk root va b s = Panic "walk")
  ∧ (va < MAXVA → walk root va false s = Done (default 0 (slot (vmem s) root va)) s)
  ∧ (va < MAXVA → ∃ a s' T', walk root va true s = Done a s' ∧ pt_grow root s T s' T'
       ∧ (a = 0 ∧ free (alloc s') = ∅ ∨ a ≠ 0 ∧ slot (vmem s') root va = Some a)).
Proof.
  split; [|split].
  - intros Hm b. unfold walk. by rewrite (proj2 (Z.leb_le _ _)).
  - apply walk_noalloc.
  - intros Hm. destruct (proj1 (wp_done _ _ _) (walk_alloc root va s T I (conj Hva Hm))) as (a & s' & E & T' & H).
    exists a, s', T'. tauto.
Qed.

Lemma walk_spec_witness :
  ∃ a s', @walk sv39 page_stack sample_root 0x1000 true sample_vst = Done a s' ∧ a = 0x21008.
Proof.
  destruct (@walk_spec sv39 page_stack sv39_laws page_stack_laws sample_root 0x1000 sample_vst sample_T
    sample_inv ltac:(discriminate)) as (_ & _ & H).
  destruct (H eq_refl) as (a & s' & T' & E & _ & _). exists a, s'. split; [exact E|].
  assert (Hv : value (@walk sv39 page_stack sample_root 0x1000 true sample_vst) = Some 0x21008) by reflexivity.
  rewrite E in Hv. injection Hv. auto.
Defined.

(** C19.  mappages maps the pages of [va, va+size) one by one to those from
    [pa], and answers 0; when memory for a table runs out it answers -1 and
    has mapped a prefix; a page that was already mapped is never overwritten:
    the call panics (or answers -1 before it gets there). *)
Theorem mappages_spec `{R : Riscv, L : Allocator} {RL : RiscvLaws R} {AL : AllocatorLaws L}
  (root va size pa perm : Z) (s : vst) (T : tables) (I : pt_inv s root T)
  (Hva : 0 <= va) (Hsize : 0 < size) (Hmax : va + size <= MAXVA) (Hperm : 0 <= perm < 1024)
  (Hpa : ∀ k, 0 <= k <= (va + size - 1) / 4096 - va / 4096 → is_page (pa + k * 4096)) :
  let first := va / 4096 * 4096 in
  let stop := ((va + size - 1) / 4096 + 1) * 4096 in
  ((∀ va', first <= va' < stop → has (entry (vmem s) root va') PTE_V = false) →
     ∃ r s' T' stop', mappages root va size pa perm s = Done r s'
       ∧ pt_frame root s T s' T'
       ∧ (r = 0 ∧ stop' = stop ∨ r = -1 ∧ first <= stop' < stop ∧ free (alloc s') = ∅)
       ∧ ∀ va', 0 <= va' < MAXVA →
           entry (vmem s') root va' = mapped first stop' pa perm (entry (vmem s) root) va')
  ∧ (∀ va', first <= va' < stop → has (entry (vmem s) root va') PTE_V = true →
       mappages root va size pa perm s = Panic "mappages: remap"
       ∨ ∃ s', mappages root va size pa perm s = Done (-1) s')
  ∧ mappages root va 0 pa perm s = Panic "mappages: size".
Proof.
  intros first stop. pose proof maxva_range.
  set (last := (va + size - 1) / 4096 * 4096).
  assert (Hargs : first mod 4096 = 0 ∧ last mod 4096 = 0 ∧ 0 <= first <= last ∧ last < MAXVA
    ∧ stop = last + 4096 ∧ (last - first) / 4096 = (va + size - 1) / 4096 - va / 4096)
    by (unfold first, last, stop; Z.to_euclidean_division_equations; lia).
  destruct Hargs as (Hfm & Hlm & Hfl & Hlast & Hstop & Hdiff).
  pose proof (mappages_run root va size pa perm s Hva Hsize Hmax) as E. cbv zeta in E. fold first last in E.
  rewrite <- Hdiff in Hpa. split; [|split].
  - intros Hfree.
    destruct (proj1 (wp_done _ _ _) (mappages_loop_wp root last perm
      (S (Z.to_nat ((last - first) / 4096))) first pa s T I Hfm Hlm Hfl Hlast ltac:(lia) Hperm Hpa
      ltac:(rewrite <- Hstop; exact Hfree))) as (r & s' & E' & T' & stop' & Hfr & Hor & He).
    exists r, s', T', stop'. rewrite E. split_and!; try done.
    rewrite Hstop. destruct Hor as [?|(? & ? & ? & ?)]; [by left|right; split_and!; (done || lia)].
  - intros va' Hva' Hv. rewrite E. eapply mappages_loop_remap; try done; try lia.
  - unfold mappages. done.
Qed.

Lemma mappages_spec_witness :
  ∃ r s', @mappages sv39 page_stack sample_root 0x1000 0x1000 0x30000 6 sample_vst = Done r s' ∧ r = 0
    ∧ @entry sv39 (@vmem page_stack s') sample_root 0x1000 = 0x30 * 1024 + 7.
Proof.
  destruct (@mappages_spec sv39 page_stack sv39_laws page_stack_laws sample_root 0x1000 0x1000 0x30000 6
    sample_vst sample_T sample_inv) as [H _]; try lia.
  - discriminate.
  - intros k Hk. assert (k = 0) as ->; [|by split]. change ((0x1000 + 0x1000 - 1) / 4096 - 0x1000 / 4096) with 0 in Hk. lia.
  - destruct H as (r & s' & T' & stop' & E & _ & Hor & He).
    + intros va' Hva'. rewrite sample_entry; [reflexivity|].
      change (4096 <= va' < 8192) in Hva'. lia.
    + assert (Hv : value (@mappages sv39 page_stack sample_root 0x1000 0x1000 0x30000 6 sample_vst) = Some 0)
        by reflexivity.
      rewrite E in Hv. injection Hv as ->.
      destruct Hor as [[_ ->]|[? _]]; [|discriminate].
      exists 0, s'. split; [exact E|]. split; [reflexivity|].
      rewrite He; [reflexivity|]. change (0 <= 0x1000 < 2 ^ 38). lia.
Defined.
