(* ===== verification/KernelTable.v ===== *)
(** The kernel's own page table (vm.c of Lab3): kvminit builds it with kvmmake
    and proc_mapstacks, kvminithart turns it on.  The table is described by a
    list of regions: six fixed ones and a stack for each process. *)
From S2P Require Import Prelude Riscv Vm PageTable Mappings.

(** ** Definitions *)

(** riscv.h: the value of the satp register for a page table. *)
Class Satp := { MAKE_SATP : Z → Z }.

(** What a hart is told: sfence_vma and w_satp, in their order. *)
Inductive hart_event := SfenceVma | WSatp (v : Z).

(** The memory, the global [kernel_pagetable], and the hart. *)
Record kvm `{Allocator} := Kvm { kvst : vst; kernel_pagetable : Z; hart : list hart_event }.

Section defs.
Context {R : Riscv} {L : Allocator} {KL : Layout} {SA : Satp}.

Definition kvminit : M kvm unit := λ k,
  match kvmmake (kvst k) with
  | Done r s => Done tt (Kvm _ s r (hart k))
  | Panic w => Panic w
  | OutOfFuel => OutOfFuel
  end.
Definition hart_do (e : hart_event) : M kvm unit :=
  modify (λ k, Kvm _ (kvst k) (kernel_pagetable k) (hart k ++ [e])).
Definition kvminithart : M kvm unit :=
  hart_do SfenceVma;;
  root ← gets kernel_pagetable;
  hart_do (WSatp (MAKE_SATP root));;
  hart_do SfenceVma.

(** *** The specification: a table as a list of regions *)
Record region := Region { r_va : Z; r_size : Z; r_pa : Z; r_perm : Z }.
Definition span (r : region) : Z * Z := (r_va r, r_va r + r_size r).
Definition inside (va : Z) (sp : Z * Z) : Prop := sp.1 <= va < sp.2.
Definition apart (sp sp' : Z * Z) : Prop := sp.2 <= sp'.1 ∨ sp'.2 <= sp.1.

Definition fixed_regions : list region :=
  [ Region UART0 PGSIZE UART0 (Z.lor PTE_R PTE_W);
    Region VIRTIO0 PGSIZE VIRTIO0 (Z.lor PTE_R PTE_W);
    Region PLIC 0x400000 PLIC (Z.lor PTE_R PTE_W);
    Region KERNBASE (etext - KERNBASE) KERNBASE (Z.lor PTE_R PTE_X);
    Region etext (PHYSTOP - etext) etext (Z.lor PTE_R PTE_W);
    Region TRAMPOLINE PGSIZE trampoline (Z.lor PTE_R PTE_X) ].
(** The page [pa] as the kernel stack of slot [i]. *)
Definition stack_region (i : nat) (pa : Z) : region := Region (KSTACK i) PGSIZE pa (Z.lor PTE_R PTE_W).
Definition kernel_regions (pas : list Z) : list region := fixed_regions ++ imap stack_region pas.

(** The entry of [va] in a table of these regions; 0 outside of them. *)
Fixpoint entry_of (rs : list region) (va : Z) : Z :=
  match rs with
  | [] => 0
  | r :: rs' =>
      if decide (inside va (span r)) then mk_pte (r_pa r + (va / 4096 * 4096 - r_va r)) (r_perm r)
      else entry_of rs' va
  end.

(** Whole pages, of addresses that exist. *)
Definition span_ok (sp : Z * Z) : Prop :=
  sp.1 mod 4096 = 0 ∧ sp.2 mod 4096 = 0 ∧ 0 <= sp.1 < sp.2 ∧ sp.2 <= MAXVA.
Definition region_ok (r : region) : Prop :=
  span_ok (span r) ∧ 0 <= r_perm r < 1024 ∧ is_page (r_pa r) ∧ is_page (r_pa r + r_size r - 4096).

(** No two of the spans meet. *)
Fixpoint separate (sps : list (Z * Z)) : Prop :=
  match sps with [] => True | sp :: sps' => Forall (apart sp) sps' ∧ separate sps' end.
Definition stack_span (i : nat) : Z * Z := (KSTACK i, KSTACK i + PGSIZE).
Definition kernel_spans : list (Z * Z) := (span <$> fixed_regions) ++ (stack_span <$> seq 0 64).

(** The tables that serve a span, by level and high part of the addresses;
    those that serve the kernel, but for the root. *)
Definition keys_at (sp : Z * Z) (l : nat) : list (nat * Z) :=
  (λ x, (l, x)) <$> seqZ (above l sp.1) (above l (sp.2 - 1) - above l sp.1 + 1).
Definition span_keys (sp : Z * Z) : list (nat * Z) := keys_at sp 0 ++ keys_at sp 1.
Definition kernel_keys : gset (nat * Z) := list_to_set (kernel_spans ≫= span_keys).
End defs.

(** What memlayout.h and the linker script provide. *)
Class LayoutLaws (R : Riscv) (KL : Layout) : Prop := {
  regions_ok : Forall region_ok fixed_regions;
  stacks_ok : Forall span_ok (stack_span <$> seq 0 64);
  spans_separate : separate kernel_spans }.

#[export] Instance inside_dec va sp : Decision (inside va sp).
Proof. unfold inside. apply _. Defined.
#[export] Instance apart_dec sp sp' : Decision (apart sp sp').
Proof. unfold apart. apply _. Defined.
#[export] Instance span_ok_dec `{Riscv} sp : Decision (span_ok sp).
Proof. unfold span_ok. apply _. Defined.
#[export] Instance region_ok_dec `{Riscv} r : Decision (region_ok r).
Proof. unfold region_ok. apply _. Defined.
#[export] Instance separate_dec sps : Decision (separate sps).
Proof. induction sps as [|sp sps IH]; cbn [separate]; apply _. Defined.

Section keys.
Context {R : Riscv} {RL : RiscvLaws R}.
Implicit Types (m : mem) (T : tables) (rs : list region).

(** ** Lemmas: the number of tables *)

(** The root is the only table of its level. *)
Lemma root_only m root T p pre : pt_ok m root T → T !! p = Some (2%nat, pre) → p = root.
Proof.
  intros I Hp. destruct (decide (p = root)) as [?|Hne]; [done|].
  destruct (pt_parent _ _ _ I _ _ _ Hp Hne) as (q & Hq & _). destruct (pt_page _ _ _ I _ _ _ Hq). lia.
Qed.
(** No two tables serve the same addresses at the same level. *)
Lemma table_key_inj m root T l pre p q :
  pt_ok m root T → T !! p = Some (l, pre) → T !! q = Some (l, pre) → p = q.
Proof.
  intros I. remember (2 - l)%nat as d eqn:Hd. revert l pre p q Hd.
  induction d as [|d IH]; intros l pre p q Hd Hp Hq; pose proof (pt_page _ _ _ I _ _ _ Hp) as [Hpp Hl].
  { assert (l = 2%nat) as -> by lia. by rewrite (root_only _ _ _ _ _ I Hp), (root_only _ _ _ _ _ I Hq). }
  assert (Hnr : ∀ x, T !! x = Some (l, pre) → x ≠ root).
  { intros x Hx ->. rewrite (pt_root _ _ _ I) in Hx. simplify_eq. }
  destruct (pt_parent _ _ _ I _ _ _ Hp (Hnr _ Hp)) as (p' & Hp' & Ep).
  destruct (pt_parent _ _ _ I _ _ _ Hq (Hnr _ Hq)) as (q' & Hq' & Eq).
  rewrite (IH (S l) (pre / 512) p' q' ltac:(lia) Hp' Hq') in Ep.
  rewrite <- (kid_pa p), <- (kid_pa q) by (done || by eapply (pt_page _ _ _ I)). congruence.
Qed.

(** So there are no more tables than there are keys for them. *)
Lemma tables_size m (root : Z) T (K : gset (nat * Z)) :
  pt_ok m root T → (∀ q k, T !! q = Some k → k = (2%nat, 0) ∨ k ∈ K) → (size (dom T) <= S (size K))%nat.
Proof.
  intros I HK. set (ks := (map_to_list T).*2).
  assert (Hnd : NoDup ks).
  { unfold ks. apply NoDup_fmap_2_strong; [|apply NoDup_map_to_list].
    intros [p [l pre]] [q k] Hp%elem_of_map_to_list Hq%elem_of_map_to_list E. cbn in E. subst k.
    by rewrite (table_key_inj _ _ _ _ _ _ _ I Hp Hq). }
  rewrite size_dom, <- length_map_to_list, <- (length_fmap snd). fold ks.
  rewrite <- (size_list_to_set (C := gset (nat * Z)) ks Hnd).
  transitivity (size ({[(2%nat, 0%Z)]} ∪ K)).
  - apply subseteq_size. intros k Hk%elem_of_list_to_set. unfold ks in Hk.
    apply list.list_elem_of_fmap in Hk as ([q k'] & -> & Hq%elem_of_map_to_list). cbn.
    destruct (HK _ _ Hq) as [->|?]; set_solver.
  - rewrite size_union_alt, size_singleton. cut (size (K ∖ {[(2%nat, 0%Z)]}) <= size K)%nat; [lia|].
    apply subseteq_size. set_solver.
Qed.

Lemma above_mono l va va' : va <= va' → above l va <= above l va'.
Proof. intros H. unfold above. apply Z.div_le_mono; [apply Z.pow_pos_nonneg; lia|done]. Qed.
Lemma key_of va sp l : inside va sp → (l <= 1)%nat → (l, above l va) ∈ span_keys sp.
Proof.
  intros [H1 H2] Hl. unfold span_keys. apply elem_of_app.
  pose proof (above_mono l _ _ H1). pose proof (above_mono l va (sp.2 - 1) ltac:(lia)).
  destruct l as [|[|l]]; [left|right|lia]; apply list.list_elem_of_fmap; eexists; (split; [done|]);
    apply elem_of_seqZ; lia.
Qed.

(** ** Lemmas: regions *)

Lemma separate_app sps sp sps' : separate (sps ++ sp :: sps') → Forall (λ x, apart x sp) sps.
Proof.
  induction sps as [|x sps IH]; [done|]. cbn. intros [Hx H]. constructor; [|by apply IH].
  rewrite Forall_app, Forall_cons in Hx. tauto.
Qed.
Lemma entry_of_none rs va : Forall (λ sp, ¬ inside va sp) (span <$> rs) → entry_of rs va = 0.
Proof.
  induction rs as [|r rs IH]; [done|]. cbn. intros [Hr H]%Forall_cons. rewrite decide_False by done. by apply IH.
Qed.
Lemma entry_of_app rs r va : Forall (λ sp, apart sp (span r)) (span <$> rs) →
  entry_of (rs ++ [r]) va = if decide (inside va (span r)) then entry_of [r] va else entry_of rs va.
Proof.
  induction rs as [|r' rs IH]; cbn; intros Hap; [by destruct (decide _)|].
  apply Forall_cons in Hap as [Hr Hap]. rewrite (IH Hap).
  destruct (decide (inside va (span r'))) as [Hin|], (decide (inside va (span r))) as [Hin'|]; try done.
  - exfalso. unfold inside, apart in *. lia.
  - cbn. by rewrite decide_True.
Qed.
Lemma entry_of_inside rs r va : Forall (λ sp, apart sp (span r)) (span <$> rs) → inside va (span r) → entry_of rs va = 0.
Proof.
  intros Hap Hin. apply entry_of_none. eapply Forall_impl; [exact Hap|]. intros sp Hsp Hin'.
  unfold inside, apart in *. lia.
Qed.

(** The pages of a region. *)
Lemma region_page r k : region_ok r → 0 <= k < r_size r / 4096 → is_page (r_pa r + k * 4096).
Proof.
  intros ((H1 & H2 & ? & _) & _ & (? & ? & _) & (? & ? & ?)) Hk. cbn in *.
  unfold is_page. Z.to_euclidean_division_equations; lia.
Qed.
End keys.

Section build.
Context {R : Riscv} {L : Allocator} {KL : Layout} {RL : RiscvLaws R} {AL : AllocatorLaws L} {LL : LayoutLaws R KL}.
Implicit Types (m : mem) (T : tables) (s : vst) (rs : list region) (pas : list Z).

(** ** Lemmas: building the table *)

(** Of the pages [F] each is free, a table of [root] or one of the stacks [pas]. *)
Record accounted (F : gset Z) (root : Z) (pas : list Z) s T : Prop := {
  b_pt : pt_inv s root T;
  b_keys : ∀ q k, T !! q = Some k → k = (2%nat, 0) ∨ k ∈ kernel_keys;
  b_pages : F = free (alloc s) ∪ dom T ∪ list_to_set pas;
  b_stacks : NoDup pas ∧ Forall is_page pas;
  b_apart : ∀ p, p ∈ pas → p ∉ free (alloc s) ∧ p ∉ dom T }.
(** ... and the table has the regions [rs] and nothing else. *)
Definition built F root rs pas s : Prop := ∃ T, accounted F root pas s T
  ∧ ∀ va, 0 <= va < MAXVA → entry (vmem s) root va = entry_of rs va.

(** The pages kvmmake can take, and one to spare. *)
Definition enough (F : gset Z) : Prop := (66 + size kernel_keys < size F)%nat.

Lemma accounted_room F root pas s T :
  accounted F root pas s T → enough F → (length pas <= 64)%nat → free (alloc s) ≠ ∅.
Proof.
  intros B Hen Hlen E. pose proof (tables_size _ _ _ _ (proj1 (b_pt _ _ _ _ _ B)) (b_keys _ _ _ _ _ B)) as Ht.
  unfold enough in Hen. rewrite (b_pages _ _ _ _ _ B), E, union_empty_l_L in Hen.
  rewrite size_union_alt in Hen. cut (size (list_to_set pas ∖ dom T) <= length pas)%nat; [lia|].
  rewrite <- (size_list_to_set (C := gset Z) pas) by apply B. apply subseteq_size. set_solver.
Qed.

(** Mapping pages of a span of the kernel keeps the account. *)
Lemma accounted_frame F root pas sp s T s' T' :
  accounted F root pas s T → pt_frame root s T s' T' → sp ∈ kernel_spans → adds_for (λ va, sp.1 <= va < sp.2) T T' →
  accounted F root pas s' T'.
Proof.
  intros B Hfr Hsp Hn. pose proof (pg_free _ _ _ _ _ Hfr) as Hs. constructor.
  - apply Hfr.
  - intros q [l pre] [Hq|(va & Hva & Hl & ->)]%Hn; [by eapply (b_keys _ _ _ _ _ B)|right].
    apply elem_of_list_to_set, list.list_elem_of_bind. exists sp. split; [by apply key_of|done].
  - rewrite (b_pages _ _ _ _ _ B), (pg_dom _ _ _ _ _ Hfr). apply set_eq. intros x. specialize (Hs x).
    destruct (decide (x ∈ free (alloc s'))); set_solver.
  - apply B.
  - intros p Hp. destruct (b_apart _ _ _ _ _ B p Hp). rewrite (pg_dom _ _ _ _ _ Hfr). set_solver.
Qed.

Lemma kvmmap_wp F root rs pas r s :
  built F root rs pas s → enough F → (length pas <= 64)%nat →
  region_ok r → span r ∈ kernel_spans → Forall (λ sp, apart sp (span r)) (span <$> rs) →
  wp (kvmmap root (r_va r) (r_pa r) (r_size r) (r_perm r)) (λ _ s', built F root (rs ++ [r]) pas s') s.
Proof.
  intros (T & B & Hent) Hen Hlen Hr Hsp Hap.
  pose proof Hr as ((Hr1 & Hr2 & Hr3 & Hr4) & Hperm & _). cbn in Hr1, Hr2, Hr3, Hr4.
  unfold kvmmap. apply wp_bind. eapply wp_mono; [apply (mappages_wp root _ _ _ _ s T)|]; try (done || lia).
  - apply B.
  - Z.to_euclidean_division_equations; lia.
  - intros k. by apply region_page.
  - intros va Hva. rewrite Hent by lia. by rewrite (entry_of_inside _ r), has_0.
  - intros z s' (T' & stop & Hfr & Hn & Hor & He).
    pose proof (accounted_frame F root pas (span r) s T s' T' B Hfr Hsp Hn) as B'.
    destruct Hor as [[-> ->]|[-> Hnone]]; [|by destruct (accounted_room _ _ _ _ _ B' Hen Hlen)].
    apply wp_ret. exists T'. split; [done|]. intros va Hva. rewrite He, entry_of_app by done. unfold mapped.
    rewrite Hent by done. cbn. zcases; repeat case_decide; unfold inside in *; cbn in *; (done || lia).
Qed.

(** A page becomes a stack. *)
Lemma accounted_stack F root pas s T p s1 :
  accounted F root pas s T → p ∈ free (alloc s) → free (alloc s1) = free (alloc s) ∖ {[p]} →
  same_off (free (alloc s)) (vmem s) (vmem s1) →
  accounted F root (pas ++ [p]) s1 T ∧ ∀ va, 0 <= va < MAXVA → entry (vmem s1) root va = entry (vmem s) root va.
Proof.
  intros B Hp Hf Hm. destruct (b_pt _ _ _ _ _ B) as [I D].
  destruct (table_same _ _ _ _ _ I Hm (free_pages s) D) as (I1 & _ & He & _). split; [|done]. constructor.
  - split; [done|]. rewrite Hf. set_solver.
  - apply B.
  - rewrite (b_pages _ _ _ _ _ B), Hf, list_to_set_app_L. apply set_eq. intros x.
    destruct (decide (x = p)); set_solver.
  - destruct (b_stacks _ _ _ _ _ B) as [Hnd Hpg]. split.
    + apply NoDup_app. split; [done|]. split; [|apply NoDup_singleton].
      intros x Hx%(b_apart _ _ _ _ _ B). set_solver.
    + apply Forall_app. split; [done|]. constructor; [|done]. by eapply free_page.
  - intros x [Hx|Hx]%elem_of_app.
    + destruct (b_apart _ _ _ _ _ B x Hx). rewrite Hf. set_solver.
    + apply list_elem_of_singleton in Hx as ->. rewrite Hf. set_solver.
Qed.
(** ** Lemmas: kvmmake *)

Lemma kvmmap_next F root rs pas r rest s :
  built F root rs pas s → enough F → (length pas <= 64)%nat → region_ok r →
  kernel_spans = (span <$> rs) ++ span r :: rest →
  wp (kvmmap root (r_va r) (r_pa r) (r_size r) (r_perm r)) (λ _ s', built F root (rs ++ [r]) pas s') s.
Proof.
  intros B Hen Hlen Hr E. apply kvmmap_wp; try done.
  - rewrite E. apply elem_of_app. right. by left.
  - pose proof spans_separate as Hs. rewrite E in Hs. by apply separate_app in Hs.
Qed.

Lemma stack_spans pas : span <$> imap stack_region pas = stack_span <$> seq 0 (length pas).
Proof.
  induction pas as [|p pas IH] using rev_ind; [done|].
  rewrite imap_app, length_app, seq_app, !fmap_app, IH. cbn. by rewrite Nat.add_0_r.
Qed.
Lemma kernel_regions_snoc pas p : kernel_regions (pas ++ [p]) = kernel_regions pas ++ [stack_region (length pas) p].
Proof. unfold kernel_regions. rewrite imap_app, app_assoc. cbn. by rewrite Nat.add_0_r. Qed.
Lemma stack_region_ok i p : (i < 64)%nat → is_page p → region_ok (stack_region i p).
Proof.
  intros Hi Hp. unfold region_ok. cbn. rewrite pte_r_bit, pte_w_bit, pgsize_4096. replace (p + 4096 - 4096) with p by lia.
  split; [|by split_and!]. pose proof (proj1 (Forall_forall _ _) stacks_ok) as Hs.
  specialize (Hs (stack_span i)). unfold stack_span, span in *. cbn. rewrite pgsize_4096 in *. apply Hs.
  apply list.list_elem_of_fmap. exists i. split; [done|]. apply elem_of_seq. lia.
Qed.

Lemma proc_mapstacks_wp F root n i pas s :
  built F root (kernel_regions pas) pas s → enough F → length pas = i → (i + n = 64)%nat →
  wp (proc_mapstacks n i root) (λ _ s', ∃ pas', length pas' = 64%nat ∧ built F root (kernel_regions pas') pas' s') s.
Proof.
  revert i pas s. induction n as [|n IH]; intros i pas s (T & B & He) Hen Hi Hn; cbn [proc_mapstacks].
  { apply wp_ret. exists pas. split; [lia|by exists T]. }
  apply wp_bind, kalloc_wp.
  { intros Hf. by destruct (accounted_room _ _ _ _ _ B Hen ltac:(lia)). }
  intros p s1 Hp Hpp Hp0 Hf Hm. rewrite (proj2 (Z.eqb_neq p 0)) by done.
  destruct (accounted_stack _ _ _ _ _ _ _ B Hp Hf Hm) as [B1 He1].
  apply wp_bind. eapply wp_mono.
  { apply (kvmmap_next F root (kernel_regions pas) (pas ++ [p]) (stack_region i p) (stack_span <$> seq (S i) n) s1).
    - exists T. split; [done|]. intros va Hva. by rewrite He1, He.
    - done.
    - rewrite length_app. cbn. lia.
    - apply stack_region_ok; [lia|done].
    - unfold kernel_regions, kernel_spans. rewrite fmap_app, stack_spans, Hi, <- app_assoc. f_equal.
      replace 64%nat with (i + S n)%nat by lia. by rewrite seq_app, fmap_app. }
  intros [] s2 B2. apply (IH (S i) (pas ++ [p])); try done.
  - by rewrite kernel_regions_snoc, Hi.
  - rewrite length_app. cbn. lia.
  - lia.
Qed.

(** A fresh root. *)
Lemma built_root s p s1 : p ∈ free (alloc s) → is_page p → free (alloc s1) = free (alloc s) ∖ {[p]} →
  built (free (alloc s)) p [] [] (set_vmem (memset (vmem s1) p x00 PGSIZE) s1).
Proof.
  intros Hp Hpp Hf. destruct (empty_table (memset (vmem s1) p x00 PGSIZE) p Hpp) as [Ht He].
  { intros i Hi. apply load64_memset0; rewrite ?pgsize_4096; lia. }
  exists {[p := (2%nat, 0)]}. split; [|done]. constructor.
  - split; [exact Ht|]. cbn. rewrite dom_singleton_L, Hf. set_solver.
  - intros q k Hq. apply lookup_singleton_Some in Hq as [_ <-]. by left.
  - cbn. rewrite dom_singleton_L, Hf. apply set_eq. intros x. destruct (decide (x = p)); set_solver.
  - split; [apply NoDup_nil_2|done].
  - intros x Hx. by apply elem_of_nil in Hx.
Qed.

Lemma fixed_sizes : 0 < etext - KERNBASE < 2 ^ 64 ∧ 0 < PHYSTOP - etext < 2 ^ 64.
Proof.
  pose proof regions_ok as H. unfold fixed_regions in H. rewrite !Forall_cons in H.
  destruct H as (_ & _ & _ & (H1 & _) & (H2 & _) & _). pose proof maxva_range.
  destruct H1 as (_ & _ & ? & ?), H2 as (_ & _ & ? & ?). cbn in *. lia.
Qed.

Lemma kvmmake_wp s : enough (free (alloc s)) →
  wp kvmmake (λ root s', ∃ pas, length pas = 64%nat ∧ built (free (alloc s)) root (kernel_regions pas) pas s') s.
Proof.
  intros Hen. pose proof fixed_sizes as [Hs1 Hs2]. unfold kvmmake. rewrite !u64_small by lia.
  pose proof regions_ok as H. unfold fixed_regions in H. rewrite !Forall_cons in H.
  destruct H as (R1 & R2 & R3 & R4 & R5 & R6 & _).
  apply wp_bind, kalloc_wp.
  { intros E. unfold enough in Hen. rewrite E, size_empty in Hen. lia. }
  intros root s1 Hp Hpp _ Hf _. apply wp_bind, wp_modify.
  pose proof (built_root s root s1 Hp Hpp Hf) as B.
  do 6 (apply wp_bind; eapply wp_mono;
    [eapply (kvmmap_next _ _ _ _ (Region _ _ _ _)); [exact B|exact Hen|cbn; lia|assumption|reflexivity]
    |clear B; intros [] ? B]).
  apply wp_bind. eapply wp_mono; [by apply (proc_mapstacks_wp _ _ _ _ [] _ B)|].
  intros [] s9 Hs9. by apply wp_ret.
Qed.
(** ** Lemmas: what the table means *)

Lemma entry_of_at rs r va : separate (span <$> rs) → r ∈ rs → inside va (span r) →
  entry_of rs va = mk_pte (r_pa r + (va / 4096 * 4096 - r_va r)) (r_perm r).
Proof.
  intros Hs Hr Hin. induction rs as [|r' rs IH]; [by apply elem_of_nil in Hr|].
  cbn in *. destruct Hs as [Hap Hs]. apply elem_of_cons in Hr as [->|Hr]; [by rewrite decide_True|].
  rewrite decide_False; [by apply IH|].
  intros Hin'. assert (Hx : apart (span r') (span r)).
  { apply (proj1 (Forall_forall _ _) Hap). by apply list.list_elem_of_fmap_2. }
  unfold inside, apart in *. lia.
Qed.

Lemma kernel_regions_ok pas : length pas = 64%nat → Forall is_page pas → Forall region_ok (kernel_regions pas).
Proof.
  intros Hlen Hp. apply Forall_app. split; [apply regions_ok|]. apply Forall_lookup. intros i r Hr.
  rewrite list_lookup_imap in Hr. destruct (pas !! i) as [p|] eqn:E; [|done]. injection Hr as <-.
  apply stack_region_ok; [apply lookup_lt_Some in E; lia|]. by eapply Forall_lookup_1.
Qed.
Lemma kernel_regions_spans pas : length pas = 64%nat → span <$> kernel_regions pas = kernel_spans.
Proof. intros Hlen. unfold kernel_regions. by rewrite fmap_app, stack_spans, Hlen. Qed.
Lemma kernel_regions_perm pas r : r ∈ kernel_regions pas →
  r_perm r = Z.lor PTE_R PTE_W ∨ r_perm r = Z.lor PTE_R PTE_X.
Proof.
  intros [Hr|Hr]%elem_of_app; [set_solver|]. apply list_elem_of_lookup in Hr as [i Hr].
  rewrite list_lookup_imap in Hr. destruct (pas !! i); [|done]. injection Hr as <-. by left.
Qed.

(** The page of an address of a region. *)
Lemma region_at r va : region_ok r → inside va (span r) → is_page (r_pa r + (va / 4096 * 4096 - r_va r)).
Proof.
  intros Hr Hin. pose proof Hr as ((H1 & H2 & H3 & H4) & _). unfold inside in Hin. cbn in *.
  replace (va / 4096 * 4096 - r_va r) with ((va / 4096 - r_va r / 4096) * 4096)
    by (Z.to_euclidean_division_equations; lia).
  apply region_page; [done|]. Z.to_euclidean_division_equations; lia.
Qed.
End build.

(** ** Properties *)

(** C20.  kvminit and kvminithart: with enough free pages they return; the hart was
    given the new table between two fences; every address of a region of the
    kernel is mapped to its page with the region's flags, the physical memory
    to itself; every other address, such as one in the guard page that xv6 leaves
    under each stack, is unmapped; no page is open to user code, or both writable and executable;
    each page taken is a table or the stack of one slot, and nothing else. *)
Theorem kvminit_spec `{R : Riscv, L : Allocator, KL : Layout, SA : Satp} {RL : RiscvLaws R} {AL : AllocatorLaws L}
  {LL : LayoutLaws R KL} (k : kvm) (Hen : enough (free (alloc (kvst k)))) :
  ∃ root s' T pas, (kvminit;; kvminithart) k =
      Done tt (Kvm _ s' root (hart k ++ [SfenceVma; WSatp (MAKE_SATP root); SfenceVma]))
    ∧ pt_inv s' root T ∧ length pas = 64%nat
    ∧ (∀ r va, r ∈ kernel_regions pas → inside va (span r) →
         let e := entry (vmem s') root va in
         PTE2PA e = r_pa r + (va / 4096 * 4096 - r_va r) ∧ PTE_FLAGS e = Z.lor (r_perm r) PTE_V)
    ∧ (∀ va, 0 <= va < MAXVA → Forall (λ sp, ¬ inside va sp) kernel_spans → entry (vmem s') root va = 0)
    ∧ (∀ va, 0 <= va < MAXVA → let e := entry (vmem s') root va in
         has e PTE_U = false ∧ has e PTE_W && has e PTE_X = false)
    ∧ NoDup pas ∧ (∀ p, p ∈ pas → is_page p ∧ p ∉ free (alloc s') ∧ p ∉ dom T)
    ∧ free (alloc (kvst k)) = free (alloc s') ∪ dom T ∪ list_to_set pas.
Proof.
  destruct (proj1 (wp_done _ _ _) (kvmmake_wp (kvst k) Hen)) as (root & s' & E & pas & Hlen & T & B & He).
  destruct (b_stacks _ _ _ _ _ B) as [Hnd Hpp]. pose proof (kernel_regions_ok pas Hlen Hpp) as Hok.
  pose proof (kernel_regions_spans pas Hlen) as Hsp.
  assert (Hat : ∀ r va, r ∈ kernel_regions pas → inside va (span r) → region_ok r ∧ 0 <= va < MAXVA ∧
    entry (vmem s') root va = mk_pte (r_pa r + (va / 4096 * 4096 - r_va r)) (r_perm r)).
  { intros r va Hr Hin. pose proof (proj1 (Forall_forall _ _) Hok r Hr) as Hr'. split; [done|].
    pose proof Hr' as ((_ & _ & ? & ?) & _). assert (0 <= va < MAXVA) by (unfold inside in Hin; lia). split; [done|].
    rewrite He by done. apply entry_of_at; [|done..]. rewrite Hsp. apply spans_separate. }
  assert (Hno : ∀ va, 0 <= va < MAXVA → Forall (λ sp, ¬ inside va sp) kernel_spans → entry (vmem s') root va = 0).
  { intros va Hva Hout. rewrite He by done. apply entry_of_none. by rewrite Hsp. }
  exists root, s', T, pas. split_and!; try done.
  - unfold kvminit, kvminithart, hart_do. rewrite (bind_done _ _ _ tt (Kvm _ s' root (hart k))) by (by rewrite E).
    run. by rewrite <- !app_assoc.
  - apply B.
  - intros r va Hr Hin. destruct (Hat r va Hr Hin) as (Hr' & _ & ->). pose proof Hr' as (_ & ? & _).
    pose proof (region_at r va Hr' Hin). cbv zeta. rewrite mk_pte_pa, mk_pte_flags, pte_v_bit by done. done.
  - intros va Hva. cbv zeta. destruct (decide (Exists (inside va) kernel_spans)) as [Hin|Hout].
    2:{ rewrite Hno, !has_0; [done|done|]. by apply not_Exists_Forall in Hout; [|apply _]. }
    rewrite <- Hsp in Hin. apply Exists_exists in Hin as (sp & (r & -> & Hr)%list.list_elem_of_fmap & Hin).
    destruct (Hat r va Hr Hin) as (Hr' & _ & ->). pose proof Hr' as (_ & ? & _). pose proof (region_at r va Hr' Hin).
    unfold has. rewrite pte_u_bit, pte_w_bit, pte_x_bit, !mk_pte_bits by (done || lia).
    destruct (kernel_regions_perm pas r Hr) as [-> | ->]; by rewrite pte_r_bit, ?pte_w_bit, ?pte_x_bit.
  - intros p Hp. split; [by apply (proj1 (Forall_forall _ _) Hpp)|]. by apply B.
  - apply B.
Qed.

(** xv6's memlayout.h, with a kernel text of eight pages, and 256 free pages. *)
Definition xv6_layout : Layout := {|
  UART0 := 0x10000000; VIRTIO0 := 0x10001000; PLIC := 0x0c000000; KERNBASE := 0x80000000; PHYSTOP := 0x88000000;
  TRAMPOLINE := 2 ^ 38 - 4096; KSTACK := λ i, 2 ^ 38 - 4096 - (Z.of_nat i + 1) * 8192; etext := 0x80008000;
  trampoline := 0x80007000 |}.
Definition sv39_satp : Satp := {| MAKE_SATP := λ root, Z.lor (Z.shiftl 8 60) (Z.shiftr root 12) |}.
Definition boot_kvm : @kvm page_stack :=
  @Kvm page_stack (@Vst page_stack (λ _, x00) ((λ i, 0x87000000 + 4096 * i) <$> seqZ 0 256)) 0 [].

Lemma xv6_layout_laws : LayoutLaws sv39 xv6_layout.
Proof. constructor; apply (bool_decide_unpack _); vm_compute; exact I. Qed.

Lemma kvminit_spec_witness :
  ∃ root s' h, (@kvminit sv39 page_stack xv6_layout;; @kvminithart page_stack sv39_satp) boot_kvm =
      Done tt (@Kvm page_stack s' root h)
    ∧ PTE2PA (Riscv := sv39) (@entry sv39 (@vmem page_stack s') root 0x80123456) = 0x80123000.
Proof.
  destruct (@kvminit_spec sv39 page_stack xv6_layout sv39_satp sv39_laws page_stack_laws xv6_layout_laws boot_kvm)
    as (root & s' & T & pas & E & _ & _ & Hin & _).
  { apply Nat.ltb_lt. vm_compute. reflexivity. }
  eexists root, s', _. split; [exact E|].
  destruct (Hin (Region 0x80008000 (0x88000000 - 0x80008000) 0x80008000 6) 0x80123456) as [Hp _].
  - apply elem_of_app. left. do 4 right. by left.
  - unfold inside, span. cbn [r_va r_size fst snd]. lia.
  - exact Hp.
Defined.
