(* ===== verification/AddrSpace.v ===== *)
(** User address spaces of vm.c (Lab3): the invariant of a page table whose
    leaves own their pages, the account of every page, and uvmalloc,
    uvmdealloc and uvmunmap. *)
From S2P Require Import Prelude Riscv Vm PageTable Mappings.

(** ** Definitions *)

Section defs.
Context {R : Riscv} {L : Allocator}.

(** [leaf s root va p]: [va] is mapped to the page [p]. *)
Definition leaf (s : vst) (root va p : Z) : Prop :=
  0 <= va < MAXVA ∧ has (entry (vmem s) root va) PTE_V = true ∧ PTE2PA (entry (vmem s) root va) = p.

(** Every mapped page is a leaf, neither free nor a table, and mapped once. *)
Record as_inv (s : vst) (root : Z) (T : tables) : Prop := {
  ai_pt : pt_inv s root T;
  ai_leaf : ∀ va p, leaf s root va p →
    PTE_FLAGS (entry (vmem s) root va) ≠ PTE_V ∧ is_page p ∧ p ∉ free (alloc s) ∧ p ∉ dom T;
  ai_inj : ∀ va va' p, leaf s root va p → leaf s root va' p → va / 4096 = va' / 4096 }.

(** The pages accounted for: free, tables, and mapped ones. *)
Definition owned (s : vst) (root : Z) (T : tables) (p : Z) : Prop :=
  p ∈ free (alloc s) ∨ p ∈ dom T ∨ ∃ va, leaf s root va p.

(** No page of [a, stop) is mapped, or every one is. *)
Definition unmapped (s : vst) (root a stop : Z) : Prop :=
  ∀ va, a <= va < stop → has (entry (vmem s) root va) PTE_V = false.
Definition all_mapped (s : vst) (root a stop : Z) : Prop :=
  ∀ va, a <= va < stop → has (entry (vmem s) root va) PTE_V = true.

(** The entries of [s'] are those of [s]. *)
Definition same_entries (s s' : vst) (root : Z) : Prop :=
  ∀ va, 0 <= va < MAXVA → entry (vmem s') root va = entry (vmem s) root va.
End defs.

Section addr_space.
Context {R : Riscv} {L : Allocator} {RL : RiscvLaws R} {AL : AllocatorLaws L}.
Implicit Types (m : mem) (T : tables) (s : vst).

(** ** Lemmas *)

Lemma leaf_same s s' root va p : same_entries s s' root → leaf s' root va p ↔ leaf s root va p.
Proof. intros He. unfold leaf. split; intros (Hva & H); (split; [done|]); by rewrite He in *. Qed.

(** The invariant after a step that keeps the entries. *)
Lemma as_same s s' root T T' :
  as_inv s root T → pt_inv s' root T' → same_entries s s' root →
  (∀ va p, leaf s root va p → p ∉ free (alloc s') ∧ p ∉ dom T') → as_inv s' root T'.
Proof.
  intros I I' He Hn. constructor; [done|..].
  - intros va p Hl. apply (leaf_same _ _ _ _ _ He) in Hl as Hl0. destruct (ai_leaf _ _ _ I _ _ Hl0) as (Hf & Hp & _).
    rewrite He by apply Hl. destruct (Hn _ _ Hl0). auto.
  - intros va va' p H H'. apply (leaf_same _ _ _ _ _ He) in H, H'. by eapply ai_inj.
Qed.

(** A page taken from the free ones and filled. *)
Lemma as_take s s1 root T p :
  as_inv s root T → p ∈ free (alloc s) → free (alloc s1) = free (alloc s) ∖ {[p]} →
  same_off (free (alloc s)) (vmem s) (vmem s1) →
  as_inv s1 root T ∧ same_entries s s1 root ∧ p ∉ free (alloc s1) ∧ p ∉ dom T
  ∧ (∀ va, ¬ leaf s1 root va p)
  ∧ (∀ q, owned s root T q ↔ q = p ∨ owned s1 root T q).
Proof.
  intros I Hp Hf Hm. destruct (ai_pt _ _ _ I) as [I1 D].
  destruct (table_same _ _ _ _ _ I1 Hm (free_pages s) D) as (I2 & _ & He & _).
  assert (HpT : p ∉ dom T) by (clear -D Hp; set_solver).
  assert (Hp1 : p ∉ free (alloc s1)) by (rewrite Hf; clear; set_solver).
  assert (Hl : ∀ va, ¬ leaf s root va p).
  { intros va Hl. by destruct (ai_leaf _ _ _ I _ _ Hl) as (_ & _ & ? & _). }
  split_and!; [|exact He|done|done| |].
  - eapply as_same; [done| |exact He|].
    + split; [done|]. rewrite Hf. clear -D. set_solver.
    + intros va q Hq. destruct (ai_leaf _ _ _ I _ _ Hq) as (_ & _ & ? & ?). rewrite Hf. split; [|done].
      clear -H. set_solver.
  - intros va Hva. by apply (Hl va), (leaf_same _ _ _ _ _ He).
  - intros q. unfold owned. rewrite Hf, elem_of_difference, elem_of_singleton.
    setoid_rewrite (leaf_same _ _ _ _ _ He). destruct (decide (q = p)) as [->|]; [|tauto]. tauto.
Qed.

(** Such a page given back. *)
Lemma as_give s s1 root T p :
  as_inv s root T → is_page p → p ∉ dom T → (∀ va, ¬ leaf s root va p) →
  free (alloc s1) = {[p]} ∪ free (alloc s) →
  same_off ({[p]} ∪ free (alloc s)) (vmem s) (vmem s1) →
  as_inv s1 root T ∧ same_entries s s1 root ∧ (∀ q, owned s1 root T q ↔ q = p ∨ owned s root T q).
Proof.
  intros I Hp HpT Hl Hf Hm. destruct (ai_pt _ _ _ I) as [I1 D].
  assert (HP : ∀ q, q ∈ {[p]} ∪ free (alloc s) → is_page q).
  { intros q [->%elem_of_singleton|?]%elem_of_union; [done|by eapply free_page]. }
  assert (HD : dom T ## {[p]} ∪ free (alloc s)) by (clear -D HpT; set_solver).
  destruct (table_same _ _ _ _ _ I1 Hm HP HD) as (I2 & _ & He & _).
  split_and!; [|exact He|].
  - eapply as_same; [done|split; [done|by rewrite Hf]|exact He|].
    intros va q Hq. destruct (ai_leaf _ _ _ I _ _ Hq) as (_ & _ & ? & ?). split; [|done].
    rewrite Hf, not_elem_of_union, not_elem_of_singleton. split; [|done]. intros ->. by apply (Hl va).
  - intros q. unfold owned. rewrite Hf, elem_of_union, elem_of_singleton.
    setoid_rewrite (leaf_same _ _ _ _ _ He). tauto.
Qed.

Lemma owned_alt s root T q :
  owned s root T q ↔ (q ∈ free (alloc s) ∨ q ∈ dom T) ∨ ∃ va, leaf s root va q.
Proof. unfold owned. tauto. Qed.

(** *** One page mapped *)
Lemma mappages_page root a p perm s T :
  pt_inv s root T → a mod 4096 = 0 → 0 <= a < MAXVA → is_page p → 0 <= perm < 1024 →
  has (entry (vmem s) root a) PTE_V = false →
  wp (mappages root a PGSIZE p perm) (λ r s', ∃ T', pt_frame root s T s' T' ∧
    (r = 0 ∧ (∀ va, 0 <= va < MAXVA → entry (vmem s') root va =
                if va / 4096 =? a / 4096 then mk_pte p perm else entry (vmem s) root va)
     ∨ r = -1 ∧ same_entries s s' root ∧ free (alloc s') = ∅)) s.
Proof.
  intros I Ha Hav Hp Hperm Hv. pose proof maxva_range. unfold mappages.
  rewrite !pgsize_4096. change (4096 =? 0) with false. cbn iota.
  rewrite !pgrounddown_def by (apply u64_range || lia).
  rewrite (u64_small (a + 4096 - 1)) by lia.
  assert (a / 4096 * 4096 = a ∧ (a + 4096 - 1) / 4096 * 4096 = a) as [-> ->]
    by (Z.to_euclidean_division_equations; lia).
  rewrite Z.leb_refl, Z.sub_diag. change (0 / 4096) with 0.
  eapply wp_mono; [apply (mappages_loop_wp root a perm _ a p s T)|]; try done; try lia.
  - rewrite Z.sub_diag. change (0 / 4096) with 0. cbn. lia.
  - rewrite Z.sub_diag. change (0 / 4096) with 0. intros k Hk. replace k with 0 by lia.
    by rewrite Z.mul_0_l, Z.add_0_r.
  - intros va Hva. rewrite (entry_page _ _ va a); [done| |done|].
    + pose proof maxva_page. Z.to_euclidean_division_equations; lia.
    + Z.to_euclidean_division_equations; lia.
  - intros r s' (T' & stop & Hfr & Hor & He). exists T'. split; [done|].
    destruct Hor as [[-> ->]|(-> & Hs & Hs' & Hf)]; [left|right]; (split; [done|]).
    + intros va Hva. rewrite He by done. unfold mapped.
      destruct (Z.eqb_spec (va / 4096) (a / 4096)) as [E|E].
      * assert (a <= va < a + 4096) by (Z.to_euclidean_division_equations; lia).
        rewrite (proj2 (Z.leb_le _ _)), (proj2 (Z.ltb_lt _ _)) by lia. cbn [andb]. f_equal.
        Z.to_euclidean_division_equations; lia.
      * zcases; try done. exfalso. Z.to_euclidean_division_equations; lia.
    + split; [|done]. intros va Hva. rewrite He, mapped_out by lia. done.
Qed.

(** A page in hand is mapped: the space grows by a leaf, or stays as it was. *)
Lemma as_map root a p perm s T :
  as_inv s root T → a mod 4096 = 0 → 0 <= a < MAXVA → is_page p → 0 <= perm < 1024 → Z.lor perm 1 ≠ 1 →
  has (entry (vmem s) root a) PTE_V = false →
  p ∉ free (alloc s) → p ∉ dom T → (∀ va, ¬ leaf s root va p) →
  wp (mappages root a PGSIZE p perm) (λ r s', ∃ T', as_inv s' root T' ∧ pt_frame root s T s' T' ∧
    (r = 0 ∧ (∀ va, 0 <= va < MAXVA → entry (vmem s') root va =
                if va / 4096 =? a / 4096 then mk_pte p perm else entry (vmem s) root va)
          ∧ (∀ q, owned s' root T' q ↔ q = p ∨ owned s root T q)
     ∨ r = -1 ∧ same_entries s s' root ∧ p ∉ dom T' ∧ p ∉ free (alloc s')
          ∧ (∀ q, owned s' root T' q ↔ owned s root T q) ∧ free (alloc s') = ∅)) s.
Proof.
  intros I Ha Hav Hp Hperm Hp1 Hv Hpf HpT Hpl.
  eapply wp_mono; [by apply (mappages_page root a p perm s T); [apply I|..]|].
  intros r s' (T' & Hfr & Hor). exists T'.
  pose proof (pg_dom _ _ _ _ _ Hfr) as Hdom. pose proof (pg_free _ _ _ _ _ Hfr) as Hfree.
  assert (Hnot : ∀ q, q ∉ free (alloc s) → q ∉ dom T → q ∉ free (alloc s') ∧ q ∉ dom T').
  { intros q H1 H2. rewrite Hdom. clear -H1 H2 Hfree. set_solver. }
  assert (Hacc : ∀ q, q ∈ free (alloc s') ∨ q ∈ dom T' ↔ q ∈ free (alloc s) ∨ q ∈ dom T).
  { intros q. rewrite Hdom, elem_of_union, elem_of_difference. specialize (Hfree q).
    destruct (decide (q ∈ free (alloc s'))); clear -n Hfree || clear -e Hfree; tauto. }
  destruct Hor as [[-> He]|(-> & He & Hempty)].
  - assert (Hleaf : ∀ va q, leaf s' root va q ↔
      (0 <= va < MAXVA ∧ va / 4096 = a / 4096 ∧ q = p) ∨ (va / 4096 ≠ a / 4096 ∧ leaf s root va q)).
    { intros va q. unfold leaf.
      destruct (decide (0 <= va < MAXVA)) as [Hva|]; [|clear -n; intuition].
      rewrite He by done. destruct (Z.eqb_spec (va / 4096) (a / 4096)) as [E|E].
      - rewrite mk_pte_pa by done. unfold has. rewrite pte_v_bit, mk_pte_bits by done.
        assert (Z.land (Z.lor perm 1) 1 = 1) as ->.
        { rewrite Z.land_lor_distr_l. change (Z.land 1 1) with 1.
          change 1 with (Z.ones 1) at 1. rewrite Z.land_ones by lia.
          assert (perm mod 2 ^ 1 = 0 ∨ perm mod 2 ^ 1 = 1) as [->| ->]; [|done..].
          pose proof (Z.mod_pos_bound perm (2 ^ 1)). lia. }
        cbn. intuition congruence.
      - intuition. }
    split; [|split; [done|left; split; [done|split; [done|]]]].
    + constructor; [apply Hfr|..].
      * intros va q [(Hva & E & ->)|[E Hl]]%Hleaf; rewrite He by (done || apply Hl).
        -- rewrite (proj2 (Z.eqb_eq _ _)), mk_pte_flags, pte_v_bit by done.
           destruct (Hnot p Hpf HpT). auto.
        -- rewrite (proj2 (Z.eqb_neq _ _)) by done. destruct (ai_leaf _ _ _ I _ _ Hl) as (? & ? & H1 & H2).
           destruct (Hnot q H1 H2). auto.
      * intros va va' q [(_ & E & E1)|[E Hl]]%Hleaf [(_ & E' & E1')|[E' Hl']]%Hleaf; [congruence|..|by eapply ai_inj].
        -- subst. by apply Hpl in Hl'.
        -- subst. by apply Hpl in Hl.
    + intros q. rewrite !owned_alt, Hacc. split.
      * intros [?|(va & [(_ & _ & ->)|[_ Hl]]%Hleaf)]; [by right; left|by left|right; right; eauto].
      * intros [->|[?|(va & Hl)]]; [|by left|]; right.
        -- exists a. apply Hleaf. left. auto.
        -- exists va. apply Hleaf. right. split; [|done]. intros E.
           destruct Hl as (Hva & Hlv & _). rewrite (entry_page _ _ va a) in Hlv by done. congruence.
  - destruct (Hnot p Hpf HpT). split; [|split; [done|right; split_and!; try done]].
    + eapply as_same; [done|apply Hfr|done|]. intros va q Hl.
      destruct (ai_leaf _ _ _ I _ _ Hl) as (_ & _ & H1 & H2). auto.
    + intros q. rewrite !owned_alt, Hacc. by setoid_rewrite (leaf_same _ _ _ _ _ He).
Qed.

(** *** A range unmapped and its pages freed *)

(** The entries without those of [a, stop). *)
Definition without (a stop : Z) (e : Z → Z) (va : Z) : Z :=
  if (a <=? va) && (va <? stop) then 0 else e va.
Lemma without_in a stop e va : a <= va < stop → without a stop e va = 0.
Proof. intros H. unfold without. by rewrite (proj2 (Z.leb_le _ _)), (proj2 (Z.ltb_lt _ _)) by lia. Qed.
Lemma without_out a stop e va : va < a ∨ stop <= va → without a stop e va = e va.
Proof. intros H. unfold without. zcases; done. Qed.

Lemma leaf_entry s root va p : leaf s root va p → has (entry (vmem s) root va) PTE_V = true.
Proof. by intros (_ & ? & _). Qed.
Lemma mapped_leaf s root va : 0 <= va < MAXVA → has (entry (vmem s) root va) PTE_V = true →
  leaf s root va (PTE2PA (entry (vmem s) root va)).
Proof. intros Hva Hv. split; [done|]. by split. Qed.

Lemma uvmunmap_pages root a n s do_free :
  a mod 4096 = 0 → 0 <= a → 0 <= n → a + n * 4096 <= MAXVA →
  uvmunmap root a n do_free s = uvmunmap_loop (S (Z.to_nat n)) root a (a + n * 4096) do_free s.
Proof.
  intros Ha H0 Hn Hm. pose proof maxva_range. unfold uvmunmap.
  rewrite !pgsize_4096, Ha. cbn [negb Z.eqb]. rewrite (u64_small (a + n * 4096)) by lia.
  by replace ((a + n * 4096 - a) / 4096) with n by (Z.to_euclidean_division_equations; lia).
Qed.

Lemma as_unmap root a n s T :
  as_inv s root T → a mod 4096 = 0 → 0 <= a → 0 <= n → a + n * 4096 <= MAXVA →
  all_mapped s root a (a + n * 4096) →
  wp (uvmunmap root a n true) (λ _ s', as_inv s' root T
    ∧ (∀ q, owned s' root T q ↔ owned s root T q)
    ∧ (∀ q, q ∈ free (alloc s') ↔ q ∈ free (alloc s) ∨ pages_of (vmem s) root a (a + n * 4096) q)
    ∧ same_off (dom T ∪ free (alloc s')) (vmem s) (vmem s')
    ∧ ∀ va, 0 <= va < MAXVA → entry (vmem s') root va = without a (a + n * 4096) (entry (vmem s) root) va) s.
Proof.
  intros I Ha H0 Hn Hm Hall. unfold wp. rewrite uvmunmap_pages by done. set (stop := a + n * 4096) in *.
  assert (Hst : stop mod 4096 = 0) by (unfold stop; Z.to_euclidean_division_equations; lia).
  assert (Hleaf : ∀ va, a <= va < stop → leaf s root va (PTE2PA (entry (vmem s) root va))).
  { intros va Hva. apply mapped_leaf; [lia|]. by apply Hall. }
  eapply wp_mono; [apply (uvmunmap_loop_wp root stop true _ a s T)|]; try done; try apply I; try lia.
  - unfold stop. replace (a + n * 4096 - a) with (n * 4096) by lia. rewrite Z.div_mul by lia. lia.
  - intros va Hva. split; [by apply Hall|]. by apply (ai_leaf _ _ _ I va _ (Hleaf va Hva)).
  - intros _. split.
    + intros va Hva. destruct (ai_leaf _ _ _ I va _ (Hleaf va Hva)) as (_ & ? & ? & ?). auto.
    + intros va va' Hva Hva' E. apply (ai_inj _ _ _ I va va' _ (Hleaf va Hva)).
      rewrite E. by apply Hleaf.
  - intros [] s' (I' & Hf & Hoff & He).
    change (∀ va, 0 <= va < MAXVA → entry (vmem s') root va = without a stop (entry (vmem s) root) va) in He.
    assert (Hf' : ∀ q, q ∈ free (alloc s') ↔ q ∈ free (alloc s) ∨ pages_of (vmem s) root a stop q).
    { intros q. rewrite Hf. clear. tauto. }
    assert (Hl' : ∀ va q, leaf s' root va q ↔ leaf s root va q ∧ ¬ (a <= va < stop)).
    { intros va q. unfold leaf. destruct (decide (0 <= va < MAXVA)) as [Hva|]; [|clear -n0; tauto].
      rewrite He by done. unfold without. destruct (decide (a <= va < stop)) as [Hin|Hout].
      - rewrite (proj2 (Z.leb_le _ _)), (proj2 (Z.ltb_lt _ _)) by lia. cbn [andb]. rewrite has_0.
        clear -Hin. intuition discriminate.
      - replace ((a <=? va) && (va <? stop)) with false by (symmetry; zcases; try done; lia).
        clear -Hout. tauto. }
    assert (Hnf : ∀ va q, leaf s' root va q → q ∉ free (alloc s')).
    { intros va q [Hl Hout]%Hl'. rewrite Hf'. intros [Hq|(va' & Hva' & ->)].
      - by destruct (ai_leaf _ _ _ I _ _ Hl) as (_ & _ & ? & _).
      - pose proof (ai_inj _ _ _ I _ _ _ Hl (Hleaf va' Hva')). apply Hout.
        Z.to_euclidean_division_equations; lia. }
    split; [|split; [|split; [exact Hf'|split; [exact Hoff|exact He]]]].
    + constructor; [done|..].
      * intros va q Hl. pose proof (Hnf _ _ Hl). apply Hl' in Hl as [Hl Hout].
        destruct (ai_leaf _ _ _ I _ _ Hl) as (? & ? & _ & ?). rewrite He, without_out by (lia || apply Hl). auto.
      * intros va va' q [H1 _]%Hl' [H2 _]%Hl'. by eapply ai_inj.
    + intros q. unfold owned. rewrite Hf'. split.
      * intros [[?|(va & Hva & ->)]|[?|(va & [Hl _]%Hl')]]; [by left| |by right; left|right; right; eauto].
        right; right. exists va. by apply Hleaf.
      * intros [?|[?|(va & Hl)]]; [by left; left|by right; left|].
        destruct (decide (a <= va < stop)) as [Hin|Hout].
        -- left; right. exists va. split; [done|]. by destruct Hl as (_ & _ & ->).
        -- right; right. exists va. by apply Hl'.
Qed.

(** ** Lemmas: uvmdealloc *)

Definition pgup (x : Z) : Z := (x + 4095) / 4096 * 4096.
Lemma pgup_spec x : pgup x mod 4096 = 0 ∧ x <= pgup x < x + 4096.
Proof using. unfold pgup. Z.to_euclidean_division_equations; lia. Qed.
Lemma pgup_max x : x <= MAXVA → pgup x <= MAXVA.
Proof using RL. pose proof maxva_page. unfold pgup. intros. Z.to_euclidean_division_equations; lia. Qed.
Lemma pgroundup_pgup x : 0 <= x <= MAXVA → PGROUNDUP x = pgup x.
Proof using RL. intros Hx. pose proof maxva_range. rewrite pgroundup_def, u64_small by lia. done. Qed.
Lemma pgup_aligned x : x mod 4096 = 0 → pgup x = x.
Proof using. intros. unfold pgup. Z.to_euclidean_division_equations; lia. Qed.

Lemma uvmdealloc_wp root oldsz newsz s T :
  as_inv s root T → 0 <= newsz → oldsz <= MAXVA →
  (newsz < oldsz → all_mapped s root (pgup newsz) (pgup oldsz)) →
  wp (uvmdealloc root oldsz newsz) (λ r s', r = Z.min oldsz newsz ∧ as_inv s' root T
    ∧ (∀ q, owned s' root T q ↔ owned s root T q)
    ∧ same_off (dom T ∪ free (alloc s')) (vmem s) (vmem s')
    ∧ (∀ q, q ∈ free (alloc s') ↔ q ∈ free (alloc s)
         ∨ newsz < oldsz ∧ pages_of (vmem s) root (pgup newsz) (pgup oldsz) q)
    ∧ ∀ va, 0 <= va < MAXVA → entry (vmem s') root va =
        if newsz <? oldsz then without (pgup newsz) (pgup oldsz) (entry (vmem s) root) va
        else entry (vmem s) root va) s.
Proof.
  intros I H0 Hm Hall. unfold uvmdealloc. destruct (Z.leb_spec oldsz newsz) as [Hle|Hlt].
  { apply wp_ret. split; [lia|]. split; [done|]. split; [done|]. split; [done|]. split; [intros q; split; [by left|intros [?|[? _]]; (done || lia)]|].
    intros va _. by rewrite (proj2 (Z.ltb_ge _ _)). }
  rewrite (proj2 (Z.ltb_lt newsz oldsz)), !pgroundup_pgup by lia.
  pose proof (pgup_spec newsz). pose proof (pgup_spec oldsz). pose proof (pgup_max oldsz Hm).
  pose proof maxva_range. rewrite pgsize_4096.
  set (n := (pgup oldsz - pgup newsz) / 4096).
  assert (Hn : pgup newsz + n * 4096 = pgup oldsz) by (unfold n; Z.to_euclidean_division_equations; lia).
  assert (Hmono : pgup newsz <= pgup oldsz) by (unfold pgup; Z.to_euclidean_division_equations; lia).
  assert (Hnr : 0 <= n <= 2 ^ 27) by (unfold n; Z.to_euclidean_division_equations; lia).
  apply wp_bind. destruct (Z.ltb_spec (pgup newsz) (pgup oldsz)) as [Hup|Hup].
  - rewrite i32_small by (unfold is_int, INT_MIN, INT_MAX; lia). rewrite u64_small by lia.
    eapply wp_mono; [apply (as_unmap root (pgup newsz) n s T I)|]; try tauto; try lia.
    { rewrite Hn. by apply Hall. }
    rewrite Hn. intros [] s' (I' & Ho & Hf & Hoff & He). apply wp_ret. split; [lia|].
    split_and!; try done. intros q. rewrite Hf. clear -Hlt. tauto.
  - assert (pgup newsz = pgup oldsz) as E by lia. apply wp_ret, wp_ret. split; [lia|].
    split; [done|]. split; [done|]. split; [done|]. split.
    + intros q. split; [by left|]. intros [?|[_ (va & ? & _)]]; [done|lia].
    + intros va Hva. rewrite without_out; [done|lia].
Qed.

(** ** Lemmas: uvmalloc *)

Definition zeroed s p : Prop := ∀ x, in_page p x → vmem s x = x00.
Lemma same_off_page P m m' p :
  same_off P m m' → (∀ q, q ∈ P → is_page q) → is_page p → p ∉ P →
  ∀ x, in_page p x → m' x = m x.
Proof.
  intros Hs HP Hp Hn x Hx. apply Hs. intros q Hq Hin. assert (q = p); [|congruence].
  eapply in_page_eq; [by apply HP|done|exact Hin|done].
Qed.

(** From [s0] to [s], the pages of [lo, hi) were added, zeroed, with the flags
    [perm]. *)
Record grown (s0 : vst) (T0 : tables) (root lo hi perm : Z) (s : vst) (T : tables) : Prop := {
  gr_inv : as_inv s root T;
  gr_owned : ∀ q, owned s root T q ↔ owned s0 root T0 q;
  gr_pool : ∀ q, q ∈ dom T ∪ free (alloc s) → q ∈ dom T0 ∪ free (alloc s0);
  gr_mem : same_off (dom T0 ∪ free (alloc s0)) (vmem s0) (vmem s);
  gr_new : ∀ va, lo <= va < hi → has (entry (vmem s) root va) PTE_V = true
    ∧ PTE_FLAGS (entry (vmem s) root va) = Z.lor perm PTE_V ∧ zeroed s (PTE2PA (entry (vmem s) root va));
  gr_old : ∀ va, 0 <= va < MAXVA → ¬ (lo <= va < hi) → entry (vmem s) root va = entry (vmem s0) root va;
  gr_mk : ∀ va, lo <= va < hi → ∃ p, is_page p ∧ entry (vmem s) root va = mk_pte p perm }.

Definition empty_range s root a stop : Prop := ∀ va, a <= va < stop → entry (vmem s) root va = 0.

(** The memory stays within the pool when it changes within a smaller one. *)
Lemma gr_mem_trans (P P' : gset Z) m0 m m' :
  same_off P m0 m → (∀ q, q ∈ P' → q ∈ P) → same_off P' m m' → same_off P m0 m'.
Proof. intros H HP H'. eapply same_off_seq; [exact H|]. eapply same_off_mono; [|exact H']. done. Qed.
Lemma pool_pages s root T q : as_inv s root T → q ∈ dom T ∪ free (alloc s) → is_page q.
Proof.
  intros I [[[l pre] Hq]%elem_of_dom|Hq]%elem_of_union; [|by eapply free_page].
  by eapply (pt_page _ _ _ (proj1 (ai_pt _ _ _ I))).
Qed.
(** Zeroed pages of leaves stay zeroed. *)
Lemma zeroed_leaf s s' root T va p :
  as_inv s root T → leaf s root va p → zeroed s p → same_off (dom T ∪ free (alloc s)) (vmem s) (vmem s') →
  zeroed s' p.
Proof.
  intros I Hl Hz Hoff x Hx. destruct (ai_leaf _ _ _ I _ _ Hl) as (_ & Hp & H1 & H2).
  rewrite (same_off_page _ _ _ _ Hoff (λ q, pool_pages s root T q I) Hp); [by apply Hz| |done].
  rewrite not_elem_of_union. auto.
Qed.

(** One turn of uvmalloc's loop that succeeds. *)
Lemma grown_step root s0 T0 lo a perm s T p s1 s2 T2 :
  grown s0 T0 root lo a perm s T → a mod 4096 = 0 → lo <= a → 0 <= lo → a < MAXVA →
  0 <= perm < 1024 → is_page p →
  p ∈ free (alloc s) → free (alloc s1) = free (alloc s) ∖ {[p]} →
  same_off (free (alloc s)) (vmem s) (vmem s1) → zeroed s1 p →
  as_inv s1 root T → same_entries s s1 root →
  as_inv s2 root T2 → pt_frame root s1 T s2 T2 →
  (∀ va, 0 <= va < MAXVA → entry (vmem s2) root va =
     if va / 4096 =? a / 4096 then mk_pte p perm else entry (vmem s1) root va) →
  (∀ q, owned s root T q ↔ owned s2 root T2 q) →
  grown s0 T0 root lo (a + 4096) perm s2 T2.
Proof.
  intros G Ha Hlo Hlo0 Ham Hperm Hp Hpf Hf1 Hm1 Hz1 I1 He1 I2 Hfr He2 Ho.
  pose proof maxva_page as Hmp. pose proof (pg_mem _ _ _ _ _ Hfr) as Hm2.
  pose proof (pg_dom _ _ _ _ _ Hfr) as Hd2. pose proof (pg_free _ _ _ _ _ Hfr) as Hf2.
  assert (Hpool1 : ∀ q, q ∈ dom T ∪ free (alloc s1) → q ∈ dom T ∪ free (alloc s))
    by (rewrite Hf1; clear; set_solver).
  assert (Hkeep : ∀ va q, leaf s1 root va q → zeroed s1 q → zeroed s2 q)
    by (intros va q Hl Hz; exact (zeroed_leaf s1 s2 root T va q I1 Hl Hz Hm2)).
  constructor.
  - done.
  - intros q. rewrite <- Ho. by apply (gr_owned _ _ _ _ _ _ _ _ G).
  - intros q Hq. apply (gr_pool _ _ _ _ _ _ _ _ G), Hpool1. rewrite Hd2 in Hq. clear -Hq Hf2. set_solver.
  - eapply gr_mem_trans; [exact (gr_mem _ _ _ _ _ _ _ _ G)|apply (gr_pool _ _ _ _ _ _ _ _ G)|].
    eapply same_off_seq; [eapply same_off_mono; [|exact Hm1]; clear; set_solver|].
    eapply same_off_mono; [|exact Hm2]. exact Hpool1.
  - intros va Hva. assert (Hvm : 0 <= va < MAXVA) by (Z.to_euclidean_division_equations; lia).
    rewrite He2 by done. destruct (Z.eqb_spec (va / 4096) (a / 4096)) as [E|E].
    + unfold has. rewrite mk_pte_flags, mk_pte_pa, pte_v_bit, mk_pte_bits by done.
      split; [|split; [done|]].
      * rewrite Z.land_lor_distr_l. change (Z.land 1 1) with 1.
        assert (Z.lor (Z.land perm 1) 1 ≠ 0); [|by rewrite (proj2 (Z.eqb_neq _ _))].
        intros E0. apply Z.lor_eq_0_iff in E0 as [_ ?]. done.
      * destruct (ai_pt _ _ _ I1) as [_ _]. intros x Hx.
        rewrite (same_off_page _ _ _ _ Hm2 (λ q, pool_pages s1 root T q I1) Hp); [by apply Hz1| |done].
        rewrite Hf1. destruct (ai_pt _ _ _ (gr_inv _ _ _ _ _ _ _ _ G)) as [_ D]. clear -D Hpf. set_solver.
    + assert (Hin : lo <= va < a) by (Z.to_euclidean_division_equations; lia).
      destruct (gr_new _ _ _ _ _ _ _ _ G va Hin) as (Hv & Hfl & Hz). rewrite He1 by done.
      split; [done|]. split; [done|].
      assert (Hl : leaf s root va (PTE2PA (entry (vmem s) root va))) by by apply mapped_leaf.
      eapply Hkeep; [apply (leaf_same s s1); [done|exact Hl]|].
      eapply zeroed_leaf; [apply (gr_inv _ _ _ _ _ _ _ _ G)|exact Hl|done|].
      eapply same_off_mono; [|exact Hm1]. clear; set_solver.
  - intros va Hva Hout. rewrite He2 by done.
    rewrite (proj2 (Z.eqb_neq _ _)) by (Z.to_euclidean_division_equations; lia).
    rewrite He1 by done. apply (gr_old _ _ _ _ _ _ _ _ G); [done|lia].
  - intros va Hva. assert (Hvm : 0 <= va < MAXVA) by (Z.to_euclidean_division_equations; lia).
    rewrite He2 by done. destruct (Z.eqb_spec (va / 4096) (a / 4096)) as [E|E]; [by exists p|].
    rewrite He1 by done. apply (gr_mk _ _ _ _ _ _ _ _ G). Z.to_euclidean_division_equations; lia.
Qed.

(** The new pages come from the pool. *)
Lemma grown_from_pool root s0 T0 lo a perm s T va :
  grown s0 T0 root lo a perm s T → a mod 4096 = 0 → lo mod 4096 = 0 → a <= MAXVA → 0 <= lo →
  empty_range s0 root lo a → lo <= va < a → PTE2PA (entry (vmem s) root va) ∈ dom T0 ∪ free (alloc s0).
Proof.
  intros G Ha Hl Ham Hlo Hempty Hva. set (q := PTE2PA (entry (vmem s) root va)).
  assert (Hlf : leaf s root va q) by (apply mapped_leaf; [lia|by apply (gr_new _ _ _ _ _ _ _ _ G)]).
  destruct (proj1 (gr_owned _ _ _ _ _ _ _ _ G q)) as [?|[?|(va' & Hl')]].
  - right; right. by exists va.
  - by apply elem_of_union_r.
  - by apply elem_of_union_l.
  - exfalso. destruct Hl' as (Hva' & Hv' & Hq').
    destruct (decide (lo <= va' < a)) as [Hin|Hout]; [by rewrite Hempty, has_0 in Hv'|].
    assert (Hl2 : leaf s root va' q).
    { split; [done|]. by rewrite (gr_old _ _ _ _ _ _ _ _ G). }
    pose proof (ai_inj _ _ _ (gr_inv _ _ _ _ _ _ _ _ G) _ _ _ Hlf Hl2).
    Z.to_euclidean_division_equations; lia.
Qed.

(** A turn that fails: the pages added so far are given back. *)
Lemma grown_rollback root s0 T0 lo a perm s T s1 T1 :
  grown s0 T0 root lo a perm s T → a mod 4096 = 0 → lo mod 4096 = 0 → lo <= a → 0 <= lo → a <= MAXVA →
  empty_range s0 root lo a →
  as_inv s1 root T1 → same_entries s s1 root → (∀ q, owned s1 root T1 q ↔ owned s root T q) →
  (∀ q, q ∈ dom T1 ∪ free (alloc s1) → q ∈ dom T ∪ free (alloc s)) →
  same_off (dom T ∪ free (alloc s)) (vmem s) (vmem s1) →
  wp (uvmdealloc root a lo;; mret 0) (λ r s', r = 0 ∧ ∃ T', as_inv s' root T'
    ∧ (∀ q, owned s' root T' q ↔ owned s0 root T0 q) ∧ same_entries s0 s' root
    ∧ same_off (dom T0 ∪ free (alloc s0)) (vmem s0) (vmem s')) s1.
Proof.
  intros G Ha Hl Hlo Hlo0 Ham Hempty I1 He1 Ho1 Hpool Hm1.
  assert (Hent : ∀ va, 0 <= va < MAXVA → without lo a (entry (vmem s1) root) va = entry (vmem s0) root va).
  { intros va Hva. destruct (decide (lo <= va < a)) as [Hin|Hout].
    - rewrite without_in by done. symmetry. by apply Hempty.
    - rewrite without_out, He1 by (done || lia). by apply (gr_old _ _ _ _ _ _ _ _ G). }
  wp_seq (uvmdealloc_wp root a lo s1 T1 I1 Hlo0 Ham).
  { rewrite !pgup_aligned by done. intros _ va Hva. rewrite He1 by lia. by apply (gr_new _ _ _ _ _ _ _ _ G). }
  intros r s' (_ & I' & Ho' & Hm' & Hf' & He'). apply wp_ret. split; [done|]. exists T1. split; [done|]. split; [|split].
  - intros q. rewrite Ho', Ho1. apply (gr_owned _ _ _ _ _ _ _ _ G).
  - intros va Hva. rewrite He' by done. rewrite !pgup_aligned by done.
    destruct (Z.ltb_spec lo a); [by apply Hent|]. rewrite <- Hent by done. rewrite without_out; [done|lia].
  - eapply gr_mem_trans; [|intros q Hq; exact Hq|].
    + eapply gr_mem_trans; [exact (gr_mem _ _ _ _ _ _ _ _ G)|apply (gr_pool _ _ _ _ _ _ _ _ G)|exact Hm1].
    + eapply same_off_mono; [|exact Hm']. intros q [Hq|[Hq|[Hlt (va & Hva & ->)]]%Hf']%elem_of_union.
      * apply (gr_pool _ _ _ _ _ _ _ _ G), Hpool. by apply elem_of_union_l.
      * apply (gr_pool _ _ _ _ _ _ _ _ G), Hpool. by apply elem_of_union_r.
      * rewrite !pgup_aligned in Hva by done. rewrite He1 by lia.
        by apply (grown_from_pool root s0 T0 lo a perm s T va G).
Qed.

Lemma uvmalloc_loop_wp root s0 T0 lo newsz xperm fuel a s T :
  let perm := Z.lor (Z.lor PTE_R PTE_U) xperm in
  grown s0 T0 root lo a perm s T → a mod 4096 = 0 → lo mod 4096 = 0 → 0 <= lo → lo <= a →
  a <= Z.max lo (pgup newsz) → newsz <= MAXVA → 0 <= xperm < 1024 → lo <= MAXVA →
  (Z.to_nat ((pgup newsz - a) / 4096) < fuel)%nat →
  empty_range s0 root lo (pgup newsz) →
  wp (uvmalloc_loop fuel root a lo newsz xperm) (λ r s', ∃ T',
    r = newsz ∧ grown s0 T0 root lo (Z.max lo (pgup newsz)) perm s' T'
    ∨ r = 0 ∧ as_inv s' root T' ∧ (∀ q, owned s' root T' q ↔ owned s0 root T0 q) ∧ same_entries s0 s' root
        ∧ same_off (dom T0 ∪ free (alloc s0)) (vmem s0) (vmem s')) s.
Proof.
  intros perm. revert a s T. induction fuel as [|fuel IH]; intros a s T G Ha Hl H0 Hlo Hup Hm Hx Hlm Hf Hempty; [lia|].
  cbn [uvmalloc_loop]. pose proof (pgup_spec newsz) as [Hpm Hpr]. pose proof (pgup_max newsz Hm) as Hpx.
  pose proof maxva_range as HM.
  destruct (Z.ltb_spec a newsz) as [Hlt|Hge].
  2:{ apply wp_ret. exists T. left. split; [done|].
      assert (a = Z.max lo (pgup newsz)) as <-; [|done]. Z.to_euclidean_division_equations; lia. }
  assert (Hperm : 0 <= perm < 1024).
  { unfold perm. rewrite pte_r_bit, pte_u_bit. by apply (lor_range _ xperm 10). }
  assert (Hp1 : Z.lor perm 1 ≠ 1).
  { intros E. assert (Hb : Z.testbit (Z.lor perm 1) 1 = false) by by rewrite E.
    unfold perm in Hb. rewrite pte_r_bit, pte_u_bit, !Z.lor_spec in Hb. done. }
  assert (Hstep : a + 4096 <= pgup newsz) by (Z.to_euclidean_division_equations; lia).
  assert (Hval : has (entry (vmem s) root a) PTE_V = false).
  { rewrite (gr_old _ _ _ _ _ _ _ _ G), Hempty, has_0 by lia. done. }
  assert (Hempty' : empty_range s0 root lo a) by (intros va Hva; apply Hempty; lia).
  apply wp_bind, kalloc_wp.
  - intros He. cbn. eapply wp_mono; [eapply (grown_rollback root s0 T0 lo a perm s T s T G); try done; try lia; apply G|].
    intros r s' (-> & T' & H). exists T'. right. tauto.
  - intros p s1 Hpf Hpp Hp0 Hf1 Hm1. rewrite (proj2 (Z.eqb_neq p 0)) by done.
    apply wp_bind, wp_modify. set (s2 := set_vmem (memset (vmem s1) p x00 PGSIZE) s1).
    assert (Hoff2 : same_off (free (alloc s)) (vmem s) (vmem s2)).
    { eapply same_off_seq; [exact Hm1|]. apply same_off_memset; [done|]. by rewrite pgsize_4096. }
    assert (Hz2 : zeroed s2 p) by (intros x Hx'; apply memset_in; rewrite pgsize_4096; done).
    destruct (as_take s s2 root T p (gr_inv _ _ _ _ _ _ _ _ G) Hpf Hf1 Hoff2)
      as (I2 & He2 & Hnf & HnT & Hnl & Ho2).
    apply wp_bind. eapply wp_mono.
    { apply (as_map root a p perm s2 T); try done; [lia|]. rewrite He2; [done|lia]. }
    cbv beta. intros r s3 (T3 & I3 & Hfr & Hor). destruct Hor as [(-> & He3 & Ho3)|(-> & He3 & HnT3 & Hnf3 & Ho3 & _)].
    + change (negb (0 =? 0)) with false. cbn iota. rewrite pgsize_4096, u64_small by lia.
      eapply IH; try done; try lia.
      * eapply (grown_step root s0 T0 lo a perm s T p s2 s3 T3); try done; try lia.
        intros q. rewrite Ho2, Ho3. done.
      * by apply page_plus.
      * Z.to_euclidean_division_equations; lia.
    + change (negb (-1 =? 0)) with true. cbn iota. apply wp_bind, kfree_wp; [done|done|].
      intros s4 Hf4 Hm4.
      assert (Hnl3 : ∀ va, ¬ leaf s3 root va p).
      { intros va Hl3. apply (leaf_same _ _ _ _ _ He3) in Hl3. by apply (Hnl va). }
      destruct (as_give s3 s4 root T3 p I3 Hpp HnT3 Hnl3 Hf4 Hm4) as (I4 & He4 & Ho4).
      assert (Hse : same_entries s s4 root) by (intros va Hva; by rewrite He4, He3, He2).
      assert (Hpool : ∀ q, q ∈ dom T3 ∪ free (alloc s3) → q ∈ dom T ∪ free (alloc s)).
      { intros q. rewrite (pg_dom _ _ _ _ _ Hfr). pose proof (pg_free _ _ _ _ _ Hfr) as Hfs. cbn in Hfs |- *.
        rewrite Hf1 in Hfs |- *. clear -Hfs. set_solver. }
      eapply wp_mono; [eapply (grown_rollback root s0 T0 lo a perm s T s4 T3 G); try done; try lia|].
      * intros q. rewrite Ho4, Ho3, Ho2. done.
      * intros q. rewrite Hf4. intros Hq. destruct (decide (q = p)) as [->|Hqp]; [clear -Hpf; set_solver|].
        apply Hpool. clear -Hq Hqp. set_solver.
      * eapply same_off_seq; [eapply same_off_mono; [|exact Hoff2]; clear; set_solver|].
        eapply same_off_seq; [eapply same_off_mono; [|apply (pg_mem _ _ _ _ _ Hfr)]|].
        -- cbn. rewrite Hf1. clear. set_solver.
        -- eapply same_off_mono; [|exact Hm4]. intros q. rewrite elem_of_union, elem_of_singleton.
           intros [->|Hq]; [clear -Hpf; set_solver|]. apply Hpool. clear -Hq. set_solver.
      * intros r s' (-> & T' & H). exists T'. right. tauto.
Qed.
Lemma uvmalloc_grown
  (root oldsz newsz xperm : Z) (s : vst) (T : tables) (I : as_inv s root T)
  (Hold : 0 <= oldsz <= newsz) (Hnew : newsz <= MAXVA) (Hx : 0 <= xperm < 1024)
  (Hempty : empty_range s root (pgup oldsz) (pgup newsz)) :
  ∃ r s' T', uvmalloc root oldsz newsz xperm s = Done r s' ∧
    (r = newsz ∧ grown s T root (pgup oldsz) (pgup newsz) (Z.lor (Z.lor PTE_R PTE_U) xperm) s' T'
     ∨ r = 0 ∧ as_inv s' root T' ∧ (∀ q, owned s' root T' q ↔ owned s root T q) ∧ same_entries s s' root
         ∧ same_off (dom T ∪ free (alloc s)) (vmem s) (vmem s')).
Proof.
  pose proof (pgup_spec oldsz) as [Hom Hor]. pose proof (pgup_spec newsz) as [Hnm Hnr].
  assert (Hmono : pgup oldsz <= pgup newsz) by (unfold pgup; Z.to_euclidean_division_equations; lia).
  pose proof (pgup_max newsz Hnew). pose proof maxva_range.
  assert (G : grown s T root (pgup oldsz) (pgup oldsz) (Z.lor (Z.lor PTE_R PTE_U) xperm) s T).
  { constructor; try done; intros va Hva; lia. }
  unfold uvmalloc. rewrite (proj2 (Z.ltb_ge newsz oldsz)), pgroundup_pgup by lia.
  destruct (proj1 (wp_done _ _ _) (uvmalloc_loop_wp root s T (pgup oldsz) newsz xperm
    (S (S (Z.to_nat ((newsz - pgup oldsz) / PGSIZE)))) (pgup oldsz) s T G Hom Hom ltac:(lia) ltac:(lia)
    ltac:(lia) Hnew Hx ltac:(lia) ltac:(rewrite pgsize_4096; Z.to_euclidean_division_equations; lia) Hempty))
    as (r & s' & E & T' & H').
  exists r, s', T'. split; [exact E|]. by rewrite Z.max_r in H'.
Qed.
End addr_space.

(** A space of one page, flags R, W and U, made by uvmalloc. *)
Definition sample_user : @vst page_stack :=
  after (@uvmalloc sv39 page_stack sample_root 0 0x1000 4 sample_vst) sample_vst.

Lemma sample_as : @as_inv sv39 page_stack sample_vst sample_root sample_T.
Proof.
  constructor; [exact sample_inv|..].
  - intros va p (Hva & Hv & _). by rewrite sample_entry in Hv.
  - intros va va' p (Hva & Hv & _). by rewrite sample_entry in Hv.
Qed.

Lemma sample_pool p : p ∈ dom sample_T ∪ @free page_stack (@alloc page_stack sample_vst) → 0x10000 <= p.
Proof.
  unfold sample_T. rewrite dom_singleton_L, elem_of_union, elem_of_singleton.
  cbn [sample_vst alloc free page_stack]. rewrite elem_of_list_to_set, list.list_elem_of_filter.
  intros [->|[_ H]]; [done|].
  repeat (apply elem_of_cons in H as [->|H]; [done|]). by apply elem_of_nil in H.
Qed.
Lemma sample_user_grown : ∃ T,
  @grown sv39 page_stack sample_vst sample_T sample_root 0 0x1000 22 sample_user T.
Proof.
  destruct (@uvmalloc_grown sv39 page_stack sv39_laws page_stack_laws sample_root 0 0x1000 4
    sample_vst sample_T sample_as) as (r & s' & T' & E & H); try lia.
  - discriminate.
  - intros va Hva. apply sample_entry. change (0 <= va < 4096) in Hva. lia.
  - assert (Hv : value (@uvmalloc sv39 page_stack sample_root 0 0x1000 4 sample_vst) = Some 0x1000)
      by (vm_compute; reflexivity).
    rewrite E in Hv. injection Hv as ->. destruct H as [[_ G]|[H _]]; [|discriminate H].
    assert (Es : sample_user = s') by (unfold sample_user; by rewrite E). rewrite Es. by exists T'.
Qed.
Lemma sample_owned s T p :
  (∀ q, @owned sv39 page_stack s sample_root T q ↔ @owned sv39 page_stack sample_vst sample_root sample_T q) →
  @owned sv39 page_stack s sample_root T p → 0x10000 <= p.
Proof.
  intros Ho Hp. apply sample_pool. apply Ho in Hp as [?|[?|(va' & Hva' & Hv' & _)]].
  - by apply elem_of_union_r.
  - by apply elem_of_union_l.
  - by rewrite sample_entry in Hv'.
Qed.
Lemma sample_user_as : ∃ T, @as_inv sv39 page_stack sample_user sample_root T
  ∧ (∀ va p, @leaf sv39 page_stack sample_user sample_root va p → 0x10000 <= p)
  ∧ (∀ p, p ∈ dom T → 0x10000 <= p).
Proof.
  destruct sample_user_grown as [T G]. exists T. split; [apply (gr_inv _ _ _ _ _ _ _ _ G)|].
  split; intros; apply (sample_owned _ T _ (gr_owned _ _ _ _ _ _ _ _ G)); unfold owned; eauto.
Qed.

(** ** Properties *)

(** C10.  uvmalloc: the answer is [newsz] and every page from the old size
    (rounded up) to the new one is mapped to a zeroed page with the flags R, U
    and [xperm], or the answer is 0 and every entry is what it was; in both
    cases the other entries and pages are untouched, the invariant holds and
    no page is lost: the free pages, the tables and the mapped pages are
    together the same as before.  It never panics. *)
Theorem uvmalloc_spec `{R : Riscv, L : Allocator} {RL : RiscvLaws R} {AL : AllocatorLaws L}
  (root oldsz newsz xperm : Z) (s : vst) (T : tables) (I : as_inv s root T)
  (Hold : 0 <= oldsz <= newsz) (Hnew : newsz <= MAXVA) (Hx : 0 <= xperm < 1024)
  (Hempty : empty_range s root (pgup oldsz) (pgup newsz)) :
  ∃ r s' T', uvmalloc root oldsz newsz xperm s = Done r s' ∧
    (r = newsz ∧ grown s T root (pgup oldsz) (pgup newsz) (Z.lor (Z.lor PTE_R PTE_U) xperm) s' T'
     ∨ r = 0 ∧ as_inv s' root T' ∧ (∀ q, owned s' root T' q ↔ owned s root T q) ∧ same_entries s s' root
         ∧ same_off (dom T ∪ free (alloc s)) (vmem s) (vmem s')).
Proof. by apply uvmalloc_grown. Qed.

Lemma uvmalloc_spec_witness :
  ∃ r s', @uvmalloc sv39 page_stack sample_root 0 0x1001 4 sample_vst = Done r s' ∧ r = 0x1001
    ∧ ∃ T', @grown sv39 page_stack sample_vst sample_T sample_root 0 0x2000 22 s' T'.
Proof.
  destruct (@uvmalloc_spec sv39 page_stack sv39_laws page_stack_laws sample_root 0 0x1001 4
    sample_vst sample_T sample_as) as (r & s' & T' & E & H); try lia.
  - discriminate.
  - intros va Hva. apply sample_entry. change (0 <= va < 8192) in Hva. lia.
  - assert (Hv : value (@uvmalloc sv39 page_stack sample_root 0 0x1001 4 sample_vst) = Some 0x1001) by (vm_compute; reflexivity).
    rewrite E in Hv. injection Hv as ->. exists 0x1001, s'. split; [exact E|]. split; [reflexivity|].
    destruct H as [[_ G]|[H _]]; [|discriminate H]. exists T'. exact G.
Defined.

(** Growing and shrinking back: when uvmalloc succeeds, uvmdealloc from
    the new size to the old one answers the old size and restores every entry,
    and every page is accounted for as before. *)
Theorem uvmalloc_uvmdealloc `{R : Riscv, L : Allocator} {RL : RiscvLaws R} {AL : AllocatorLaws L}
  (root oldsz newsz xperm : Z) (s s1 : vst) (T : tables) (I : as_inv s root T)
  (Hold : 0 <= oldsz < newsz) (Hnew : newsz <= MAXVA) (Hx : 0 <= xperm < 1024)
  (Hempty : empty_range s root (pgup oldsz) (pgup newsz))
  (Hrun : uvmalloc root oldsz newsz xperm s = Done newsz s1) :
  ∃ s2 T2, uvmdealloc root newsz oldsz s1 = Done oldsz s2 ∧ as_inv s2 root T2
    ∧ same_entries s s2 root ∧ (∀ q, owned s2 root T2 q ↔ owned s root T q).
Proof.
  pose proof (pgup_spec oldsz) as [Hom Hor]. pose proof (pgup_spec newsz) as [Hnm Hnr].
  assert (Hmono : pgup oldsz <= pgup newsz) by (unfold pgup; Z.to_euclidean_division_equations; lia).
  pose proof (pgup_max newsz Hnew).
  destruct (uvmalloc_grown root oldsz newsz xperm s T I ltac:(lia) Hnew Hx Hempty)
    as (r & s' & T' & E & [[-> G]|[-> _]]); rewrite E in Hrun;
    [injection Hrun as <-|injection Hrun as Hr _; lia].
  assert (Hall : all_mapped s' root (pgup oldsz) (pgup newsz)).
  { intros va Hva. by apply (gr_new _ _ _ _ _ _ _ _ G). }
  destruct (proj1 (wp_done _ _ _) (uvmdealloc_wp root newsz oldsz s' T' (gr_inv _ _ _ _ _ _ _ _ G)
    ltac:(lia) Hnew (λ _, Hall))) as (r & s2 & E2 & -> & I2 & Ho2 & _ & _ & He2).
  exists s2, T'. rewrite E2, Z.min_r by lia. split; [done|]. split; [done|]. split.
  - intros va Hva. rewrite He2, (proj2 (Z.ltb_lt _ _)) by (done || lia).
    destruct (decide (pgup oldsz <= va < pgup newsz)) as [Hin|Hout].
    + rewrite without_in by done. symmetry. by apply Hempty.
    + rewrite without_out by lia. by apply (gr_old _ _ _ _ _ _ _ _ G).
  - intros q. rewrite Ho2. apply (gr_owned _ _ _ _ _ _ _ _ G).
Qed.

Lemma uvmalloc_uvmdealloc_witness :
  let s1 := after (@uvmalloc sv39 page_stack sample_root 0 0x1000 4 sample_vst) sample_vst in
  ∃ s2, @uvmdealloc sv39 page_stack sample_root 0x1000 0 s1 = Done 0 s2.
Proof.
  intros s1. destruct (@uvmalloc_uvmdealloc sv39 page_stack sv39_laws page_stack_laws sample_root 0 0x1000 4
    sample_vst s1 sample_T sample_as) as (s2 & T2 & E & _); try lia.
  - discriminate.
  - intros va Hva. apply sample_entry. change (0 <= va < 4096) in Hva. lia.
  - apply after_run. vm_compute. reflexivity.
  - exists s2. exact E.
Defined.
