(* ===== verification/UserCopy.v ===== *)
(** copyout, copyin and copyinstr of vm.c (Lab3): copies between a kernel
    buffer and a user address space, page by page, as copies of the bytes the
    user sees. *)
From S2P Require Import Prelude Riscv Vm PageTable Mappings AddrSpace.

(** ** Definitions *)

Section defs.
Context {R : Riscv} {L : Allocator}.

(** What user code reads at [va]; [None] when the page is not the user's. *)
Definition ubyte (m : mem) (root va : Z) : option byte :=
  let e := entry m root va in
  if (0 <=? va) && (va <? MAXVA) && (has e PTE_V && has e PTE_U)
  then Some (m (PTE2PA e + va mod 4096)) else None.

(** The kernel buffer [a, a+n) lies outside the pages of the address space. *)
Definition off_user (s : vst) (root a n : Z) : Prop :=
  ∀ x, a <= x < a + n → ∀ va p, leaf s root va p → ¬ in_page p x.
Definition off_tables (T : tables) (a n : Z) : Prop :=
  ∀ x, a <= x < a + n → ∀ p, p ∈ dom T → ¬ in_page p x.
End defs.

Section user_copy.
Context {R : Riscv} {L : Allocator} {RL : RiscvLaws R} {AL : AllocatorLaws L}.
Implicit Types (m : mem) (T : tables) (s : vst).

(** ** Lemmas *)

Lemma ubyte_out m root va : va < 0 ∨ MAXVA <= va → ubyte m root va = None.
Proof using. intros H. unfold ubyte. zcases; done. Qed.
Lemma ubyte_some m root va : 0 <= va < MAXVA →
  ubyte m root va = if has (entry m root va) PTE_V && has (entry m root va) PTE_U
                    then Some (m (PTE2PA (entry m root va) + va mod 4096)) else None.
Proof using.
  intros H. unfold ubyte. by rewrite (proj2 (Z.leb_le _ _)), (proj2 (Z.ltb_lt _ _)) by lia.
Qed.

(** The page that walkaddr finds for an address of the page. *)
Lemma walkaddr_page root va s T :
  as_inv s root T → 0 <= va < 2 ^ 64 →
  ∃ pa, walkaddr root (PGROUNDDOWN va) s = Done pa s ∧
    (pa = 0 ∧ ubyte (vmem s) root va = None
     ∨ pa ≠ 0 ∧ va < MAXVA ∧ leaf s root va pa
       ∧ ∀ va', 0 <= va' < MAXVA → va' / 4096 = va / 4096 → ubyte (vmem s) root va' = Some (vmem s (pa + va' mod 4096))).
Proof.
  intros I Hva. pose proof maxva_range. pose proof maxva_page. rewrite pgrounddown_def by done.
  set (v0 := va / 4096 * 4096).
  assert (Hv0 : 0 <= v0 <= va ∧ v0 / 4096 = va / 4096) by (unfold v0; Z.to_euclidean_division_equations; lia).
  rewrite (walkaddr_run root v0 s T) by (apply I || lia). eexists. split; [done|].
  destruct (Z.leb_spec MAXVA v0) as [Hge|Hlt].
  { left. split; [done|]. apply ubyte_out. lia. }
  assert (Hvm : va < MAXVA) by (unfold v0 in Hlt; Z.to_euclidean_division_equations; lia).
  unfold upage. rewrite (entry_page _ root v0 va) by lia.
  destruct (has (entry (vmem s) root va) PTE_V) eqn:Hv; cbn [andb].
  2:{ left. split; [done|]. rewrite ubyte_some by lia. by rewrite Hv. }
  destruct (has (entry (vmem s) root va) PTE_U) eqn:Hu; cbn [andb].
  2:{ left. split; [done|]. rewrite ubyte_some by lia. by rewrite Hv, Hu. }
  right. assert (Hl : leaf s root va (PTE2PA (entry (vmem s) root va))) by (apply mapped_leaf; [lia|done]).
  destruct (ai_leaf _ _ _ I _ _ Hl) as (_ & (_ & ? & _) & _). split; [lia|]. split; [done|]. split; [done|].
  intros va' Hva' E. rewrite ubyte_some by done. rewrite (entry_page _ root va' va) by (done || lia). by rewrite Hv, Hu.
Qed.

(** A change of the contents of one page of the space. *)
Lemma user_write s root T va p m' :
  as_inv s root T → leaf s root va p → same_off {[p]} (vmem s) m' →
  as_inv (set_vmem m' s) root T ∧ same_entries s (set_vmem m' s) root.
Proof.
  intros I Hl Hoff. destruct (ai_leaf _ _ _ I _ _ Hl) as (_ & Hp & Hnf & HnT).
  destruct (ai_pt _ _ _ I) as [I1 D].
  destruct (table_same _ _ _ _ _ I1 Hoff) as (I2 & _ & He & _).
  { intros q ->%elem_of_singleton. done. }
  { clear -HnT. set_solver. }
  split; [|exact He]. eapply as_same; [done|by split|exact He|].
  intros va' q Hq. by destruct (ai_leaf _ _ _ I _ _ Hq) as (_ & _ & ? & ?).
Qed.

(** The user's view after [n] bytes from [src] are moved into its page. *)
Lemma user_chunk s root T va p src n :
  as_inv s root T → 0 <= va < MAXVA → leaf s root va p → 0 <= n → va mod 4096 + n <= 4096 →
  (∀ va', 0 <= va' < MAXVA → va' / 4096 = va / 4096 → ubyte (vmem s) root va' = Some (vmem s (p + va' mod 4096))) →
  let s' := set_vmem (memmove (vmem s) (p + va mod 4096) src n) s in
  as_inv s' root T ∧ same_entries s s' root ∧
  ∀ va', ubyte (vmem s') root va' =
    if (va <=? va') && (va' <? va + n) then Some (vmem s (src + (va' - va))) else ubyte (vmem s) root va'.
Proof.
  intros I Hva Hl Hn Hfit Hu s'. pose proof maxva_page.
  destruct (user_write s root T va p (memmove (vmem s) (p + va mod 4096) src n) I Hl) as [I' He].
  { apply same_off_memmove; [set_solver|Z.to_euclidean_division_equations; lia|lia]. }
  split; [done|]. split; [done|]. intros va'.
  destruct (decide (0 <= va' < MAXVA)) as [Hv'|Hv'].
  2:{ rewrite !ubyte_out by lia. zcases; try done. exfalso. Z.to_euclidean_division_equations; lia. }
  rewrite (ubyte_some _ _ va') by done. rewrite He by done. unfold s'. cbn [vmem set_vmem].
  destruct (decide (va' / 4096 = va / 4096)) as [E|E].
  - pose proof (Hu va' Hv' E) as Hub. rewrite ubyte_some in Hub by done.
    rewrite (Hu va' Hv' E).
    destruct (has (entry (vmem s) root va') PTE_V && has (entry (vmem s) root va') PTE_U); [|done].
    assert (PTE2PA (entry (vmem s) root va') = p) as ->.
    { rewrite (entry_page _ root va' va) by (done || lia). by destruct Hl as (_ & _ & ->). }
    destruct (decide (va <= va' < va + n)) as [Hin|Hout].
    + rewrite (proj2 (Z.leb_le _ _)), (proj2 (Z.ltb_lt _ _)) by lia. cbn [andb].
      rewrite memmove_in by (Z.to_euclidean_division_equations; lia).
      do 2 f_equal. Z.to_euclidean_division_equations; lia.
    + replace ((va <=? va') && (va' <? va + n)) with false by (symmetry; zcases; try done; lia).
      rewrite memmove_other; [done|]. Z.to_euclidean_division_equations; lia.
  - replace ((va <=? va') && (va' <? va + n)) with false
      by (symmetry; zcases; try done; exfalso; Z.to_euclidean_division_equations; lia).
    rewrite (ubyte_some _ _ va') by done.
    destruct (has (entry (vmem s) root va') PTE_V) eqn:Hv; [|done].
    destruct (has (entry (vmem s) root va') PTE_U); [|done]. cbn [andb].
    rewrite memmove_other; [done|].
    assert (Hl' : leaf s root va' (PTE2PA (entry (vmem s) root va'))) by by apply mapped_leaf.
    destruct (ai_leaf _ _ _ I _ _ Hl) as (_ & (Hp1 & _) & _), (ai_leaf _ _ _ I _ _ Hl') as (_ & (Hp2 & _) & _).
    assert (PTE2PA (entry (vmem s) root va') ≠ p) as Hne.
    { intros Ep. rewrite Ep in Hl'. apply E. exact (ai_inj _ _ _ I _ _ _ Hl' Hl). }
    Z.to_euclidean_division_equations; lia.
Qed.

(** The state after [k] bytes from [src] reached the user at [dstva]. *)
Record copied_out (s : vst) (T : tables) (root dstva src k : Z) (s' : vst) : Prop := {
  co_inv : as_inv s' root T;
  co_entries : same_entries s s' root;
  co_alloc : alloc s' = alloc s;
  co_mapped : ∀ i, 0 <= i < k → is_Some (ubyte (vmem s) root (dstva + i));
  co_user : ∀ va, ubyte (vmem s') root va =
    if (dstva <=? va) && (va <? dstva + k) then Some (vmem s (src + (va - dstva))) else ubyte (vmem s) root va;
  co_rest : ∀ x, (∀ va, is_Some (ubyte (vmem s) root va) → ¬ in_page (PTE2PA (entry (vmem s) root va)) x) →
    vmem s' x = vmem s x }.

Lemma ubyte_leaf s root va : is_Some (ubyte (vmem s) root va) → leaf s root va (PTE2PA (entry (vmem s) root va)).
Proof using.
  intros [b Hb]. destruct (decide (0 <= va < MAXVA)) as [Hva|?]; [|by rewrite ubyte_out in Hb by lia].
  rewrite ubyte_some in Hb by done. apply mapped_leaf; [done|]. by destruct (has _ PTE_V).
Qed.

Lemma copied_out_nil s T root dstva src : as_inv s root T → copied_out s T root dstva src 0 s.
Proof using.
  intros I. constructor; try done; [intros; lia|]. intros va. zcases; done.
Qed.

(** One turn and the rest. *)
Lemma copied_out_app s s1 s2 T root dstva src n k :
  0 <= n → 0 <= k → off_user s root src (n + k) →
  copied_out s T root dstva src n s1 → copied_out s1 T root (dstva + n) (src + n) k s2 →
  copied_out s T root dstva src (n + k) s2.
Proof using.
  intros Hn Hk Hoff [A1 A2 A3 A4 A5 A6] [B1 B2 B3 B4 B5 B6].
  constructor.
  - done.
  - intros va Hva. by rewrite B2, A2.
  - congruence.
  - intros i Hi. destruct (Z.ltb_spec i n) as [?|?]; [apply A4; lia|].
    specialize (B4 (i - n) ltac:(lia)). rewrite A5 in B4. replace (dstva + n + (i - n)) with (dstva + i) in B4 by lia.
    revert B4. zcases; intros; (done || lia).
  - intros va. rewrite B5, A5.
    destruct (decide (dstva + n <= va < dstva + n + k)) as [Hin|Hout].
    + rewrite (proj2 (Z.leb_le (dstva + n) va)), (proj2 (Z.ltb_lt va (dstva + n + k))),
        (proj2 (Z.leb_le dstva va)), (proj2 (Z.ltb_lt va (dstva + (n + k)))) by lia. cbn [andb].
      f_equal. rewrite A6; [f_equal; lia|]. intros va' Hs'. eapply Hoff; [lia|by apply ubyte_leaf].
    + zcases; (done || lia).
  - intros x Hx. rewrite B6, A6; [done|done|]. intros va Hs. rewrite A2 by apply (ubyte_leaf _ _ _ Hs).
    apply Hx. rewrite A5 in Hs. destruct (Z.leb_spec dstva va), (Z.ltb_spec va (dstva + n)); try exact Hs.
    replace va with (dstva + (va - dstva)) by lia. apply A4. lia.
Qed.

(** The number of turns left. *)
Definition turns (va len : Z) : nat := Z.to_nat ((va mod 4096 + len + 4095) / 4096).

Lemma copyout_loop_wp root T fuel dstva src len s :
  as_inv s root T → 0 <= dstva < 2 ^ 64 → 0 <= len → off_user s root src len →
  (turns dstva len < fuel)%nat →
  wp (copyout_loop fuel root dstva src len) (λ r s', ∃ k, 0 <= k <= len
     ∧ (r = 0 ∧ k = len ∨ r = -1 ∧ k < len ∧ ubyte (vmem s) root (dstva + k) = None)
     ∧ copied_out s T root dstva src k s') s.
Proof.
  revert dstva src len s. induction fuel as [|fuel IH]; intros dstva src len s I Hd Hlen Hoff Hf; [lia|].
  cbn [copyout_loop]. destruct (Z.ltb_spec 0 len) as [Hpos|Hz].
  2:{ apply wp_ret. exists 0. split; [lia|]. split; [left; split; [done|lia]|]. by apply copied_out_nil. }
  destruct (walkaddr_page root dstva s T I Hd) as (pa & E & Hpa). eapply wp_bind_done; [exact E|].
  destruct Hpa as [[-> Hn]|(Hne & Hmax & Hl & Hu)].
  { cbn. exists 0. split; [lia|]. split; [right; rewrite Z.add_0_r; split_and!; (done || lia)|].
    by apply copied_out_nil. }
  rewrite (proj2 (Z.eqb_neq pa 0)), pgsize_4096, pgrounddown_def by done.
  set (va0 := dstva / 4096 * 4096).
  assert (Hva0 : dstva - va0 = dstva mod 4096) by (unfold va0; Z.to_euclidean_division_equations; lia).
  rewrite Hva0. set (n := if len <? 4096 - dstva mod 4096 then len else 4096 - dstva mod 4096).
  pose proof (Z.mod_pos_bound dstva 4096 ltac:(lia)).
  assert (Hn : 0 < n <= len ∧ dstva mod 4096 + n <= 4096 ∧ (n = len ∨ dstva + n = va0 + 4096))
    by (unfold n; zcases; lia).
  destruct Hn as (Hn & Hfit & Hor). apply wp_bind, wp_modify.
  destruct (user_chunk s root T dstva pa src n I ltac:(lia) Hl ltac:(lia) Hfit Hu) as (I1 & He1 & Hub1).
  set (s1 := set_vmem (memmove (vmem s) (pa + dstva mod 4096) src n) s) in *.
  assert (C1 : copied_out s T root dstva src n s1).
  { constructor; try done.
    - intros i Hi. rewrite Hu; [done|..]; pose proof maxva_page; Z.to_euclidean_division_equations; lia.
    - intros x Hx. apply memmove_other. specialize (Hx dstva). rewrite (Hu dstva), (proj2 (proj2 Hl)) in Hx by lia.
      specialize (Hx ltac:(eauto)). unfold in_page in Hx. lia. }
  pose proof maxva_range. pose proof maxva_page. rewrite u64_small by (unfold va0; Z.to_euclidean_division_equations; lia).
  assert (Hoff1 : off_user s1 root (src + n) (len - n)).
  { intros x Hx va p Hlp. apply (leaf_same _ _ _ _ _ He1) in Hlp. eapply Hoff; [|exact Hlp]. lia. }
  destruct Hor as [Hall|Hnext].
  - destruct fuel as [|fuel']; [exfalso; unfold turns in Hf; Z.to_euclidean_division_equations; lia|].
    cbn [copyout_loop]. rewrite (proj2 (Z.ltb_ge 0 (len - n))) by lia. apply wp_ret.
    exists len. split; [lia|]. split; [by left|]. by rewrite <- Hall.
  - rewrite <- Hnext. eapply wp_mono; [apply (IH (dstva + n) (src + n) (len - n) s1 I1)|]; try done; try lia.
    + unfold turns in *. rewrite Hnext. unfold va0 in *. Z.to_euclidean_division_equations; lia.
    + intros r s' (k & Hk & Hr & C2). exists (n + k). split; [lia|]. split.
      * destruct Hr as [[-> ->]|(-> & ? & Hnone)]; [left; split; [done|lia]|right].
        split; [done|]. split; [lia|]. rewrite Hub1 in Hnone. rewrite Z.add_assoc.
        revert Hnone. zcases; intros; (done || lia).
      * eapply copied_out_app; [lia|lia| |done|done]. intros x Hx. apply Hoff. lia.
Qed.

Lemma turns_fuel va len : 0 <= len → (turns va len < S (S (Z.to_nat (len / 4096 + 1))))%nat.
Proof using. intros Hl. unfold turns. Z.to_euclidean_division_equations; lia. Qed.

(** *** copyin *)

Lemma kernel_write s root T m' :
  as_inv s root T → (∀ p x, p ∈ dom T → in_page p x → m' x = vmem s x) →
  as_inv (set_vmem m' s) root T ∧ same_entries s (set_vmem m' s) root.
Proof.
  intros I Hm. destruct (ai_pt _ _ _ I) as [I1 D].
  assert (Hall : ∀ p x i, T !! p = Some x → 0 <= i < 512 → load64 m' (p + 8 * i) = load64 (vmem s) (p + 8 * i)).
  { intros p x i Hp Hi. apply load64_ext. intros y Hy. apply (Hm p); [by eapply elem_of_dom_2|].
    unfold in_page. lia. }
  assert (Hint : interior_same T (vmem s) m') by (intros p l pre i Hp Hi; by eapply Hall).
  assert (He : same_entries s (set_vmem m' s) root).
  { intros va Hva. unfold entry. cbn [vmem set_vmem]. rewrite (slot_ext _ _ _ _ _ I1 Hint Hva).
    destruct (slot (vmem s) root va) as [a|] eqn:Ha; [|done].
    destruct (slot_table _ _ _ _ _ I1 Hva Ha) as (q & Hq & ->). eapply Hall; [done|by apply px_range]. }
  split; [|exact He]. eapply as_same; [done|split; [by eapply pt_ok_ext|done]|exact He|].
  intros va p Hl. by destruct (ai_leaf _ _ _ I _ _ Hl) as (_ & _ & ? & ?).
Qed.

(** The state after [k] bytes of the user's at [srcva] reached [dst]. *)
Record copied_in (s : vst) (T : tables) (root dst srcva k : Z) (s' : vst) : Prop := {
  ci_inv : as_inv s' root T;
  ci_entries : same_entries s s' root;
  ci_alloc : alloc s' = alloc s;
  ci_bytes : ∀ i, 0 <= i < k → ubyte (vmem s) root (srcva + i) = Some (vmem s' (dst + i));
  ci_rest : ∀ x, x < dst ∨ dst + k <= x → vmem s' x = vmem s x }.

(** What the user reads does not change when the buffer is off its pages. *)
Lemma ubyte_off s s' root dst k :
  same_entries s s' root → off_user s root dst k →
  (∀ x, x < dst ∨ dst + k <= x → vmem s' x = vmem s x) →
  ∀ va, ubyte (vmem s') root va = ubyte (vmem s) root va.
Proof using.
  intros He Hoff Hr va. destruct (decide (0 <= va < MAXVA)) as [Hva|]; [|by rewrite !ubyte_out by lia].
  rewrite !ubyte_some by done. rewrite (He va Hva).
  destruct (has (entry (vmem s) root va) PTE_V) eqn:Hv; [|done].
  destruct (has (entry (vmem s) root va) PTE_U); [|done]. cbn [andb]. f_equal. apply Hr.
  assert (Hl : leaf s root va (PTE2PA (entry (vmem s) root va))) by (split; [done|by split]).
  set (x := PTE2PA (entry (vmem s) root va) + va mod 4096).
  destruct (decide (dst <= x < dst + k)) as [Hin|]; [|lia]. exfalso.
  apply (Hoff x Hin _ _ Hl). unfold in_page, x. pose proof (Z.mod_pos_bound va 4096 ltac:(lia)). lia.
Qed.

Lemma copyin_loop_wp root T fuel dst srcva len s :
  as_inv s root T → 0 <= srcva < 2 ^ 64 → 0 <= len → off_user s root dst len → off_tables T dst len →
  (turns srcva len < fuel)%nat →
  wp (copyin_loop fuel root dst srcva len) (λ r s', ∃ k, 0 <= k <= len
     ∧ (r = 0 ∧ k = len ∨ r = -1 ∧ k < len ∧ ubyte (vmem s) root (srcva + k) = None)
     ∧ copied_in s T root dst srcva k s') s.
Proof.
  revert dst srcva len s. induction fuel as [|fuel IH]; intros dst srcva len s I Hd Hlen Hoff HoffT Hf; [lia|].
  assert (Hnil : copied_in s T root dst srcva 0 s) by (constructor; try done; intros; lia).
  cbn [copyin_loop]. destruct (Z.ltb_spec 0 len) as [Hpos|Hz].
  2:{ apply wp_ret. exists 0. split; [lia|]. split; [left; split; [done|lia]|done]. }
  destruct (walkaddr_page root srcva s T I Hd) as (pa & E & Hpa). eapply wp_bind_done; [exact E|].
  destruct Hpa as [[-> Hn]|(Hne & Hmax & Hl & Hu)].
  { cbn. exists 0. split; [lia|]. split; [right; rewrite Z.add_0_r; split_and!; (done || lia)|done]. }
  rewrite (proj2 (Z.eqb_neq pa 0)), pgsize_4096, pgrounddown_def by done.
  set (va0 := srcva / 4096 * 4096).
  assert (Hva0 : srcva - va0 = srcva mod 4096) by (unfold va0; Z.to_euclidean_division_equations; lia).
  rewrite Hva0. set (n := if len <? 4096 - srcva mod 4096 then len else 4096 - srcva mod 4096).
  pose proof (Z.mod_pos_bound srcva 4096 ltac:(lia)). pose proof maxva_page. pose proof maxva_range.
  assert (Hn : 0 < n <= len ∧ srcva mod 4096 + n <= 4096 ∧ (n = len ∨ srcva + n = va0 + 4096))
    by (unfold n; zcases; lia).
  destruct Hn as (Hn & Hfit & Hor). apply wp_bind, wp_modify.
  set (s1 := set_vmem (memmove (vmem s) dst (pa + srcva mod 4096) n) s).
  assert (Hrest1 : ∀ x, x < dst ∨ dst + n <= x → vmem s1 x = vmem s x) by (intros; by apply memmove_other).
  destruct (kernel_write s root T (vmem s1) I) as [I1 He1].
  { intros p x Hp Hx. apply memmove_other. destruct (decide (dst <= x < dst + n)); [|lia]. exfalso.
    apply (HoffT x ltac:(lia) p Hp Hx). }
  assert (Hub1 : ∀ va, ubyte (vmem s1) root va = ubyte (vmem s) root va).
  { apply (ubyte_off s s1 root dst n He1); [|done]. intros x Hx. apply Hoff. lia. }
  assert (Hb1 : ∀ i, 0 <= i < n → ubyte (vmem s) root (srcva + i) = Some (vmem s1 (dst + i))).
  { intros i Hi. rewrite Hu by (Z.to_euclidean_division_equations; lia). unfold s1. cbn [vmem set_vmem].
    rewrite memmove_in by lia. do 2 f_equal. Z.to_euclidean_division_equations; lia. }
  assert (Hoff1 : off_user s1 root (dst + n) (len - n)).
  { intros x Hx va p Hlp. apply (leaf_same _ _ _ _ _ He1) in Hlp. eapply Hoff; [|exact Hlp]. lia. }
  rewrite u64_small by (unfold va0; Z.to_euclidean_division_equations; lia).
  destruct Hor as [Hall|Hnext].
  - destruct fuel as [|fuel']; [exfalso; unfold turns in Hf; Z.to_euclidean_division_equations; lia|].
    cbn [copyin_loop]. rewrite (proj2 (Z.ltb_ge 0 (len - n))) by lia. apply wp_ret.
    exists len. split; [lia|]. split; [by left|]. rewrite <- Hall in *. constructor; done.
  - rewrite <- Hnext. eapply wp_mono; [apply (IH (dst + n) (srcva + n) (len - n) s1 I1)|]; try done; try lia.
    + intros x Hx. apply HoffT. lia.
    + unfold turns in *. rewrite Hnext. unfold va0 in *. Z.to_euclidean_division_equations; lia.
    + intros r s' (k & Hk & Hr & [C1 C2 C3 C4 C5]). exists (n + k). split; [lia|]. split.
      * destruct Hr as [[-> ->]|(-> & ? & Hnone)]; [left; split; [done|lia]|right].
        split; [done|]. split; [lia|]. rewrite Hub1 in Hnone. by rewrite Z.add_assoc.
      * constructor; [done| |by rewrite C3|..].
        -- intros va Hva. by rewrite C2, He1.
        -- intros i Hi. destruct (Z.ltb_spec i n) as [?|?].
           ++ rewrite Hb1 by lia. by rewrite C5 by lia.
           ++ specialize (C4 (i - n) ltac:(lia)). rewrite Hub1 in C4.
              replace (srcva + i) with (srcva + n + (i - n)) by lia.
              by replace (dst + i) with (dst + n + (i - n)) by lia.
        -- intros x Hx. rewrite C5 by lia. apply Hrest1. lia.
Qed.

(** *** copyinstr *)

Lemma copy_bytes_run n p max dst s :
  (∀ x y, p <= x < p + Z.of_nat n → dst <= y < dst + Z.of_nat n → x ≠ y) →
  ∃ k got m', 0 <= k <= Z.of_nat n
    ∧ copy_bytes n p max dst s = Done (got, max - k, dst + k) (set_vmem m' s)
    ∧ (∀ i, 0 <= i < k → vmem s (p + i) ≠ x00 ∧ m' (dst + i) = vmem s (p + i))
    ∧ (if got : bool then k < Z.of_nat n ∧ vmem s (p + k) = x00 ∧ m' (dst + k) = x00
       else k = Z.of_nat n)
    ∧ ∀ x, x < dst ∨ dst + Z.of_nat n <= x → m' x = vmem s x.
Proof using.
  revert p max dst s. induction n as [|n IH]; intros p max dst s Hsep.
  { exists 0, false, (vmem s). rewrite Z.sub_0_r, Z.add_0_r. destruct s. cbn.
    split; [lia|]. split; [done|]. split; [intros; lia|]. done. }
  cbn [copy_bytes]. run. case_bool_decide as Hb; run.
  - exists 0, true, (store8 (vmem s) dst x00). rewrite Z.sub_0_r, !Z.add_0_r.
    split; [lia|]. split; [done|]. split; [intros; lia|]. split.
    + split; [lia|]. split; [done|]. unfold store8. by rewrite Z.eqb_refl.
    + intros x Hx. unfold store8. by rewrite (proj2 (Z.eqb_neq _ _)) by lia.
  - set (s1 := set_vmem (store8 (vmem s) dst (vmem s p)) s).
    assert (Hs1 : ∀ x, x ≠ dst → vmem s1 x = vmem s x).
    { intros x Hx. unfold s1, store8. cbn. by rewrite (proj2 (Z.eqb_neq _ _)). }
    destruct (IH (p + 1) (max - 1) (dst + 1) s1) as (k & got & m' & Hk & E & Hc & Hg & Hr).
    { intros x y Hx Hy. apply Hsep; lia. }
    exists (k + 1), got, m'. split; [lia|]. split.
    { rewrite E. replace (max - 1 - k) with (max - (k + 1)) by lia. by replace (dst + 1 + k) with (dst + (k + 1)) by lia. }
    split; [|split].
    + intros i Hi. destruct (decide (i = 0)) as [->|Hi0].
      * rewrite !Z.add_0_r. split; [done|]. rewrite Hr by lia. unfold s1, store8. cbn. by rewrite Z.eqb_refl.
      * destruct (Hc (i - 1) ltac:(lia)) as [H1 H2].
        replace (p + 1 + (i - 1)) with (p + i) in H1, H2 by lia.
        replace (dst + 1 + (i - 1)) with (dst + i) in H2 by lia.
        rewrite Hs1 in H1, H2 by (apply Hsep; lia). done.
    + destruct got; [|lia]. destruct Hg as (Hg1 & Hg2 & Hg3).
      replace (p + 1 + k) with (p + (k + 1)) in Hg2 by lia. replace (dst + 1 + k) with (dst + (k + 1)) in Hg3 by lia.
      rewrite Hs1 in Hg2 by (apply Hsep; lia). split; [lia|done].
    + intros x Hx. rewrite Hr by lia. apply Hs1. lia.
Qed.

(** The user's bytes [srcva, srcva+k) are there, hold no NUL and are at [dst]. *)
Definition copied_str (s s' : vst) (root dst srcva k : Z) : Prop :=
  ∀ i, 0 <= i < k → ∃ b, ubyte (vmem s) root (srcva + i) = Some b ∧ b ≠ x00 ∧ vmem s' (dst + i) = b.

Lemma copyinstr_loop_wp root T fuel dst srcva max s :
  as_inv s root T → 0 <= srcva < 2 ^ 64 → 0 <= max → off_user s root dst max → off_tables T dst max →
  (turns srcva max < fuel)%nat →
  wp (copyinstr_loop fuel root dst srcva max) (λ r s', ∃ k, 0 <= k <= max ∧ copied_str s s' root dst srcva k
     ∧ (r = 0 ∧ k < max ∧ ubyte (vmem s) root (srcva + k) = Some x00 ∧ vmem s' (dst + k) = x00
        ∨ r = -1 ∧ (k = max ∨ ubyte (vmem s) root (srcva + k) = None))
     ∧ as_inv s' root T ∧ same_entries s s' root ∧ alloc s' = alloc s
     ∧ ∀ x, x < dst ∨ dst + max <= x → vmem s' x = vmem s x) s.
Proof.
  revert dst srcva max s. induction fuel as [|fuel IH]; intros dst srcva max s I Hd Hlen Hoff HoffT Hf; [lia|].
  cbn [copyinstr_loop]. destruct (Z.ltb_spec 0 max) as [Hpos|Hz].
  2:{ apply wp_ret. exists 0. split; [lia|]. split; [intros i Hi; lia|]. split; [right; split; [done|left; lia]|]. done. }
  destruct (walkaddr_page root srcva s T I Hd) as (pa & E & Hpa). eapply wp_bind_done; [exact E|].
  destruct Hpa as [[-> Hn]|(Hne & Hmax & Hl & Hu)].
  { cbn. exists 0. split; [lia|]. split; [intros i Hi; lia|].
    split; [right; rewrite Z.add_0_r; split; [done|by right]|done]. }
  rewrite (proj2 (Z.eqb_neq pa 0)), pgsize_4096, pgrounddown_def by done.
  set (va0 := srcva / 4096 * 4096).
  assert (Hva0 : srcva - va0 = srcva mod 4096) by (unfold va0; Z.to_euclidean_division_equations; lia).
  rewrite Hva0. set (n := if max <? 4096 - srcva mod 4096 then max else 4096 - srcva mod 4096).
  pose proof (Z.mod_pos_bound srcva 4096 ltac:(lia)). pose proof maxva_page. pose proof maxva_range.
  assert (Hn : 0 < n <= max ∧ srcva mod 4096 + n <= 4096 ∧ (n = max ∨ srcva + n = va0 + 4096))
    by (unfold n; zcases; lia).
  destruct Hn as (Hn & Hfit & Hor).
  assert (Hnn : Z.of_nat (Z.to_nat n) = n) by lia.
  destruct (copy_bytes_run (Z.to_nat n) (pa + srcva mod 4096) max dst s) as (k & got & m1 & Hk & E1 & Hc & Hg & Hr).
  { rewrite Hnn. intros x y Hx Hy ->. apply (Hoff y ltac:(lia) _ _ Hl). unfold in_page. lia. }
  rewrite Hnn in Hk, Hg, Hr. eapply wp_bind_done; [exact E1|]. cbv beta iota.
  set (s1 := set_vmem m1 s).
  destruct (kernel_write s root T m1 I) as [I1 He1].
  { intros p x Hp Hx. apply Hr. destruct (decide (dst <= x < dst + n)); [|lia]. exfalso.
    apply (HoffT x ltac:(lia) p Hp Hx). }
  assert (Hub : ∀ i, 0 <= i < n → ubyte (vmem s) root (srcva + i) = Some (vmem s (pa + srcva mod 4096 + i))).
  { intros i Hi. rewrite Hu by (Z.to_euclidean_division_equations; lia).
    do 2 f_equal. Z.to_euclidean_division_equations; lia. }
  assert (C1 : copied_str s s1 root dst srcva k).
  { intros i Hi. destruct (Hc i Hi) as [Hc1 Hc2]. eexists. split; [apply Hub; lia|]. split; [done|]. by rewrite <- Hc2. }
  destruct got.
  { destruct Hg as (Hg1 & Hg2 & Hg3). apply wp_ret. exists k. split; [lia|]. split; [done|]. split.
    - left. split; [done|]. split; [lia|]. rewrite Hub by lia. by rewrite Hg2.
    - split; [done|]. split; [done|]. split; [done|]. intros x Hx. apply Hr. lia. }
  subst k. rewrite u64_small by (unfold va0; Z.to_euclidean_division_equations; lia).
  assert (Hub1 : ∀ va, ubyte (vmem s1) root va = ubyte (vmem s) root va).
  { apply (ubyte_off s s1 root dst n He1); [|done]. intros x Hx. apply Hoff. lia. }
  assert (Hoff1 : off_user s1 root (dst + n) (max - n)).
  { intros x Hx va p Hlp. apply (leaf_same _ _ _ _ _ He1) in Hlp. eapply Hoff; [|exact Hlp]. lia. }
  destruct Hor as [Hall|Hnext].
  - destruct fuel as [|fuel']; [exfalso; unfold turns in Hf; Z.to_euclidean_division_equations; lia|].
    cbn [copyinstr_loop]. rewrite (proj2 (Z.ltb_ge 0 (max - n))) by lia. apply wp_ret.
    exists n. split; [lia|]. split; [done|]. split; [right; split; [done|by left]|].
    split; [done|]. split; [done|]. split; [done|]. intros x Hx. apply Hr. lia.
  - rewrite <- Hnext. eapply wp_mono; [apply (IH (dst + n) (srcva + n) (max - n) s1 I1)|]; try done; try lia.
    + intros x Hx. apply HoffT. lia.
    + unfold turns in *. rewrite Hnext. unfold va0 in *. Z.to_euclidean_division_equations; lia.
    + intros r s' (k & Hk' & Hcs & Hr' & I' & He' & Ha' & Hx').
      exists (n + k). split; [lia|]. split; [|split; [|split; [done|split; [|split]]]].
      * intros i Hi. destruct (Z.ltb_spec i n) as [?|?].
        -- destruct (C1 i ltac:(lia)) as (b & Hb1 & Hb2 & Hb3). exists b. rewrite Hx' by lia. done.
        -- destruct (Hcs (i - n) ltac:(lia)) as (b & Hb1 & Hb2 & Hb3). exists b. rewrite Hub1 in Hb1.
           replace (srcva + i) with (srcva + n + (i - n)) by lia.
           by replace (dst + i) with (dst + n + (i - n)) by lia.
      * rewrite Hub1 in Hr'. rewrite !Z.add_assoc.
        destruct Hr' as [(-> & Hlt & Hu1 & Hu2)|(-> & Hu1)]; [left|right; split; [done|]].
        -- split; [done|]. split; [lia|done].
        -- destruct Hu1 as [->|Hu1]; [left; lia|by right].
      * intros va Hva. by rewrite He', He1.
      * by rewrite Ha'.
      * intros x Hx. rewrite Hx' by lia. apply Hr. lia.
Qed.

(** The two calls, with their fuel. *)
Lemma copyout_wp root dstva src len s T : as_inv s root T → 0 <= dstva < 2 ^ 64 → 0 <= len → off_user s root src len →
  wp (copyout root dstva src len) (λ r s', ∃ k, 0 <= k <= len
     ∧ (r = 0 ∧ k = len ∨ r = -1 ∧ k < len ∧ ubyte (vmem s) root (dstva + k) = None)
     ∧ copied_out s T root dstva src k s') s.
Proof.
  intros I Hva Hlen Hoff. unfold copyout. rewrite pgsize_4096.
  apply copyout_loop_wp; [done..|by apply turns_fuel].
Qed.
Lemma copyin_wp root dst srcva len s T : as_inv s root T → 0 <= srcva < 2 ^ 64 → 0 <= len →
  off_user s root dst len → off_tables T dst len →
  wp (copyin root dst srcva len) (λ r s', ∃ k, 0 <= k <= len
     ∧ (r = 0 ∧ k = len ∨ r = -1 ∧ k < len ∧ ubyte (vmem s) root (srcva + k) = None)
     ∧ copied_in s T root dst srcva k s') s.
Proof.
  intros I Hva Hlen Hoff HoffT. unfold copyin. rewrite pgsize_4096.
  apply copyin_loop_wp; [done..|by apply turns_fuel].
Qed.
End user_copy.

(** ** Properties *)

(** copyout and copyin are inverse: when copyout of [len] bytes to
    [dstva] answers 0, a copyin of as many bytes from [dstva] into any kernel
    buffer off the tables and the user's pages answers 0, and the buffer then
    holds the bytes that were copied out; neither changes an entry. *)
Theorem copyout_copyin `{R : Riscv, L : Allocator} {RL : RiscvLaws R} {AL : AllocatorLaws L}
  (root dstva src dst len : Z) (s s1 : vst) (T : tables) (I : as_inv s root T)
  (Hva : 0 <= dstva < 2 ^ 64) (Hlen : 0 <= len)
  (Hsrc : off_user s root src len) (Hdst : off_user s root dst len) (HdstT : off_tables T dst len)
  (Hrun : copyout root dstva src len s = Done 0 s1) :
  same_entries s s1 root ∧
  ∃ s2, copyin root dst dstva len s1 = Done 0 s2 ∧ same_entries s1 s2 root
    ∧ ∀ i, 0 <= i < len → vmem s2 (dst + i) = vmem s (src + i).
Proof.
  destruct (proj1 (wp_done _ _ _) (copyout_wp root dstva src len s T I Hva Hlen Hsrc)) as (r & s' & E & k & Hk & Hor & C).
  rewrite E in Hrun. injection Hrun as -> ->.
  destruct Hor as [[_ ->]|(? & _)]; [|done]. destruct C as [C1 C2 C3 C4 C5 C6]. split; [done|].
  assert (Hdst1 : off_user s1 root dst len).
  { intros x Hx va p Hl. apply (leaf_same _ _ _ _ _ C2) in Hl. by eapply Hdst. }
  destruct (proj1 (wp_done _ _ _) (copyin_wp root dst dstva len s1 T C1 Hva Hlen Hdst1 HdstT))
    as (r & s2 & E2 & k & Hk2 & Hor & [D1 D2 D3 D4 D5]).
  exists s2. rewrite E2.
  destruct Hor as [[-> ->]|(_ & Hlt & Hnone)].
  - split; [done|]. split; [done|]. intros i Hi. specialize (D4 i Hi). rewrite C5 in D4.
    rewrite (proj2 (Z.leb_le _ _)), (proj2 (Z.ltb_lt _ _)) in D4 by lia. cbn [andb] in D4.
    replace (dstva + i - dstva) with i in D4 by lia. congruence.
  - rewrite C5, (proj2 (Z.leb_le _ _)), (proj2 (Z.ltb_lt _ _)) in Hnone by lia. discriminate Hnone.
Qed.

Lemma copyout_copyin_witness :
  let s := set_vmem (store64 (vmem sample_user) 0x100 0xabcdef) sample_user in
  ∃ s1 s2, @copyout sv39 page_stack sample_root 0x20 0x100 3 s = Done 0 s1
    ∧ @copyin sv39 page_stack sample_root 0x200 0x20 3 s1 = Done 0 s2
    ∧ vmem s2 0x201 = xcd.
Proof.
  intros s. destruct sample_user_as as (T & I & Hl & HT).
  assert (Is : @as_inv sv39 page_stack s sample_root T
    ∧ @same_entries sv39 page_stack sample_user s sample_root).
  { apply (@kernel_write sv39 page_stack sv39_laws sample_user sample_root T _ I).
    intros p x Hp Hx. apply store64_other. specialize (HT p Hp). unfold in_page in Hx. lia. }
  destruct Is as [Is He].
  assert (Hoff : ∀ a n, a + n <= 0x10000 → @off_user sv39 page_stack s sample_root a n).
  { intros a n Hn x Hx va p Hlp. apply (@leaf_same sv39 page_stack _ _ _ va p He) in Hlp.
    specialize (Hl _ _ Hlp). unfold in_page. lia. }
  set (s1 := after (@copyout sv39 page_stack sample_root 0x20 0x100 3 s) s).
  assert (E : @copyout sv39 page_stack sample_root 0x20 0x100 3 s = Done 0 s1)
    by (apply after_run; vm_compute; reflexivity).
  destruct (@copyout_copyin sv39 page_stack sv39_laws page_stack_laws sample_root 0x20 0x100 0x200 3
    s s1 T Is) as (_ & s2 & E2 & _ & Hb); try lia.
  - apply Hoff. lia.
  - apply Hoff. lia.
  - intros x Hx p Hp Hin. specialize (HT p Hp). unfold in_page in Hin. lia.
  - exact E.
  - exists s1, s2. split; [exact E|]. split; [exact E2|].
    pose proof (Hb 1 ltac:(lia)) as H1. change (0x200 + 1) with 0x201 in H1. rewrite H1.
    vm_compute. reflexivity.
Defined.

(** C22.  copyout, on every branch: it copies up to the first byte whose page
    is not mapped for the user, answering -1, or all [len] bytes, answering 0;
    the user then reads the copied bytes there and what he read before
    everywhere else, and no memory outside his pages has changed. *)
Theorem copyout_spec `{R : Riscv, L : Allocator} {RL : RiscvLaws R} {AL : AllocatorLaws L}
  (root dstva src len : Z) (s : vst) (T : tables) (I : as_inv s root T)
  (Hva : 0 <= dstva < 2 ^ 64) (Hlen : 0 <= len) (Hsrc : off_user s root src len) :
  ∃ r s' k, copyout root dstva src len s = Done r s' ∧ 0 <= k <= len
    ∧ (r = 0 ∧ k = len ∨ r = -1 ∧ k < len ∧ ubyte (vmem s) root (dstva + k) = None)
    ∧ copied_out s T root dstva src k s'.
Proof.
  destruct (proj1 (wp_done _ _ _) (copyout_wp root dstva src len s T I Hva Hlen Hsrc)) as (r & s' & E & k & H).
  exists r, s', k. tauto.
Qed.

Lemma copyout_spec_witness :
  ∃ s', @copyout sv39 page_stack sample_root 0xffe 0x100 4 sample_user = Done (-1) s'.
Proof.
  destruct sample_user_as as (T & I & Hl & HT).
  destruct (@copyout_spec sv39 page_stack sv39_laws page_stack_laws sample_root 0xffe 0x100 4
    sample_user T I) as (r & s' & k & E & _); try lia.
  - intros x Hx va p Hlp. specialize (Hl _ _ Hlp). unfold in_page. lia.
  - assert (Hv : value (@copyout sv39 page_stack sample_root 0xffe 0x100 4 sample_user) = Some (-1))
      by (vm_compute; reflexivity).
    rewrite E in Hv. injection Hv as ->. exists s'. exact E.
Defined.

(** C23.  copyinstr answers 0 exactly when a NUL is among the first [max] bytes
    the user has at [srcva], all before it being mapped: the buffer then holds
    the string with its NUL.  Otherwise it answers -1: the user's bytes end
    before a NUL, or [max] bytes held none.  Nothing outside the buffer changes. *)
Theorem copyinstr_spec `{R : Riscv, L : Allocator} {RL : RiscvLaws R} {AL : AllocatorLaws L}
  (root dst srcva max : Z) (s : vst) (T : tables) (I : as_inv s root T)
  (Hva : 0 <= srcva < 2 ^ 64) (Hmax : 0 <= max)
  (Hdst : off_user s root dst max) (HdstT : off_tables T dst max) :
  ∃ r s' k, copyinstr root dst srcva max s = Done r s' ∧ 0 <= k <= max
    ∧ copied_str s s' root dst srcva k
    ∧ (r = 0 ∧ k < max ∧ ubyte (vmem s) root (srcva + k) = Some x00 ∧ vmem s' (dst + k) = x00
       ∨ r = -1 ∧ (k = max ∨ ubyte (vmem s) root (srcva + k) = None))
    ∧ same_entries s s' root ∧ ∀ x, x < dst ∨ dst + max <= x → vmem s' x = vmem s x.
Proof.
  destruct (proj1 (wp_done _ _ _) (copyinstr_loop_wp root T _ dst srcva max s I Hva Hmax Hdst HdstT
    (turns_fuel srcva max Hmax))) as (r & s' & E & k & H).
  exists r, s', k. unfold copyinstr. rewrite pgsize_4096, E. tauto.
Qed.

Lemma copyinstr_spec_witness :
  ∃ s', @copyinstr sv39 page_stack sample_root 0x100 0x40 16 sample_user = Done 0 s'.
Proof.
  destruct sample_user_as as (T & I & Hl & HT).
  destruct (@copyinstr_spec sv39 page_stack sv39_laws page_stack_laws sample_root 0x100 0x40 16
    sample_user T I) as (r & s' & k & E & _); try lia.
  - intros x Hx va p Hlp. specialize (Hl _ _ Hlp). unfold in_page. lia.
  - intros x Hx p Hp Hin. specialize (HT p Hp). unfold in_page in Hin. lia.
  - assert (Hv : value (@copyinstr sv39 page_stack sample_root 0x100 0x40 16 sample_user) = Some 0)
      by (vm_compute; reflexivity).
    rewrite E in Hv. injection Hv as ->. exists s'. exact E.
Defined.

(** copyout does not look at the W flag: a page the user may only read
    (such as the one proc_pagetable maps at USYSCALL with R and U) is written,
    and the answer is 0. *)
Theorem copyout_readonly `{R : Riscv, L : Allocator} {RL : RiscvLaws R} {AL : AllocatorLaws L}
  (root va src : Z) (s : vst) (T : tables) (I : as_inv s root T)
  (Hva : 0 <= va < MAXVA) (Hsrc : off_user s root src 1)
  (HV : has (entry (vmem s) root va) PTE_V = true) (HU : has (entry (vmem s) root va) PTE_U = true)
  (HW : has (entry (vmem s) root va) PTE_W = false) :
  ∃ s', copyout root va src 1 s = Done 0 s' ∧ ubyte (vmem s') root va = Some (vmem s src)
    ∧ has (entry (vmem s') root va) PTE_W = false.
Proof.
  pose proof maxva_range.
  destruct (proj1 (wp_done _ _ _) (copyout_wp root va src 1 s T I ltac:(lia) ltac:(lia) Hsrc))
    as (r & s' & E & k & Hk & Hor & [C1 C2 C3 C4 C5 C6]).
  exists s'. rewrite E.
  destruct Hor as [[-> ->]|(_ & Hlt & Hnone)].
  - split; [done|]. rewrite C5, Z.leb_refl, (proj2 (Z.ltb_lt _ _)), Z.sub_diag, Z.add_0_r by lia.
    split; [done|]. by rewrite C2.
  - assert (k = 0) as -> by lia. rewrite Z.add_0_r, ubyte_some, HV, HU in Hnone by done. done.
Qed.

Lemma copyout_readonly_witness :
  let s := after (@uvmalloc sv39 page_stack sample_root 0 0x1000 0 sample_vst) sample_vst in
  ∃ T s', @as_inv sv39 page_stack s sample_root T
    ∧ @copyout sv39 page_stack sample_root 0x30 0x100 1 s = Done 0 s'.
Proof.
  intros s. destruct (@uvmalloc_grown sv39 page_stack sv39_laws page_stack_laws sample_root 0 0x1000 0
    sample_vst sample_T sample_as) as (r & s1 & T & E & H); try lia.
  - discriminate.
  - intros va Hva. apply sample_entry. change (0 <= va < 4096) in Hva. lia.
  - assert (Hv : value (@uvmalloc sv39 page_stack sample_root 0 0x1000 0 sample_vst) = Some 0x1000)
      by (vm_compute; reflexivity).
    rewrite E in Hv. injection Hv as ->. destruct H as [[_ G]|[H _]]; [|discriminate H].
    assert (Es : s = s1) by (unfold s; by rewrite E). rewrite <- Es in G. exists T.
    destruct (@copyout_readonly sv39 page_stack sv39_laws page_stack_laws sample_root 0x30 0x100 s T
      (gr_inv _ _ _ _ _ _ _ _ G)) as (s' & E' & _).
    + split; [lia|reflexivity].
    + intros x Hx va p Hl. assert (0x10000 <= p); [|unfold in_page; lia].
      apply (sample_owned _ T _ (gr_owned _ _ _ _ _ _ _ _ G)). right; right. by exists va.
    + vm_compute. reflexivity.
    + vm_compute. reflexivity.
    + vm_compute. reflexivity.
    + exists s'. split; [exact (gr_inv _ _ _ _ _ _ _ _ G)|exact E'].
Defined.
