(* ===== verification/FreeWalk.v ===== *)
(** freewalk and uvmfree of vm.c (Lab3): a page table without leaves gives
    back every one of its pages, and freeing an address space gives back every
    page it had. *)
From S2P Require Import Prelude Riscv Vm PageTable Mappings AddrSpace.

(** ** Definitions *)

(** The table [(l', pre')] serves a part of the address space of [(l, pre)]. *)
Definition within (l : nat) (pre : Z) (x : nat * Z) : Prop :=
  (x.1 <= l)%nat ∧ x.2 / 512 ^ Z.of_nat (l - x.1) = pre.
#[export] Instance within_dec l pre x : Decision (within l pre x).
Proof. unfold within. apply _. Defined.

Section free_walk.
Context {R : Riscv} {L : Allocator} {RL : RiscvLaws R} {AL : AllocatorLaws L}.
Implicit Types (m : mem) (T : tables) (s : vst).

(** The tables of the subtree of [(l, pre)]; those below the entries [0, i) of
    a table of level [S l]. *)
Definition sub T l pre : gset Z := dom (filter (λ kx, within l pre kx.2) T).
Definition part T l pre (i : Z) : gset Z :=
  dom (filter (λ kx : Z * (nat * Z), (kx.2.1 <= l)%nat ∧
    pre * 512 <= kx.2.2 / 512 ^ Z.of_nat (l - kx.2.1) < pre * 512 + i) T).

(** No entry of level 0 is valid. *)
Definition no_leaf m T : Prop := ∀ q pre i, T !! q = Some (0%nat, pre) → 0 <= i < 512 →
  has (load64 m (q + 8 * i)) PTE_V = false.

(** ** Lemmas: subtrees *)

Lemma elem_of_sub T l pre q : q ∈ sub T l pre ↔ ∃ x, T !! q = Some x ∧ within l pre x.
Proof.
  unfold sub. rewrite elem_of_dom. split.
  - intros [x Hx]. apply map_lookup_filter_Some in Hx as [? ?]. eauto.
  - intros (x & ? & ?). exists x. by apply map_lookup_filter_Some.
Qed.
Lemma elem_of_part T l pre i q : q ∈ part T l pre i ↔ ∃ l' pre', T !! q = Some (l', pre') ∧ (l' <= l)%nat ∧
    pre * 512 <= pre' / 512 ^ Z.of_nat (l - l') < pre * 512 + i.
Proof.
  unfold part. rewrite elem_of_dom. split.
  - intros [[l' pre'] Hx]. apply map_lookup_filter_Some in Hx as [? ?]. eauto.
  - intros (l' & pre' & ? & ?). exists (l', pre'). by apply map_lookup_filter_Some.
Qed.
Lemma part_step T l pre i : part T l pre (i + 1) = part T l pre i ∪ sub T l (pre * 512 + i) ∨ i < 0.
Proof.
  destruct (Z.ltb_spec i 0); [by right|left]. apply set_eq. intros q. rewrite elem_of_union, !elem_of_part, elem_of_sub.
  split.
  - intros (l' & pre' & Hq & Hl & Hr). destruct (decide (pre' / 512 ^ Z.of_nat (l - l') < pre * 512 + i)).
    + left. exists l', pre'. split; [done|]. split; [done|lia].
    + right. exists (l', pre'). split; [done|]. split; [done|]. cbn. lia.
  - intros [(l' & pre' & Hq & Hl & Hr)|([l' pre'] & Hq & Hl & E)]; cbn in *; exists l', pre'; (split; [done|]);
      (split; [done|lia]).
Qed.
Lemma part_0 T l pre : part T l pre 0 = ∅.
Proof. apply elem_of_equiv_empty_L. intros q (l' & pre' & _ & _ & ?)%elem_of_part. lia. Qed.

(** A subtree is its root and what is below its 512 entries. *)
Lemma sub_S T root m p l pre :
  pt_ok m root T → T !! p = Some (S l, pre) →
  (∀ q, T !! q = Some (S l, pre) → q = p) → sub T (S l) pre = {[p]} ∪ part T l pre 512.
Proof using.
  intros I Hp Huniq. apply set_eq. intros q. rewrite elem_of_union, elem_of_singleton, elem_of_sub, elem_of_part.
  assert (Hdiv : ∀ l' pre', (l' <= l)%nat → pre' / 512 ^ Z.of_nat (S l - l') = pre' / 512 ^ Z.of_nat (l - l') / 512).
  { intros l' pre' Hl. replace (Z.of_nat (S l - l')) with (Z.of_nat (l - l') + 1) by lia.
    rewrite Z.pow_add_r, <- Z.div_div by lia. done. }
  split.
  - intros ([l' pre'] & Hq & Hl & E). cbn in *. destruct (decide (l' = S l)) as [->|Hne].
    + left. apply Huniq. rewrite Nat.sub_diag in E. cbn in E. rewrite Z.div_1_r in E. by subst.
    + right. exists l', pre'. split; [done|]. split; [lia|]. rewrite Hdiv in E by lia.
      Z.to_euclidean_division_equations; lia.
  - intros [->|(l' & pre' & Hq & Hl & Hr)].
    + exists (S l, pre). split; [done|]. split; [done|]. cbn. rewrite Nat.sub_diag. cbn. apply Z.div_1_r.
    + exists (l', pre'). split; [done|]. split; [cbn; lia|]. cbn [fst snd]. rewrite Hdiv by done.
      Z.to_euclidean_division_equations; lia.
Qed.
Lemma sub_0 T p pre :
  T !! p = Some (0%nat, pre) → (∀ q, T !! q = Some (0%nat, pre) → q = p) → sub T 0 pre = {[p]}.
Proof using.
  intros Hp Huniq. apply set_eq. intros q. rewrite elem_of_singleton, elem_of_sub. split.
  - intros ([l' pre'] & Hq & Hl & E). cbn in *. assert (l' = 0%nat) as -> by lia. apply Huniq.
    cbn in E. rewrite Z.div_1_r in E. by subst.
  - intros ->. exists (0%nat, pre). split; [done|]. split; [done|]. cbn. apply Z.div_1_r.
Qed.

Section tree.
Context (m : mem) (root : Z) (T : tables) (I : pt_ok m root T).

Lemma top_table q pre : T !! q = Some (2%nat, pre) → q = root.
Proof using I.
  intros Hq. destruct (decide (q = root)); [done|].
  destruct (pt_parent _ _ _ I q _ _ Hq n) as (p & Hp & _).
  pose proof (proj2 (pt_page _ _ _ I _ _ _ Hp)). lia.
Qed.
Lemma not_root q l pre : T !! q = Some (l, pre) → (l < 2)%nat → q ≠ root.
Proof using I. intros Hq Hl ->. rewrite (pt_root _ _ _ I) in Hq. simplify_eq. lia. Qed.

(** A level and a prefix name at most one table. *)
Lemma table_unique l pre q q' : T !! q = Some (l, pre) → T !! q' = Some (l, pre) → q = q'.
Proof using I RL.
  remember (2 - l)%nat as d eqn:Ed. revert l pre q q' Ed. induction d as [|d IH]; intros l pre q q' Ed Hq Hq'.
  - assert (l = 2%nat) as -> by (pose proof (proj2 (pt_page _ _ _ I _ _ _ Hq)); lia).
    by rewrite (top_table _ _ Hq), (top_table _ _ Hq').
  - assert (l < 2)%nat by lia.
    destruct (pt_parent _ _ _ I q _ _ Hq) as (p & Hp & E); [by eapply not_root|].
    destruct (pt_parent _ _ _ I q' _ _ Hq') as (p' & Hp' & E'); [by eapply not_root|].
    assert (p = p') as -> by (eapply (IH (S l)); [lia|done|done]). rewrite E in E'.
    rewrite <- (kid_pa q), <- (kid_pa q') by (by eapply pt_page). by rewrite E'.
Qed.

(** A table below [(l, pre)] makes the tables above it up to level [l] exist. *)
Lemma table_above q l' pre' l :
  T !! q = Some (l', pre') → (l' <= l <= 2)%nat → ∃ r, T !! r = Some (l, pre' / 512 ^ Z.of_nat (l - l')).
Proof using I.
  intros Hq [Hl Hl2]. remember (l - l')%nat as d eqn:Ed. revert q l' pre' Hq Hl Ed.
  induction d as [|d IH]; intros q l' pre' Hq Hl Ed.
  - assert (l = l') as -> by lia. exists q. cbn. by rewrite Z.div_1_r.
  - destruct (pt_parent _ _ _ I q _ _ Hq) as (p & Hp & _); [eapply not_root; [done|lia]|].
    destruct (IH p (S l') _ Hp) as (r & Hr); [lia|lia|]. exists r. rewrite Hr. do 2 f_equal.
    rewrite Z.div_div by lia. f_equal. rewrite <- Z.pow_succ_r by lia. f_equal. lia.
Qed.

(** Below an invalid entry there is no table. *)
Lemma sub_invalid p l pre i :
  T !! p = Some (S l, pre) → 0 <= i < 512 → has (load64 m (p + 8 * i)) PTE_V = false →
  sub T l (pre * 512 + i) = ∅.
Proof using I RL.
  intros Hp Hi Hv. apply elem_of_equiv_empty_L. intros q ([l' pre'] & Hq & Hl & E)%elem_of_sub. cbn in *.
  pose proof (proj2 (pt_page _ _ _ I _ _ _ Hp)) as Hl2.
  destruct (table_above q l' pre' l Hq) as (r & Hr); [lia|]. rewrite E in Hr.
  destruct (pt_parent _ _ _ I r _ _ Hr) as (p' & Hp' & Es); [eapply not_root; [done|lia]|].
  replace ((pre * 512 + i) / 512) with pre in Hp' by (Z.to_euclidean_division_equations; lia).
  replace ((pre * 512 + i) mod 512) with i in Es by (Z.to_euclidean_division_equations; lia).
  assert (p' = p) as -> by (by eapply table_unique). rewrite Es, kid_valid in Hv; [done|by eapply pt_page].
Qed.

(** The slot of a level-0 table is the slot of its address. *)
Lemma slot_of_table q pre i :
  T !! q = Some (0%nat, pre) → 0 <= i < 512 →
  let va := (pre * 512 + i) * 4096 in
  0 <= va < MAXVA ∧ slot m root va = Some (q + 8 * i).
Proof using I RL.
  intros Hq Hi va. destruct (pt_bound _ _ _ I _ _ _ Hq) as [Hp0 Hp1].
  pose proof maxva_top as Hmt. pose proof maxva_range as Hmr.
  change (2 ^ (12 + 9 * (Z.of_nat 0 + 1))) with (2 ^ 21) in Hp1.
  assert (Hva : 0 <= va < MAXVA) by (unfold va; Z.to_euclidean_division_equations; lia).
  split; [done|].
  assert (Hpx : PX 0 va = i ∧ PX 1 va = pre mod 512 ∧ PX 2 va = pre / 512 mod 512).
  { rewrite !px_field by lia. unfold va.
    change (12 + 9 * Z.of_nat 0) with 12. change (12 + 9 * Z.of_nat 1) with 21. change (12 + 9 * Z.of_nat 2) with 30.
    change (2 ^ 21) with (4096 * 512). change (2 ^ 30) with (4096 * 512 * 512). change (2 ^ 12) with 4096.
    rewrite <- !Z.div_div, !Z.div_mul by lia. rewrite Z.div_add_l, Z.div_small, Z.add_0_r by lia.
    split; [Z.to_euclidean_division_equations; lia|done]. }
  destruct Hpx as (E0 & E1 & E2).
  destruct (pt_parent _ _ _ I q _ _ Hq) as (p1 & Hp1' & L1); [eapply not_root; [done|lia]|].
  destruct (pt_parent _ _ _ I p1 _ _ Hp1') as (p2 & Hp2' & L2); [eapply not_root; [done|lia]|].
  assert (p2 = root) as -> by by eapply top_table.
  unfold slot. cbn [slot_at]. rewrite E2, E1, E0, L2, kid_valid, kid_pa by (by eapply pt_page).
  rewrite L1, kid_valid, kid_pa by (by eapply pt_page). done.
Qed.

Lemma no_leaf_entries : (∀ va, 0 <= va < MAXVA → has (entry m root va) PTE_V = false) → no_leaf m T.
Proof using I RL.
  intros He q pre i Hq Hi. destruct (slot_of_table q pre i Hq Hi) as [Hva Hs].
  specialize (He _ Hva). by rewrite (entry_slot _ _ _ _ Hs) in He.
Qed.
End tree.

(** ** Lemmas: freewalk *)

Lemma sub_pages m root T l pre q : pt_ok m root T → q ∈ sub T l pre → is_page q.
Proof using. intros I ([l' pre'] & Hq & _)%elem_of_sub. by eapply (pt_page _ _ _ I). Qed.
Lemma part_pages m root T l pre i q : pt_ok m root T → q ∈ part T l pre i → is_page q.
Proof using. intros I (l' & pre' & Hq & _)%elem_of_part. by eapply (pt_page _ _ _ I). Qed.

Lemma kid_flags q : is_page q → Z.land (Z.lor (PA2PTE q) PTE_V) (Z.lor (Z.lor PTE_R PTE_W) PTE_X) = 0.
Proof using RL. intros Hq. rewrite kid_is_mk_pte, pte_r_bit, pte_w_bit, pte_x_bit, mk_pte_bits by done. done. Qed.

(** The pages in [P] hold what they held in [m0]. *)
Definition intact (P : gset Z) (m0 m : mem) : Prop := ∀ q x, q ∈ P → in_page q x → m x = m0 x.

Lemma intact_load P m0 m q i : intact P m0 m → q ∈ P → 0 <= i < 512 →
  load64 m (q + 8 * i) = load64 m0 (q + 8 * i).
Proof using. intros H Hq Hi. apply load64_ext. intros x Hx. apply (H q); [done|]. unfold in_page. lia. Qed.
Lemma intact_off P Q m0 m m' : intact P m0 m → same_off Q m m' →
  (∀ q, q ∈ P → is_page q) → (∀ q, q ∈ Q → is_page q) → P ## Q → intact P m0 m'.
Proof using.
  intros H Hoff HP HQ D q x Hq Hx. rewrite <- (H q x Hq Hx).
  apply Hoff. intros r Hr Hin. assert (r = q) as -> by (eapply in_page_eq; [by apply HQ|by apply HP|done|done]).
  by apply (D q).
Qed.

Lemma freewalk_wp m0 root T (I : pt_ok m0 root T) (Hno : no_leaf m0 T) l p pre fuel s :
  (l < fuel)%nat → T !! p = Some (l, pre) → intact (sub T l pre) m0 (vmem s) →
  sub T l pre ## free (alloc s) →
  wp (freewalk fuel p) (λ _ s', free (alloc s') = free (alloc s) ∪ sub T l pre
     ∧ same_off (free (alloc s) ∪ sub T l pre) (vmem s) (vmem s')) s.
Proof.
  revert p pre fuel s. induction l as [|l IH]; intros p pre fuel s Hf Hp Hint Hd.
  all: destruct fuel as [|fuel]; [lia|]; cbn [freewalk].
  all: assert (Huniq : ∀ q, T !! q = Some (_, pre) → q = p) by (intros q Hq; by eapply table_unique).
  all: assert (Hpp : is_page p) by by eapply (pt_page _ _ _ I).
  - rewrite (sub_0 T p pre Hp Huniq) in *.
    assert (Hloop : ∀ n i, 0 <= i → i + Z.of_nat n = 512 → for_entries n i (λ i,
        pte ← read64 (p + 8 * i);
        if has pte PTE_V && (Z.land pte (Z.lor (Z.lor PTE_R PTE_W) PTE_X) =? 0) then
          freewalk fuel (PTE2PA pte);; write64 (p + 8 * i) 0
        else if has pte PTE_V then panic "freewalk: leaf" else mret tt) s = Done tt s).
    { induction n as [|n IHn]; intros i Hi Hn; [done|]. cbn [for_entries]. unfold read64. run.
      rewrite (intact_load _ _ _ _ _ Hint), (Hno p pre i Hp) by (set_solver || lia). run. apply IHn; lia. }
    eapply wp_bind_done; [by apply Hloop|]. apply kfree_wp; [done|clear -Hd; set_solver|].
    intros s' Hf' Hm'. assert (E : {[p]} ∪ free (alloc s) = free (alloc s) ∪ {[p]}) by (clear; set_solver).
    rewrite <- E. done.
  - rewrite (sub_S T root m0 p l pre I Hp Huniq) in *.
    assert (Hp_part : ∀ i, p ∉ part T l pre i).
    { intros i (l' & pre' & Hq & Hl & _)%elem_of_part. simplify_eq. lia. }
    assert (Hsub : ∀ i, 0 <= i < 512 → sub T l (pre * 512 + i) ⊆ part T l pre 512).
    { intros i Hi q ([l' pre'] & Hq & Hl & E)%elem_of_sub. apply elem_of_part. exists l', pre'. cbn in *.
      split; [done|]. split; [done|lia]. }
    assert (Hsubd : ∀ i, 0 <= i → sub T l (pre * 512 + i) ## part T l pre i).
    { intros i Hi q ([l' pre'] & Hq & Hl & E)%elem_of_sub (l1 & pre1 & Hq1 & _ & Hr)%elem_of_part.
      cbn in *. simplify_eq. lia. }
    assert (Hmono : ∀ i, 0 <= i <= 512 → part T l pre i ⊆ part T l pre 512).
    { intros i Hi q (l1 & pre1 & Hq1 & Hl & Hr)%elem_of_part. apply elem_of_part. exists l1, pre1.
      split; [done|]. split; [done|lia]. }
    set (F := free (alloc s)) in *.
    assert (Hloop : ∀ n i si, 0 <= i → i + Z.of_nat n = 512 →
      free (alloc si) = F ∪ part T l pre i →
      same_off (F ∪ part T l pre i ∪ {[p]}) (vmem s) (vmem si) →
      (∀ j, i <= j < 512 → load64 (vmem si) (p + 8 * j) = load64 m0 (p + 8 * j)) →
      wp (for_entries n i (λ i,
        pte ← read64 (p + 8 * i);
        if has pte PTE_V && (Z.land pte (Z.lor (Z.lor PTE_R PTE_W) PTE_X) =? 0) then
          freewalk fuel (PTE2PA pte);; write64 (p + 8 * i) 0
        else if has pte PTE_V then panic "freewalk: leaf" else mret tt))
        (λ _ s', free (alloc s') = F ∪ part T l pre 512
           ∧ same_off (F ∪ part T l pre 512 ∪ {[p]}) (vmem s) (vmem s')) si).
    { induction n as [|n IHn]; intros i si Hi Hn Hfi Hmi Hload.
      { apply wp_ret. assert (i = 512) as -> by lia. done. }
      cbn [for_entries]. apply wp_bind, wp_bind, wp_gets. rewrite Hload by lia.
      assert (Hir : 0 <= i < 512) by lia.
      destruct (part_step T l pre i) as [Hstep|?]; [|lia].
      destruct (has (load64 m0 (p + 8 * i)) PTE_V) eqn:Hv.
      - destruct (pt_child _ _ _ I p l pre i Hp Hir Hv) as (q & Hq & Eq).
        assert (Hqp : is_page q) by by eapply (pt_page _ _ _ I).
        rewrite Eq, kid_flags, kid_pa by done. cbn [andb Z.eqb].
        assert (HsF : sub T l (pre * 512 + i) ## F ∪ part T l pre i ∪ {[p]}).
        { intros r Hr. specialize (Hsub i Hir r Hr). rewrite !elem_of_union, elem_of_singleton.
          intros [[HrF|Hrp]| ->]; [|by apply (Hsubd i Hi r)|by apply (Hp_part 512)].
          apply (Hd r); [|done]. by apply elem_of_union_r. }
        assert (HPF : ∀ r, r ∈ F ∪ part T l pre i ∪ {[p]} → is_page r).
        { intros r [[Hr|Hr]%elem_of_union| ->%elem_of_singleton]%elem_of_union; [by eapply free_page|by eapply part_pages|done]. }
        apply wp_bind. eapply wp_mono; [apply (IH q (pre * 512 + i) fuel si)|]; [lia|done|..].
        + eapply intact_off; [|exact Hmi| |exact HPF|done].
          * intros r x Hr Hx. apply (Hint r); [|done]. apply elem_of_union_r. by apply (Hsub i Hir).
          * intros r Hr. by eapply sub_pages.
        + rewrite Hfi. clear -HsF. set_solver.
        + intros [] s1 [Hf1 Hm1]. rewrite Hfi in Hf1, Hm1. apply wp_modify. apply IHn; try lia.
          * cbn. rewrite Hf1, Hstep. clear. set_solver.
          * cbn. eapply same_off_seq; [eapply same_off_mono; [|exact Hmi]; rewrite Hstep; clear; set_solver|].
            eapply same_off_seq; [eapply same_off_mono; [|exact Hm1]; rewrite Hstep; clear; set_solver|].
            apply same_off_store; [clear; set_solver|done].
          * intros j Hj. cbn. rewrite load64_store64_other by lia.
            rewrite <- Hload by lia. eapply load64_same_off; [exact Hm1| |done| |lia].
            -- intros r [Hr|Hr]%elem_of_union; [apply HPF; clear -Hr; set_solver|by eapply sub_pages].
            -- intros [Hr|Hr]%elem_of_union.
               ++ apply elem_of_union in Hr as [Hr|Hr]; [|by apply (Hp_part i)].
                  apply (Hd p); [clear; set_solver|done].
               ++ apply (Hp_part 512). by apply (Hsub i Hir).
      - cbn [andb]. apply wp_ret, IHn; try lia.
        + rewrite Hstep, (sub_invalid m0 root T I p l pre i Hp Hir Hv), (right_id_L ∅ (∪)). done.
        + by rewrite Hstep, (sub_invalid m0 root T I p l pre i Hp Hir Hv), (right_id_L ∅ (∪)).
        + intros j Hj. apply Hload. lia. }
    apply wp_bind. eapply wp_mono; [apply (Hloop 512%nat 0 s)|]; [lia|lia|..].
    + rewrite part_0, (right_id_L ∅ (∪)). done.
    + done.
    + intros j Hj. eapply intact_load; [exact Hint|clear; set_solver|done].
    + intros [] s1 [Hf1 Hm1]. apply kfree_wp; [done| |].
      * rewrite Hf1. intros [Hr|Hr]%elem_of_union; [|by apply (Hp_part 512)].
        apply (Hd p); [clear; set_solver|done].
      * intros s2 Hf2 Hm2. rewrite Hf1 in Hf2, Hm2. split; [rewrite Hf2; clear; set_solver|].
        eapply same_off_seq; eapply same_off_mono; [|exact Hm1| |exact Hm2]; clear; set_solver.
Qed.

(** Every table lies below the root. *)
Lemma sub_root m root T : pt_ok m root T → sub T 2 0 = dom T.
Proof.
  intros I. apply set_eq. intros q. rewrite elem_of_sub, elem_of_dom. split; [intros (x & ? & _); by exists x|].
  intros [[l pre] Hq]. exists (l, pre). split; [done|].
  destruct (pt_bound _ _ _ I _ _ _ Hq) as [H0 Hb]. destruct (pt_page _ _ _ I _ _ _ Hq) as [_ Hl].
  split; [done|]. cbn [fst snd]. apply Z.div_small. split; [done|].
  pose proof maxva_range as Hmr. assert (l = 0 ∨ l = 1 ∨ l = 2)%nat as [->|[->| ->]] by lia; cbn in Hb |- *; lia.
Qed.

Lemma freewalk_root root s T :
  pt_inv s root T → (∀ va, 0 <= va < MAXVA → has (entry (vmem s) root va) PTE_V = false) →
  wp (freewalk 3 root) (λ _ s', free (alloc s') = free (alloc s) ∪ dom T
    ∧ same_off (free (alloc s')) (vmem s) (vmem s')) s.
Proof.
  intros [I D] Hno. eapply wp_mono; [apply (freewalk_wp (vmem s) root T I) with (l := 2%nat) (pre := 0)|].
  - by eapply no_leaf_entries.
  - lia.
  - apply I.
  - by intros q x _ _.
  - by rewrite (sub_root _ _ _ I).
  - intros [] s' [Hf Hm]. rewrite (sub_root _ _ _ I) in *. by rewrite Hf.
Qed.

Lemma uvmfree_wp root sz s T :
  as_inv s root T → 0 <= sz <= MAXVA →
  all_mapped s root 0 (pgup sz) → unmapped s root (pgup sz) MAXVA →
  wp (uvmfree root sz) (λ _ s', (∀ q, q ∈ free (alloc s') ↔ owned s root T q)
    ∧ same_off (free (alloc s')) (vmem s) (vmem s')) s.
Proof.
  intros I Hsz Hall Hrest. pose proof maxva_range as HM. destruct (pgup_spec sz) as [Hm Hr].
  pose proof (pgup_max sz (proj2 Hsz)) as Hpm.
  assert (Hn : 0 + pgup sz / 4096 * 4096 = pgup sz) by (Z.to_euclidean_division_equations; lia).
  unfold uvmfree. apply wp_bind. eapply (wp_mono _ (λ _ s1, as_inv s1 root T
    ∧ (∀ q, owned s1 root T q ↔ owned s root T q)
    ∧ same_off (dom T ∪ free (alloc s1)) (vmem s) (vmem s1)
    ∧ ∀ va, 0 <= va < MAXVA → has (entry (vmem s1) root va) PTE_V = false)).
  - destruct (Z.ltb_spec 0 sz) as [Hpos|Hz].
    + rewrite pgroundup_pgup, pgsize_4096 by lia.
      assert (H0 : 0 <= pgup sz / 4096) by (apply Z.div_pos; lia).
      assert (Hmx : 0 + pgup sz / 4096 * 4096 <= MAXVA) by lia.
      assert (Ha : all_mapped s root 0 (0 + pgup sz / 4096 * 4096)) by by rewrite Hn.
      eapply wp_mono; [exact (as_unmap root 0 (pgup sz / 4096) s T I eq_refl (Z.le_refl 0) H0 Hmx Ha)|].
      rewrite Hn.
      intros [] s1 (I1 & Ho & _ & Hm1 & He). split; [done|]. split; [done|]. split; [done|]. intros va Hva.
      rewrite He by done. unfold without. destruct (decide (va < pgup sz)).
      * rewrite (proj2 (Z.leb_le _ _)), (proj2 (Z.ltb_lt _ _)) by lia. apply has_0.
      * rewrite (proj2 (Z.ltb_ge _ _)), andb_false_r by lia. apply Hrest. lia.
    + apply wp_ret. split; [done|]. split; [done|]. split; [done|]. intros va Hva. apply Hrest.
      assert (sz = 0) as -> by lia. change (pgup 0) with 0. lia.
  - intros [] s1 (I1 & Ho & Hm1 & Hno). eapply wp_mono; [by apply freewalk_root; [apply I1|]|].
    intros [] s' [Hf Hm']. split.
    2:{ eapply same_off_seq; [|exact Hm']. eapply same_off_mono; [|exact Hm1]. rewrite Hf. clear. set_solver. }
    intros q. rewrite Hf, <- Ho, elem_of_union. unfold owned.
    split; [tauto|]. intros [?|[?|(va & Hva & Hv & _)]]; [tauto|tauto|].
    by rewrite Hno in Hv.
Qed.
End free_walk.

(** ** Properties *)

(** C21.  uvmfree on an address space whose mapped pages are those below [sz]
    finishes without a panic, and afterwards the free pages are exactly the
    pages that were free, tables or mapped: nothing leaks, and nothing else
    is freed. *)
Theorem uvmfree_spec `{R : Riscv, L : Allocator} {RL : RiscvLaws R} {AL : AllocatorLaws L}
  (root sz : Z) (s : vst) (T : tables) (I : as_inv s root T) (Hsz : 0 <= sz <= MAXVA)
  (Hall : all_mapped s root 0 (pgup sz)) (Hrest : unmapped s root (pgup sz) MAXVA) :
  ∃ s', uvmfree root sz s = Done tt s' ∧ ∀ q, q ∈ free (alloc s') ↔ owned s root T q.
Proof.
  destruct (proj1 (wp_done _ _ _) (uvmfree_wp root sz s T I Hsz Hall Hrest)) as ([] & s' & E & H & _). eauto.
Qed.

(** The one-page space of [sample_user] is freed. *)
Lemma uvmfree_spec_witness :
  ∃ s', @uvmfree sv39 page_stack sample_root 0x1000 sample_user = Done tt s'.
Proof.
  destruct sample_user_grown as [T G].
  destruct (@uvmfree_spec sv39 page_stack sv39_laws page_stack_laws sample_root 0x1000 sample_user T
    (gr_inv _ _ _ _ _ _ _ _ G)) as (s' & E' & _).
  - split; discriminate.
  - intros va Hva. apply (gr_new _ _ _ _ _ _ _ _ G). exact Hva.
  - intros va Hva. change (4096 <= va < 2 ^ 38) in Hva.
    rewrite (gr_old _ _ _ _ _ _ _ _ G).
    + rewrite sample_entry; [reflexivity|lia].
    + change (0 <= va < 2 ^ 38). lia.
    + change (¬ (0 <= va < 4096)). lia.
  - exists s'. exact E'.
Defined.
