(* ===== verification/UvmCopy.v ===== *)
(** uvmcopy of vm.c (Lab3): fork's copy of an address space, page by page. *)
From S2P Require Import Prelude Riscv Vm PageTable Mappings AddrSpace.

Section uvm_copy.
Context {R : Riscv} {L : Allocator} {RL : RiscvLaws R} {AL : AllocatorLaws L}.
Implicit Types (m : mem) (T : tables) (s : vst).

(** ** Definitions *)

(** The tables and pages of the space [old] are apart from the pages that the
    copy uses: the tables of [new] and the free pages. *)
Definition apart s (old : Z) (To Tn : tables) : Prop :=
  ∀ q, q ∈ dom Tn ∪ free (alloc s) → q ∉ dom To ∧ ∀ va, ¬ leaf s old va q.

(** From [s0] to [s], the pages of [0, hi) of [old] were copied to [new]: the
    same flags and contents in pages of their own. *)
Record copied (s0 : vst) (old : Z) (new : Z) (Tn0 : tables) (hi : Z) (s : vst) (Tn : tables) : Prop := {
  cp_inv : as_inv s new Tn;
  cp_owned : ∀ q, owned s new Tn q ↔ owned s0 new Tn0 q;
  cp_pool : ∀ q, q ∈ dom Tn ∪ free (alloc s) → q ∈ dom Tn0 ∪ free (alloc s0);
  cp_mem : same_off (dom Tn0 ∪ free (alloc s0)) (vmem s0) (vmem s);
  cp_pages : ∀ va, 0 <= va < hi → has (entry (vmem s) new va) PTE_V = true
    ∧ PTE_FLAGS (entry (vmem s) new va) = PTE_FLAGS (entry (vmem s0) old va)
    ∧ ∀ off, 0 <= off < 4096 →
        vmem s (PTE2PA (entry (vmem s) new va) + off) = vmem s0 (PTE2PA (entry (vmem s0) old va) + off);
  cp_rest : ∀ va, 0 <= va < MAXVA → ¬ (0 <= va < hi) → entry (vmem s) new va = entry (vmem s0) new va }.

(** ** Lemmas *)

(** What happens in the pool of [new] does not touch [old]. *)
Lemma old_same s0 s old To Tn0 :
  as_inv s0 old To → (∀ q, q ∈ dom Tn0 ∪ free (alloc s0) → is_page q) → apart s0 old To Tn0 →
  same_off (dom Tn0 ∪ free (alloc s0)) (vmem s0) (vmem s) →
  (∀ q, q ∈ free (alloc s) → q ∈ dom Tn0 ∪ free (alloc s0)) →
  as_inv s old To ∧ same_entries s0 s old
  ∧ ∀ va p x, leaf s0 old va p → in_page p x → vmem s x = vmem s0 x.
Proof.
  intros I HP Hap Hoff Hfr. destruct (ai_pt _ _ _ I) as [I1 D].
  destruct (table_same _ _ _ _ _ I1 Hoff HP) as (I2 & _ & He & _).
  { intros q Hq Hq'. by apply (Hap q). }
  split; [|split; [exact He|]].
  - eapply as_same; [done|split; [done|]|exact He|].
    + intros q Hq Hq'. by destruct (Hap q (Hfr q Hq')).
    + intros va p Hl. destruct (ai_leaf _ _ _ I _ _ Hl) as (_ & _ & _ & ?). split; [|done].
      intros Hq. by destruct (Hap p (Hfr p Hq)) as [_ Hn]; destruct (Hn va).
  - intros va p x Hl Hx. destruct (ai_leaf _ _ _ I _ _ Hl) as (_ & Hp & _ & _).
    apply (same_off_page _ _ _ _ Hoff HP Hp); [|done]. intros Hq.
    by destruct (Hap p Hq) as [_ Hn]; destruct (Hn va).
Qed.

Lemma flags_range e : 0 <= e < 2 ^ 64 → 0 <= PTE_FLAGS e < 1024.
Proof using RL. intros He. rewrite pte_flags_field by done. apply Z.mod_pos_bound. lia. Qed.
Lemma entry_range m root va : 0 <= entry m root va < 2 ^ 64.
Proof using. unfold entry. destruct (slot m root va); [apply load64_range|lia]. Qed.
(** A valid entry has V among its flags. *)
Lemma flags_valid e : 0 <= e < 2 ^ 64 → has e PTE_V = true → Z.lor (PTE_FLAGS e) 1 = PTE_FLAGS e.
Proof using RL.
  intros He Hv. rewrite pte_flags_field by done. unfold has in Hv. rewrite pte_v_bit in Hv.
  assert (Hb : Z.testbit e 0 = true).
  { change 1 with (Z.ones 1) in Hv. rewrite Z.land_ones in Hv by lia. rewrite Z.bit0_odd.
    change (2 ^ 1) with 2 in Hv. rewrite Zmod_odd in Hv. by destruct (Z.odd e). }
  apply Z.bits_inj'. intros n Hn. rewrite Z.lor_spec. change 1 with (Z.ones 1). rewrite Z.testbit_ones_nonneg by lia.
  destruct (Z.ltb_spec n 1) as [?|?]; [|by rewrite orb_false_r].
  assert (n = 0) as -> by lia. rewrite Z.mod_pow2_bits_low by lia. by rewrite Hb.
Qed.

(** One turn of uvmcopy's loop that succeeds. *)
Lemma copied_step s0 old new To Tn0 a s Tn p s1 s2 Tn2 :
  as_inv s0 old To → apart s0 old To Tn0 → as_inv s0 new Tn0 →
  copied s0 old new Tn0 a s Tn → a mod 4096 = 0 → 0 <= a < MAXVA →
  has (entry (vmem s0) old a) PTE_V = true → is_page p →
  p ∈ free (alloc s) → free (alloc s1) = free (alloc s) ∖ {[p]} →
  same_off (free (alloc s)) (vmem s) (vmem s1) →
  (∀ off, 0 <= off < 4096 → vmem s1 (p + off) = vmem s0 (PTE2PA (entry (vmem s0) old a) + off)) →
  as_inv s1 new Tn → same_entries s s1 new →
  as_inv s2 new Tn2 → pt_frame new s1 Tn s2 Tn2 →
  (∀ va, 0 <= va < MAXVA → entry (vmem s2) new va =
     if va / 4096 =? a / 4096 then mk_pte p (PTE_FLAGS (entry (vmem s0) old a)) else entry (vmem s1) new va) →
  (∀ q, owned s new Tn q ↔ owned s2 new Tn2 q) →
  copied s0 old new Tn0 (a + 4096) s2 Tn2.
Proof.
  intros Io Hap In C Ha Hav Hv Hp Hpf Hf1 Hm1 Hc1 I1 He1 I2 Hfr He2 Ho.
  pose proof maxva_page as Hmp. pose proof (pg_mem _ _ _ _ _ Hfr) as Hm2.
  pose proof (pg_dom _ _ _ _ _ Hfr) as Hd2. pose proof (pg_free _ _ _ _ _ Hfr) as Hf2.
  pose proof (flags_range _ (entry_range (vmem s0) old a)) as Hfl.
  assert (Hpool1 : ∀ q, q ∈ dom Tn ∪ free (alloc s1) → q ∈ dom Tn ∪ free (alloc s))
    by (rewrite Hf1; clear; set_solver).
  constructor.
  - done.
  - intros q. rewrite <- Ho. by apply (cp_owned _ _ _ _ _ _ _ C).
  - intros q Hq. apply (cp_pool _ _ _ _ _ _ _ C), Hpool1. rewrite Hd2 in Hq. clear -Hq Hf2. set_solver.
  - eapply gr_mem_trans; [exact (cp_mem _ _ _ _ _ _ _ C)|apply (cp_pool _ _ _ _ _ _ _ C)|].
    eapply same_off_seq; [eapply same_off_mono; [|exact Hm1]; clear; set_solver|].
    eapply same_off_mono; [|exact Hm2]. exact Hpool1.
  - intros va Hva. assert (Hvm : 0 <= va < MAXVA) by (Z.to_euclidean_division_equations; lia).
    rewrite He2 by done. destruct (Z.eqb_spec (va / 4096) (a / 4096)) as [E|E].
    + assert (Evo : entry (vmem s0) old va = entry (vmem s0) old a) by by apply entry_page.
      rewrite Evo. unfold has. rewrite mk_pte_flags, mk_pte_pa, pte_v_bit, mk_pte_bits by done.
      rewrite flags_valid by (done || apply entry_range). split; [|split; [done|]].
      * unfold has in Hv. rewrite pte_v_bit in Hv. rewrite <- Hv. do 2 f_equal.
        rewrite pte_flags_field by apply entry_range. change 1 with (Z.ones 1). rewrite !Z.land_ones by lia.
        change (2 ^ 10) with (2 ^ 1 * 512). change (2 ^ 1) with 2.
        Z.to_euclidean_division_equations; lia.
      * intros off Hoff. rewrite <- Hc1 by done.
        apply (same_off_page _ _ _ _ Hm2 (λ q, pool_pages s1 new Tn q I1) Hp); [|unfold in_page; lia].
        rewrite Hf1. destruct (ai_pt _ _ _ (cp_inv _ _ _ _ _ _ _ C)) as [_ D]. clear -D Hpf. set_solver.
    + assert (Hin : 0 <= va < a) by (Z.to_euclidean_division_equations; lia).
      destruct (cp_pages _ _ _ _ _ _ _ C va Hin) as (Hv' & Hf' & Hc'). rewrite (He1 va Hvm).
      split; [done|]. split; [done|]. intros off Hoff. rewrite <- Hc' by done.
      assert (Hl : leaf s new va (PTE2PA (entry (vmem s) new va))) by by apply mapped_leaf.
      destruct (ai_leaf _ _ _ (cp_inv _ _ _ _ _ _ _ C) _ _ Hl) as (_ & Hp' & Hn1 & Hn2).
      assert (Hx : in_page (PTE2PA (entry (vmem s) new va)) (PTE2PA (entry (vmem s) new va) + off))
        by (unfold in_page; lia).
      rewrite (same_off_page _ _ _ _ Hm2 (λ q, pool_pages s1 new Tn q I1) Hp'); [| |done].
      * apply (same_off_page _ _ _ _ Hm1 (free_pages s) Hp'); done.
      * rewrite Hf1. clear -Hn1 Hn2. set_solver.
  - intros va Hva Hout. rewrite He2 by done.
    rewrite (proj2 (Z.eqb_neq _ _)) by (Z.to_euclidean_division_equations; lia).
    rewrite He1 by done. apply (cp_rest _ _ _ _ _ _ _ C); [done|lia].
Qed.

(** A turn that fails: the pages copied so far are freed. *)
Lemma copied_rollback s0 old new Tn0 a s Tn s1 Tn1 :
  copied s0 old new Tn0 a s Tn → a mod 4096 = 0 → 0 <= a <= MAXVA → empty_range s0 new 0 a →
  as_inv s1 new Tn1 → same_entries s s1 new → (∀ q, owned s1 new Tn1 q ↔ owned s new Tn q) →
  wp (uvmunmap new 0 (a / 4096) true;; mret (-1)) (λ r s', r = -1 ∧ ∃ T', as_inv s' new T'
    ∧ (∀ q, owned s' new T' q ↔ owned s0 new Tn0 q) ∧ same_entries s0 s' new
    ∧ same_off (dom Tn1 ∪ free (alloc s')) (vmem s1) (vmem s')
    ∧ (∀ q, q ∈ free (alloc s') ↔ q ∈ free (alloc s1) ∨ pages_of (vmem s1) new 0 a q)) s1.
Proof.
  intros C Ha Hav Hempty I1 He1 Ho1.
  assert (Hn : 0 + a / 4096 * 4096 = a) by (Z.to_euclidean_division_equations; lia).
  assert (H0 : 0 <= a / 4096) by (apply Z.div_pos; lia).
  assert (Hall : all_mapped s1 new 0 (0 + a / 4096 * 4096)).
  { rewrite Hn. intros va Hva. rewrite He1 by lia. by apply (cp_pages _ _ _ _ _ _ _ C). }
  assert (Hmx : 0 + a / 4096 * 4096 <= MAXVA) by lia.
  apply wp_bind.
  eapply wp_mono; [exact (as_unmap new 0 (a / 4096) s1 Tn1 I1 eq_refl (Z.le_refl 0) H0 Hmx Hall)|].
  rewrite Hn. intros [] s' (I' & Ho' & Hf' & Hoff' & He'). apply wp_ret. split; [done|]. exists Tn1.
  split; [done|]. split; [|split; [|split; [exact Hoff'|exact Hf']]].
  - intros q. rewrite Ho', Ho1. apply (cp_owned _ _ _ _ _ _ _ C).
  - intros va Hva. rewrite He' by done. destruct (decide (0 <= va < a)) as [Hin|Hout].
    + rewrite without_in by done. symmetry. by apply Hempty.
    + rewrite without_out, He1 by (done || lia). by apply (cp_rest _ _ _ _ _ _ _ C).
Qed.

(** The pages of the copy come from the pool. *)
Lemma copied_from_pool s0 old new Tn0 a s Tn va :
  as_inv s0 new Tn0 → copied s0 old new Tn0 a s Tn → a mod 4096 = 0 → a <= MAXVA →
  empty_range s0 new 0 a → 0 <= va < a →
  PTE2PA (entry (vmem s) new va) ∈ dom Tn0 ∪ free (alloc s0).
Proof.
  intros In C Ha Ham Hempty Hva. set (q := PTE2PA (entry (vmem s) new va)).
  assert (Hl : leaf s new va q) by (apply mapped_leaf; [lia|by apply (cp_pages _ _ _ _ _ _ _ C)]).
  destruct (proj1 (cp_owned _ _ _ _ _ _ _ C q)) as [?|[?|(va' & Hl')]].
  - right; right. by exists va.
  - by apply elem_of_union_r.
  - by apply elem_of_union_l.
  - exfalso. destruct Hl' as (Hva' & Hv' & Hq').
    destruct (decide (0 <= va' < a)) as [Hin|Hout]; [by rewrite Hempty, has_0 in Hv'|].
    assert (Hl2 : leaf s new va' q).
    { split; [done|]. by rewrite (cp_rest _ _ _ _ _ _ _ C). }
    pose proof (ai_inj _ _ _ (cp_inv _ _ _ _ _ _ _ C) _ _ _ Hl Hl2).
    Z.to_euclidean_division_equations; lia.
Qed.

(** [old] is what it was. *)
Definition kept s0 (s : vst) (old : Z) (To : tables) : Prop :=
  as_inv s old To ∧ same_entries s0 s old ∧ ∀ va p x, leaf s0 old va p → in_page p x → vmem s x = vmem s0 x.

Definition uncopied s0 (old new : Z) (To Tn0 : tables) (s : vst) : Prop :=
  ∃ T', as_inv s new T' ∧ (∀ q, owned s new T' q ↔ owned s0 new Tn0 q) ∧ same_entries s0 s new
    ∧ same_off (dom Tn0 ∪ free (alloc s0)) (vmem s0) (vmem s) ∧ kept s0 s old To.

(** The failing turn, with what it leaves of both spaces. *)
Lemma copy_fail s0 old new To Tn0 a s Tn s1 Tn1 :
  as_inv s0 old To → as_inv s0 new Tn0 → apart s0 old To Tn0 →
  copied s0 old new Tn0 a s Tn → a mod 4096 = 0 → 0 <= a <= MAXVA → empty_range s0 new 0 a →
  as_inv s1 new Tn1 → same_entries s s1 new → (∀ q, owned s1 new Tn1 q ↔ owned s new Tn q) →
  (∀ q, q ∈ dom Tn1 ∪ free (alloc s1) → q ∈ dom Tn ∪ free (alloc s)) →
  same_off (dom Tn ∪ free (alloc s)) (vmem s) (vmem s1) →
  wp (uvmunmap new 0 (a / 4096) true;; mret (-1)) (λ r s', r = -1 ∧ uncopied s0 old new To Tn0 s') s1.
Proof.
  intros Io In Hap C Ha Hav Hempty I1 He1 Ho1 Hp1 Hm1.
  eapply wp_mono; [exact (copied_rollback s0 old new Tn0 a s Tn s1 Tn1 C Ha Hav Hempty I1 He1 Ho1)|].
  intros r s' (-> & T' & I' & Ho' & He' & Hm' & Hf'). split; [done|]. exists T'.
  split; [done|]. split; [done|]. split; [done|].
  assert (Hfree : ∀ q, q ∈ free (alloc s') → q ∈ dom Tn0 ∪ free (alloc s0)).
  { intros q [Hq|(va & Hva & ->)]%Hf'.
    - apply (cp_pool _ _ _ _ _ _ _ C), Hp1. by apply elem_of_union_r.
    - rewrite He1 by lia. apply (copied_from_pool s0 old new Tn0 a s Tn va In C Ha); [lia|done|done]. }
  assert (Hoff : same_off (dom Tn0 ∪ free (alloc s0)) (vmem s0) (vmem s')).
  { eapply gr_mem_trans; [|intros q Hq; exact Hq|].
    - eapply gr_mem_trans; [exact (cp_mem _ _ _ _ _ _ _ C)|apply (cp_pool _ _ _ _ _ _ _ C)|exact Hm1].
    - eapply same_off_mono; [|exact Hm']. intros q [Hq|Hq]%elem_of_union; [|by apply Hfree].
      apply (cp_pool _ _ _ _ _ _ _ C), Hp1. by apply elem_of_union_l. }
  split; [done|].
  apply (old_same s0 s' old To Tn0 Io); [intros q; apply (pool_pages _ _ _ _ In)|done|done|done].
Qed.

Lemma uvmcopy_loop_wp s0 old new To Tn0 sz fuel a s Tn :
  as_inv s0 old To → as_inv s0 new Tn0 → apart s0 old To Tn0 →
  0 <= sz <= MAXVA → all_mapped s0 old 0 (pgup sz) → empty_range s0 new 0 (pgup sz) →
  copied s0 old new Tn0 a s Tn → a mod 4096 = 0 → 0 <= a <= pgup sz →
  (Z.to_nat ((pgup sz - a) / 4096) < fuel)%nat →
  wp (uvmcopy_loop fuel old new a sz) (λ r s',
    r = 0 ∧ (∃ T', copied s0 old new Tn0 (pgup sz) s' T' ∧ kept s0 s' old To)
    ∨ r = -1 ∧ uncopied s0 old new To Tn0 s') s.
Proof.
  intros Io In Hap Hsz Hall Hempty. revert a s Tn.
  induction fuel as [|fuel IH]; intros a s Tn C Ha Hav Hf; [lia|].
  assert (HP : ∀ q, q ∈ dom Tn0 ∪ free (alloc s0) → is_page q) by (intros q; apply (pool_pages _ _ _ _ In)).
  assert (Hk : kept s0 s old To).
  { apply (old_same s0 s old To Tn0 Io HP Hap (cp_mem _ _ _ _ _ _ _ C)).
    intros q Hq. apply (cp_pool _ _ _ _ _ _ _ C). by apply elem_of_union_r. }
  destruct Hk as (Ios & Heo & Hco).
  destruct (pgup_spec sz) as [Hpm Hpr]. pose proof (pgup_max sz (proj2 Hsz)) as Hpx. pose proof maxva_range as HM.
  assert (Hempty_a : empty_range s0 new 0 a) by (intros va Hva; apply Hempty; lia).
  cbn [uvmcopy_loop]. destruct (Z.ltb_spec a sz) as [Hlt|Hge].
  2:{ apply wp_ret. left. split; [done|]. exists Tn.
      assert (pgup sz = a) as -> by (Z.to_euclidean_division_equations; lia). done. }
  assert (Hava : 0 <= a < MAXVA) by lia.
  assert (Hva : has (entry (vmem s0) old a) PTE_V = true) by (apply Hall; Z.to_euclidean_division_equations; lia).
  eapply wp_bind_done; [apply walk_noalloc; lia|].
  assert (Hvas : has (entry (vmem s) old a) PTE_V = true) by by rewrite Heo.
  destruct (entry_valid_slot _ _ _ _ Hvas) as [sl Hsl]. rewrite Hsl. cbn [default id].
  rewrite (proj2 (Z.eqb_neq _ _)) by (eapply slot_nonzero; [apply Ios|done|done]).
  apply wp_bind, wp_gets. cbv beta. rewrite <- (entry_slot _ _ _ _ Hsl), Hvas. cbn [negb].
  rewrite (Heo a Hava). set (e := entry (vmem s0) old a) in *.
  assert (Hle : leaf s0 old a (PTE2PA e)) by by apply mapped_leaf.
  destruct (ai_leaf _ _ _ Io _ _ Hle) as (Hflv & Hpe & _ & _). fold e in Hflv.
  assert (Hstep : a + 4096 <= pgup sz) by (Z.to_euclidean_division_equations; lia).
  apply wp_bind, kalloc_wp.
  - intros Hnone. cbn. rewrite pgsize_4096. eapply wp_mono;
      [apply (copy_fail s0 old new To Tn0 a s Tn s Tn Io In Hap C Ha ltac:(lia) Hempty_a (cp_inv _ _ _ _ _ _ _ C)); done|].
    intros r s' [-> H]. by right.
  - intros p s1 Hpf Hpp Hp0 Hf1 Hm1. rewrite (proj2 (Z.eqb_neq p 0)), pgsize_4096 by done.
    apply wp_bind, wp_modify. set (s2 := set_vmem (memmove (vmem s1) p (PTE2PA e) 4096) s1).
    assert (Hoff2 : same_off (free (alloc s)) (vmem s) (vmem s2)).
    { eapply same_off_seq; [exact Hm1|]. unfold s2. cbn [vmem set_vmem]. rewrite <- (Z.add_0_r p).
      apply same_off_memmove; [done|lia|lia]. }
    assert (Hcont : ∀ off, 0 <= off < 4096 → vmem s2 (p + off) = vmem s0 (PTE2PA e + off)).
    { intros off Hoff. unfold s2. cbn [vmem set_vmem]. rewrite memmove_in by lia.
      replace (PTE2PA e + (p + off - p)) with (PTE2PA e + off) by lia.
      assert (Hx : in_page (PTE2PA e) (PTE2PA e + off)) by (unfold in_page; lia).
      rewrite <- (Hco a _ _ Hle Hx). apply (same_off_page _ _ _ _ Hm1 (free_pages s) Hpe); [|done].
      intros Hq. destruct (Hap (PTE2PA e)) as [_ Hn]; [|by apply (Hn a)].
      apply (cp_pool _ _ _ _ _ _ _ C). by apply elem_of_union_r. }
    destruct (as_take s s2 new Tn p (cp_inv _ _ _ _ _ _ _ C) Hpf Hf1 Hoff2)
      as (I2 & He2 & Hnf & HnT & Hnl & Ho2).
    assert (Hfr_e : 0 <= PTE_FLAGS e < 1024) by (apply flags_range, entry_range).
    assert (Hfv : Z.lor (PTE_FLAGS e) 1 = PTE_FLAGS e) by (apply flags_valid; [apply entry_range|done]).
    assert (Hf1' : Z.lor (PTE_FLAGS e) 1 ≠ 1) by (rewrite Hfv, <- pte_v_bit; done).
    assert (Hnv : has (entry (vmem s2) new a) PTE_V = false).
    { rewrite He2, (cp_rest _ _ _ _ _ _ _ C), Hempty, has_0 by lia. done. }
    apply wp_bind. eapply wp_mono.
    { rewrite <- pgsize_4096. exact (as_map new a p (PTE_FLAGS e) s2 Tn I2 Ha Hava Hpp Hfr_e Hf1' Hnv Hnf HnT Hnl). }
    cbv beta. intros r s3 (T3 & I3 & Hfr & Hor). destruct Hor as [(-> & He3 & Ho3)|(-> & He3 & HnT3 & Hnf3 & Ho3 & _)].
    + change (negb (0 =? 0)) with false. cbn iota. rewrite u64_small by lia.
      apply (IH (a + 4096) s3 T3).
      * eapply (copied_step s0 old new To Tn0 a s Tn p s2 s3 T3); try done.
        intros q. rewrite Ho2, Ho3. done.
      * by apply page_plus.
      * lia.
      * Z.to_euclidean_division_equations; lia.
    + change (negb (-1 =? 0)) with true. cbn iota. apply wp_bind, kfree_wp; [done|done|].
      intros s4 Hf4 Hm4.
      assert (Hnl3 : ∀ va, ¬ leaf s3 new va p).
      { intros va Hl3. apply (leaf_same _ _ _ _ _ He3) in Hl3. by apply (Hnl va). }
      destruct (as_give s3 s4 new T3 p I3 Hpp HnT3 Hnl3 Hf4 Hm4) as (I4 & He4 & Ho4).
      assert (Hse : same_entries s s4 new) by (intros va' Hva'; by rewrite He4, He3, He2).
      assert (Ho : ∀ q, owned s4 new T3 q ↔ owned s new Tn q) by (intros q; by rewrite Ho4, Ho3, Ho2).
      pose proof (pg_free _ _ _ _ _ Hfr) as Hfs. cbn in Hfs. rewrite Hf1 in Hfs.
      assert (Hpool : ∀ q, q ∈ dom T3 ∪ free (alloc s3) → q ∈ dom Tn ∪ free (alloc s)).
      { intros q. rewrite (pg_dom _ _ _ _ _ Hfr). cbn. rewrite Hf1. clear -Hfs. set_solver. }
      eapply wp_mono; [apply (copy_fail s0 old new To Tn0 a s Tn s4 T3 Io In Hap C Ha ltac:(lia) Hempty_a I4 Hse Ho)|].
      * intros q. rewrite Hf4. intros Hq. destruct (decide (q = p)) as [->|Hqp]; [clear -Hpf; set_solver|].
        apply Hpool. clear -Hq Hqp. set_solver.
      * eapply same_off_seq; [eapply same_off_mono; [|exact Hoff2]; clear; set_solver|].
        eapply same_off_seq; [eapply same_off_mono; [|apply (pg_mem _ _ _ _ _ Hfr)]|].
        -- cbn. rewrite Hf1. clear. set_solver.
        -- eapply same_off_mono; [|exact Hm4]. intros q. rewrite elem_of_union, elem_of_singleton.
           intros [->|Hq]; [clear -Hpf; set_solver|]. apply Hpool. clear -Hq. set_solver.
      * intros r s' [-> H]. by right.
Qed.

Lemma uvmcopy_wp old new sz s To Tn :
  as_inv s old To → as_inv s new Tn → apart s old To Tn → 0 <= sz <= MAXVA →
  all_mapped s old 0 (pgup sz) → empty_range s new 0 (pgup sz) →
  wp (uvmcopy old new sz) (λ r s',
    r = 0 ∧ (∃ T', copied s old new Tn (pgup sz) s' T' ∧ kept s s' old To)
    ∨ r = -1 ∧ uncopied s old new To Tn s') s.
Proof.
  intros Io In Hap Hsz Hall Hempty.
  assert (C : copied s old new Tn 0 s Tn).
  { constructor; try done. intros va Hva. lia. }
  destruct (pgup_spec sz). unfold uvmcopy.
  apply (uvmcopy_loop_wp s old new To Tn sz _ 0 s Tn Io In Hap Hsz Hall Hempty C); [done|lia|].
  rewrite pgsize_4096. Z.to_euclidean_division_equations; lia.
Qed.
End uvm_copy.

(** ** Properties *)

(** C9.  uvmcopy: on success (0) every page of [old] below [sz] has a copy in
    [new] at the same address, in a page of its own with the same flags and
    contents; on failure (-1) the entries of [new] are what they were.  In
    both cases [old], its entries and its contents are untouched, both
    invariants hold, and every page is accounted for: none is lost when the
    copy is given up half-way.  It never panics. *)
Theorem uvmcopy_spec `{R : Riscv, L : Allocator} {RL : RiscvLaws R} {AL : AllocatorLaws L}
  (old new sz : Z) (s : vst) (To Tn : tables)
  (Io : as_inv s old To) (In : as_inv s new Tn) (Hap : apart s old To Tn) (Hsz : 0 <= sz <= MAXVA)
  (Hall : all_mapped s old 0 (pgup sz)) (Hempty : empty_range s new 0 (pgup sz)) :
  ∃ r s', uvmcopy old new sz s = Done r s' ∧
    (r = 0 ∧ (∃ T', copied s old new Tn (pgup sz) s' T' ∧ kept s s' old To)
     ∨ r = -1 ∧ uncopied s old new To Tn s').
Proof. by apply wp_done, uvmcopy_wp. Qed.

(** The one-page space of [sample_user] is copied to an empty one. *)
Lemma uvmcopy_spec_witness :
  ∃ s', @uvmcopy sv39 page_stack sample_root 0x11000 0x1000 sample_user = Done 0 s'.
Proof.
  destruct sample_user_grown as [T G]. set (new := 0x11000).
  assert (Hnew : new ∉ dom sample_T ∪ @free page_stack (@alloc page_stack sample_vst)).
  { unfold sample_T. rewrite dom_singleton_L, elem_of_union, elem_of_singleton.
    cbn [sample_vst alloc free page_stack]. rewrite elem_of_list_to_set, list.list_elem_of_filter.
    intros [H|[_ H]]; [discriminate H|].
    repeat (apply elem_of_cons in H as [H|H]; [discriminate H|]). by apply elem_of_nil in H. }
  assert (HP : ∀ q, q ∈ dom sample_T ∪ @free page_stack (@alloc page_stack sample_vst) → is_page q)
    by (intros q; apply (@pool_pages sv39 page_stack page_stack_laws sample_vst sample_root sample_T q sample_as)).
  assert (Hz : ∀ i, 0 <= i < 512 → load64 (vmem sample_user) (new + 8 * i) = 0).
  { intros i Hi. rewrite (load64_same_off _ _ _ new i (gr_mem _ _ _ _ _ _ _ _ G) HP); [|by split|done|done].
    apply zero_load64. }
  destruct (@empty_table sv39 sv39_laws (vmem sample_user) new ltac:(by split) Hz) as [Ht He].
  assert (In : @as_inv sv39 page_stack sample_user new {[new := (2%nat, 0)]}).
  { constructor.
    - split; [done|]. rewrite dom_singleton_L, disjoint_singleton_l. intros Hf.
      apply Hnew, (gr_pool _ _ _ _ _ _ _ _ G). by apply elem_of_union_r.
    - intros va p (Hva & Hv & _). by rewrite He in Hv.
    - intros va va' p (Hva & Hv & _). by rewrite He in Hv. }
  destruct (@uvmcopy_spec sv39 page_stack sv39_laws page_stack_laws sample_root new 0x1000 sample_user T
    {[new := (2%nat, 0)]} (gr_inv _ _ _ _ _ _ _ _ G) In) as (r & s' & E & _).
  - intros q Hq. assert (Hq' : q = new ∨ q ∈ free (alloc sample_user)).
    { rewrite dom_singleton_L, elem_of_union, elem_of_singleton in Hq. exact Hq. }
    destruct Hq' as [->|Hqf].
    + assert (Ho : ¬ @owned sv39 page_stack sample_user sample_root T new).
      { intros [Ho|[Ho|(va & Hva & Hv & _)]]%(gr_owned _ _ _ _ _ _ _ _ G).
        - apply Hnew. by apply elem_of_union_r.
        - apply Hnew. by apply elem_of_union_l.
        - by rewrite sample_entry in Hv. }
      split; [intros HT|intros va Hl]; apply Ho; [by right; left|right; right; by exists va].
    + destruct (ai_pt _ _ _ (gr_inv _ _ _ _ _ _ _ _ G)) as [_ D]. split.
      * intros HT. by apply (D q).
      * intros va Hl. by destruct (ai_leaf _ _ _ (gr_inv _ _ _ _ _ _ _ _ G) _ _ Hl) as (_ & _ & ? & _).
  - split; discriminate.
  - intros va Hva. apply (gr_new _ _ _ _ _ _ _ _ G). exact Hva.
  - intros va Hva. apply He. change (0 <= va < 4096) in Hva. change (0 <= va < 2 ^ 38). lia.
  - assert (Hv : value (@uvmcopy sv39 page_stack sample_root new 0x1000 sample_user) = Some 0)
      by (vm_compute; reflexivity).
    rewrite E in Hv. injection Hv as ->. exists s'. exact E.
Defined.
