(* ===== verification/VmTerm.v ===== *)
(** Termination of the loops of vm.c (Lab3), for any arguments and any memory:
    the fuel the model computes from the arguments is never used up. *)
From S2P Require Import Prelude Riscv Vm.

Section termination.
Context {R : Riscv} {L : Allocator} {RL : RiscvLaws R}.
Implicit Types (s : vst).

(** ** Definitions *)

(** [c] finishes from every state, with a value or a panic. *)
Record halts {A} (c : V A) : Prop := Halts { halts_run : ∀ s, c s ≠ OutOfFuel }.
#[local] Arguments halts_run {A c} _ s.

(** ** Lemmas *)

Lemma halts_then_run {A B} (c : V A) (k : A → V B) :
  halts c → (∀ s a s', c s = Done a s' → halts (k a)) → halts (c ≫= k).
Proof using.
  intros [Hc] Hk. constructor. intros s. specialize (Hc s). unfold mbind, M_bind.
  destruct (c s) eqn:E; [|done|done]. eapply Hk, E.
Qed.
Lemma halts_then {A B} (c : V A) (k : A → V B) : halts c → (∀ a, halts (k a)) → halts (c ≫= k).
Proof using. intros Hc Hk. by apply halts_then_run. Qed.
Lemma halts_ret {A} (a : A) : halts (mret a : V A).
Proof using. done. Qed.
Lemma halts_panic {A} w : halts (panic w : V A).
Proof using. done. Qed.
Lemma halts_gets {A} (f : vst → A) : halts (gets f).
Proof using. done. Qed.
Lemma halts_modify (f : vst → vst) : halts (modify f).
Proof using. done. Qed.
Lemma halts_kalloc : halts kalloc.
Proof using. constructor. intros s. unfold kalloc. by destruct (do_kalloc (alloc s) (vmem s)) as [[??]?]. Qed.
Lemma halts_kfree p : halts (kfree p).
Proof using. constructor. intros s. unfold kfree. by destruct (do_kfree p (alloc s) (vmem s)) as [[??]|]. Qed.
Lemma halts_if {A} (b : bool) (c d : V A) :
  (b = true → halts c) → (b = false → halts d) → halts (if b then c else d).
Proof using. destruct b; auto. Qed.
Create HintDb halts.
#[local] Hint Resolve halts_ret halts_panic halts_gets halts_modify halts_kalloc halts_kfree : halts.
(** Follow the code: sequences, branches, then the known calls. *)
Ltac halts :=
  repeat match goal with
  | H : halts ?c |- halts ?c => exact H
  | |- halts (_ ≫= _) => apply halts_then
  | |- halts (if _ then _ else _) => apply halts_if
  | |- ∀ _, _ => intros ?
  | |- _ => solve [eauto with halts]
  end.

Lemma halts_walk_down l p va b : halts (walk_down l p va b).
Proof using.
  revert p; induction l as [|l IH]; intros p; cbn [walk_down]; unfold read64, do_memset, write64; halts.
Qed.
Lemma halts_walk p va b : halts (walk p va b).
Proof using. unfold walk. pose proof halts_walk_down. halts. Qed.
Lemma walk_high p va b : MAXVA <= va → walk p va b = panic "walk".
Proof using. intros H. unfold walk. by rewrite (proj2 (Z.leb_le _ _)). Qed.
Lemma walk_low p va b s a s' : walk p va b s = Done a s' → va < MAXVA.
Proof using. unfold walk. destruct (Z.leb_spec MAXVA va); [done|lia]. Qed.
Lemma halts_walkaddr p va : halts (walkaddr p va).
Proof using. unfold walkaddr, read64. pose proof halts_walk. halts. Qed.
Lemma walkaddr_low p va s a s' : walkaddr p va s = Done a s' → a ≠ 0 → va < MAXVA.
Proof using. unfold walkaddr. destruct (Z.leb_spec MAXVA va); [intros [= <- _]; done|lia]. Qed.
#[local] Hint Resolve halts_walk halts_walkaddr : halts.

Lemma halts_mappages_loop p last perm fuel a pa :
  a mod 4096 = 0 → last mod 4096 = 0 → 0 <= a < 2 ^ 64 →
  (Z.to_nat (((if a <=? last then last - a else MAXVA - a) / 4096)%Z) < fuel)%nat →
  halts (mappages_loop fuel p a last pa perm).
Proof using RL.
  pose proof maxva_range as HM. pose proof maxva_page as HMp.
  revert a pa; induction fuel as [|fuel IH]; intros a pa Ha Hl Har Hf; [lia|].
  cbn [mappages_loop]. unfold read64, write64. apply halts_then_run; [apply halts_walk|].
  intros s slot s1 Hw. apply walk_low in Hw. halts. rewrite pgsize_4096, u64_small by lia.
  assert (a ≠ last) by lia. apply IH.
  - Z.to_euclidean_division_equations; lia.
  - done.
  - lia.
  - destruct (Z.leb_spec a last), (Z.leb_spec (a + 4096) last); Z.to_euclidean_division_equations; lia.
Qed.
Lemma halts_mappages p va size pa perm :
  0 <= va < 2 ^ 64 → halts (mappages p va size pa perm).
Proof using RL.
  intros Hva. unfold mappages. halts. rewrite pgsize_4096. pose proof (u64_range (va + size - 1)).
  apply halts_mappages_loop; [by apply pgrounddown_le..| |lia].
  pose proof (pgrounddown_le va Hva). rewrite pgrounddown_def by done. Z.to_euclidean_division_equations; lia.
Qed.

Lemma halts_uvmunmap_loop p stop b fuel a :
  a mod 4096 = 0 → stop mod 4096 = 0 → 0 <= a → 0 <= stop < 2 ^ 64 →
  (Z.to_nat ((stop - a) / 4096) < fuel)%nat → halts (uvmunmap_loop fuel p a stop b).
Proof using RL.
  revert a; induction fuel as [|fuel IH]; intros a Ha Hs Ha0 Hst Hf; [lia|].
  cbn [uvmunmap_loop]. destruct (Z.ltb_spec a stop) as [Hlt|Hge]; [|halts].
  unfold read64, write64. halts. rewrite pgsize_4096, u64_small by (Z.to_euclidean_division_equations; lia).
  apply IH; try done; try lia; Z.to_euclidean_division_equations; lia.
Qed.
Lemma halts_uvmunmap p va n b : 0 <= va < 2 ^ 64 → halts (uvmunmap p va n b).
Proof using RL.
  intros Hva. unfold uvmunmap. rewrite pgsize_4096.
  destruct (Z.eqb_spec (va mod 4096) 0) as [E|E]; cbn [negb]; [|halts].
  apply halts_uvmunmap_loop; [done| |lia|apply u64_range|lia].
  unfold u64. Z.to_euclidean_division_equations; lia.
Qed.
Lemma pgroundup_range x : 0 <= x < 2 ^ 64 → 0 <= PGROUNDUP x < 2 ^ 64 ∧ PGROUNDUP x mod 4096 = 0.
Proof using RL.
  intros Hx. rewrite pgroundup_def by done. pose proof (u64_range (x + 4095)).
  Z.to_euclidean_division_equations; lia.
Qed.
#[local] Hint Resolve halts_mappages halts_uvmunmap : halts.
Lemma halts_uvmdealloc p o n : 0 <= n < 2 ^ 64 → halts (uvmdealloc p o n).
Proof using RL. intros Hn. pose proof (pgroundup_range n Hn). unfold uvmdealloc. halts; apply halts_uvmunmap; tauto. Qed.
#[local] Hint Resolve halts_uvmdealloc : halts.

(** A call of mappages that answers started below MAXVA. *)
Lemma mappages_low p a size pa perm s r s' :
  a mod 4096 = 0 → 0 <= a < 2 ^ 64 → mappages p a size pa perm s = Done r s' → a < MAXVA.
Proof using RL.
  intros Ha Har. unfold mappages. destruct (size =? 0); [done|]. cbn [mappages_loop].
  rewrite (pgrounddown_def a Har). assert (a / 4096 * 4096 = a) as -> by (Z.to_euclidean_division_equations; lia).
  intros H. apply bind_Done_inv in H as (sl & s1 & Hw & _). by eapply walk_low.
Qed.

Lemma halts_uvmalloc_loop p oldsz newsz xperm fuel a :
  a mod 4096 = 0 → 0 <= a < 2 ^ 64 → 0 <= oldsz < 2 ^ 64 → newsz < 2 ^ 64 →
  (Z.to_nat ((newsz - a + 4095) / 4096) < fuel)%nat → halts (uvmalloc_loop fuel p a oldsz newsz xperm).
Proof using RL.
  pose proof maxva_range as HM.
  revert a; induction fuel as [|fuel IH]; intros a Ha Har Ho Hn Hf; [lia|].
  cbn [uvmalloc_loop]. destruct (Z.ltb_spec a newsz) as [Hlt|Hge]; [|halts].
  unfold do_memset. apply halts_then; [halts|]. intros q. apply halts_if; [halts|intros _].
  apply halts_then; [halts|]. intros []. apply halts_then_run; [halts|]. intros s r s1 Hr.
  apply mappages_low in Hr; [|done|done].
  apply halts_if; [halts|intros _]. rewrite pgsize_4096, u64_small by lia.
  apply IH; try done; Z.to_euclidean_division_equations; lia.
Qed.
Lemma halts_uvmalloc p o n x : 0 <= o < 2 ^ 64 → n < 2 ^ 64 → halts (uvmalloc p o n x).
Proof using RL.
  intros Ho Hn. destruct (pgroundup_range o Ho) as [Hr Hm]. unfold uvmalloc. apply halts_if; [halts|intros _].
  rewrite pgsize_4096. apply halts_uvmalloc_loop; try done. Z.to_euclidean_division_equations; lia.
Qed.

Lemma halts_uvmcopy_loop old new sz fuel a :
  a mod 4096 = 0 → 0 <= a < 2 ^ 64 → (Z.to_nat ((sz - a + 4095) / 4096) < fuel)%nat →
  halts (uvmcopy_loop fuel old new a sz).
Proof using RL.
  pose proof maxva_range as HM.
  revert a; induction fuel as [|fuel IH]; intros a Ha Har Hf; [lia|].
  cbn [uvmcopy_loop]. destruct (Z.ltb_spec a sz) as [Hlt|Hge]; [|halts].
  apply halts_then_run; [halts|]. intros s sl s1 Hw. apply walk_low in Hw. rewrite pgsize_4096, u64_small by lia.
  assert (Herr : halts (uvmunmap new 0 (a / 4096) true;; mret (-1))) by (halts; apply halts_uvmunmap; lia).
  assert (Hrec : halts (uvmcopy_loop fuel old new (a + 4096) sz))
    by (apply IH; Z.to_euclidean_division_equations; lia).
  unfold read64, do_memmove. halts.
Qed.

(** The copies: each turn but the first starts a page. *)
Definition steps_left (va len : Z) : nat := Z.to_nat ((va mod 4096 + len + 4095) / 4096).
Lemma next_page va len n : 0 <= va < 2 ^ 64 → PGROUNDDOWN va < MAXVA → 0 < len →
  n = (if len <? PGSIZE - (va - PGROUNDDOWN va) then len else PGSIZE - (va - PGROUNDDOWN va)) →
  0 < n <= len ∧ 0 <= u64 (PGROUNDDOWN va + PGSIZE) < 2 ^ 64
  ∧ (steps_left (u64 (PGROUNDDOWN va + PGSIZE)) (len - n) < steps_left va len)%nat.
Proof using RL.
  intros Hva Hm Hl ->. pose proof maxva_range. rewrite pgsize_4096, pgrounddown_def in * by done.
  rewrite u64_small by (Z.to_euclidean_division_equations; lia). unfold steps_left.
  destruct (Z.ltb_spec len (4096 - (va - va / 4096 * 4096))); (split; [|split]); Z.to_euclidean_division_equations; lia.
Qed.
Lemma steps_fuel va len : (steps_left va len < S (S (Z.to_nat (len / 4096 + 1))))%nat.
Proof using. unfold steps_left. Z.to_euclidean_division_equations; lia. Qed.

Lemma halts_copyout_loop p fuel dstva src len :
  0 <= dstva < 2 ^ 64 → (steps_left dstva len < fuel)%nat → halts (copyout_loop fuel p dstva src len).
Proof using RL.
  revert dstva src len; induction fuel as [|fuel IH]; intros dstva src len Hd Hf; [lia|].
  cbn [copyout_loop]. destruct (Z.ltb_spec 0 len) as [Hlt|Hge]; [|halts].
  apply halts_then_run; [halts|]. intros s pa s1 Hw.
  destruct (Z.eqb_spec pa 0) as [->|Hne]; [halts|]. apply walkaddr_low in Hw; [|done].
  destruct (next_page dstva len _ Hd Hw Hlt eq_refl) as (_ & Hr & Hs).
  unfold do_memmove. halts. apply IH; [done|lia].
Qed.
Lemma halts_copyin_loop p fuel dst srcva len :
  0 <= srcva < 2 ^ 64 → (steps_left srcva len < fuel)%nat → halts (copyin_loop fuel p dst srcva len).
Proof using RL.
  revert dst srcva len; induction fuel as [|fuel IH]; intros dst srcva len Hd Hf; [lia|].
  cbn [copyin_loop]. destruct (Z.ltb_spec 0 len) as [Hlt|Hge]; [|halts].
  apply halts_then_run; [halts|]. intros s pa s1 Hw.
  destruct (Z.eqb_spec pa 0) as [->|Hne]; [halts|]. apply walkaddr_low in Hw; [|done].
  destruct (next_page srcva len _ Hd Hw Hlt eq_refl) as (_ & Hr & Hs).
  unfold do_memmove. halts. apply IH; [done|lia].
Qed.

(** The inner loop of copyinstr answers with [max] less by what it copied. *)
Lemma halts_copy_bytes n p max dst : halts (copy_bytes n p max dst).
Proof using. revert p max dst; induction n as [|n IH]; intros p max dst; cbn [copy_bytes]; halts. Qed.
Lemma copy_bytes_max n p max dst s b m d s' :
  copy_bytes n p max dst s = Done (b, m, d) s' → b = true ∨ m = max - Z.of_nat n.
Proof using.
  revert p max dst s; induction n as [|n IH]; intros p max dst s; cbn [copy_bytes].
  { intros [= <- <- _ _]. right. lia. }
  run. case_bool_decide as Hb; run; [intros [= <- _ _ _]; by left|].
  intros H. apply IH in H as [?|?]; [by left|right; lia].
Qed.
Lemma halts_copyinstr_loop p fuel dst srcva max :
  0 <= srcva < 2 ^ 64 → (steps_left srcva max < fuel)%nat → halts (copyinstr_loop fuel p dst srcva max).
Proof using RL.
  revert dst srcva max; induction fuel as [|fuel IH]; intros dst srcva max Hd Hf; [lia|].
  cbn [copyinstr_loop]. destruct (Z.ltb_spec 0 max) as [Hlt|Hge]; [|halts].
  apply halts_then_run; [halts|]. intros s pa s1 Hw.
  destruct (Z.eqb_spec pa 0) as [->|Hne]; [halts|]. apply walkaddr_low in Hw; [|done].
  destruct (next_page srcva max _ Hd Hw Hlt eq_refl) as (Hn & Hr & Hs).
  apply halts_then_run; [apply halts_copy_bytes|]. intros s2 [[b m] d] s3 Hc.
  apply copy_bytes_max in Hc. destruct b; [halts|]. destruct Hc as [Hc|Hc]; [done|].
  rewrite Z2Nat.id in Hc by lia. subst m. apply IH; [done|lia].
Qed.

Lemma halts_uvmclear p va : halts (uvmclear p va).
Proof using. unfold uvmclear, read64, write64. halts. Qed.
Lemma halts_kvmmap p va pa sz perm : 0 <= va < 2 ^ 64 → halts (kvmmap p va pa sz perm).
Proof using RL. intros Hva. unfold kvmmap. pose proof (halts_mappages p va sz pa perm Hva). halts. Qed.
Lemma halts_uvmfirst p src sz : halts (uvmfirst p src sz).
Proof using RL.
  unfold uvmfirst, do_memset, do_memmove. assert (H : ∀ q perm, halts (mappages p 0 PGSIZE q perm)) by (intros; by apply halts_mappages).
  halts.
Qed.

(** vmprint, which stops at the third level: more fuel prints nothing more. *)
Lemma vmprint_fuel n k m root level : level + Z.of_nat n = 4 → 1 <= level <= 3 →
  vmprint (n + k) m root level = vmprint n m root level.
Proof using.
  revert root level; induction n as [|n IH]; intros root level Hl H1; [lia|]. cbn [vmprint Nat.add]. f_equal.
  apply List.flat_map_ext. intros i. destruct (has _ PTE_V); [|done]. f_equal.
  destruct (Z.eqb_spec level 3); cbn [negb]; [done|]. apply IH; lia.
Qed.

Lemma bind_fuel {A B} (c : V A) (k : A → V B) s : c s = OutOfFuel → (c ≫= k) s = OutOfFuel.
Proof using. unfold mbind, M_bind. by intros ->. Qed.
Lemma for_entries_S n i body : for_entries (S n) i body = (body i;; for_entries n (i + 1) body).
Proof using. done. Qed.

(** freewalk, which does not count the levels: on a table whose first entry
    points to the table itself it goes down for ever. *)
Lemma freewalk_cycle fuel root s :
  let pte := load64 (vmem s) root in
  has pte PTE_V = true → Z.land pte (Z.lor (Z.lor PTE_R PTE_W) PTE_X) = 0 → PTE2PA pte = root →
  freewalk fuel root s = OutOfFuel.
Proof using.
  intros pte Hv Hx Hp. induction fuel as [|fuel IH]; [done|]. cbn [freewalk].
  rewrite (for_entries_S 511). apply bind_fuel, bind_fuel. unfold read64. rewrite gets_bind.
  rewrite Z.mul_0_r, Z.add_0_r. fold pte. rewrite Hv, Hx, Z.eqb_refl, Hp. cbn [andb]. by apply bind_fuel.
Qed.

(** ** Properties *)

(** C35.  Termination in vm.c.  Every function that loops over a range of
    addresses or levels (walk, walkaddr, mappages, kvmmap, uvmunmap, uvmfirst,
    uvmalloc, uvmdealloc, uvmcopy, uvmclear, copyout, copyin, copyinstr) ends with
    an answer or in a panic within the fuel the model gives its loop, for any
    page table (well formed or not, cycles included), any memory, any allocator
    and any 64-bit arguments, also when the range wraps around.  vmprint ends:
    it goes down three levels, and more fuel prints nothing more.  freewalk, and
    with it uvmfree, does not count the levels: on a table whose first entry
    points to the table itself no fuel is enough (on the tables of a process
    its three levels are, as uvmfree_spec says). *)
Theorem vm_loops_terminate root new va a b perm len (alloc free : bool) (n : nat) (s : vst) :
  0 <= va < 2 ^ 64 → 0 <= a < 2 ^ 64 → 0 <= b < 2 ^ 64 →
  (walk root va alloc s ≠ OutOfFuel ∧ walkaddr root va s ≠ OutOfFuel
   ∧ mappages root va a b perm s ≠ OutOfFuel ∧ kvmmap root va b a perm s ≠ OutOfFuel
   ∧ uvmunmap root va a free s ≠ OutOfFuel ∧ uvmfirst root b a s ≠ OutOfFuel
   ∧ uvmalloc root a b perm s ≠ OutOfFuel ∧ uvmdealloc root a b s ≠ OutOfFuel
   ∧ uvmcopy root new a s ≠ OutOfFuel ∧ uvmclear root va s ≠ OutOfFuel
   ∧ copyout root va b len s ≠ OutOfFuel ∧ copyin root b va len s ≠ OutOfFuel
   ∧ copyinstr root b va len s ≠ OutOfFuel)
  ∧ vmprint (3 + n) (vmem s) root 1 = vmprint 3 (vmem s) root 1
  ∧ (let pte := load64 (vmem s) root in
     has pte PTE_V = true → Z.land pte (Z.lor (Z.lor PTE_R PTE_W) PTE_X) = 0 → PTE2PA pte = root →
     freewalk n root s = OutOfFuel).
Proof using RL.
  intros Hva Ha Hb. split; [split_and!; apply halts_run|split].
  - apply halts_walk.
  - apply halts_walkaddr.
  - by apply halts_mappages.
  - by apply halts_kvmmap.
  - by apply halts_uvmunmap.
  - apply halts_uvmfirst.
  - apply halts_uvmalloc; [done|lia].
  - by apply halts_uvmdealloc.
  - apply halts_uvmcopy_loop; rewrite ?pgsize_4096; [done|lia|Z.to_euclidean_division_equations; lia].
  - apply halts_uvmclear.
  - apply halts_copyout_loop; [done|]. rewrite pgsize_4096. apply steps_fuel.
  - apply halts_copyin_loop; [done|]. rewrite pgsize_4096. apply steps_fuel.
  - apply halts_copyinstr_loop; [done|]. rewrite pgsize_4096. apply steps_fuel.
  - by apply (vmprint_fuel 3 n).
  - apply freewalk_cycle.
Qed.
End termination.

(** A range that wraps around, in a memory of zeros with no free page; and a
    table whose first entry points to it. *)
Lemma vm_loops_terminate_witness :
  mappages (R := sv39) (L := page_stack) 0x1000 (2 ^ 64 - 4096) 8192 0 0 (Vst page_stack (λ _, x00) ([] : list Z)) ≠ OutOfFuel
  ∧ ∀ n, freewalk (R := sv39) (L := page_stack) n 0x1000 (Vst page_stack (store64 (λ _, x00) 0x1000 0x401) ([] : list Z)) = OutOfFuel.
Proof.
  split; [|intros n].
  - refine (proj1 (proj2 (proj2 (proj1
      (vm_loops_terminate (RL := sv39_laws) 0x1000 0 (2 ^ 64 - 4096) 8192 0 0 0 true false 0 _ _ _ _))))); lia.
  - refine (proj2 (proj2 (vm_loops_terminate (RL := sv39_laws) 0x1000 0 0 0 0 0 0 true false n _ _ _ _)) _ _ _);
      try lia; vm_compute; reflexivity.
Defined.
