(* ===== verification/RiscvProc.v ===== *)
(** proc.c and proc.h (Lab3): the RISC-V process table, with the page a process
    shares with the kernel (USYSCALL).  Data and operations.

    - A [struct proc *] is the index of its slot; a page table, a trap frame and
      a usyscall page are pages of the memory of Vm.v, read and written there.
    - Code outside the repository (file system, locks, context switch) is
      reached through [event]s, as in LotteryProc.v; kalloc and kfree are the
      allocator of Riscv.v.
    - An operation that gives up the CPU is cut at [swtch]: [X_enter] is the
      part before and [X_leave] the part after it. *)
From S2P Require Import Prelude Riscv Vm.

(** ** Definitions *)

Definition NPROC : nat := 64.
Definition NOFILE : nat := 16.
Definition ROOTDEV : Z := 1.

Inductive procstate := UNUSED | USED | SLEEPING | RUNNABLE | RUNNING | ZOMBIE.
#[export] Instance procstate_eq_dec : EqDecision procstate.
Proof. solve_decision. Defined.

(** Saved registers for kernel context switches: [s] are s0 to s11. *)
Record context := Context_ { ra : Z; sp : Z; s_regs : list Z }.

(** A wait channel: none, the address of a table slot, another address. *)
Inductive channel := NoChan | ProcChan (i : nat) | AddrChan (a : Z).
#[export] Instance channel_eq_dec : EqDecision channel.
Proof. solve_decision. Defined.

Record proc := Proc { state : procstate; chan : channel; killed : Z; xstate : Z; pid : Z; parent : option nat; kstack : Z; sz : Z; pagetable : Z; trapframe : Z; usyscall : Z; ctx : context; ofile : list Z; cwd : Z; name : list byte }.

Definition set_state v p := Proc v (chan p) (killed p) (xstate p) (pid p) (parent p) (kstack p) (sz p) (pagetable p) (trapframe p) (usyscall p) (ctx p) (ofile p) (cwd p) (name p).
Definition set_chan v p := Proc (state p) v (killed p) (xstate p) (pid p) (parent p) (kstack p) (sz p) (pagetable p) (trapframe p) (usyscall p) (ctx p) (ofile p) (cwd p) (name p).
Definition set_killed v p := Proc (state p) (chan p) v (xstate p) (pid p) (parent p) (kstack p) (sz p) (pagetable p) (trapframe p) (usyscall p) (ctx p) (ofile p) (cwd p) (name p).
Definition set_xstate v p := Proc (state p) (chan p) (killed p) v (pid p) (parent p) (kstack p) (sz p) (pagetable p) (trapframe p) (usyscall p) (ctx p) (ofile p) (cwd p) (name p).
Definition set_pid v p := Proc (state p) (chan p) (killed p) (xstate p) v (parent p) (kstack p) (sz p) (pagetable p) (trapframe p) (usyscall p) (ctx p) (ofile p) (cwd p) (name p).
Definition set_parent v p := Proc (state p) (chan p) (killed p) (xstate p) (pid p) v (kstack p) (sz p) (pagetable p) (trapframe p) (usyscall p) (ctx p) (ofile p) (cwd p) (name p).
Definition set_kstack v p := Proc (state p) (chan p) (killed p) (xstate p) (pid p) (parent p) v (sz p) (pagetable p) (trapframe p) (usyscall p) (ctx p) (ofile p) (cwd p) (name p).
Definition set_sz v p := Proc (state p) (chan p) (killed p) (xstate p) (pid p) (parent p) (kstack p) v (pagetable p) (trapframe p) (usyscall p) (ctx p) (ofile p) (cwd p) (name p).
Definition set_pagetable v p := Proc (state p) (chan p) (killed p) (xstate p) (pid p) (parent p) (kstack p) (sz p) v (trapframe p) (usyscall p) (ctx p) (ofile p) (cwd p) (name p).
Definition set_trapframe v p := Proc (state p) (chan p) (killed p) (xstate p) (pid p) (parent p) (kstack p) (sz p) (pagetable p) v (usyscall p) (ctx p) (ofile p) (cwd p) (name p).
Definition set_usyscall v p := Proc (state p) (chan p) (killed p) (xstate p) (pid p) (parent p) (kstack p) (sz p) (pagetable p) (trapframe p) v (ctx p) (ofile p) (cwd p) (name p).
Definition set_ctx v p := Proc (state p) (chan p) (killed p) (xstate p) (pid p) (parent p) (kstack p) (sz p) (pagetable p) (trapframe p) (usyscall p) v (ofile p) (cwd p) (name p).
Definition set_ofile v p := Proc (state p) (chan p) (killed p) (xstate p) (pid p) (parent p) (kstack p) (sz p) (pagetable p) (trapframe p) (usyscall p) (ctx p) v (cwd p) (name p).
Definition set_cwd v p := Proc (state p) (chan p) (killed p) (xstate p) (pid p) (parent p) (kstack p) (sz p) (pagetable p) (trapframe p) (usyscall p) (ctx p) (ofile p) v (name p).
Definition set_name v p := Proc (state p) (chan p) (killed p) (xstate p) (pid p) (parent p) (kstack p) (sz p) (pagetable p) (trapframe p) (usyscall p) (ctx p) (ofile p) (cwd p) v.

(** The part of [struct cpu] that proc.c reads and writes. *)
Record cpu := Cpu { cpu_proc : option nat; noff : Z; intena : Z }.

Inductive lockid := PidLock | WaitLock | ProcLock (i : nat) | OtherLock (a : Z).
#[export] Instance lockid_eq_dec : EqDecision lockid.
Proof. solve_decision. Defined.

(** Calls to code outside proc.c and vm.c, in the order they are made. *)
Inductive event :=
  | EInitlock (l : lockid) | EAcquire (l : lockid) | ERelease (l : lockid)
  | EFiledup (f r : Z) | EFileclose (f : Z) | EIdup (ip r : Z) | EIput (ip : Z)
  | EBeginOp | EEndOp | ENamei (r : Z) | EFsinit (dev : Z) | EIntrOn | ESwtch | EUsertrapret
  | EIlock (ip : Z) | EIunlockput (ip : Z) | EReadi (ip off n r : Z) | EPrint (l : list vline).

(** The fields of [struct trapframe] the sources use: their offsets, and its
    size (proc.h). *)
Definition tf_epc : Z := 24.
Definition tf_sp : Z := 48.
Definition tf_a0 : Z := 112.
Definition tf_a1 : Z := 120.
Definition sizeof_trapframe : Z := 288.

(** Results of the calls; memlayout.h's user addresses and the symbols the code
    names. *)
Class ProcExt := {
  filedup_ret : list event → Z → Z;
  idup_ret : list event → Z → Z;
  namei_ret : list event → Z;
  safestrcpy : list byte → list byte → Z → list byte;
  initcode_name : list byte;
  TRAPFRAME : Z; USYSCALL : Z; usyscall_pid : Z; forkret_addr : Z;
  initcode : Z; sizeof_initcode : Z; xstate_addr : nat → Z }.

Section proc.
Context {R : Riscv} {L : Allocator} {KL : Layout} {PE : ProcExt}.

Record kst := Kst {
  vm : vst; procs : list proc; nextpid : Z; initproc : option nat;
  cpus : list cpu; first : bool; trace : list event }.

Definition set_vm v s := Kst v (procs s) (nextpid s) (initproc s) (cpus s) (first s) (trace s).
Definition set_procs v s := Kst (vm s) v (nextpid s) (initproc s) (cpus s) (first s) (trace s).
Definition set_nextpid v s := Kst (vm s) (procs s) v (initproc s) (cpus s) (first s) (trace s).
Definition set_initproc v s := Kst (vm s) (procs s) (nextpid s) v (cpus s) (first s) (trace s).
Definition set_cpus v s := Kst (vm s) (procs s) (nextpid s) (initproc s) v (first s) (trace s).
Definition set_first v s := Kst (vm s) (procs s) (nextpid s) (initproc s) (cpus s) v (trace s).
Definition set_trace v s := Kst (vm s) (procs s) (nextpid s) (initproc s) (cpus s) (first s) v.

Notation K := (M kst).

(** An operation on the memory and the allocator. *)
Definition vmop {A} (c : V A) : K A := λ s,
  match c (vm s) with
  | Done a v => Done a (set_vm v s)
  | Panic w => Panic w
  | OutOfFuel => OutOfFuel
  end.

Definition emit (e : event) : K unit := modify (λ s, set_trace (trace s ++ [e]) s).
Definition acquire (l : lockid) : K unit := emit (EAcquire l).
Definition release (l : lockid) : K unit := emit (ERelease l).
Definition filedup (f : Z) : K Z :=
  r ← gets (λ s, filedup_ret (trace s) f); emit (EFiledup f r);; mret r.
Definition idup (ip : Z) : K Z :=
  r ← gets (λ s, idup_ret (trace s) ip); emit (EIdup ip r);; mret r.
Definition namei : K Z :=
  r ← gets (λ s, namei_ret (trace s)); emit (ENamei r);; mret r.

(** Reading and writing the slot a [struct proc *] points to. *)
Definition getp (i : nat) : K proc := λ s,
  match procs s !! i with Some p => Done p s | None => Panic "bad proc pointer" end.
Definition updp (i : nat) (f : proc → proc) : K unit :=
  modify (λ s, set_procs (alter f i (procs s)) s).

Fixpoint procinit_loop (n i : nat) : K unit :=
  match n with
  | O => mret tt
  | S n' =>
      emit (EInitlock (ProcLock i));;
      updp i (λ p, set_kstack (KSTACK i) (set_state UNUSED p));;
      procinit_loop n' (S i)
  end.
Definition procinit : K unit :=
  emit (EInitlock PidLock);; emit (EInitlock WaitLock);; procinit_loop NPROC 0.

(** [tp] is what r_tp() answers, the CPU's number. *)
Definition cpuid (tp : Z) : Z := i32 tp.
Definition mycpu (tp : Z) : nat := Z.to_nat (cpuid tp).
Definition myproc (me : nat) : K (option nat) := gets (λ s, c ← cpus s !! me; cpu_proc c).
Definition curproc (me : nat) : K nat :=
  o ← myproc me; match o with Some i => mret i | None => panic "null proc pointer" end.
Definition set_cpu_proc (me : nat) (o : option nat) : K unit :=
  modify (λ s, set_cpus (alter (λ c, Cpu o (noff c) (intena c)) me (cpus s)) s).

Definition allocpid : K Z :=
  acquire PidLock;;
  pid ← gets nextpid;
  modify (set_nextpid (i32 (pid + 1)));;
  release PidLock;;
  mret pid.

(** [p->trapframe] and [p->usyscall] are [tf] and [us]. *)
Definition proc_pagetable (tf us : Z) : V Z :=
  pagetable ← uvmcreate;
  if pagetable =? 0 then mret 0
  else
    r ← mappages pagetable TRAMPOLINE PGSIZE trampoline (Z.lor PTE_R PTE_X);
    if r <? 0 then uvmfree pagetable 0;; mret 0
    else
      r ← mappages pagetable TRAPFRAME PGSIZE tf (Z.lor PTE_R PTE_W);
      if r <? 0 then
        uvmunmap pagetable TRAMPOLINE 1 false;; uvmfree pagetable 0;; mret 0
      else
        r ← mappages pagetable USYSCALL PGSIZE us (Z.lor PTE_R PTE_U);
        if r <? 0 then
          uvmunmap pagetable USYSCALL 1 false;; uvmfree pagetable 0;; mret 0
        else mret pagetable.

Definition proc_freepagetable (pagetable sz : Z) : V unit :=
  uvmunmap pagetable USYSCALL 1 false;;
  uvmunmap pagetable TRAMPOLINE 1 false;;
  uvmunmap pagetable TRAPFRAME 1 false;;
  uvmfree pagetable sz.

(** What freeproc leaves in the slot. *)
Definition free_slot (p : proc) : proc :=
  Proc UNUSED NoChan 0 0 0 None (kstack p) 0 0 0 0 (ctx p) (ofile p) (cwd p) (<[0%nat := x00]> (name p)).
Definition freeproc (i : nat) : K unit :=
  p ← getp i;
  (if usyscall p =? 0 then mret tt else vmop (kfree (usyscall p)));;
  (if trapframe p =? 0 then mret tt else vmop (kfree (trapframe p)));;
  (if pagetable p =? 0 then mret tt else vmop (proc_freepagetable (pagetable p) (sz p)));;
  updp i free_slot.

(** allocproc's loop: the slots before the one taken are locked and unlocked. *)
Fixpoint find_unused (ps : list proc) (i : nat) : K (option nat) :=
  match ps with
  | [] => mret None
  | p :: ps' =>
      acquire (ProcLock i);;
      if bool_decide (state p = UNUSED) then mret (Some i)
      else release (ProcLock i);; find_unused ps' (S i)
  end.
Definition fresh_context (p : proc) : proc :=
  set_ctx (Context_ forkret_addr (u64 (kstack p + PGSIZE)) (replicate 12 0)) p.
Definition allocproc : K (option nat) :=
  ps ← gets procs;
  o ← find_unused ps 0;
  match o with
  | None => mret None
  | Some i =>
      let fail := freeproc i;; release (ProcLock i);; mret None in
      pid ← allocpid;
      updp i (λ p, set_state USED (set_pid pid p));;
      tf ← vmop kalloc;
      updp i (set_trapframe tf);;
      if tf =? 0 then fail
      else
        us ← vmop kalloc;
        updp i (set_usyscall us);;
        if us =? 0 then fail
        else
          vmop (modify (λ v, set_vmem (store 4 (vmem v) (us + usyscall_pid) pid) v));;
          pt ← vmop (proc_pagetable tf us);
          updp i (set_pagetable pt);;
          if pt =? 0 then fail
          else updp i fresh_context;; mret (Some i)
  end.

Definition userinit : K unit :=
  o ← allocproc;
  modify (set_initproc o);;
  match o with
  | None => panic "null proc pointer"
  | Some i =>
      p ← getp i;
      vmop (uvmfirst (pagetable p) initcode sizeof_initcode);;
      updp i (set_sz PGSIZE);;
      vmop (write64 (trapframe p + tf_epc) 0);;
      vmop (write64 (trapframe p + tf_sp) PGSIZE);;
      updp i (λ p, set_name (safestrcpy (name p) initcode_name 16) p);;
      w ← namei;
      updp i (set_cwd w);;
      updp i (set_state RUNNABLE);;
      release (ProcLock i)
  end.

(** [n] is an [int]: [sz + n] is computed in 64 bits. *)
Definition growproc (me : nat) (n : Z) : K Z :=
  i ← curproc me;
  p ← getp i;
  if 0 <? n then
    r ← vmop (uvmalloc (pagetable p) (sz p) (u64 (sz p + n)) PTE_W);
    if r =? 0 then mret (-1) else updp i (set_sz r);; mret 0
  else if n <? 0 then
    r ← vmop (uvmdealloc (pagetable p) (sz p) (u64 (sz p + n)));
    updp i (set_sz r);; mret 0
  else updp i (set_sz (sz p));; mret 0.

Fixpoint dup_files (j : nat) (fs : list Z) (fd : nat) : K unit :=
  match fs with
  | [] => mret tt
  | f :: fs' =>
      (if f =? 0 then mret tt
       else r ← filedup f; updp j (λ p, set_ofile (<[fd := r]> (ofile p)) p));;
      dup_files j fs' (S fd)
  end.

Definition fork (me : nat) : K Z :=
  i ← curproc me;
  o ← allocproc;
  match o with
  | None => mret (-1)
  | Some j =>
      p ← getp i;
      np ← getp j;
      r ← vmop (uvmcopy (pagetable p) (pagetable np) (sz p));
      if r <? 0 then freeproc j;; release (ProcLock j);; mret (-1)
      else
        updp j (set_sz (sz p));;
        vmop (do_memmove (trapframe np) (trapframe p) sizeof_trapframe);;
        vmop (write64 (trapframe np + tf_a0) 0);;
        dup_files j (ofile p) 0;;
        w ← idup (cwd p);
        updp j (set_cwd w);;
        updp j (λ q, set_name (safestrcpy (name q) (name p) 16) q);;
        release (ProcLock j);;
        acquire WaitLock;; updp j (set_parent (Some i));; release WaitLock;;
        acquire (ProcLock j);; updp j (set_state RUNNABLE);; release (ProcLock j);;
        mret (pid np)
  end.

(** *** Exit, wait and the scheduler *)

Definition chan_of (o : option nat) : channel := match o with Some i => ProcChan i | None => NoChan end.

(** wakeup: every slot but the caller's, each under its lock. *)
Fixpoint wakeup_loop (self : option nat) (c : channel) (n i : nat) : K unit :=
  match n with
  | O => mret tt
  | S n' =>
      (if bool_decide (Some i = self) then mret tt
       else
         acquire (ProcLock i);;
         p ← getp i;
         (if bool_decide (state p = SLEEPING ∧ chan p = c) then updp i (set_state RUNNABLE) else mret tt);;
         release (ProcLock i));;
      wakeup_loop self c n' (S i)
  end.
Definition wakeup (me : nat) (c : channel) : K unit :=
  o ← myproc me; ps ← gets procs; wakeup_loop o c (length ps) 0.

Fixpoint reparent_loop (me i : nat) (n j : nat) : K unit :=
  match n with
  | O => mret tt
  | S n' =>
      pp ← getp j;
      (if bool_decide (parent pp = Some i) then
         ip ← gets initproc; updp j (set_parent ip);; wakeup me (chan_of ip)
       else mret tt);;
      reparent_loop me i n' (S j)
  end.
Definition reparent (me i : nat) : K unit := ps ← gets procs; reparent_loop me i (length ps) 0.

(** [sched]: [holding] is holding(&p->lock), [intr] is intr_get(); the value is
    the [intena] that the process keeps. *)
Definition sched (me : nat) (holding intr : bool) : K Z :=
  i ← curproc me;
  p ← getp i;
  cs ← gets cpus;
  if negb holding then panic "sched p->lock"
  else if negb (default 0 (noff <$> cs !! me) =? 1) then panic "sched locks"
  else if bool_decide (state p = RUNNING) then panic "sched running"
  else if intr then panic "sched interruptible"
  else emit ESwtch;; mret (default 0 (intena <$> cs !! me)).
Definition sched_resume (me : nat) (intena' : Z) : K unit :=
  modify (λ s, set_cpus (alter (λ c, Cpu (cpu_proc c) (noff c) intena') me (cpus s)) s).

Fixpoint close_files (i : nat) (fs : list Z) (fd : nat) : K unit :=
  match fs with
  | [] => mret tt
  | f :: fs' =>
      (if f =? 0 then mret tt
       else emit (EFileclose f);; updp i (λ p, set_ofile (<[fd := 0]> (ofile p)) p));;
      close_files i fs' (S fd)
  end.
Definition exit_close (me : nat) : K unit :=
  i ← curproc me;
  ip ← gets initproc;
  if bool_decide (Some i = ip) then panic "init exiting"
  else
    p ← getp i;
    close_files i (ofile p) 0;;
    emit EBeginOp;; emit (EIput (cwd p));; emit EEndOp;;
    updp i (set_cwd 0).
Definition exit_locked (me : nat) (status : Z) : K unit :=
  i ← curproc me;
  acquire WaitLock;;
  reparent me i;;
  p ← getp i;
  wakeup me (chan_of (parent p));;
  acquire (ProcLock i);;
  updp i (set_xstate status);;
  updp i (set_state ZOMBIE);;
  release WaitLock.
(** [exit] never returns: after [sched] comes the panic "zombie exit". *)
Definition exit (me : nat) (status : Z) (intr : bool) : K Z :=
  exit_close me;; exit_locked me status;; sched me true intr.

Definition is_killed (i : nat) : K Z :=
  acquire (ProcLock i);; p ← getp i; release (ProcLock i);; mret (killed p).
Definition setkilled (i : nat) : K unit :=
  acquire (ProcLock i);; updp i (set_killed 1);; release (ProcLock i).

(** The scan of [wait] from slot [j]: [Some v] is returned by wait, [None]
    goes on, and the flag is [havekids].  [copyout] reads the exit status from
    its field's address. *)
Definition wait_reap (i j : nat) (addr : Z) : K Z :=
  p ← getp i;
  pp ← getp j;
  r ← (if addr =? 0 then mret 0
       else
         vmop (modify (λ v, set_vmem (store 4 (vmem v) (xstate_addr j) (xstate pp)) v));;
         vmop (copyout (pagetable p) addr (xstate_addr j) 4));
  if r <? 0 then release (ProcLock j);; release WaitLock;; mret (-1)
  else freeproc j;; release (ProcLock j);; release WaitLock;; mret (pid pp).
Fixpoint wait_scan (i : nat) (addr : Z) (n j : nat) (havekids : bool) : K (option Z * bool) :=
  match n with
  | O => mret (None, havekids)
  | S n' =>
      pp ← getp j;
      if bool_decide (parent pp = Some i) then
        acquire (ProcLock j);;
        if bool_decide (state pp = ZOMBIE) then v ← wait_reap i j addr; mret (Some v, true)
        else release (ProcLock j);; wait_scan i addr n' (S j) true
      else wait_scan i addr n' (S j) havekids
  end.
(** One pass of its loop: a value to return, or the process is to sleep. *)
Definition wait_pass (me : nat) (addr : Z) : K (option Z) :=
  i ← curproc me;
  ps ← gets procs;
  r ← wait_scan i addr (length ps) 0 false;
  match r with
  | (Some v, _) => mret (Some v)
  | (None, havekids) =>
      if negb havekids then release WaitLock;; mret (Some (-1))
      else
        k ← is_killed i;
        if negb (k =? 0) then release WaitLock;; mret (Some (-1)) else mret None
  end.

Definition sleep_enter (me : nat) (c : channel) (lk : lockid) (intr : bool) : K Z :=
  i ← curproc me;
  acquire (ProcLock i);; release lk;;
  updp i (set_chan c);; updp i (set_state SLEEPING);;
  sched me true intr.
Definition sleep_leave (me : nat) (intena' : Z) (i : nat) (lk : lockid) : K unit :=
  sched_resume me intena';; updp i (set_chan NoChan);; release (ProcLock i);; acquire lk.

(** [wait]: each time it sleeps, [others] is what the rest of the system does
    meanwhile; [fuel] bounds the number of sleeps. *)
Fixpoint wait_loop (me : nat) (addr : Z) (intr : bool) (others : kst → kst) (fuel : nat) : K Z :=
  match fuel with
  | O => no_fuel
  | S fuel' =>
      r ← wait_pass me addr;
      match r with
      | Some v => mret v
      | None =>
          i ← curproc me;
          ie ← sleep_enter me (ProcChan i) WaitLock intr;
          modify others;;
          sleep_leave me ie i WaitLock;;
          wait_loop me addr intr others fuel'
      end
  end.
Definition wait (me : nat) (addr : Z) (intr : bool) (others : kst → kst) (fuel : nat) : K Z :=
  acquire WaitLock;; wait_loop me addr intr others fuel.

(** One slot of the scheduler's scan, cut at [swtch]: whether it switches to
    the process, and what it does when the process has switched back; [run] is
    what happens in between. *)
Definition scheduler_enter (me i : nat) : K bool :=
  acquire (ProcLock i);;
  p ← getp i;
  if bool_decide (state p = RUNNABLE) then
    updp i (set_state RUNNING);;
    set_cpu_proc me (Some i);;
    emit ESwtch;;
    mret true
  else mret false.
Definition scheduler_leave (me i : nat) (switched : bool) : K unit :=
  (if switched then set_cpu_proc me None else mret tt);;
  release (ProcLock i).
Definition scheduler_slot (me : nat) (run : nat → kst → kst) (i : nat) : K unit :=
  b ← scheduler_enter me i;
  (if b : bool then modify (run i) else mret tt);;
  scheduler_leave me i b.
Fixpoint scheduler_scan (me : nat) (run : nat → kst → kst) (n i : nat) : K unit :=
  match n with
  | O => mret tt
  | S n' => scheduler_slot me run i;; scheduler_scan me run n' (S i)
  end.
(** [n] rounds of its endless loop. *)
Fixpoint scheduler_rounds (me : nat) (run : nat → kst → kst) (n : nat) : K unit :=
  match n with
  | O => mret tt
  | S n' => emit EIntrOn;; ps ← gets procs; scheduler_scan me run (length ps) 0;; scheduler_rounds me run n'
  end.
Definition scheduler (me : nat) (run : nat → kst → kst) (n : nat) : K unit :=
  set_cpu_proc me None;; scheduler_rounds me run n.

Definition yield_enter (me : nat) (intr : bool) : K Z :=
  i ← curproc me; acquire (ProcLock i);; updp i (set_state RUNNABLE);; sched me true intr.
Definition yield_leave (me : nat) (intena' : Z) (i : nat) : K unit :=
  sched_resume me intena';; release (ProcLock i).

Definition forkret (me : nat) : K unit :=
  i ← curproc me;
  release (ProcLock i);;
  b ← gets first;
  (if b : bool then modify (set_first false);; emit (EFsinit ROOTDEV) else mret tt);;
  emit EUsertrapret.

Definition mark_killed (p : proc) : proc :=
  let p := set_killed 1 p in
  if bool_decide (state p = SLEEPING) then set_state RUNNABLE p else p.
Fixpoint kill_loop (n : Z) (ps : list proc) (i : nat) : K Z :=
  match ps with
  | [] => mret (-1)
  | p :: ps' =>
      acquire (ProcLock i);;
      if pid p =? n then updp i mark_killed;; release (ProcLock i);; mret 0
      else release (ProcLock i);; kill_loop n ps' (S i)
  end.
Definition kill (n : Z) : K Z := ps ← gets procs; kill_loop n ps 0.

Definition either_copyout (me : nat) (user_dst : bool) (dst src len : Z) : K Z :=
  i ← curproc me;
  p ← getp i;
  if user_dst then vmop (copyout (pagetable p) dst src len)
  else vmop (do_memmove dst src len);; mret 0.
Definition either_copyin (me : nat) (dst : Z) (user_src : bool) (src len : Z) : K Z :=
  i ← curproc me;
  p ← getp i;
  if user_src then vmop (copyin (pagetable p) dst src len)
  else vmop (do_memmove dst src len);; mret 0.

(** [procdump]: the lines it prints. *)
Definition state_name (st : procstate) : string :=
  match st with
  | UNUSED => "unused" | USED => "used" | SLEEPING => "sleep "
  | RUNNABLE => "runble" | RUNNING => "run   " | ZOMBIE => "zombie"
  end.
Definition procdump (ps : list proc) : list (Z * string * list byte) :=
  (λ p, (pid p, state_name (state p), name p)) <$> filter (λ p, state p ≠ UNUSED) ps.
End proc.
