(* ===== verification/RiscvSpace.v ===== *)
(** The address space of a process of proc.c (Lab3): user pages from 0, and the
    trampoline, the trap frame and the USYSCALL page at the top; its making
    (proc_pagetable) and its end (proc_freepagetable). *)
From S2P Require Import Prelude Riscv Vm PageTable Mappings AddrSpace FreeWalk RiscvProc.

(** ** Definitions *)

(** memlayout.h: the three pages below MAXVA; the trampoline is a page of the
    kernel's text. *)
Class ProcLaws {R : Riscv} {KL : Layout} (PE : ProcExt) : Prop := {
  trampoline_top : TRAMPOLINE = MAXVA - 4096;
  trapframe_next : TRAPFRAME = MAXVA - 8192;
  usyscall_next : USYSCALL = MAXVA - 12288;
  top_room : 2 ^ 21 <= MAXVA;
  trampoline_page : is_page trampoline;
  usyscall_field : 0 <= usyscall_pid ∧ usyscall_pid + 4 <= 4096 }.

Section defs.
Context {R : Riscv} {L : Allocator} {KL : Layout} {PE : ProcExt}.

(** The entries of the top pages. *)
Definition tramp_pte : Z := mk_pte trampoline (Z.lor PTE_R PTE_X).
Definition tf_pte (tf : Z) : Z := mk_pte tf (Z.lor PTE_R PTE_W).
Definition us_pte (us : Z) : Z := mk_pte us (Z.lor PTE_R PTE_U).

(** A page that holds user memory. *)
Definition user_page (s : vst) (root sz p : Z) : Prop :=
  ∃ va, 0 <= va < pgup sz ∧ p = PTE2PA (entry (vmem s) root va).

(** The page table at [root] maps [sz] bytes of user memory from 0, each page
    once, and the three top pages; nothing else. *)
Record proc_space (s : vst) (root : Z) (T : tables) (sz tf us : Z) : Prop := {
  sp_pt : pt_inv s root T;
  sp_size : 0 <= sz ∧ pgup sz <= USYSCALL;
  sp_user : ∀ va, 0 <= va < pgup sz → has (entry (vmem s) root va) PTE_V = true
    ∧ PTE_FLAGS (entry (vmem s) root va) ≠ PTE_V;
  sp_pages : ∀ p, user_page s root sz p → is_page p ∧ p ∉ free (alloc s) ∧ p ∉ dom T;
  sp_inj : ∀ va va', 0 <= va < pgup sz → 0 <= va' < pgup sz →
    PTE2PA (entry (vmem s) root va) = PTE2PA (entry (vmem s) root va') → va / 4096 = va' / 4096;
  sp_empty : ∀ va, pgup sz <= va < USYSCALL → entry (vmem s) root va = 0;
  sp_us : ∀ va, USYSCALL <= va < TRAPFRAME → entry (vmem s) root va = us_pte us;
  sp_tf : ∀ va, TRAPFRAME <= va < TRAMPOLINE → entry (vmem s) root va = tf_pte tf;
  sp_tramp : ∀ va, TRAMPOLINE <= va < MAXVA → entry (vmem s) root va = tramp_pte }.

(** The top pages are pages of their own. *)
Record tops (s : vst) (tf us : Z) : Prop := {
  tp_tf : is_page tf ∧ tf ∉ free (alloc s);
  tp_us : is_page us ∧ us ∉ free (alloc s);
  tp_tramp : trampoline ∉ free (alloc s);
  tp_ne : tf ≠ us ∧ tf ≠ trampoline ∧ us ≠ trampoline }.
Definition is_top (tf us p : Z) : Prop := p = trampoline ∨ p = tf ∨ p = us.
End defs.

Section space.
Context {R : Riscv} {L : Allocator} {KL : Layout} {PE : ProcExt}.
Context {RL : RiscvLaws R} {AL : AllocatorLaws L} {PL : ProcLaws PE}.
Implicit Types (m : mem) (T : tables) (s : vst).

(** ** Lemmas: mapping next to a mapped page *)

(** Pages of one level-0 table: where one has a slot, so has the other. *)
Lemma slot_neighbour m root va va' a : 0 <= va < MAXVA → 0 <= va' < MAXVA → va / 2 ^ 21 = va' / 2 ^ 21 →
  slot m root va = Some a → ∃ a', slot m root va' = Some a'.
Proof using RL.
  intros Hva Hva' E. pose proof (va_range va Hva). pose proof (va_range va' Hva').
  assert (E1 : PX 1 va' = PX 1 va) by (rewrite !px_field by lia; change (12 + 9 * Z.of_nat 1) with 21; congruence).
  assert (E2 : PX 2 va' = PX 2 va).
  { rewrite !px_field by lia. change (12 + 9 * Z.of_nat 2) with (21 + 9).
    rewrite Z.pow_add_r, <- !Z.div_div by lia. congruence. }
  unfold slot. cbn [slot_at]. rewrite E1, E2. destruct (has _ _); [|done]. destruct (has _ _); [|done]. eauto.
Qed.
Lemma walk_down_present l p va al s a : slot_at (vmem s) l p va = Some a → walk_down l p va al s = Done a s.
Proof using.
  revert p; induction l as [|l IH]; intros p; cbn [walk_down slot_at]; [by intros [= <-]|].
  unfold read64. run. destruct (has _ _); [apply IH|done].
Qed.
Lemma mappages_present root a p perm s sl : a mod 4096 = 0 → 0 <= a < MAXVA →
  slot (vmem s) root a = Some sl → sl ≠ 0 → has (entry (vmem s) root a) PTE_V = false →
  ∃ s', mappages root a PGSIZE p perm s = Done 0 s'.
Proof using RL.
  intros Ha Hva Hsl H0 Hv. pose proof maxva_range. unfold mappages. rewrite !pgsize_4096. change (4096 =? 0) with false.
  cbn iota. rewrite !pgrounddown_def by (apply u64_range || lia). rewrite (u64_small (a + 4096 - 1)) by lia.
  assert (a / 4096 * 4096 = a ∧ (a + 4096 - 1) / 4096 * 4096 = a) as [-> ->]
    by (Z.to_euclidean_division_equations; lia).
  cbn [mappages_loop]. unfold walk. rewrite (proj2 (Z.leb_gt MAXVA a)) by lia.
  erewrite bind_done by by apply walk_down_present. rewrite (proj2 (Z.eqb_neq _ _)) by done. unfold read64, write64. run.
  rewrite <- (entry_slot _ _ _ _ Hsl), Hv, Z.eqb_refl. eauto.
Qed.

(** A mapping that needs no new table succeeds. *)
Lemma as_map_next root a p perm s T b : as_inv s root T → a mod 4096 = 0 → 0 <= a < MAXVA → is_page p →
  0 <= perm < 1024 → Z.lor perm 1 ≠ 1 → has (entry (vmem s) root a) PTE_V = false →
  p ∉ free (alloc s) → p ∉ dom T → (∀ va, ¬ leaf s root va p) →
  0 <= b < MAXVA → b / 2 ^ 21 = a / 2 ^ 21 → has (entry (vmem s) root b) PTE_V = true →
  wp (mappages root a PGSIZE p perm) (λ r s', r = 0 ∧ ∃ T', as_inv s' root T' ∧ pt_frame root s T s' T'
    ∧ (∀ va, 0 <= va < MAXVA → entry (vmem s') root va =
         if va / 4096 =? a / 4096 then mk_pte p perm else entry (vmem s) root va)
    ∧ (∀ q, owned s' root T' q ↔ q = p ∨ owned s root T q)) s.
Proof using AL RL.
  intros I Ha Hva Hp Hpm Hp1 Hv Hpf HpT Hpl Hb Hba Hbv.
  destruct (entry_valid_slot _ _ _ _ Hbv) as [sb Hsb].
  destruct (slot_neighbour _ _ b a _ Hb Hva Hba Hsb) as [sa Hsa].
  assert (sa ≠ 0) by (eapply slot_nonzero; [apply I|exact Hva|exact Hsa]).
  destruct (mappages_present root a p perm s sa) as [s' E]; try done.
  pose proof (as_map root a p perm s T I Ha Hva Hp Hpm Hp1 Hv Hpf HpT Hpl) as Hmap.
  unfold wp in *. rewrite E in *. split; [done|]. destruct Hmap as (T' & I' & Hfr & [(_ & He & Ho)|(? & _)]); [|done].
  exists T'. by split_and!.
Qed.

(** One page unmapped, not freed. *)
Lemma unmap_one root a s T : pt_inv s root T → a mod 4096 = 0 → 0 <= a → a + 4096 <= MAXVA →
  has (entry (vmem s) root a) PTE_V = true → PTE_FLAGS (entry (vmem s) root a) ≠ PTE_V →
  wp (uvmunmap root a 1 false) (λ _ s', pt_inv s' root T ∧ free (alloc s') = free (alloc s)
    ∧ same_off (dom T ∪ free (alloc s)) (vmem s) (vmem s')
    ∧ ∀ va, 0 <= va < MAXVA → entry (vmem s') root va = without a (a + 4096) (entry (vmem s) root) va) s.
Proof using AL RL.
  intros I Ha H0 Hm Hv Hf. assert (Hpg : ∀ va, a <= va < a + 4096 → entry (vmem s) root va = entry (vmem s) root a).
  { intros va Hva. apply entry_page; try lia. Z.to_euclidean_division_equations; lia. }
  unfold wp. rewrite uvmunmap_pages by lia. replace (a + 1 * 4096) with (a + 4096) by lia.
  eapply wp_mono; [apply (uvmunmap_loop_wp root (a + 4096) false _ a s T I)|]; try done; try lia.
  - Z.to_euclidean_division_equations; lia.
  - replace (a + 4096 - a) with 4096 by lia. change (4096 / 4096) with 1. lia.
  - intros va Hva. by rewrite Hpg.
  - intros [] s' (I' & Hf' & Hoff & He). cbv beta in Hf'.
    assert (Hfr : free (alloc s') = free (alloc s)).
    { apply set_eq. intros q. rewrite Hf'. clear. intuition discriminate. }
    rewrite Hfr in Hoff. by split_and!.
Qed.

(** ** Lemmas: proc_pagetable *)

Lemma uvmcreate_wp s :
  wp uvmcreate (λ r s', (r = 0 ∧ s' = s ∧ free (alloc s) = ∅)
    ∨ r ≠ 0 ∧ r ∈ free (alloc s) ∧ free (alloc s') = free (alloc s) ∖ {[r]}
      ∧ same_off (free (alloc s)) (vmem s) (vmem s') ∧ as_inv s' r {[r := (2%nat, 0)]}
      ∧ ∀ va, 0 <= va < MAXVA → entry (vmem s') r va = 0) s.
Proof using AL RL.
  unfold uvmcreate. apply wp_bind, kalloc_wp.
  - intros Hf. rewrite Z.eqb_refl. apply wp_ret. by left.
  - intros p s1 Hp Hpp Hp0 Hf Hm. rewrite (proj2 (Z.eqb_neq _ _)) by done.
    apply wp_bind, wp_modify, wp_ret. right. set (s2 := set_vmem (memset (vmem s1) p x00 PGSIZE) s1).
    assert (Hm2 : same_off (free (alloc s)) (vmem s) (vmem s2)).
    { eapply same_off_seq; [exact Hm|]. apply same_off_memset; [done|]. by rewrite pgsize_4096. }
    destruct (empty_table (vmem s2) p Hpp) as [Ht He].
    { intros i Hi. apply load64_memset0; rewrite ?pgsize_4096; lia. }
    split_and!; try done. constructor.
    + split; [exact Ht|]. rewrite dom_singleton_L. change (alloc s2) with (alloc s1). rewrite Hf. clear. set_solver.
    + intros va q (Hva & Hv & _). by rewrite He, has_0 in Hv.
    + intros va va' q (Hva & Hv & _). by rewrite He, has_0 in Hv.
Qed.

(** The addresses of the top pages. *)
Lemma top_addrs : 0 <= USYSCALL ∧ USYSCALL mod 4096 = 0 ∧ TRAPFRAME = USYSCALL + 4096 ∧ TRAMPOLINE = USYSCALL + 8192
  ∧ MAXVA = USYSCALL + 12288 ∧ USYSCALL / 2 ^ 21 = (USYSCALL + 8192) / 2 ^ 21
  ∧ (USYSCALL + 4096) / 2 ^ 21 = (USYSCALL + 8192) / 2 ^ 21.
Proof using PL RL.
  pose proof trampoline_top. pose proof trapframe_next. pose proof usyscall_next. pose proof maxva_top. pose proof top_room.
  split_and!; try lia; Z.to_euclidean_division_equations; lia.
Qed.
Lemma top_perms : (0 <= Z.lor PTE_R PTE_X < 1024 ∧ Z.lor (Z.lor PTE_R PTE_X) 1 ≠ 1)
  ∧ (0 <= Z.lor PTE_R PTE_W < 1024 ∧ Z.lor (Z.lor PTE_R PTE_W) 1 ≠ 1)
  ∧ (0 <= Z.lor PTE_R PTE_U < 1024 ∧ Z.lor (Z.lor PTE_R PTE_U) 1 ≠ 1).
Proof using RL. rewrite pte_r_bit, pte_w_bit, pte_x_bit, pte_u_bit. done. Qed.
Lemma top_valid p perm : is_page p → 0 <= perm < 1024 → Z.lor perm 1 ≠ 1 →
  has (mk_pte p perm) PTE_V = true ∧ PTE_FLAGS (mk_pte p perm) ≠ PTE_V ∧ PTE2PA (mk_pte p perm) = p.
Proof using RL.
  intros Hp Hr H1. rewrite mk_pte_flags, mk_pte_pa, pte_v_bit by done. split_and!; [|done..].
  unfold has. rewrite mk_pte_bits by done. rewrite Z.land_lor_distr_l. change (Z.land 1 1) with 1.
  change 1 with (Z.ones 1) at 1. rewrite Z.land_ones by lia.
  assert (perm mod 2 ^ 1 = 0 ∨ perm mod 2 ^ 1 = 1) as [->| ->]; [|done..].
  pose proof (Z.mod_pos_bound perm (2 ^ 1)). lia.
Qed.

(** An empty table does not survive an error. *)
Lemma free_empty root s T : as_inv s root T → (∀ va, 0 <= va < MAXVA → entry (vmem s) root va = 0) →
  wp (uvmfree root 0) (λ _ s', (∀ q, q ∈ free (alloc s') ↔ q ∈ free (alloc s) ∨ q ∈ dom T)
    ∧ same_off (free (alloc s')) (vmem s) (vmem s')) s.
Proof using AL RL.
  intros I He. pose proof maxva_range.
  eapply wp_mono; [apply (uvmfree_wp root 0 s T I)|].
  - lia.
  - intros va Hva. change (pgup 0) with 0 in Hva. lia.
  - intros va Hva. change (pgup 0) with 0 in Hva. by rewrite He, has_0 by lia.
  - intros [] s' [Hf Hm]. split; [|done]. intros q. rewrite Hf. unfold owned. split; [|tauto].
    intros [?|[?|(va & Hva & Hv & _)]]; [by left|by right|]. by rewrite He, has_0 in Hv.
Qed.

(** The three mappings. *)
Definition top_entry (tf us : Z) (n : nat) (va : Z) : Z :=
  if va / 4096 =? TRAMPOLINE / 4096 then tramp_pte
  else if va / 4096 =? TRAPFRAME / 4096 then (if (1 <? n)%nat then tf_pte tf else 0)
  else if va / 4096 =? USYSCALL / 4096 then (if (2 <? n)%nat then us_pte us else 0)
  else 0.
Lemma top_space s root T tf us : as_inv s root T →
  (∀ va, 0 <= va < MAXVA → entry (vmem s) root va = top_entry tf us 3 va) → proc_space s root T 0 tf us.
Proof using PL RL.
  intros I He. destruct top_addrs as (H0 & Hm & E1 & E2 & E3 & _). change (pgup 0) with 0.
  assert (Hno : ∀ va, ¬ (0 <= va < pgup 0)) by (intros va; change (pgup 0) with 0; lia).
  constructor; change (pgup 0) with 0 in *; try lia.
  - apply I.
  - intros p (va & Hva & _). by apply Hno in Hva.
  - intros va Hva. rewrite He by lia. unfold top_entry.
    rewrite !(proj2 (Z.eqb_neq _ _)) by (Z.to_euclidean_division_equations; lia). done.
  - intros va Hva. rewrite He by lia. unfold top_entry.
    rewrite !(proj2 (Z.eqb_neq (va / 4096) (_ / 4096))), (proj2 (Z.eqb_eq (va / 4096) (USYSCALL / 4096)))
      by (Z.to_euclidean_division_equations; lia). done.
  - intros va Hva. rewrite He by lia. unfold top_entry.
    rewrite (proj2 (Z.eqb_neq (va / 4096) (TRAMPOLINE / 4096))), (proj2 (Z.eqb_eq (va / 4096) (TRAPFRAME / 4096)))
      by (Z.to_euclidean_division_equations; lia). done.
  - intros va Hva. rewrite He by lia. unfold top_entry.
    rewrite (proj2 (Z.eqb_eq (va / 4096) (TRAMPOLINE / 4096))) by (Z.to_euclidean_division_equations; lia). done.
Qed.

(** After [n] (1 to 3) of the mappings, from the state [s0] before the call: the table's
    pages and the free ones are the pages that were free. *)
Record stage (s0 : vst) (root tf us : Z) (n : nat) (s : vst) (T : tables) : Prop := {
  st_as : as_inv s root T;
  st_entry : ∀ va, 0 <= va < MAXVA → entry (vmem s) root va = top_entry tf us n va;
  st_pool : ∀ q, q ∈ dom T ∪ free (alloc s) ↔ q ∈ free (alloc s0);
  st_mem : same_off (free (alloc s0)) (vmem s0) (vmem s) }.

Lemma stage_frame s0 root tf us n s T s' T' : stage s0 root tf us n s T → pt_frame root s T s' T' →
  (∀ q, q ∈ dom T' ∪ free (alloc s') ↔ q ∈ free (alloc s0)) ∧ same_off (free (alloc s0)) (vmem s0) (vmem s').
Proof using AL RL.
  intros S F. split.
  - intros q. rewrite <- (st_pool _ _ _ _ _ _ _ S), (pg_dom _ _ _ _ _ F). pose proof (pg_free _ _ _ _ _ F) as Hf.
    specialize (Hf q). rewrite !elem_of_union, elem_of_difference. destruct (decide (q ∈ free (alloc s'))); tauto.
  - eapply same_off_seq; [apply S|]. eapply same_off_mono; [|apply (pg_mem _ _ _ _ _ F)].
    intros q. apply S.
Qed.

(** A page that was not free before is not in the way of the next mapping. *)
Lemma stage_apart s0 root tf us n s T p : stage s0 root tf us n s T → p ∉ free (alloc s0) →
  p ≠ trampoline → (p = tf → (n <= 1)%nat) → (p = us → (n <= 2)%nat) → is_page tf → is_page us →
  p ∉ free (alloc s) ∧ p ∉ dom T ∧ ∀ va, ¬ leaf s root va p.
Proof using PL RL.
  intros S Hp Hn0 Hn1 Hn2 Ptf Pus. pose proof (st_pool _ _ _ _ _ _ _ S p) as Hpool. rewrite elem_of_union in Hpool.
  split; [tauto|]. split; [tauto|]. intros va (Hva & Hv & Hpa).
  rewrite (st_entry _ _ _ _ _ _ _ S va Hva) in Hv, Hpa. unfold top_entry in Hv, Hpa.
  destruct top_perms as ([P1 Q1] & [P2 Q2] & [P3 Q3]). pose proof trampoline_page as Ptr.
  destruct (va / 4096 =? TRAMPOLINE / 4096).
  { destruct (top_valid trampoline _ Ptr P1 Q1) as (_ & _ & E). unfold tramp_pte in Hpa. rewrite E in Hpa. congruence. }
  destruct (va / 4096 =? TRAPFRAME / 4096).
  { destruct (Nat.ltb_spec 1 n); [|by rewrite has_0 in Hv].
    destruct (top_valid tf _ Ptf P2 Q2) as (_ & _ & E). unfold tf_pte in Hpa. rewrite E in Hpa. specialize (Hn1 (eq_sym Hpa)). lia. }
  destruct (va / 4096 =? USYSCALL / 4096); [|by rewrite has_0 in Hv].
  destruct (Nat.ltb_spec 2 n); [|by rewrite has_0 in Hv].
  destruct (top_valid us _ Pus P3 Q3) as (_ & _ & E). unfold us_pte in Hpa. rewrite E in Hpa. specialize (Hn2 (eq_sym Hpa)). lia.
Qed.

(** The second and the third mapping, next to the first. *)
Lemma stage_next s0 root tf us n s T a p perm : stage s0 root tf us n s T →
  a mod 4096 = 0 → 0 <= a < MAXVA → a / 2 ^ 21 = TRAMPOLINE / 2 ^ 21 →
  is_page p → 0 <= perm < 1024 → Z.lor perm 1 ≠ 1 →
  p ∉ free (alloc s) → p ∉ dom T → (∀ va, ¬ leaf s root va p) →
  has (top_entry tf us n a) PTE_V = false →
  (∀ va, 0 <= va < MAXVA → top_entry tf us (S n) va = if va / 4096 =? a / 4096 then mk_pte p perm else top_entry tf us n va) →
  wp (mappages root a PGSIZE p perm) (λ r s', r = 0 ∧ ∃ T', stage s0 root tf us (S n) s' T') s.
Proof using AL PL RL.
  intros S Ha Hva Hb Hp Hpm Hp1 Hpf HpT Hpl Hv Hent. destruct top_addrs as (H0 & Hm & E1 & E2 & E3 & _).
  eapply wp_mono; [apply (as_map_next root a p perm s T TRAMPOLINE (st_as _ _ _ _ _ _ _ S)); try done|].
  - by rewrite (st_entry _ _ _ _ _ _ _ S).
  - lia.
  - rewrite (st_entry _ _ _ _ _ _ _ S) by lia. unfold top_entry. rewrite Z.eqb_refl.
    destruct top_perms as ([P1 Q1] & _). by apply (top_valid trampoline _ trampoline_page).
  - intros r s' (-> & T' & I' & F & He & _). split; [done|]. exists T'.
    destruct (stage_frame _ _ _ _ _ _ _ _ _ S F) as [Hpool Hmem]. constructor; try done.
    intros va Hv'. rewrite He, Hent, (st_entry _ _ _ _ _ _ _ S) by done. done.
Qed.

(** The trampoline, in the new table. *)
Lemma stage_first s0 s root tf us : as_inv s root {[root := (2%nat, 0)]} →
  root ∈ free (alloc s0) → free (alloc s) = free (alloc s0) ∖ {[root]} →
  same_off (free (alloc s0)) (vmem s0) (vmem s) → (∀ va, 0 <= va < MAXVA → entry (vmem s) root va = 0) →
  trampoline ∉ free (alloc s0) →
  wp (mappages root TRAMPOLINE PGSIZE trampoline (Z.lor PTE_R PTE_X)) (λ r s', ∃ T',
    r = 0 ∧ stage s0 root tf us 1 s' T'
    ∨ r = -1 ∧ as_inv s' root T' ∧ (∀ va, 0 <= va < MAXVA → entry (vmem s') root va = 0)
      ∧ (∀ q, q ∈ dom T' ∪ free (alloc s') ↔ q ∈ free (alloc s0)) ∧ same_off (free (alloc s0)) (vmem s0) (vmem s')) s.
Proof using AL PL RL.
  intros I Hr Hf Hm He Htr. destruct top_addrs as (H0 & Hal & E1 & E2 & E3 & _). destruct top_perms as ([P1 Q1] & _).
  assert (Hpool : ∀ q, q ∈ dom ({[root := (2%nat, 0)]} : tables) ∪ free (alloc s) ↔ q ∈ free (alloc s0)).
  { intros q. rewrite dom_singleton_L, Hf, elem_of_union, elem_of_difference, elem_of_singleton.
    destruct (decide (q = root)) as [->|]; tauto. }
  assert (S : ∀ s' T', pt_frame root s {[root := (2%nat, 0)]} s' T' →
    (∀ q, q ∈ dom T' ∪ free (alloc s') ↔ q ∈ free (alloc s0)) ∧ same_off (free (alloc s0)) (vmem s0) (vmem s')).
  { intros s' T' F. split.
    - intros q. rewrite <- Hpool, (pg_dom _ _ _ _ _ F). pose proof (pg_free _ _ _ _ _ F q).
      rewrite !elem_of_union, elem_of_difference. destruct (decide (q ∈ free (alloc s'))); tauto.
    - eapply same_off_seq; [exact Hm|]. eapply same_off_mono; [|apply (pg_mem _ _ _ _ _ F)]. intros q. apply Hpool. }
  eapply wp_mono; [apply (as_map root TRAMPOLINE trampoline (Z.lor PTE_R PTE_X) s _ I)|]; try done.
  - rewrite E2. Z.to_euclidean_division_equations; lia.
  - lia.
  - apply trampoline_page.
  - rewrite He, has_0 by lia. done.
  - rewrite Hf. clear -Htr. set_solver.
  - rewrite dom_singleton_L, elem_of_singleton. congruence.
  - intros va (Hva & Hv & _). by rewrite He, has_0 in Hv.
  - intros r s' (T' & I' & F & [(-> & He' & _)|(-> & He' & _)]); exists T'; destruct (S s' T' F); [left|right].
    + split; [done|]. constructor; try done. intros va Hva. rewrite He', He by done. unfold top_entry, tramp_pte.
      destruct (va / 4096 =? TRAMPOLINE / 4096); [done|].
      by destruct (va / 4096 =? TRAPFRAME / 4096), (va / 4096 =? USYSCALL / 4096).
    + split_and!; try done. intros va Hva. by rewrite He', He.
Qed.

Lemma proc_pagetable_wp s tf us : tops s tf us →
  wp (proc_pagetable tf us) (λ r s',
    r = 0 ∧ free (alloc s') = free (alloc s) ∧ same_off (free (alloc s)) (vmem s) (vmem s')
    ∨ r ≠ 0 ∧ ∃ T, as_inv s' r T ∧ proc_space s' r T 0 tf us
      ∧ (∀ q, q ∈ dom T ∪ free (alloc s') ↔ q ∈ free (alloc s)) ∧ same_off (free (alloc s)) (vmem s) (vmem s')) s.
Proof using AL PL RL.
  intros [[Ptf Ftf] [Pus Fus] Ftr (N1 & N2 & N3)]. destruct top_addrs as (H0 & Hal & E1 & E2 & E3 & B1 & B2).
  destruct top_perms as (_ & [P2 Q2] & [P3 Q3]).
  assert (TRAPFRAME / 4096 = TRAMPOLINE / 4096 - 1 ∧ USYSCALL / 4096 = TRAMPOLINE / 4096 - 2) as [D1 D2]
    by (Z.to_euclidean_division_equations; lia).
  unfold proc_pagetable. wp_seq uvmcreate_wp. intros root s1 [(-> & -> & _)|(Hr0 & Hr & Hf & Hm & I & He)].
  { rewrite Z.eqb_refl. apply wp_ret. left. by split_and!. }
  rewrite (proj2 (Z.eqb_neq _ _)) by done.
  wp_seq (stage_first s s1 root tf us I Hr Hf Hm He Ftr).
  intros r s2 (T2 & [[-> S2]|(-> & I2 & He2 & Hp2 & Hm2)]).
  2:{ change (-1 <? 0) with true. cbn iota. apply wp_bind. eapply wp_mono; [by apply (free_empty root s2 T2)|].
      intros [] s3 [Hf3 Hm3]. apply wp_ret. left.
      assert (E : free (alloc s3) = free (alloc s)).
      { apply set_eq. intros q. rewrite Hf3, <- Hp2, elem_of_union. tauto. }
      split_and!; [done|done|]. eapply same_off_seq; [exact Hm2|by rewrite <- E]. }
  change (0 <? 0) with false. cbn iota.
  destruct (stage_apart s root tf us 1 s2 T2 tf S2 Ftf) as (A1 & A2 & A3); try done.
  apply wp_bind. eapply wp_mono.
  { apply (stage_next s root tf us 1 s2 T2 TRAPFRAME tf _ S2); try done; [Z.to_euclidean_division_equations; lia|lia|congruence|..].
    - unfold top_entry. rewrite (proj2 (Z.eqb_neq _ _)), Z.eqb_refl by lia. apply has_0.
    - intros va Hva. unfold top_entry. destruct (Z.eqb_spec (va / 4096) (TRAMPOLINE / 4096)) as [->|].
      + by rewrite (proj2 (Z.eqb_neq _ _)) by lia.
      + destruct (Z.eqb_spec (va / 4096) (TRAPFRAME / 4096)); [done|]. by destruct (va / 4096 =? USYSCALL / 4096). }
  cbv beta. intros r s3 (-> & T3 & S3). change (0 <? 0) with false. cbn iota.
  destruct (stage_apart s root tf us 2 s3 T3 us S3 Fus) as (B3 & B4 & B5); try done.
  apply wp_bind. eapply wp_mono.
  { apply (stage_next s root tf us 2 s3 T3 USYSCALL us _ S3); try done; [lia|congruence|..].
    - unfold top_entry. rewrite (proj2 (Z.eqb_neq (USYSCALL / 4096) (TRAMPOLINE / 4096))), (proj2 (Z.eqb_neq (USYSCALL / 4096) (TRAPFRAME / 4096))), Z.eqb_refl by lia. apply has_0.
    - intros va Hva. unfold top_entry. destruct (Z.eqb_spec (va / 4096) (USYSCALL / 4096)) as [->|]; [|done].
      by rewrite !(proj2 (Z.eqb_neq (USYSCALL / 4096) _)) by lia. }
  cbv beta. intros r s4 (-> & T4 & S4). change (0 <? 0) with false. cbn iota. apply wp_ret. right. split; [done|].
  exists T4. split; [apply S4|]. split; [|split; apply S4]. apply top_space; [apply S4|]. apply S4.
Qed.

(** ** Lemmas: proc_freepagetable *)

(** The whole address space keeps AddrSpace.v's invariant. *)
Lemma proc_space_leaf s root T sz tf us va p : proc_space s root T sz tf us → is_page tf → is_page us →
  leaf s root va p → 0 <= va < pgup sz ∧ p = PTE2PA (entry (vmem s) root va)
    ∨ USYSCALL <= va < TRAPFRAME ∧ p = us ∨ TRAPFRAME <= va < TRAMPOLINE ∧ p = tf
    ∨ TRAMPOLINE <= va < MAXVA ∧ p = trampoline.
Proof using PL RL.
  intros S Ptf Pus (Hva & Hv & Hp). destruct top_addrs as (H0 & Hal & E1 & E2 & E3 & _).
  destruct top_perms as ([P1 Q1] & [P2 Q2] & [P3 Q3]). pose proof trampoline_page as Ptr.
  destruct (decide (va < pgup sz)); [left; by split; [lia|]|right].
  destruct (decide (va < USYSCALL)); [rewrite (sp_empty _ _ _ _ _ _ S), has_0 in Hv by lia; done|].
  destruct (decide (va < TRAPFRAME)).
  { left. split; [lia|]. rewrite (sp_us _ _ _ _ _ _ S) in Hp by lia. rewrite <- Hp. by apply top_valid. }
  right. destruct (decide (va < TRAMPOLINE)); [left|right]; (split; [lia|]).
  - rewrite (sp_tf _ _ _ _ _ _ S) in Hp by lia. rewrite <- Hp. by apply top_valid.
  - rewrite (sp_tramp _ _ _ _ _ _ S) in Hp by lia. rewrite <- Hp. by apply top_valid.
Qed.

(** With the top pages unmapped, the user memory keeps that invariant. *)
Lemma user_space_as s root T sz tf us s3 : proc_space s root T sz tf us → pt_inv s3 root T →
  free (alloc s3) = free (alloc s) →
  (∀ va, 0 <= va < MAXVA → entry (vmem s3) root va = if va <? USYSCALL then entry (vmem s) root va else 0) →
  as_inv s3 root T ∧ all_mapped s3 root 0 (pgup sz) ∧ unmapped s3 root (pgup sz) MAXVA
  ∧ ∀ q, (∃ va, leaf s3 root va q) ↔ user_page s root sz q.
Proof using PL RL.
  intros S I Hf He. destruct top_addrs as (H0 & Hal & E1 & E2 & E3 & _). destruct (sp_size _ _ _ _ _ _ S) as [Hs Hsu].
  destruct (pgup_spec sz) as [_ Hup].
  assert (Hl : ∀ va q, leaf s3 root va q → 0 <= va < pgup sz ∧ q = PTE2PA (entry (vmem s) root va)).
  { intros va q (Hva & Hv & Hq). rewrite He in Hv, Hq by done. destruct (Z.ltb_spec va USYSCALL); [|by rewrite has_0 in Hv].
    split; [|done]. destruct (decide (va < pgup sz)); [lia|]. by rewrite (sp_empty _ _ _ _ _ _ S), has_0 in Hv by lia. }
  assert (Hu : ∀ va, 0 <= va < pgup sz → entry (vmem s3) root va = entry (vmem s) root va).
  { intros va Hva. rewrite He by lia. by rewrite (proj2 (Z.ltb_lt _ _)) by lia. }
  split; [constructor; [done|..]|split; [|split]].
  - intros va q Hq. destruct (Hl va q Hq) as [Hva ->]. rewrite Hu, Hf by done.
    destruct (sp_user _ _ _ _ _ _ S va Hva) as [_ ?].
    destruct (sp_pages _ _ _ _ _ _ S (PTE2PA (entry (vmem s) root va))) as (? & ? & ?); [by exists va|done].
  - intros va va' q Hq Hq'. destruct (Hl va q Hq) as [Hva ->], (Hl va' _ Hq') as [Hva' E].
    by apply (sp_inj _ _ _ _ _ _ S).
  - intros va Hva. rewrite Hu by done. by apply (sp_user _ _ _ _ _ _ S).
  - intros va Hva. rewrite He by lia. destruct (Z.ltb_spec va USYSCALL); [|apply has_0].
    rewrite (sp_empty _ _ _ _ _ _ S) by lia. apply has_0.
  - intros q. split; intros (va & Hva).
    + exists va. by apply Hl.
    + destruct Hva as [Hva ->]. exists va. rewrite <- (Hu va Hva). apply mapped_leaf; [lia|].
      rewrite (Hu va Hva). by apply (sp_user _ _ _ _ _ _ S).
Qed.

Lemma proc_freepagetable_wp s root T sz tf us : proc_space s root T sz tf us → is_page tf → is_page us →
  wp (proc_freepagetable root sz) (λ _ s',
    (∀ q, q ∈ free (alloc s') ↔ q ∈ free (alloc s) ∨ q ∈ dom T ∨ user_page s root sz q)
    ∧ same_off (free (alloc s')) (vmem s) (vmem s')) s.
Proof using AL PL RL.
  intros S Ptf Pus. destruct top_addrs as (H0 & Hal & E1 & E2 & E3 & _).
  destruct top_perms as ([P1 Q1] & [P2 Q2] & [P3 Q3]). pose proof trampoline_page as Ptr.
  destruct (top_valid trampoline _ Ptr P1 Q1) as (V1 & F1 & _). destruct (top_valid tf _ Ptf P2 Q2) as (V2 & F2 & _).
  destruct (top_valid us _ Pus P3 Q3) as (V3 & F3 & _).
  assert (M1 : TRAPFRAME mod 4096 = 0 ∧ TRAMPOLINE mod 4096 = 0) by (split; Z.to_euclidean_division_equations; lia).
  unfold proc_freepagetable.
  assert (Eu : entry (vmem s) root USYSCALL = us_pte us) by (apply (sp_us _ _ _ _ _ _ S); lia).
  wp_seq (unmap_one root USYSCALL s T (sp_pt _ _ _ _ _ _ S)); [done|lia|lia|by rewrite Eu|by rewrite Eu|].
  intros [] s1 (I1 & Hf1 & Hm1 & He1).
  assert (Er : entry (vmem s1) root TRAMPOLINE = tramp_pte).
  { rewrite He1, without_out by lia. apply (sp_tramp _ _ _ _ _ _ S). lia. }
  wp_seq (unmap_one root TRAMPOLINE s1 T I1); [apply M1|lia|lia|by rewrite Er|by rewrite Er|].
  intros [] s2 (I2 & Hf2 & Hm2 & He2).
  assert (Et : entry (vmem s2) root TRAPFRAME = tf_pte tf).
  { rewrite He2, without_out, He1, without_out by lia. apply (sp_tf _ _ _ _ _ _ S). lia. }
  wp_seq (unmap_one root TRAPFRAME s2 T I2); [apply M1|lia|lia|by rewrite Et|by rewrite Et|].
  intros [] s3 (I3 & Hf3 & Hm3 & He3). rewrite Hf2, Hf1 in *.
  assert (He : ∀ va, 0 <= va < MAXVA → entry (vmem s3) root va = if va <? USYSCALL then entry (vmem s) root va else 0).
  { intros va Hva. rewrite He3 by done. unfold without. rewrite He2 by done. unfold without. rewrite He1 by done.
    unfold without. zcases; done. }
  destruct (user_space_as s root T sz tf us s3 S I3 Hf3 He) as (I & Hall & Hrest & Hl).
  destruct (sp_size _ _ _ _ _ _ S) as [Hs Hsu]. destruct (pgup_spec sz) as [_ Hup].
  eapply wp_mono; [apply (uvmfree_wp root sz s3 T I); [lia|done|done]|]. intros [] s' [Hf Hm]. split.
  - intros q. rewrite Hf. unfold owned. rewrite Hf3, Hl. done.
  - assert (HP : ∀ q, q ∈ dom T ∪ free (alloc s) → q ∈ free (alloc s')).
    { intros q Hq. apply Hf. unfold owned. rewrite Hf3. apply elem_of_union in Hq. tauto. }
    eapply same_off_seq; [|exact Hm]. eapply same_off_mono; [exact HP|].
    eapply same_off_seq; [exact Hm1|]. eapply same_off_seq; [exact Hm2|exact Hm3].
Qed.
End space.
