(* ===== verification/RiscvSlot.v ===== *)
(** The memory of the process table of proc.c (Lab3): which pages a slot holds,
    and the partition of the physical pages among the slots and the free list.
    An operation on one slot keeps the partition when it keeps that slot in
    order and does not write in the pages of the others (slot_update). *)
From stdpp Require Import functions.
From S2P Require Import Prelude Riscv Vm PageTable Mappings AddrSpace UserCopy FreeWalk UvmCopy RiscvProc RiscvSpace.

(** ** Definitions *)
Section defs.
Context {R : Riscv} {L : Allocator} {KL : Layout} {PE : ProcExt}.

(** The pages of a slot: its trap frame and usyscall page, the tables [T] of its
    page table, and its user memory. *)
Definition slot_pages (v : vst) (p : proc) (T : tables) (q : Z) : Prop :=
  q ≠ 0 ∧ (q = trapframe p ∨ q = usyscall p ∨ q ∈ dom T
           ∨ pagetable p ≠ 0 ∧ user_page v (pagetable p) (sz p) q).

(** A slot in order; one that is being made or freed may lack some pages. *)
Record slot_ok (v : vst) (p : proc) (T : tables) : Prop := {
  so_page : ∀ q, slot_pages v p T q → is_page q ∧ q ∉ free (alloc v) ∧ q ≠ trampoline;
  so_ne : trapframe p = usyscall p → trapframe p = 0;
  so_top : ∀ q, q ≠ 0 → q = trapframe p ∨ q = usyscall p →
    q ∉ dom T ∧ (pagetable p ≠ 0 → ¬ user_page v (pagetable p) (sz p) q);
  so_space : pagetable p ≠ 0 → trapframe p ≠ 0 ∧ usyscall p ≠ 0
    ∧ proc_space v (pagetable p) T (sz p) (trapframe p) (usyscall p);
  so_none : pagetable p = 0 → T = ∅ }.

(** The pages [Pool] are divided among the free list and the slots. *)
Record space_inv (Pool : Z → Prop) (v : vst) (ps : list proc) (Ts : nat → tables) : Prop := {
  si_slot : ∀ i p, ps !! i = Some p → slot_ok v p (Ts i);
  si_apart : ∀ i j p p' q, ps !! i = Some p → ps !! j = Some p' →
    slot_pages v p (Ts i) q → slot_pages v p' (Ts j) q → i = j;
  si_tramp : trampoline ∉ free (alloc v);
  si_pool : ∀ q, Pool q ↔ q ∈ free (alloc v) ∨ ∃ i p, ps !! i = Some p ∧ slot_pages v p (Ts i) q }.

(** Memory that does not belong to slot [i] nor to the free list. *)
Definition elsewhere (v : vst) (ps : list proc) (Ts : nat → tables) (i : nat) (x : Z) : Prop :=
  ∃ j p q, j ≠ i ∧ ps !! j = Some p ∧ slot_pages v p (Ts j) q ∧ in_page q x.
End defs.

Section slot.
Context {R : Riscv} {L : Allocator} {KL : Layout} {PE : ProcExt}.
Context {RL : RiscvLaws R} {AL : AllocatorLaws L} {PL : ProcLaws PE}.
Implicit Types (v : vst) (T : tables) (p : proc) (ps : list proc).

(** ** Lemmas: memory that stays *)

Lemma table_frame m m' root T :
  pt_ok m root T → (∀ q x, q ∈ dom T → in_page q x → m' x = m x) →
  pt_ok m' root T ∧ ∀ va, 0 <= va < MAXVA → entry m' root va = entry m root va.
Proof using RL.
  intros I Hm.
  assert (Hall : ∀ q x i, T !! q = Some x → 0 <= i < 512 → load64 m' (q + 8 * i) = load64 m (q + 8 * i)).
  { intros q x i Hq Hi. apply load64_ext. intros y Hy. apply (Hm q); [by eapply elem_of_dom_2|].
    unfold in_page. lia. }
  assert (Hint : interior_same T m m') by (intros q l pre i Hq Hi; by eapply Hall).
  split; [by eapply pt_ok_ext|]. intros va Hva. unfold entry. rewrite (slot_ext _ _ _ _ _ I Hint Hva).
  destruct (slot m root va) as [a|] eqn:Ha; [|done].
  destruct (slot_table _ _ _ _ _ I Hva Ha) as (q & Hq & ->). eapply Hall; [done|by apply px_range].
Qed.

Lemma user_page_ext v v' root sz q : pgup sz <= MAXVA → same_entries v v' root →
  user_page v' root sz q ↔ user_page v root sz q.
Proof using.
  intros Hsz He. split; intros (va & Hva & ->); exists va; (split; [done|]); by rewrite He by lia.
Qed.
Lemma size_top v root T sz tf us : proc_space v root T sz tf us → pgup sz <= MAXVA.
Proof using PL RL. intros S. pose proof (sp_size _ _ _ _ _ _ S). destruct top_addrs as (? & ? & ? & ? & ? & _). lia. Qed.

Lemma proc_space_frame v v' root T sz tf us :
  proc_space v root T sz tf us → (∀ q x, q ∈ dom T → in_page q x → vmem v' x = vmem v x) →
  (∀ q, q ∈ dom T ∨ user_page v root sz q → q ∉ free (alloc v')) →
  proc_space v' root T sz tf us ∧ same_entries v v' root.
Proof using PL RL.
  intros S Hm Hf. destruct (sp_pt _ _ _ _ _ _ S) as [I D]. destruct (table_frame _ _ _ _ I Hm) as [I' He].
  pose proof (size_top _ _ _ _ _ _ S) as HM. destruct top_addrs as (H0 & _ & E1 & E2 & E3 & _).
  pose proof (sp_size _ _ _ _ _ _ S). destruct (pgup_spec sz) as [_ Hup].
  split; [|done]. constructor; try apply S.
  - split; [done|]. intros q Hq Hq'. by apply (Hf q); [left|].
  - intros va Hva. rewrite He by lia. by apply S.
  - intros q Hq%(user_page_ext v v' root sz q HM He). destruct (sp_pages _ _ _ _ _ _ S q Hq) as (? & _ & ?).
    split_and!; [done| |done]. apply Hf. by right.
  - intros va va' Hva Hva'. rewrite !He by lia. by apply S.
  - intros va Hva. rewrite He by lia. by apply S.
  - intros va Hva. rewrite He by lia. by apply S.
  - intros va Hva. rewrite He by lia. by apply S.
  - intros va Hva. rewrite He by lia. by apply S.
Qed.

Lemma slot_page_nz v p T q : slot_ok v p T → pagetable p ≠ 0 →
  q ∈ dom T ∨ user_page v (pagetable p) (sz p) q → q ≠ 0.
Proof using.
  intros S Hp Hq. destruct (so_space _ _ _ S Hp) as (_ & _ & Sp). destruct Hq as [Hq|Hq].
  - apply elem_of_dom in Hq as [[l pre] Hq].
    pose proof (pt_page _ _ _ (proj1 (sp_pt _ _ _ _ _ _ Sp)) _ _ _ Hq) as [(? & ? & ?) _]. lia.
  - destruct (sp_pages _ _ _ _ _ _ Sp q Hq) as ((? & ? & ?) & _). lia.
Qed.

Lemma slot_frame v v' p T :
  slot_ok v p T → (∀ q x, slot_pages v p T q → in_page q x → vmem v' x = vmem v x) →
  (∀ q, slot_pages v p T q → q ∉ free (alloc v')) →
  slot_ok v' p T ∧ ∀ q, slot_pages v' p T q ↔ slot_pages v p T q.
Proof using PL RL.
  intros S Hm Hf.
  assert (Hsp : pagetable p ≠ 0 → proc_space v' (pagetable p) T (sz p) (trapframe p) (usyscall p)
                ∧ ∀ q, user_page v' (pagetable p) (sz p) q ↔ user_page v (pagetable p) (sz p) q).
  { intros Hp. destruct (so_space _ _ _ S Hp) as (_ & _ & Sp).
    destruct (proc_space_frame v v' _ _ _ _ _ Sp) as [Sp' He].
    - intros q x Hq. apply Hm. split; [by apply (slot_page_nz v p T q S Hp); left|auto].
    - intros q Hq. apply Hf. split; [by apply (slot_page_nz v p T q S Hp)|tauto].
    - split; [done|]. intros q. apply user_page_ext; [by eapply size_top|done]. }
  assert (Hpg : ∀ q, slot_pages v' p T q ↔ slot_pages v p T q).
  { intros q. unfold slot_pages. destruct (decide (pagetable p = 0)) as [->|Hp]; [naive_solver|].
    destruct (Hsp Hp) as [_ Hu]. rewrite Hu. done. }
  split; [|done]. constructor.
  - intros q Hq%Hpg. destruct (so_page _ _ _ S q Hq) as (? & _ & ?). auto.
  - apply S.
  - intros q Hq Ht. destruct (so_top _ _ _ S q Hq Ht) as [? Hn]. split; [done|]. intros Hp. destruct (Hsp Hp) as [_ Hu].
    rewrite Hu. auto.
  - intros Hp. destruct (so_space _ _ _ S Hp) as (? & ? & _). destruct (Hsp Hp). auto.
  - apply S.
Qed.

(** ** Lemmas: one slot changes *)

Lemma slot_update Pool v v' ps Ts i p p' T' :
  space_inv Pool v ps Ts → ps !! i = Some p → slot_ok v' p' T' →
  (∀ q, slot_pages v' p' T' q ∨ q ∈ free (alloc v') ↔ slot_pages v p (Ts i) q ∨ q ∈ free (alloc v)) →
  (∀ x, elsewhere v ps Ts i x → vmem v' x = vmem v x) →
  space_inv Pool v' (<[i := p']> ps) (<[i := T']> Ts)
  ∧ ∀ j pj q, j ≠ i → ps !! j = Some pj → slot_pages v' pj (Ts j) q ↔ slot_pages v pj (Ts j) q.
Proof using PL RL.
  intros I Hi S Hown Hm. assert (Hlt : (i < length ps)%nat) by by eapply lookup_lt_Some.
  assert (Hoff : ∀ j pj q, j ≠ i → ps !! j = Some pj → slot_pages v pj (Ts j) q →
    ¬ (slot_pages v p (Ts i) q ∨ q ∈ free (alloc v))).
  { intros j pj q Hji Hj Hq [Hq'|Hq']; [by eapply Hji, (si_apart _ _ _ _ I j i)|].
    by destruct (so_page _ _ _ (si_slot _ _ _ _ I j pj Hj) q Hq) as (_ & ? & _). }
  assert (Hfr : ∀ j pj, j ≠ i → ps !! j = Some pj →
    slot_ok v' pj (Ts j) ∧ ∀ q, slot_pages v' pj (Ts j) q ↔ slot_pages v pj (Ts j) q).
  { intros j pj Hji Hj. apply slot_frame; [by apply (si_slot _ _ _ _ I)|..].
    - intros q x Hq Hx. apply Hm. by exists j, pj, q.
    - intros q Hq Hf. apply (Hoff j pj q Hji Hj Hq), Hown. by right. }
  assert (Hlook : ∀ j pj, <[i := p']> ps !! j = Some pj → j = i ∧ pj = p' ∨ j ≠ i ∧ ps !! j = Some pj).
  { intros j pj Hj. destruct (decide (j = i)) as [->|Hji].
    - rewrite list_lookup_insert_eq in Hj by done. left. by simplify_eq.
    - rewrite list_lookup_insert_ne in Hj by done. by right. }
  assert (Hmine : ∀ j pj q, j ≠ i → ps !! j = Some pj → slot_pages v' pj (Ts j) q → ¬ slot_pages v' p' T' q).
  { intros j pj q Hji Hj Hq Hq'. apply (proj2 (Hfr j pj Hji Hj)) in Hq.
    apply (Hoff j pj q Hji Hj Hq), Hown. by left. }
  split; [constructor|].
  - intros j pj Hj. destruct (Hlook j pj Hj) as [[-> ->]|[Hji Hj']]; [by rewrite fn_lookup_insert|].
    rewrite fn_lookup_insert_ne by done. by apply Hfr.
  - intros j k pj pk q Hj Hk. destruct (Hlook j pj Hj) as [[-> ->]|[Hji Hj']], (Hlook k pk Hk) as [[-> ->]|[Hki Hk']];
      rewrite ?fn_lookup_insert, ?fn_lookup_insert_ne by done; [done| | |].
    + intros H1 H2. exfalso. by eapply (Hmine k pk).
    + intros H1 H2. exfalso. by eapply (Hmine j pj).
    + rewrite (proj2 (Hfr j pj Hji Hj')), (proj2 (Hfr k pk Hki Hk')). by apply (si_apart _ _ _ _ I).
  - intros Hf. assert (Ho : slot_pages v p (Ts i) trampoline ∨ trampoline ∈ free (alloc v)) by (apply Hown; by right).
    destruct Ho as [Ho|Ho]; [|by eapply si_tramp].
    by destruct (so_page _ _ _ (si_slot _ _ _ _ I i p Hi) _ Ho) as (_ & _ & ?).
  - intros q. rewrite (si_pool _ _ _ _ I q). split.
    + intros Hq. assert (Hc : (slot_pages v p (Ts i) q ∨ q ∈ free (alloc v))
        ∨ ∃ j pj, j ≠ i ∧ ps !! j = Some pj ∧ slot_pages v pj (Ts j) q).
      { destruct Hq as [Hq|(j & pj & Hj & Hq)]; [by left; right|]. destruct (decide (j = i)) as [->|Hji]; [|by right; exists j, pj].
        left; left. by simplify_eq. }
      destruct Hc as [[Hc|Hc]%Hown|(j & pj & Hji & Hj & Hc)]; [right|by left|right].
      * exists i, p'. rewrite list_lookup_insert_eq by done. by rewrite fn_lookup_insert.
      * exists j, pj. rewrite list_lookup_insert_ne, fn_lookup_insert_ne by done. split; [done|]. by apply (Hfr j pj).
    + intros [Hq|(j & pj & Hj & Hq)].
      * assert (Ho : slot_pages v p (Ts i) q ∨ q ∈ free (alloc v)) by (apply Hown; by right).
        destruct Ho; [right; by exists i, p|by left].
      * destruct (Hlook j pj Hj) as [[-> ->]|[Hji Hj']].
        -- rewrite fn_lookup_insert in Hq. assert (Ho : slot_pages v p (Ts i) q ∨ q ∈ free (alloc v)) by (apply Hown; by left).
           destruct Ho; [right; by exists i, p|by left].
        -- rewrite fn_lookup_insert_ne in Hq by done. right. exists j, pj. split; [done|]. by apply (Hfr j pj).
  - intros j pj q Hji Hj. by apply Hfr.
Qed.

(** Changes within the slot's pages and free ones do not reach the others. *)
Lemma elsewhere_off Pool v ps Ts i p (P : gset Z) m' x :
  space_inv Pool v ps Ts → ps !! i = Some p →
  (∀ r, r ∈ P → is_page r ∧ (slot_pages v p (Ts i) r ∨ r ∈ free (alloc v))) →
  same_off P (vmem v) m' → elsewhere v ps Ts i x → m' x = vmem v x.
Proof using AL RL.
  intros I Hi HP Hoff (j & pj & q & Hji & Hj & Hq & Hx).
  destruct (so_page _ _ _ (si_slot _ _ _ _ I j pj Hj) q Hq) as (Hpg & Hnf & _).
  refine (same_off_page P _ _ q Hoff (λ r Hr, proj1 (HP r Hr)) Hpg _ x Hx).
  intros Hr. destruct (HP q Hr) as [_ [Hr'|Hr']]; [|done]. by eapply Hji, (si_apart _ _ _ _ I j i).
Qed.

(** Fields that do not concern the memory. *)
Definition same_space p p' : Prop :=
  pagetable p' = pagetable p ∧ sz p' = sz p ∧ trapframe p' = trapframe p ∧ usyscall p' = usyscall p.
Lemma slot_pages_fields v p p' T q : same_space p p' → slot_pages v p' T q ↔ slot_pages v p T q.
Proof using. intros (E1 & E2 & E3 & E4). unfold slot_pages. by rewrite E1, E2, E3, E4. Qed.
Lemma slot_ok_fields v p p' T : same_space p p' → slot_ok v p T → slot_ok v p' T.
Proof using.
  intros E S. pose proof (λ q, slot_pages_fields v p p' T q E) as Hq. destruct E as (E1 & E2 & E3 & E4).
  constructor; try (rewrite ?E1, ?E2, ?E3, ?E4; apply S). intros q Hq'%Hq. by apply (so_page _ _ _ S).
Qed.
Lemma space_inv_fields Pool v ps ps' Ts : Forall2 same_space ps ps' → space_inv Pool v ps Ts → space_inv Pool v ps' Ts.
Proof using.
  intros F I.
  assert (Hb : ∀ i p', ps' !! i = Some p' → ∃ p, ps !! i = Some p ∧ same_space p p') by (intros; by eapply Forall2_lookup_r).
  assert (Hf : ∀ i p, ps !! i = Some p → ∃ p', ps' !! i = Some p' ∧ same_space p p') by (intros; by eapply Forall2_lookup_l).
  constructor.
  - intros i p' Hp. destruct (Hb i p' Hp) as (p & Hp0 & E). eapply slot_ok_fields; [done|by apply I].
  - intros i j p p' q Hi Hj. destruct (Hb i p Hi) as (? & ? & E), (Hb j p' Hj) as (? & ? & E').
    rewrite (slot_pages_fields _ _ _ _ _ E), (slot_pages_fields _ _ _ _ _ E'). by apply I.
  - apply I.
  - intros q. rewrite (si_pool _ _ _ _ I q). split; (intros [?|(i & p & Hi & Hq)]; [by left|right; exists i]).
    + destruct (Hf i p Hi) as (p' & ? & E). exists p'. by rewrite (slot_pages_fields _ _ _ _ _ E).
    + destruct (Hb i p Hi) as (p' & ? & E). exists p'. by rewrite <- (slot_pages_fields _ _ _ _ _ E).
Qed.
Lemma same_space_refl p : same_space p p.
Proof using. done. Qed.
Lemma same_space_alter f ps i : (∀ p, same_space p (f p)) → Forall2 same_space ps (alter f i ps).
Proof using.
  intros Hf. apply Forall2_same_length_lookup. split; [by rewrite length_alter|]. intros j p p' Hp Hp'.
  destruct (decide (i = j)) as [<-|Hne].
  - rewrite list_lookup_alter_eq, Hp in Hp'. simplify_eq/=. apply Hf.
  - rewrite list_lookup_alter_ne in Hp' by done. simplify_eq. apply same_space_refl.
Qed.

(** Nothing is mapped twice: the space of a slot in order satisfies [as_inv]. *)
Lemma proc_space_as v p T : slot_ok v p T → pagetable p ≠ 0 → trampoline ∉ free (alloc v) →
  as_inv v (pagetable p) T
  ∧ ∀ va q, leaf v (pagetable p) va q → q = trampoline ∨ slot_pages v p T q.
Proof using PL RL.
  intros S Hp Htr. destruct (so_space _ _ _ S Hp) as (Ht & Hu & Sp).
  assert (Pt : slot_pages v p T (trapframe p)) by (split; auto).
  assert (Pu : slot_pages v p T (usyscall p)) by (split; auto).
  assert (Ptf := so_page _ _ _ S _ Pt). assert (Pus := so_page _ _ _ S _ Pu). destruct Ptf as (Ptf & Ftf & Ntf), Pus as (Pus & Fus & Nus).
  destruct (so_top _ _ _ S _ Ht ltac:(by left)) as [Dtf Utf]. destruct (so_top _ _ _ S _ Hu ltac:(by right)) as [Dus Uus].
  specialize (Utf Hp). specialize (Uus Hp).
  assert (Hne : trapframe p ≠ usyscall p) by (intros E; by apply Ht, (so_ne _ _ _ S)).
  assert (HtrT : trampoline ∉ dom T).
  { intros Hd. assert (trampoline ≠ 0) by (destruct trampoline_page as (? & ? & ?); lia).
    assert (Hs : slot_pages v p T trampoline) by (split; auto). by destruct (so_page _ _ _ S _ Hs) as (_ & _ & ?). }
  assert (HtrU : ¬ user_page v (pagetable p) (sz p) trampoline).
  { intros Hd. assert (trampoline ≠ 0) by (destruct trampoline_page as (? & ? & ?); lia).
    assert (Hs : slot_pages v p T trampoline) by (split; auto). by destruct (so_page _ _ _ S _ Hs) as (_ & _ & ?). }
  destruct top_perms as ([P1 Q1] & [P2 Q2] & [P3 Q3]). pose proof trampoline_page as Ptr.
  pose proof (λ va q, proc_space_leaf v _ T (sz p) _ _ va q Sp Ptf Pus) as Hl.
  split; [constructor; [apply Sp|..]|].
  - intros va q Hq. destruct (Hl va q Hq) as [[Hva E]|[[Hva ->]|[[Hva ->]|[Hva ->]]]].
    + destruct (sp_user _ _ _ _ _ _ Sp va Hva) as [_ ?]. split; [done|]. apply (sp_pages _ _ _ _ _ _ Sp). by exists va.
    + rewrite (sp_us _ _ _ _ _ _ Sp) by done. split; [by apply (top_valid _ _ Pus)|done].
    + rewrite (sp_tf _ _ _ _ _ _ Sp) by done. split; [by apply (top_valid _ _ Ptf)|done].
    + rewrite (sp_tramp _ _ _ _ _ _ Sp) by done. split; [by apply (top_valid _ _ Ptr)|done].
  - destruct top_addrs as (H0 & Hal & E1 & E2 & E3 & _).
    assert (Hu0 : ∀ va q, 0 <= va < pgup (sz p) → q = PTE2PA (entry (vmem v) (pagetable p) va) →
      user_page v (pagetable p) (sz p) q) by (intros va q ? ->; by exists va).
    intros va va' q Hq Hq'.
    destruct (Hl va q Hq) as [[Hva E]|[[Hva E]|[[Hva E]|[Hva E]]]],
      (Hl va' q Hq') as [[Hva' E']|[[Hva' E']|[[Hva' E']|[Hva' E']]]];
      try (exfalso; congruence);
      try (exfalso; let t := first [apply (Hu0 va); [done|congruence]|apply (Hu0 va'); [done|congruence]] in
           first [apply HtrU; t|apply Utf; t|apply Uus; t]).
    + apply (sp_inj _ _ _ _ _ _ Sp); congruence.
    + clear -Hva Hva' E1 Hal. Z.to_euclidean_division_equations; lia.
    + clear -Hva Hva' E1 E2 Hal. Z.to_euclidean_division_equations; lia.
    + clear -Hva Hva' E2 E3 Hal. Z.to_euclidean_division_equations; lia.
  - intros va q Hq. destruct (Hl va q Hq) as [[Hva E]|[[Hva ->]|[[Hva ->]|[Hva ->]]]]; try auto.
    right. assert (Hup : user_page v (pagetable p) (sz p) q) by (exists va; done).
    split; [|auto]. destruct (sp_pages _ _ _ _ _ _ Sp q Hup) as ((? & ? & ?) & _). lia.
Qed.

(** Back from [as_inv]: the entries tell that the slot is in order. *)
Lemma slot_of_as v p T : as_inv v (pagetable p) T → pagetable p ≠ 0 → is_page (trapframe p) → is_page (usyscall p) →
  0 <= sz p → pgup (sz p) <= USYSCALL → all_mapped v (pagetable p) 0 (pgup (sz p)) →
  (∀ va, pgup (sz p) <= va < USYSCALL → entry (vmem v) (pagetable p) va = 0) →
  (∀ va, USYSCALL <= va < TRAPFRAME → entry (vmem v) (pagetable p) va = us_pte (usyscall p)) →
  (∀ va, TRAPFRAME <= va < TRAMPOLINE → entry (vmem v) (pagetable p) va = tf_pte (trapframe p)) →
  (∀ va, TRAMPOLINE <= va < MAXVA → entry (vmem v) (pagetable p) va = tramp_pte) → slot_ok v p T.
Proof using PL RL.
  intros I Hp Ptf Pus Hs0 Hs Hall He Eu Et Er. destruct top_addrs as (H0 & Hal & E1 & E2 & E3 & _).
  destruct top_perms as ([P1 Q1] & [P2 Q2] & [P3 Q3]). pose proof trampoline_page as Ptr.
  destruct (pgup_spec (sz p)) as [Hal' _]. set (root := pagetable p) in *.
  assert (Hl : ∀ va, 0 <= va < pgup (sz p) → leaf v root va (PTE2PA (entry (vmem v) root va))).
  { intros va Hva. apply mapped_leaf; [lia|by apply Hall]. }
  assert (Lu : leaf v root USYSCALL (usyscall p)) by (split; [lia|]; rewrite Eu by lia; split; by apply (top_valid _ _ Pus)).
  assert (Lt : leaf v root TRAPFRAME (trapframe p)) by (split; [lia|]; rewrite Et by lia; split; by apply (top_valid _ _ Ptf)).
  assert (Lr : leaf v root TRAMPOLINE trampoline) by (split; [lia|]; rewrite Er by lia; split; by apply (top_valid _ _ Ptr)).
  assert (Hdiff : ∀ va va' q, leaf v root va q → leaf v root va' q → va / 4096 ≠ va' / 4096 → False).
  { intros va va' q Hq Hq' Hne. by apply Hne, (ai_inj _ _ _ I _ _ q). }
  assert (Hup : ∀ q, user_page v root (sz p) q → ∃ va, 0 <= va < pgup (sz p) ∧ leaf v root va q).
  { intros q (va & Hva & ->). exists va. split; [done|]. by apply Hl. }
  assert (Hno : ∀ q a, pgup (sz p) <= a → a mod 4096 = 0 → leaf v root a q → ¬ user_page v root (sz p) q).
  { intros q a Ha Ham Hq (va & Hva & Hq')%Hup. apply (Hdiff _ _ _ Hq Hq').
    clear -Ha Ham Hva Hal'. Z.to_euclidean_division_equations; lia. }
  assert (Am : TRAPFRAME mod 4096 = 0 ∧ TRAMPOLINE mod 4096 = 0)
    by (clear -Hal E1 E2; split; Z.to_euclidean_division_equations; lia).
  destruct Am as [At Ar].
  assert (N1 : trapframe p ≠ usyscall p).
  { intros E. rewrite E in Lt. apply (Hdiff _ _ _ Lt Lu). clear -Hal E1. Z.to_euclidean_division_equations; lia. }
  assert (N2 : trapframe p ≠ trampoline).
  { intros E. rewrite E in Lt. apply (Hdiff _ _ _ Lt Lr). clear -Hal E1 E2. Z.to_euclidean_division_equations; lia. }
  assert (N3 : usyscall p ≠ trampoline).
  { intros E. rewrite E in Lu. apply (Hdiff _ _ _ Lu Lr). clear -Hal E1 E2. Z.to_euclidean_division_equations; lia. }
  destruct (ai_leaf _ _ _ I _ _ Lt) as (_ & _ & Ftf & Dtf), (ai_leaf _ _ _ I _ _ Lu) as (_ & _ & Fus & Dus),
    (ai_leaf _ _ _ I _ _ Lr) as (_ & _ & _ & Dtr).
  assert (Hupg : ∀ q, user_page v root (sz p) q → is_page q ∧ q ∉ free (alloc v) ∧ q ∉ dom T).
  { intros q (va & _ & Hq)%Hup. by destruct (ai_leaf _ _ _ I _ _ Hq) as (_ & ? & ? & ?). }
  constructor.
  - intros q (Hq0 & [->|[->|[Hq|[_ Hq]]]]); [by split_and!|by split_and!| |].
    + destruct (ai_pt _ _ _ I) as [I1 D]. split; [|split; [by intros Hq'; apply (D q)|by intros ->]].
      apply elem_of_dom in Hq as [[l pre] Hq]. by apply (pt_page _ _ _ I1 _ _ _ Hq).
    + destruct (Hupg q Hq) as (? & ? & ?). split_and!; [done|done|]. intros ->.
      eapply Hno; [|exact Ar|exact Lr|exact Hq]. lia.
  - intros E. done.
  - intros q Hq0 [->| ->]; (split; [done|]); intros _.
    + eapply Hno; [|exact At|exact Lt]. lia.
    + eapply Hno; [|exact Hal|exact Lu]. lia.
  - intros _. split; [by destruct Ptf as (_ & ? & _); lia|]. split; [by destruct Pus as (_ & ? & _); lia|].
    constructor; try done; [apply I|..].
    + intros va Hva. split; [by apply Hall|]. by destruct (ai_leaf _ _ _ I _ _ (Hl va Hva)).
    + intros va va' Hva Hva' E. fold root in E. pose proof (Hl va Hva) as L1. pose proof (Hl va' Hva') as L2. rewrite <- E in L2.
      exact (ai_inj _ _ _ I _ _ _ L1 L2).
  - done.
Qed.

(** What [as_inv] counts as owned, without the trampoline. *)
Lemma slot_owned v p T q : slot_ok v p T → pagetable p ≠ 0 → trampoline ∉ free (alloc v) →
  slot_pages v p T q ∨ q ∈ free (alloc v) ↔ owned v (pagetable p) T q ∧ q ≠ trampoline.
Proof using PL RL.
  intros S Hp Htr. destruct (proc_space_as v p T S Hp Htr) as [I Hl]. destruct (so_space _ _ _ S Hp) as (Ht & Hu & Sp).
  destruct top_addrs as (H0 & Hal & E1 & E2 & E3 & _). destruct top_perms as ([P1 Q1] & [P2 Q2] & [P3 Q3]).
  pose proof (sp_size _ _ _ _ _ _ Sp). split.
  - intros Hq. split; [|intros ->; destruct Hq as [Hq|?]; [by destruct (so_page _ _ _ S _ Hq) as (_ & _ & ?)|done]].
    destruct Hq as [Hq|Hq]; [|by left]. pose proof (so_page _ _ _ S q Hq) as (Pq & _ & _).
    right. destruct Hq as [_ [->|[->|[Hq|[_ (va & Hva & ->)]]]]]; [right|right|by left|right].
    + exists TRAPFRAME. split; [lia|]. rewrite (sp_tf _ _ _ _ _ _ Sp) by lia. by split; apply (top_valid _ _ Pq).
    + exists USYSCALL. split; [lia|]. rewrite (sp_us _ _ _ _ _ _ Sp) by lia. by split; apply (top_valid _ _ Pq).
    + exists va. apply mapped_leaf; [lia|]. by apply (sp_user _ _ _ _ _ _ Sp).
  - intros [[Hq|[Hq|(va & Hq)]] Hne]; [by right|left|].
    + split; [|auto]. apply (slot_page_nz v p T q S Hp). by left.
    + destruct (Hl va q Hq); [done|by left].
Qed.
End slot.
