(* ===== verification/RiscvAlloc.v ===== *)
(** allocproc and freeproc of proc.c (Lab3): the invariant of the kernel's
    memory, and what making and freeing a slot do to it. *)
From stdpp Require Import functions.
From S2P Require Import Prelude Riscv Vm PageTable Mappings AddrSpace UserCopy FreeWalk UvmCopy RiscvProc RiscvSpace RiscvSlot.

(** ** Definitions *)
Section defs.
Context {R : Riscv} {L : Allocator} {KL : Layout} {PE : ProcExt}.

(** Between operations: the pages are divided, a slot in use has a page table,
    and an unused one has nothing. *)
Record kernel_inv (Pool : Z → Prop) (s : kst) (Ts : nat → tables) : Prop := {
  ki_space : space_inv Pool (vm s) (procs s) Ts;
  ki_used : ∀ i p, procs s !! i = Some p → state p ≠ UNUSED → pagetable p ≠ 0;
  ki_unused : ∀ i p, procs s !! i = Some p → state p = UNUSED →
    pagetable p = 0 ∧ trapframe p = 0 ∧ usyscall p = 0 ∧ sz p = 0 }.

(** The memory of every slot but [i] is the same. *)
Definition others_kept (i : nat) (s s' : kst) (Ts : nat → tables) : Prop :=
  ∀ x, elsewhere (vm s) (procs s) Ts i x → vmem (vm s') x = vmem (vm s) x.

(** The slots that are not used. *)
Definition is_free (p : proc) : Prop :=
  state p = UNUSED ∧ pagetable p = 0 ∧ trapframe p = 0 ∧ usyscall p = 0 ∧ sz p = 0.
End defs.

Section alloc.
Context {R : Riscv} {L : Allocator} {KL : Layout} {PE : ProcExt}.
Context {RL : RiscvLaws R} {AL : AllocatorLaws L} {PL : ProcLaws PE}.
Implicit Types (v : vst) (T : tables) (p : proc) (ps : list proc) (s : kst).

(** ** Lemmas: the monad *)

Lemma wp_vmop {A} (c : V A) (Q : A → kst → Prop) s :
  wp c (λ a v, Q a (set_vm v s)) (vm s) → wp (vmop c) Q s.
Proof using. unfold wp, vmop. by destruct (c (vm s)). Qed.
Lemma wp_getp i p (Q : proc → kst → Prop) s : procs s !! i = Some p → Q p s → wp (getp i) Q s.
Proof using. intros Hi HQ. unfold wp, getp. by rewrite Hi. Qed.
Lemma alter_slot (f : proc → proc) i ps p : ps !! i = Some p → alter f i ps = <[i := f p]> ps.
Proof using.
  intros H. apply list_eq. intros j. destruct (decide (i = j)) as [<-|Hne].
  - rewrite list_lookup_alter_eq, H, list_lookup_insert_eq by by eapply lookup_lt_Some. done.
  - by rewrite list_lookup_alter_ne, list_lookup_insert_ne.
Qed.
Lemma wp_updp i f p (Q : unit → kst → Prop) s :
  procs s !! i = Some p → Q tt (set_procs (<[i := f p]> (procs s)) s) → wp (updp i f) Q s.
Proof using. intros Hi HQ. unfold updp. apply wp_modify. by rewrite (alter_slot _ _ _ p). Qed.
Lemma wp_emit e (Q : unit → kst → Prop) s : Q tt (set_trace (trace s ++ [e]) s) → wp (emit e) Q s.
Proof using. done. Qed.

(** A page is freed, if there is one. *)
Lemma kfree_opt_wp a s : (a ≠ 0 → is_page a ∧ a ∉ free (alloc (vm s))) →
  wp (if a =? 0 then mret tt else vmop (kfree a)) (λ _ s', ∃ v', s' = set_vm v' s
    ∧ (∀ q, q ∈ free (alloc v') ↔ q ∈ free (alloc (vm s)) ∨ a ≠ 0 ∧ q = a)
    ∧ same_off (free (alloc v')) (vmem (vm s)) (vmem v')) s.
Proof using AL.
  intros Ha. destruct (Z.eqb_spec a 0) as [->|Hne].
  - apply wp_ret. exists (vm s). split; [by destruct s|]. split; [|done]. intros q. split; [by left|]. intros [?|[? _]]; done.
  - destruct (Ha Hne) as [Hp Hf]. apply wp_vmop, kfree_wp; [done|done|]. intros v' Hfr Hm. exists v'. split; [done|].
    rewrite Hfr. split; [|done]. intros q. rewrite elem_of_union, elem_of_singleton. naive_solver.
Qed.

(** ** Lemmas: freeproc *)

(** The pages of a slot in order, given back. *)
Lemma space_free_wp p T v v0 : slot_ok v0 p T →
  (∀ q, q ∈ free (alloc v) → q ∈ free (alloc v0) ∨ q ≠ 0 ∧ (q = trapframe p ∨ q = usyscall p)) →
  same_off (free (alloc v)) (vmem v0) (vmem v) → pagetable p ≠ 0 →
  wp (proc_freepagetable (pagetable p) (sz p)) (λ _ v',
    (∀ q, q ∈ free (alloc v') ↔ q ∈ free (alloc v) ∨ q ∈ dom T ∨ user_page v0 (pagetable p) (sz p) q)
    ∧ same_off (free (alloc v')) (vmem v) (vmem v')) v.
Proof using AL PL RL.
  intros S Hf Hm Hp. destruct (so_space _ _ _ S Hp) as (Ht & Hu & Sp).
  assert (Hno : ∀ q, q ∈ dom T ∨ user_page v0 (pagetable p) (sz p) q → q ∉ free (alloc v)).
  { intros q Hq [Hq'|[Hq0 Hq']]%Hf.
    - destruct Hq as [Hq|Hq].
      + destruct (sp_pt _ _ _ _ _ _ Sp) as [_ D]. by apply (D q).
      + by destruct (sp_pages _ _ _ _ _ _ Sp q Hq) as (_ & ? & _).
    - destruct (so_top _ _ _ S q Hq0 Hq') as [? HU]. specialize (HU Hp). by destruct Hq. }
  destruct (proc_space_frame v0 v _ _ _ _ _ Sp) as [Sp' He]; [|done|].
  { intros q x Hq Hx. refine (same_off_page _ _ _ q Hm (λ r, free_page _ r) _ (Hno q (or_introl Hq)) x Hx).
    apply elem_of_dom in Hq as [[l pre] Hq]. by apply (pt_page _ _ _ (proj1 (sp_pt _ _ _ _ _ _ Sp)) _ _ _ Hq). }
  assert (Pt : slot_pages v0 p T (trapframe p)) by (split; auto).
  assert (Pu : slot_pages v0 p T (usyscall p)) by (split; auto).
  eapply wp_mono; [apply (proc_freepagetable_wp v _ T (sz p) _ _ Sp'); [apply (so_page _ _ _ S _ Pt)|apply (so_page _ _ _ S _ Pu)]|].
  intros [] v' [Hf' Hm']. split; [|done]. intros q. rewrite Hf'.
  by rewrite (user_page_ext v0 v _ _ q (size_top _ _ _ _ _ _ Sp) He).
Qed.

Lemma same_off_grow (P P' : gset Z) m0 m1 m2 :
  P ⊆ P' → same_off P m0 m1 → same_off P' m1 m2 → same_off P' m0 m2.
Proof using AL RL. intros Hs H1 H2. eapply same_off_seq; [by eapply same_off_mono|done]. Qed.

Lemma freeproc_pages i p T s : procs s !! i = Some p → slot_ok (vm s) p T →
  wp (freeproc i) (λ _ s', ∃ v', s' = set_procs (<[i := free_slot p]> (procs s)) (set_vm v' s)
    ∧ (∀ q, q ∈ free (alloc v') ↔ q ∈ free (alloc (vm s)) ∨ slot_pages (vm s) p T q)
    ∧ same_off (free (alloc v')) (vmem (vm s)) (vmem v')) s.
Proof using AL PL RL.
  intros Hi S. unfold freeproc. apply wp_bind. apply (wp_getp i p); [done|].
  assert (Hpg : ∀ q, q ≠ 0 → q = trapframe p ∨ q = usyscall p → is_page q ∧ q ∉ free (alloc (vm s))).
  { intros q Hq Ht. destruct (so_page _ _ _ S q) as (? & ? & _); [split; [done|tauto]|done]. }
  wp_seq kfree_opt_wp; [intros Hu; apply Hpg; auto|]. intros [] s1 (v1 & -> & Hf1 & Hm1).
  wp_seq kfree_opt_wp.
  { intros Ht. destruct (Hpg _ Ht ltac:(auto)) as [Hq Hn]. split; [done|]. cbn [vm set_vm]. rewrite Hf1. intros [?|[Hu E]]; [done|].
    by apply Ht, (so_ne _ _ _ S). }
  intros [] s2 (v2 & -> & Hf2 & Hm2). cbn [vm set_vm] in *.
  assert (Hm02 : same_off (free (alloc v2)) (vmem (vm s)) (vmem v2)).
  { eapply same_off_grow; [|exact Hm1|exact Hm2]. intros q Hq. apply Hf2. by left. }
  apply wp_bind. eapply (wp_mono _ (λ _ s3, ∃ v3, s3 = set_vm v3 s
    ∧ (∀ q, q ∈ free (alloc v3) ↔ q ∈ free (alloc (vm s)) ∨ slot_pages (vm s) p T q)
    ∧ same_off (free (alloc v3)) (vmem (vm s)) (vmem v3))).
  - destruct (Z.eqb_spec (pagetable p) 0) as [Hp|Hp].
    + apply wp_ret. exists v2. split; [done|]. split; [|done]. intros q. rewrite Hf2, Hf1. unfold slot_pages.
      rewrite (so_none _ _ _ S Hp), dom_empty_L, Hp. clear. set_unfold. naive_solver.
    + apply wp_vmop. eapply wp_mono; [apply (space_free_wp p T v2 (vm s) S)|]; [|done|done|].
      { intros q Hq. apply Hf2 in Hq as [[Hq|[? ->]]%Hf1|[? ->]]; auto. }
      intros [] v3 [Hf3 Hm3]. exists v3. split; [done|]. split.
      * intros q. rewrite Hf3, Hf2, Hf1.
        pose proof (slot_page_nz _ _ _ q S Hp) as Hnz.
        unfold slot_pages. destruct (so_space _ _ _ S Hp) as (? & ? & _). naive_solver.
      * eapply same_off_grow; [|exact Hm02|exact Hm3]. intros q Hq. apply Hf3. by left.
  - intros [] s3 (v3 & -> & Hf3 & Hm3). apply (wp_updp i free_slot p); [done|]. by exists v3.
Qed.

(** A slot without a page table holds at most two pages. *)
Lemma top_slot v p : pagetable p = 0 → (trapframe p = usyscall p → trapframe p = 0) →
  (∀ q, q ≠ 0 → q = trapframe p ∨ q = usyscall p → is_page q ∧ q ∉ free (alloc v) ∧ q ≠ trampoline) →
  slot_ok v p ∅ ∧ ∀ q, slot_pages v p ∅ q ↔ q ≠ 0 ∧ (q = trapframe p ∨ q = usyscall p).
Proof using.
  intros H1 H2 H3. assert (Hn : ∀ q, slot_pages v p ∅ q ↔ q ≠ 0 ∧ (q = trapframe p ∨ q = usyscall p)).
  { intros q. unfold slot_pages. rewrite dom_empty_L, H1. clear. set_unfold. naive_solver. }
  split; [|done]. constructor; try done.
  intros q [Hq Ht]%Hn. by apply H3.
Qed.
Lemma empty_slot v p : pagetable p = 0 → trapframe p = 0 → usyscall p = 0 →
  slot_ok v p ∅ ∧ ∀ q, ¬ slot_pages v p ∅ q.
Proof using.
  intros H1 H2 H3. destruct (top_slot v p) as [S Hn]; [done|done| |].
  - intros q Hq. rewrite H2, H3. naive_solver.
  - split; [done|]. intros q. rewrite Hn, H2, H3. naive_solver.
Qed.

Lemma freeproc_wp Pool i p s Ts : space_inv Pool (vm s) (procs s) Ts → procs s !! i = Some p →
  wp (freeproc i) (λ _ s', ∃ v', s' = set_procs (<[i := free_slot p]> (procs s)) (set_vm v' s)
    ∧ space_inv Pool v' (procs s') (<[i := ∅]> Ts) ∧ others_kept i s s' Ts
    ∧ (∀ q, q ∈ free (alloc v') ↔ q ∈ free (alloc (vm s)) ∨ slot_pages (vm s) p (Ts i) q)) s.
Proof using AL PL RL.
  intros I Hi. eapply wp_mono; [apply (freeproc_pages i p (Ts i) s Hi (si_slot _ _ _ _ I i p Hi))|].
  intros [] s' (v' & -> & Hf & Hm). exists v'. split; [done|].
  assert (Hk : others_kept i s (set_procs (<[i := free_slot p]> (procs s)) (set_vm v' s)) Ts).
  { intros x. apply (elsewhere_off Pool _ _ _ _ p (free (alloc v')) (vmem v') x I Hi); [|done].
    intros r Hr. split; [by eapply free_page|]. apply Hf in Hr. tauto. }
  destruct (empty_slot v' (free_slot p)) as [He Hn]; [done..|].
  split; [|done]. apply (slot_update Pool (vm s) v' (procs s) Ts i p); [done|done|done| |done].
  intros q. rewrite Hf. specialize (Hn q). tauto.
Qed.

(** ** Lemmas: work on a slot *)

(** From [s0], operations on slot [i] came to [s]: the slot is now [p] with
    tables [T], its pages and the free ones are those they were together, and the
    other slots have not changed. *)
Record on_slot (Pool : Z → Prop) (s0 : kst) (Ts : nat → tables) (i : nat) (s : kst) (p : proc) (T : tables) : Prop := {
  os_slot : (i < length (procs s0))%nat;
  os_procs : procs s = <[i := p]> (procs s0);
  os_inv : space_inv Pool (vm s) (procs s) (<[i := T]> Ts);
  os_kept : others_kept i s0 s Ts;
  os_same : ∀ j pj q, j ≠ i → procs s0 !! j = Some pj →
    slot_pages (vm s) pj (Ts j) q ↔ slot_pages (vm s0) pj (Ts j) q;
  os_pool : ∀ p0 q, procs s0 !! i = Some p0 →
    slot_pages (vm s) p T q ∨ q ∈ free (alloc (vm s)) ↔ slot_pages (vm s0) p0 (Ts i) q ∨ q ∈ free (alloc (vm s0)) }.

Lemma space_inv_tables Pool v ps Ts Ts' : (∀ i, Ts' i = Ts i) → space_inv Pool v ps Ts → space_inv Pool v ps Ts'.
Proof using.
  intros E [A B C D]. constructor; [intros i p; rewrite E; apply A|intros i j p p' q; rewrite !E; apply B|done|].
  intros q. rewrite D. split; (intros [?|(i & p & Hi & Hq)]; [by left|right; exists i, p]); rewrite E in *; done.
Qed.

Lemma on_slot_lookup Pool s0 Ts i s p T : on_slot Pool s0 Ts i s p T → procs s !! i = Some p.
Proof using. intros K. rewrite (os_procs _ _ _ _ _ _ _ K), list_lookup_insert_eq; [done|apply K]. Qed.
Lemma on_slot_ok Pool s0 Ts i s p T : on_slot Pool s0 Ts i s p T → slot_ok (vm s) p T.
Proof using.
  intros K. pose proof (si_slot _ _ _ _ (os_inv _ _ _ _ _ _ _ K) i p (on_slot_lookup _ _ _ _ _ _ _ K)) as S.
  by rewrite fn_lookup_insert in S.
Qed.

Lemma on_slot_change Pool s0 Ts i s p T s' p' T' : on_slot Pool s0 Ts i s p T →
  procs s' = <[i := p']> (procs s) →
  slot_ok (vm s') p' T' →
  (∀ q, slot_pages (vm s') p' T' q ∨ q ∈ free (alloc (vm s')) ↔ slot_pages (vm s) p T q ∨ q ∈ free (alloc (vm s))) →
  (∀ x, elsewhere (vm s) (procs s) (<[i := T]> Ts) i x → vmem (vm s') x = vmem (vm s) x) →
  on_slot Pool s0 Ts i s' p' T'.
Proof using PL RL.
  intros K Hp S Hown Hm. pose proof (on_slot_lookup _ _ _ _ _ _ _ K) as Hi.
  destruct (slot_update Pool (vm s) (vm s') (procs s) (<[i := T]> Ts) i p p' T' (os_inv _ _ _ _ _ _ _ K) Hi S) as [I Hsame].
  { by rewrite fn_lookup_insert. }
  { done. }
  assert (Hj : ∀ j pj, j ≠ i → procs s0 !! j = Some pj → procs s !! j = Some pj ∧ <[i := T]> Ts j = Ts j).
  { intros j pj Hji Hj. by rewrite (os_procs _ _ _ _ _ _ _ K), list_lookup_insert_ne, fn_lookup_insert_ne. }
  constructor.
  - apply K.
  - by rewrite Hp, (os_procs _ _ _ _ _ _ _ K), list_insert_insert_eq.
  - rewrite Hp. eapply space_inv_tables; [|exact I]. intros j. destruct (decide (j = i)) as [->|?].
    + by rewrite !fn_lookup_insert.
    + by rewrite !fn_lookup_insert_ne.
  - intros x Hx. rewrite <- (os_kept _ _ _ _ _ _ _ K x Hx). apply Hm. destruct Hx as (j & pj & q & Hji & Hpj & Hq & Hx).
    exists j, pj, q. destruct (Hj j pj Hji Hpj) as [? ->]. split_and!; try done. by apply (os_same _ _ _ _ _ _ _ K).
  - intros j pj q Hji Hpj. destruct (Hj j pj Hji Hpj) as [Hpj' E]. rewrite <- (os_same _ _ _ _ _ _ _ K j pj q Hji Hpj).
    rewrite <- E. by apply Hsame.
  - intros p0 q Hp0. by rewrite Hown, (os_pool _ _ _ _ _ _ _ K p0).
Qed.
Lemma on_slot_step Pool s0 Ts i s p T s' p' T' (P : gset Z) : on_slot Pool s0 Ts i s p T →
  procs s' = <[i := p']> (procs s) →
  slot_ok (vm s') p' T' →
  (∀ q, slot_pages (vm s') p' T' q ∨ q ∈ free (alloc (vm s')) ↔ slot_pages (vm s) p T q ∨ q ∈ free (alloc (vm s))) →
  same_off P (vmem (vm s)) (vmem (vm s')) →
  (∀ r, r ∈ P → is_page r ∧ (slot_pages (vm s) p T r ∨ r ∈ free (alloc (vm s)))) →
  on_slot Pool s0 Ts i s' p' T'.
Proof using AL PL RL.
  intros K Hp S Hown Hoff HP. apply (on_slot_change _ _ _ _ s p T s' p' T' K Hp S Hown).
  intros x. apply (elsewhere_off Pool _ _ _ _ p P _ x (os_inv _ _ _ _ _ _ _ K) (on_slot_lookup _ _ _ _ _ _ _ K)); [|done].
  by rewrite fn_lookup_insert.
Qed.
(** Only fields that do not concern the memory change. *)
Lemma on_slot_fields Pool s0 Ts i s p T s' p' : on_slot Pool s0 Ts i s p T →
  procs s' = <[i := p']> (procs s) → vm s' = vm s →
  same_space p p' → on_slot Pool s0 Ts i s' p' T.
Proof using AL PL RL.
  intros K Hp Hv E. eapply (on_slot_step _ _ _ _ s p T s' p' T ∅ K); rewrite ?Hv; try done.
  - by eapply slot_ok_fields, on_slot_ok.
  - intros q. by rewrite (slot_pages_fields _ _ _ _ q E).
Qed.

Lemma on_slot_start Pool s0 Ts i s p : space_inv Pool (vm s0) (procs s0) Ts → procs s0 !! i = Some p →
  procs s = procs s0 → vm s = vm s0 →
  on_slot Pool s0 Ts i s p (Ts i).
Proof using.
  intros I Hi Hp Hv. assert (Hid : <[i := p]> (procs s0) = procs s0) by by apply list_insert_id.
  constructor; rewrite ?Hv, ?Hp; try done.
  - by eapply lookup_lt_Some.
  - eapply space_inv_tables; [|exact I]. intros j. destruct (decide (j = i)) as [->|?];
      [by rewrite fn_lookup_insert|by rewrite fn_lookup_insert_ne].
  - unfold others_kept. by rewrite Hv.
  - intros p0 q Hp0. by simplify_eq.
Qed.
Lemma unused_tables Pool s Ts i p : kernel_inv Pool s Ts → procs s !! i = Some p → state p = UNUSED →
  Ts i = ∅ ∧ ∀ q, ¬ slot_pages (vm s) p (Ts i) q.
Proof using.
  intros I Hi Hst. destruct (ki_unused _ _ _ I i p Hi Hst) as (Hpt & Htf & Hus & _).
  assert (E : Ts i = ∅) by (eapply so_none; [by apply (si_slot _ _ _ _ (ki_space _ _ _ I))|done]).
  rewrite E. split; [done|]. by apply empty_slot.
Qed.

Lemma kernel_inv_rest Pool s s' Ts : vm s' = vm s → procs s' = procs s → kernel_inv Pool s Ts → kernel_inv Pool s' Ts.
Proof using. intros Hv Hp [A B C]. constructor; by rewrite ?Hv, ?Hp. Qed.

(** A slot that was unused is freed again: nothing is lost. *)
Lemma on_slot_free Pool s0 Ts i s p T : kernel_inv Pool s0 Ts → on_slot Pool s0 Ts i s p T →
  (∀ p0, procs s0 !! i = Some p0 → state p0 = UNUSED) →
  wp (freeproc i)
    (λ _ s', kernel_inv Pool s' Ts ∧ others_kept i s0 s' Ts
      ∧ procs s' = <[i := free_slot p]> (procs s0) ∧ ∀ q, q ∈ free (alloc (vm s')) ↔ q ∈ free (alloc (vm s0))) s.
Proof using AL PL RL.
  intros I K Hun. pose proof (on_slot_lookup _ _ _ _ _ _ _ K) as Hi. destruct (os_procs _ _ _ _ _ _ _ K).
  eapply wp_mono; [apply (freeproc_pages i p T s Hi (on_slot_ok _ _ _ _ _ _ _ K))|]. intros [] s1 (v' & -> & Hf & Hm).
  set (s2 := set_procs _ _).
  destruct (empty_slot v' (free_slot p)) as [S Hn]; [done..|].
  assert (K2 : on_slot Pool s0 Ts i s2 (free_slot p) ∅).
  { apply (on_slot_step _ _ _ _ s p T s2 (free_slot p) ∅ (free (alloc v')) K); try done.
    - intros q. cbn [vm s2 set_procs set_vm]. rewrite Hf. specialize (Hn q). tauto.
    - intros r Hr. split; [by eapply free_page|]. apply Hf in Hr. tauto. }
  assert (Hlook : ∀ j pj, procs s2 !! j = Some pj → j = i ∧ pj = free_slot p ∨ j ≠ i ∧ procs s0 !! j = Some pj).
  { intros j pj. rewrite (os_procs _ _ _ _ _ _ _ K2). destruct (decide (j = i)) as [->|?].
    - rewrite list_lookup_insert_eq by apply K. intros [= <-]. by left.
    - rewrite list_lookup_insert_ne by done. by right. }
  destruct (lookup_lt_is_Some_2 (procs s0) i (os_slot _ _ _ _ _ _ _ K)) as [p0 Hp0].
  destruct (unused_tables _ _ _ i p0 I Hp0 (Hun p0 Hp0)) as [E0 Hn0].
  split; [constructor|].
  - eapply space_inv_tables; [|apply K2]. intros j. destruct (decide (j = i)) as [->|?];
      [by rewrite fn_lookup_insert|by rewrite fn_lookup_insert_ne].
  - intros j pj Hj Hst. destruct (Hlook j pj Hj) as [[-> ->]|[_ Hj']]; [done|by eapply ki_used].
  - intros j pj Hj Hst. destruct (Hlook j pj Hj) as [[-> ->]|[_ Hj']]; [done|by eapply ki_unused].
  - split; [apply K2|]. split; [apply K2|]. intros q. pose proof (os_pool _ _ _ _ _ _ _ K2 p0 q Hp0) as Hpool.
    specialize (Hn q). specialize (Hn0 q). revert Hpool. cbn [vm s2 set_procs set_vm]. tauto.
Qed.
(** The failing ends. *)
Lemma on_slot_fail {A} (a : A) Pool s0 Ts i s p T : kernel_inv Pool s0 Ts → on_slot Pool s0 Ts i s p T →
  (∀ p0, procs s0 !! i = Some p0 → state p0 = UNUSED) →
  wp (freeproc i;; release (ProcLock i);; (mret a : M kst A))
    (λ o s', o = a ∧ kernel_inv Pool s' Ts ∧ others_kept i s0 s' Ts
      ∧ procs s' = <[i := free_slot p]> (procs s0) ∧ ∀ q, q ∈ free (alloc (vm s')) ↔ q ∈ free (alloc (vm s0))) s.
Proof using AL PL RL.
  intros I K Hun. wp_seq (on_slot_free Pool s0 Ts i s p T I K Hun). intros [] s1 (I1 & H).
  apply wp_bind, wp_emit, wp_ret. split; [done|]. split; [by apply (kernel_inv_rest _ s1)|exact H].
Qed.

Lemma find_unused_wp ps i0 s :
  wp (find_unused ps i0) (λ o s', (∃ t, s' = set_trace t s)
    ∧ match o with
      | None => Forall (λ p, state p ≠ UNUSED) ps
      | Some i => ∃ k p, i = (i0 + k)%nat ∧ ps !! k = Some p ∧ state p = UNUSED
      end) s.
Proof using.
  revert i0 s. induction ps as [|p ps IH]; intros i0 s; cbn [find_unused].
  { apply wp_ret. split; [exists (trace s); by destruct s|done]. }
  apply wp_bind, wp_emit. case_bool_decide as Hst.
  - apply wp_ret. split; [by eexists|]. exists 0%nat, p. by rewrite Nat.add_0_r.
  - apply wp_bind, wp_emit. eapply wp_mono; [apply IH|]. intros o s' [[t ->] Ho]. split; [by eexists|].
    destruct o as [i|]; [|by constructor]. destruct Ho as (k & q & -> & Hk & Hq). exists (S k), q. split; [lia|done].
Qed.

(** A page from kalloc becomes the trap frame or the usyscall page. *)
Lemma on_slot_take Pool s0 Ts i s p p' q v' (f : Z → proc → proc) :
  on_slot Pool s0 Ts i s p ∅ → pagetable p = 0 →
  p' = f q p → pagetable p' = 0 →
  (trapframe p' = q ∧ usyscall p' = usyscall p ∧ trapframe p = 0
   ∨ usyscall p' = q ∧ trapframe p' = trapframe p ∧ usyscall p = 0) →
  q ∈ free (alloc (vm s)) → free (alloc v') = free (alloc (vm s)) ∖ {[q]} →
  same_off (free (alloc (vm s))) (vmem (vm s)) (vmem v') →
  on_slot Pool s0 Ts i (set_procs (<[i := p']> (procs s)) (set_vm v' s)) p' ∅.
Proof using AL PL RL.
  intros K Hpt -> Hpt' Hor Hq Hf Hm. set (p' := f q p) in *. pose proof (on_slot_ok _ _ _ _ _ _ _ K) as S.
  destruct (free_page _ _ Hq) as (_ & Hq0 & _).
  assert (Hold : ∀ r, slot_pages (vm s) p ∅ r ↔ r ≠ 0 ∧ (r = trapframe p ∨ r = usyscall p)).
  { intros r. unfold slot_pages. rewrite dom_empty_L, Hpt. clear. set_unfold. naive_solver. }
  assert (Hno : ∀ r, r ≠ 0 → r = trapframe p ∨ r = usyscall p → is_page r ∧ r ≠ q ∧ r ∉ free (alloc v') ∧ r ≠ trampoline).
  { intros r Hr Ht. destruct (so_page _ _ _ S r) as (? & Hnf & ?); [by apply Hold|]. split; [done|].
    split; [congruence|]. split; [|done]. rewrite Hf. intros [? _]%elem_of_difference. done. }
  assert (Hqt : q ≠ trampoline).
  { intros ->. by apply (si_tramp _ _ _ _ (os_inv _ _ _ _ _ _ _ K)). }
  destruct (top_slot v' p') as [S' Hn]; [done|..].
  { destruct Hor as [(-> & -> & Ht)|(-> & -> & Hu)]; intros E.
    - exfalso. by apply (proj1 (proj2 (Hno (usyscall p) ltac:(lia) ltac:(by right)))).
    - destruct (Z.eq_dec (trapframe p) 0) as [?|Hne]; [done|]. exfalso.
      by apply (proj1 (proj2 (Hno (trapframe p) Hne ltac:(by left)))). }
  { assert (Hqq : is_page q ∧ q ∉ free (alloc v') ∧ q ≠ trampoline).
    { split; [by eapply free_page|]. split; [|done]. rewrite Hf. clear. set_solver. }
    intros r Hr Ht. destruct (decide (r = q)) as [->|Hrq]; [done|].
    assert (Hr' : r = trapframe p ∨ r = usyscall p) by (destruct Hor as [(E1 & E2 & _)|(E1 & E2 & _)]; rewrite E1, E2 in Ht; tauto).
    destruct (Hno r Hr Hr') as (? & _ & ? & ?). done. }
  eapply (on_slot_step _ _ _ _ s p ∅ _ p' ∅ (free (alloc (vm s))) K); try done.
  - intros r. cbn [vm set_procs set_vm]. rewrite Hn, Hold, Hf, elem_of_difference, elem_of_singleton.
    destruct (decide (r = q)) as [->|Hrq].
    + split; [intros _; by right|]. intros _. left. split; [lia|]. destruct Hor as [(-> & _)|(-> & _)]; tauto.
    + destruct Hor as [(-> & -> & ->)|(-> & -> & ->)]; tauto.
  - intros r Hr. split; [by eapply free_page|]. by right.
Qed.

Lemma tops_of v p T : slot_ok v p T → trapframe p ≠ 0 → usyscall p ≠ 0 → trampoline ∉ free (alloc v) →
  tops v (trapframe p) (usyscall p).
Proof using.
  intros S Ht Hu Htr. assert (Hne : trapframe p ≠ usyscall p) by (intros E; by apply Ht, (so_ne _ _ _ S)).
  destruct (so_page _ _ _ S (trapframe p)) as (? & ? & ?); [split; auto|].
  destruct (so_page _ _ _ S (usyscall p)) as (? & ? & ?); [split; auto|]. by constructor.
Qed.

(** The page table of the slot. *)
Lemma on_slot_newtable Pool s0 Ts i s p : on_slot Pool s0 Ts i s p ∅ →
  pagetable p = 0 → sz p = 0 → trapframe p ≠ 0 → usyscall p ≠ 0 →
  wp (vmop (proc_pagetable (trapframe p) (usyscall p))) (λ r s', ∃ v', s' = set_vm v' s
    ∧ (∀ x, in_page (usyscall p) x → vmem v' x = vmem (vm s) x)
    ∧ (r = 0 ∧ on_slot Pool s0 Ts i s' p ∅
       ∨ r ≠ 0 ∧ ∃ T, on_slot Pool s0 Ts i (set_procs (<[i := set_pagetable r p]> (procs s)) s') (set_pagetable r p) T)) s.
Proof using AL PL RL.
  intros K Hpt Hsz Ht Hu. pose proof (on_slot_ok _ _ _ _ _ _ _ K) as S.
  assert (Htr : trampoline ∉ free (alloc (vm s))) by apply (os_inv _ _ _ _ _ _ _ K).
  pose proof (tops_of _ _ _ S Ht Hu Htr) as Htops.
  assert (Hold : ∀ r, slot_pages (vm s) p ∅ r ↔ r ≠ 0 ∧ (r = trapframe p ∨ r = usyscall p)).
  { intros r. unfold slot_pages. rewrite dom_empty_L, Hpt. clear. set_unfold. naive_solver. }
  assert (Hus : ∀ m', same_off (free (alloc (vm s))) (vmem (vm s)) m' → ∀ x, in_page (usyscall p) x → m' x = vmem (vm s) x).
  { intros m' Hm. apply (same_off_page _ _ _ _ Hm (λ r, free_page _ r)); apply (tp_us _ _ _ Htops). }
  assert (HP : ∀ r, r ∈ free (alloc (vm s)) → is_page r ∧ (slot_pages (vm s) p ∅ r ∨ r ∈ free (alloc (vm s)))).
  { intros r Hr. split; [by eapply free_page|by right]. }
  apply wp_vmop. eapply wp_mono; [apply (proc_pagetable_wp _ _ _ Htops)|]. cbv beta.
  intros r v' [(-> & Hf & Hm)|(Hr & T & I & Sp & Hpool & Hm)]; (exists v'; split; [done|]; split; [by apply Hus|]); [left|right];
    (split; [done|]).
  - assert (Hn : ∀ q, slot_pages v' p ∅ q ↔ slot_pages (vm s) p ∅ q).
    { intros q. unfold slot_pages. rewrite dom_empty_L, Hpt. clear. set_unfold. naive_solver. }
    apply (on_slot_step _ _ _ _ s p ∅ _ p ∅ (free (alloc (vm s))) K); try done.
    + cbn [procs set_vm]. symmetry. apply list_insert_id. by eapply on_slot_lookup.
    + apply top_slot; [done|apply S|]. intros q Hq Hqt. cbn [vm set_vm]. rewrite Hf. apply (so_page _ _ _ S). by apply Hold.
    + intros q. cbn [vm set_vm]. by rewrite Hn, Hf.
  - exists T. set (p' := set_pagetable r p).
    assert (Hnu : ∀ q, ¬ user_page v' r 0 q) by (intros q (va & Hva & _); change (pgup 0) with 0 in Hva; lia).
    assert (HT : ∀ q, q ∈ dom T → q ∈ free (alloc (vm s)) ∧ q ∉ free (alloc v')).
    { intros q Hq. split; [apply Hpool; by apply elem_of_union_l|]. destruct (sp_pt _ _ _ _ _ _ Sp) as [_ D]. intros Hq'. by apply (D q). }
    assert (Hn : ∀ q, slot_pages v' p' T q ↔ q ≠ 0 ∧ (q = trapframe p ∨ q = usyscall p ∨ q ∈ dom T)).
    { intros q. unfold slot_pages, p'. cbn [pagetable trapframe usyscall sz set_pagetable]. rewrite Hsz. specialize (Hnu q). tauto. }
    assert (Htop : ∀ q, q ≠ 0 → q = trapframe p ∨ q = usyscall p → is_page q ∧ q ∉ free (alloc (vm s)) ∧ q ≠ trampoline).
    { intros q Hq Hqt. apply (so_page _ _ _ S). by apply Hold. }
    assert (Hf' : ∀ q, q ∈ free (alloc v') → q ∈ free (alloc (vm s))) by (intros q Hq; apply Hpool; by apply elem_of_union_r).
    apply (on_slot_step _ _ _ _ s p ∅ _ p' T (free (alloc (vm s))) K); try done.
    + constructor.
      * intros q [Hq [Hqt|[Hqt|Hqt]]]%Hn.
        -- destruct (Htop q Hq ltac:(by left)) as (? & ? & ?). split_and!; [done| |done]. intros ?%Hf'. done.
        -- destruct (Htop q Hq ltac:(by right)) as (? & ? & ?). split_and!; [done| |done]. intros ?%Hf'. done.
        -- destruct (HT q Hqt) as [? ?]. split_and!; [by eapply free_page|done|]. intros ->. done.
      * apply S.
      * intros q Hq Hqt. destruct (Htop q Hq Hqt) as (_ & ? & _). split; [by intros [? _]%HT|]. intros _.
        cbn [p' sz set_pagetable pagetable]. rewrite Hsz. apply Hnu.
      * intros _. cbn [p' sz set_pagetable pagetable trapframe usyscall vm set_procs set_vm]. by rewrite Hsz.
      * intros E. by apply Hr in E.
    + intros q. cbn [vm set_procs set_vm]. rewrite Hn, Hold, <- Hpool, elem_of_union.
      assert (Hnz : q ∈ dom T → q ≠ 0). { intros Hq. destruct (HT q Hq) as [Hq' _]. apply free_page in Hq' as (_ & ? & _). lia. }
      tauto.
Qed.

(** The pid is written in the usyscall page. *)
Lemma on_slot_pid Pool s0 Ts i s p m' : on_slot Pool s0 Ts i s p ∅ → pagetable p = 0 → usyscall p ≠ 0 →
  same_off {[usyscall p]} (vmem (vm s)) m' → on_slot Pool s0 Ts i (set_vm (set_vmem m' (vm s)) s) p ∅.
Proof using AL PL RL.
  intros K Hpt Hu Hm. pose proof (on_slot_ok _ _ _ _ _ _ _ K) as S.
  assert (Hn : ∀ q, slot_pages (set_vmem m' (vm s)) p ∅ q ↔ slot_pages (vm s) p ∅ q).
  { intros q. unfold slot_pages. rewrite dom_empty_L, Hpt. clear. set_unfold. naive_solver. }
  apply (on_slot_step _ _ _ _ s p ∅ _ p ∅ {[usyscall p]} K); try done.
  - cbn [procs set_vm]. symmetry. apply list_insert_id. by eapply on_slot_lookup.
  - apply top_slot; [done|apply S|]. intros q Hq Hqt. apply (so_page _ _ _ S). split; [done|tauto].
  - intros q. cbn [vm set_vm]. by rewrite Hn.
  - intros r ->%elem_of_singleton. assert (Hs : slot_pages (vm s) p ∅ (usyscall p)) by (split; auto).
    split; [|by left]. by apply (so_page _ _ _ S).
Qed.

(** ** Lemmas: allocproc *)

(** What allocproc leaves in the slot. *)
Definition new_slot (p : proc) (n tf us pt : Z) : proc :=
  fresh_context (set_pagetable pt (set_usyscall us (set_trapframe tf (set_state USED (set_pid n p))))).

(** The slot allocproc hands out. *)
Record allocated (Pool : Z → Prop) (s0 : kst) (Ts : nat → tables) (i : nat) (s : kst) (p0 p : proc) (T : tables) : Prop := {
  ac_old : procs s0 !! i = Some p0 ∧ state p0 = UNUSED;
  ac_new : p = new_slot p0 (nextpid s0) (trapframe p) (usyscall p) (pagetable p);
  ac_table : pagetable p ≠ 0;
  ac_on_slot : on_slot Pool s0 Ts i s p T;
  ac_pid : load 4 (vmem (vm s)) (usyscall p + usyscall_pid) = u32 (nextpid s0);
  ac_next : nextpid s = i32 (nextpid s0 + 1) }.

(** What a failing call leaves: slots as they were, but for the one it took and freed. *)
Definition not_allocated (Pool : Z → Prop) (s0 : kst) (Ts : nat → tables) (s : kst) : Prop :=
  kernel_inv Pool s Ts ∧ (∀ q, q ∈ free (alloc (vm s)) ↔ q ∈ free (alloc (vm s0)))
  ∧ (∃ i, others_kept i s0 s Ts ∧ ∀ p, procs s0 !! i = Some p → state p = UNUSED)
  ∧ (∀ j p, procs s0 !! j = Some p → state p ≠ UNUSED → procs s !! j = Some p).

Lemma on_slot_not {A} (a : A) Pool s0 Ts i s p T : kernel_inv Pool s0 Ts → on_slot Pool s0 Ts i s p T →
  (∀ p0, procs s0 !! i = Some p0 → state p0 = UNUSED) →
  wp (freeproc i;; release (ProcLock i);; (mret a : M kst A))
    (λ o s', o = a ∧ not_allocated Pool s0 Ts s') s.
Proof using AL PL RL.
  intros I K Hun. eapply wp_mono; [by apply (on_slot_fail a Pool s0 Ts i s p T)|].
  intros o s' (-> & I' & Hk & Hp & Hf). split; [done|]. split; [done|]. split; [done|]. split; [by exists i|].
  intros j pj Hj Hst. rewrite Hp, list_lookup_insert_ne; [done|]. intros ->. by apply Hst, Hun.
Qed.

Lemma store4_page (P : gset Z) m r off n : r ∈ P → 0 <= off → off + 4 <= 4096 → same_off P m (store 4 m (r + off) n).
Proof using.
  intros Hr H0 H4 x Hx. specialize (Hx r Hr). unfold in_page in Hx. unfold store. zcases; try done; lia.
Qed.
Lemma load4_store4 m a n : load 4 (store 4 m a n) a = u32 n.
Proof using.
  rewrite (load_digits 4 _ a n); [done|]. intros x Hx. unfold store.
  by rewrite (proj2 (Z.leb_le _ _)), (proj2 (Z.ltb_lt _ _)) by lia.
Qed.

Lemma allocpid_wp s : wp allocpid (λ r s', r = nextpid s
  ∧ ∃ t, s' = set_trace t (set_nextpid (i32 (nextpid s + 1)) s)) s.
Proof using. split; [done|]. by eexists. Qed.

(** kalloc for the slot: [set] stores the page, or 0 when there is none. *)
Lemma on_slot_kalloc Pool s0 Ts i s p (set : Z → proc → proc) (k : Z → M kst (option nat)) R0 :
  on_slot Pool s0 Ts i s p ∅ → pagetable p = 0 →
  (∀ q, pagetable (set q p) = 0) →
  ((∀ q, trapframe (set q p) = q ∧ usyscall (set q p) = usyscall p) ∧ trapframe p = 0
   ∨ (∀ q, usyscall (set q p) = q ∧ trapframe (set q p) = trapframe p) ∧ usyscall p = 0) →
  (∀ q, sz (set q p) = sz p) →
  (∀ q v', let s' := set_procs (<[i := set q p]> (procs s)) (set_vm v' s) in
     on_slot Pool s0 Ts i s' (set q p) ∅ → wp (k q) R0 s') →
  wp (q ← vmop kalloc; updp i (set q);; k q) R0 s.
Proof using AL PL RL.
  intros K Hpt Hpt' Hor Hsz Hk. pose proof (on_slot_lookup _ _ _ _ _ _ _ K) as Hi.
  apply wp_bind, wp_vmop, kalloc_wp.
  - intros Hf. apply wp_bind, (wp_updp i (set 0) p); [done|]. apply Hk.
    apply (on_slot_fields _ _ _ _ s p ∅ _ (set 0 p) K); try done.
    rewrite <- Hpt in Hpt'. unfold same_space. rewrite Hpt', Hsz.
    destruct Hor as [[Hs Ht]|[Hs Hu]]; destruct (Hs 0) as [-> ->]; split_and!; congruence.
  - intros q v' Hq Hqp Hq0 Hf Hm. apply wp_bind, (wp_updp i (set q) p); [done|]. apply Hk.
    apply (on_slot_take _ _ _ _ s p (set q p) q v' set); try done. destruct Hor as [[Hs Ht]|[Hs Hu]]; destruct (Hs q); auto.
Qed.

Lemma allocproc_wp Pool s0 Ts : kernel_inv Pool s0 Ts →
  wp allocproc (λ o s', match o with
    | None => not_allocated Pool s0 Ts s'
    | Some i => ∃ p0 p T, allocated Pool s0 Ts i s' p0 p T
    end) s0.
Proof using AL PL RL.
  intros I. unfold allocproc. apply wp_bind, wp_gets. wp_seq find_unused_wp.
  intros [i|] s1 [[t ->] Ho].
  2:{ apply wp_ret. split_and!; [by apply (kernel_inv_rest _ s0)|done| |done]. exists (length (procs s0)). split; [done|].
      intros p Hp%lookup_lt_Some. lia. }
  destruct Ho as (k & p0 & -> & Hi & Hst). cbn [Nat.add]. set (i := k) in *. cbn zeta.
  assert (Hun : ∀ p, procs s0 !! i = Some p → state p = UNUSED) by (intros p Hp; by simplify_eq).
  destruct (ki_unused _ _ _ I i p0 Hi Hst) as (Hpt & Htf & Hus & Hsz).
  wp_seq allocpid_wp. intros n s1 (-> & t1 & ->). set (n := nextpid (set_trace t s0)).
  apply wp_bind, (wp_updp i (λ p, set_state USED (set_pid n p)) p0); [done|].
  set (p1 := set_state USED (set_pid n p0)). set (s2 := set_procs _ _).
  assert (K : on_slot Pool s0 Ts i s2 p1 ∅).
  { assert (K0 : on_slot Pool s0 Ts i (set_trace t1 (set_nextpid (i32 (n + 1)) (set_trace t s0))) p0 ∅)
      by (rewrite <- (proj1 (unused_tables _ _ _ i p0 I Hi Hst)); apply on_slot_start; try done; apply I).
    by apply (on_slot_fields _ _ _ _ _ p0 ∅ s2 p1 K0). }
  eapply (on_slot_kalloc Pool s0 Ts i s2 p1 set_trapframe); [exact K|exact Hpt|done|by left|done|]. intros tf v1 s3 K3.
  destruct (Z.eqb_spec tf 0) as [->|Htf0].
  { eapply wp_mono; [by apply (on_slot_not None _ s0 Ts i s3 _ _ I K3)|]. by intros o s' [-> ?]. }
  eapply (on_slot_kalloc Pool s0 Ts i s3 _ set_usyscall); [exact K3|exact Hpt|done|by right|done|]. intros us v2 s4 K4.
  destruct (Z.eqb_spec us 0) as [->|Hus0].
  { eapply wp_mono; [by apply (on_slot_not None _ s0 Ts i s4 _ _ I K4)|]. by intros o s' [-> ?]. }
  apply wp_bind, wp_vmop, wp_modify. set (m' := store 4 _ _ _).
  pose proof usyscall_field as Hfield.
  assert (K5 := on_slot_pid _ _ _ _ _ _ m' K4 Hpt Hus0 (store4_page {[us]} _ us _ n ltac:(set_solver) (proj1 Hfield) (proj2 Hfield))).
  set (s5 := set_vm _ _) in K5. change (set_vm _ s4) with s5. set (p5 := set_usyscall us (set_trapframe tf p1)) in *.
  wp_seq (on_slot_newtable _ _ _ _ s5 p5 K5 Hpt Hsz Htf0 Hus0). intros pt s6 (v6 & -> & Hin & [[-> K6]|[Hpt0 [T K6]]]).
  { apply wp_bind, (wp_updp i (set_pagetable 0) p5); [by eapply on_slot_lookup|]. cbn [Z.eqb].
    eapply wp_mono; [apply (on_slot_not None _ s0 Ts i _ (set_pagetable 0 p5) ∅ I); [|done]|by intros o s' [-> ?]].
    by apply (on_slot_fields _ _ _ _ _ p5 ∅ _ _ K6). }
  apply wp_bind, (wp_updp i (set_pagetable pt) p5); [by eapply (on_slot_lookup _ _ _ _ s5)|].
  rewrite (proj2 (Z.eqb_neq _ _)) by done.
  apply wp_bind, (wp_updp i fresh_context (set_pagetable pt p5)); [by eapply on_slot_lookup|]. apply wp_ret.
  exists p0, (fresh_context (set_pagetable pt p5)), T. constructor; try done.
  - by apply (on_slot_fields _ _ _ _ _ (set_pagetable pt p5) T _ _ K6).
  - cbn [vm set_procs set_vm vmem usyscall fresh_context set_ctx set_pagetable p5 set_usyscall].
    rewrite (load_ext 4 (vmem (vm s5))); [apply load4_store4|].
    intros x Hx. apply Hin. change (usyscall p5) with us. unfold in_page. lia.
Qed.
End alloc.
