(* ===== verification/RiscvFork.v ===== *)
(** fork, growproc and userinit of proc.c (Lab3) and the kernel's memory: the
    child's copy of its parent, growing and shrinking, the first process. *)
From stdpp Require Import functions.
From S2P Require Import Prelude Riscv Vm PageTable Mappings AddrSpace UserCopy FreeWalk UvmCopy RiscvProc RiscvSpace RiscvSlot RiscvAlloc.

(** ** Definitions *)
Section defs.
Context {R : Riscv} {L : Allocator} {KL : Layout} {PE : ProcExt}.

(** The [sz] bytes of user memory at [root'] in [v'] are those at [root] in
    [v]: the same permissions and contents. *)
Definition same_user (v : vst) (root : Z) (v' : vst) (root' sz : Z) : Prop :=
  ∀ va, 0 <= va < pgup sz →
    PTE_FLAGS (entry (vmem v') root' va) = PTE_FLAGS (entry (vmem v) root va)
    ∧ ∀ off, 0 <= off < 4096 →
        vmem v' (PTE2PA (entry (vmem v') root' va) + off) = vmem v (PTE2PA (entry (vmem v) root va) + off).

(** The trap frame of the child: its parent's, with 0 in a0. *)
Definition child_frame (v : vst) (tf : Z) (v' : vst) (tf' : Z) : Prop :=
  (∀ k, 0 <= k < sizeof_trapframe → k < tf_a0 ∨ tf_a0 + 8 <= k → vmem v' (tf' + k) = vmem v (tf + k))
  ∧ load64 (vmem v') (tf' + tf_a0) = 0.

(** A successful fork of process [i], in slot [j]. *)
Record forked (Pool : Z → Prop) (s : kst) (Ts : nat → tables) (i : nat) (pi : proc) (j : nat) (T : tables) (np : proc)
    (s' : kst) : Prop := {
  fk_inv : kernel_inv Pool s' (<[j := T]> Ts);
  fk_slot : ∃ p0, procs s !! j = Some p0 ∧ state p0 = UNUSED;
  fk_procs : procs s' = <[j := np]> (procs s);
  fk_state : state np = RUNNABLE ∧ pid np = nextpid s ∧ parent np = Some i ∧ sz np = sz pi;
  fk_user : same_user (vm s) (pagetable pi) (vm s') (pagetable np) (sz pi);
  fk_frame : child_frame (vm s) (trapframe pi) (vm s') (trapframe np);
  fk_pid : load 4 (vmem (vm s')) (usyscall np + usyscall_pid) = u32 (nextpid s);
  fk_kept : others_kept j s s' Ts }.
End defs.

Section fork.
Context {R : Riscv} {L : Allocator} {KL : Layout} {PE : ProcExt}.
Context {RL : RiscvLaws R} {AL : AllocatorLaws L} {PL : ProcLaws PE}.
Implicit Types (v : vst) (T : tables) (p : proc) (ps : list proc) (s : kst).

(** ** Lemmas: work on one slot *)

(** A change of contents off the tables. *)
Lemma slot_write v v' p T : slot_ok v p T → free (alloc v') = free (alloc v) →
  (∀ q x, q ∈ dom T → in_page q x → vmem v' x = vmem v x) →
  slot_ok v' p T ∧ (∀ q, slot_pages v' p T q ↔ slot_pages v p T q)
  ∧ (pagetable p ≠ 0 → same_entries v v' (pagetable p)).
Proof using PL RL.
  intros S Hf Hm.
  assert (Hsp : pagetable p ≠ 0 → proc_space v' (pagetable p) T (sz p) (trapframe p) (usyscall p)
    ∧ same_entries v v' (pagetable p)).
  { intros Hp. destruct (so_space _ _ _ S Hp) as (_ & _ & Sp). apply (proc_space_frame v v' _ _ _ _ _ Sp); [done|].
    intros q Hq. rewrite Hf. apply (so_page _ _ _ S). split; [by apply (slot_page_nz v p T q S Hp)|tauto]. }
  assert (Hup : ∀ q, pagetable p ≠ 0 → user_page v' (pagetable p) (sz p) q ↔ user_page v (pagetable p) (sz p) q).
  { intros q Hp. destruct (Hsp Hp) as [Sp He]. apply user_page_ext; [by eapply size_top|done]. }
  assert (Hpg : ∀ q, slot_pages v' p T q ↔ slot_pages v p T q).
  { intros q. unfold slot_pages. destruct (decide (pagetable p = 0)) as [->|Hp]; [naive_solver|]. by rewrite (Hup q Hp). }
  split; [|split; [done|by intros Hp; apply Hsp]]. constructor.
  - intros q Hq%Hpg. rewrite Hf. by apply (so_page _ _ _ S).
  - apply S.
  - intros q Hq Ht. destruct (so_top _ _ _ S q Hq Ht) as [? Hn]. split; [done|]. intros Hp. rewrite Hup by done. auto.
  - intros Hp. destruct (so_space _ _ _ S Hp) as (? & ? & _). destruct (Hsp Hp). auto.
  - apply S.
Qed.

(** A change of contents that reaches no page of [Pool] but the slot's own ones
    that are not tables. *)
Lemma on_slot_write Pool s0 Ts i s p T m' : on_slot Pool s0 Ts i s p T →
  (∀ q x, Pool q → in_page q x → (∀ r, slot_pages (vm s) p T r → r ∉ dom T → ¬ in_page r x) → m' x = vmem (vm s) x) →
  on_slot Pool s0 Ts i (set_vm (set_vmem m' (vm s)) s) p T
  ∧ (pagetable p ≠ 0 → same_entries (vm s) (set_vmem m' (vm s)) (pagetable p)).
Proof using AL PL RL.
  intros K Hm. pose proof (on_slot_ok _ _ _ _ _ _ _ K) as S. pose proof (os_inv _ _ _ _ _ _ _ K) as I.
  pose proof (on_slot_lookup _ _ _ _ _ _ _ K) as Hi.
  assert (Hpool : ∀ j pj q, procs s !! j = Some pj → slot_pages (vm s) pj (<[i := T]> Ts j) q → Pool q).
  { intros j pj q Hj Hq. apply (si_pool _ _ _ _ I q). right. by exists j, pj. }
  assert (Hone : ∀ q q' x, is_page q → is_page q' → in_page q x → in_page q' x → q = q') by (intros; by eapply in_page_eq).
  destruct (slot_write (vm s) (set_vmem m' (vm s)) p T S eq_refl) as (S' & Hpg & He).
  { intros q x Hq Hx. destruct (decide (pagetable p = 0)) as [Hp|Hp]; [by rewrite (so_none _ _ _ S Hp), dom_empty_L in Hq|].
    assert (Hs : slot_pages (vm s) p T q) by (split; [apply (slot_page_nz _ p T q S Hp)|]; auto).
    apply (Hm q x); [|done|].
    - apply (Hpool i p q Hi). by rewrite fn_lookup_insert.
    - intros r Hr HrT Hx'. apply HrT. rewrite <- (Hone q r x); [done|apply (so_page _ _ _ S q Hs)|apply (so_page _ _ _ S r Hr)|done|done]. }
  split; [|done]. apply (on_slot_change _ _ _ _ s p T _ p T K); try done.
  - cbn [procs set_vm]. symmetry. by apply list_insert_id.
  - intros q. by rewrite Hpg.
  - intros x (j & pj & q & Hji & Hj & Hq & Hx). apply (Hm q x); [by eapply Hpool|done|]. intros r Hr _ Hx'.
    destruct (so_page _ _ _ (si_slot _ _ _ _ I j pj Hj) q Hq) as (Pq & _), (so_page _ _ _ S r Hr) as (Pr & _).
    rewrite (Hone q r x Pq Pr Hx Hx') in Hq. apply Hji, (si_apart _ _ _ _ I j i pj p r Hj Hi Hq).
    by rewrite fn_lookup_insert.
Qed.

(** An operation on the page table of the slot. *)
Lemma on_slot_table Pool s0 Ts i s p T v' T' n (P : gset Z) : on_slot Pool s0 Ts i s p T → pagetable p ≠ 0 →
  as_inv v' (pagetable p) T' → (∀ q, owned v' (pagetable p) T' q ↔ owned (vm s) (pagetable p) T q) →
  same_off P (vmem (vm s)) (vmem v') →
  (∀ r, r ∈ P → is_page r ∧ (slot_pages (vm s) p T r ∨ r ∈ free (alloc (vm s)))) →
  0 <= n → pgup n <= USYSCALL → all_mapped v' (pagetable p) 0 (pgup n) →
  (∀ va, pgup n <= va < USYSCALL → entry (vmem v') (pagetable p) va = 0) →
  (∀ va, USYSCALL <= va < MAXVA → entry (vmem v') (pagetable p) va = entry (vmem (vm s)) (pagetable p) va) →
  on_slot Pool s0 Ts i (set_procs (<[i := set_sz n p]> (procs s)) (set_vm v' s)) (set_sz n p) T'.
Proof using AL PL RL.
  intros K Hp I' Ho Hm HP Hn Hn' Hall Hz Htop. pose proof (on_slot_ok _ _ _ _ _ _ _ K) as S.
  assert (Htr : trampoline ∉ free (alloc (vm s))) by apply (os_inv _ _ _ _ _ _ _ K).
  destruct (so_space _ _ _ S Hp) as (Ht & Hu & Sp). destruct top_addrs as (H0 & Hal & E1 & E2 & E3 & _).
  destruct top_perms as ([P1 Q1] & [P2 Q2] & [P3 Q3]). pose proof trampoline_page as Ptr.
  assert (Er : ∀ va, TRAMPOLINE <= va < MAXVA → entry (vmem v') (pagetable p) va = tramp_pte).
  { intros va Hva. rewrite Htop by lia. by apply (sp_tramp _ _ _ _ _ _ Sp). }
  assert (Lr : leaf v' (pagetable p) TRAMPOLINE trampoline) by (split; [lia|]; rewrite Er by lia; split; by apply (top_valid _ _ Ptr)).
  assert (Htr' : trampoline ∉ free (alloc v')) by by destruct (ai_leaf _ _ _ I' _ _ Lr) as (_ & _ & ? & _).
  assert (S' : slot_ok v' (set_sz n p) T').
  { apply slot_of_as; try done.
    - apply (so_page _ _ _ S). split; auto.
    - apply (so_page _ _ _ S). split; auto.
    - intros va Hva. cbn [pagetable set_sz usyscall]. rewrite Htop by lia. by apply (sp_us _ _ _ _ _ _ Sp).
    - intros va Hva. cbn [pagetable set_sz trapframe]. rewrite Htop by lia. by apply (sp_tf _ _ _ _ _ _ Sp). }
  apply (on_slot_step _ _ _ _ s p T _ (set_sz n p) T' P K); try done.
  intros q. cbn [vm set_procs set_vm]. rewrite (slot_owned _ _ _ q S' Hp Htr'), (slot_owned _ _ _ q S Hp Htr).
  cbn [pagetable set_sz]. by rewrite Ho.
Qed.

Lemma set_sz_id p : set_sz (sz p) p = p.
Proof using. by destruct p. Qed.
Lemma on_slot_table_same Pool s0 Ts i s p T v' T' (P : gset Z) : on_slot Pool s0 Ts i s p T → pagetable p ≠ 0 →
  as_inv v' (pagetable p) T' → (∀ q, owned v' (pagetable p) T' q ↔ owned (vm s) (pagetable p) T q) →
  same_entries (vm s) v' (pagetable p) → same_off P (vmem (vm s)) (vmem v') →
  (∀ r, r ∈ P → is_page r ∧ (slot_pages (vm s) p T r ∨ r ∈ free (alloc (vm s)))) →
  on_slot Pool s0 Ts i (set_vm v' s) p T'.
Proof using AL PL RL.
  intros K Hp I' Ho He Hm HP. destruct (so_space _ _ _ (on_slot_ok _ _ _ _ _ _ _ K) Hp) as (_ & _ & Sp).
  destruct (sp_size _ _ _ _ _ _ Sp) as [Hs0 Hs1]. destruct (pgup_spec (sz p)) as [_ Hup].
  destruct top_addrs as (H0 & Hal & E1 & E2 & E3 & _).
  assert (K' : on_slot Pool s0 Ts i (set_procs (<[i := set_sz (sz p) p]> (procs s)) (set_vm v' s)) (set_sz (sz p) p) T').
  { apply (on_slot_table _ _ _ _ s p T v' T' (sz p) P K Hp); try done.
    - intros va Hva. rewrite He by lia. by apply (sp_user _ _ _ _ _ _ Sp).
    - intros va Hva. rewrite He by lia. by apply (sp_empty _ _ _ _ _ _ Sp).
    - intros va Hva. apply He. lia. }
  rewrite set_sz_id in K'. rewrite list_insert_id in K' by by eapply on_slot_lookup. by destruct s.
Qed.
Lemma pool_slot v p T r : slot_ok v p T → pagetable p ≠ 0 → r ∈ dom T ∪ free (alloc v) →
  is_page r ∧ (slot_pages v p T r ∨ r ∈ free (alloc v)).
Proof using AL.
  intros S Hp [Hr|Hr]%elem_of_union; [|split; [by eapply free_page|by right]].
  assert (Hs : slot_pages v p T r) by (split; [apply (slot_page_nz v p T r S Hp)|]; auto).
  split; [by apply (so_page _ _ _ S)|by left].
Qed.

(** ** Lemmas: the copy of the parent *)

(** Another slot, seen from the work on slot [j]. *)
Lemma on_slot_other Pool s0 Ts j s p T i pi : on_slot Pool s0 Ts j s p T → i ≠ j → procs s0 !! i = Some pi →
  procs s !! i = Some pi ∧ slot_ok (vm s) pi (Ts i)
  ∧ (∀ q, slot_pages (vm s) pi (Ts i) q → ¬ slot_pages (vm s) p T q)
  ∧ (∀ q x, slot_pages (vm s0) pi (Ts i) q → in_page q x → vmem (vm s) x = vmem (vm s0) x).
Proof using.
  intros K Hij Hi.
  assert (Hi' : procs s !! i = Some pi) by by rewrite (os_procs _ _ _ _ _ _ _ K), list_lookup_insert_ne.
  pose proof (os_inv _ _ _ _ _ _ _ K) as I. pose proof (on_slot_lookup _ _ _ _ _ _ _ K) as Hj.
  split; [done|]. split; [|split].
  - pose proof (si_slot _ _ _ _ I i pi Hi') as S. by rewrite fn_lookup_insert_ne in S.
  - intros q Hq Hq'. apply Hij. apply (si_apart _ _ _ _ I i j pi p q Hi' Hj).
    + by rewrite fn_lookup_insert_ne.
    + by rewrite fn_lookup_insert.
  - intros q x Hq Hx. apply (os_kept _ _ _ _ _ _ _ K). by exists i, pi, q.
Qed.

Lemma slot_apart v pi Ti p T : slot_ok v pi Ti → slot_ok v p T → pagetable pi ≠ 0 → pagetable p ≠ 0 →
  trampoline ∉ free (alloc v) → (∀ q, slot_pages v pi Ti q → ¬ slot_pages v p T q) →
  apart v (pagetable pi) Ti T.
Proof using PL RL.
  intros Si S Hpi Hp Htr Hno q Hq. destruct (proc_space_as v pi Ti Si Hpi Htr) as [_ Hl].
  assert (Hnz : q ∈ dom Ti → slot_pages v pi Ti q) by (intros Hd; split; [apply (slot_page_nz v pi Ti q Si Hpi)|]; auto).
  assert (Hq' : slot_pages v p T q ∨ q ∈ free (alloc v)).
  { apply elem_of_union in Hq as [Hq|?]; [left|by right]. split; [apply (slot_page_nz v p T q S Hp)|]; auto. }
  assert (Hn : ¬ slot_pages v pi Ti q).
  { intros Hs. destruct Hq' as [Hq'|Hq']; [by eapply Hno|]. by destruct (so_page _ _ _ Si q Hs) as (_ & ? & _). }
  split; [auto|]. intros va Hlf. destruct (Hl va q Hlf) as [->|?]; [|done].
  destruct Hq' as [Hs|?]; [|done]. by destruct (so_page _ _ _ S _ Hs) as (_ & _ & ?).
Qed.

Lemma uvmcopy_slot_wp Pool s0 Ts j s p T i pi : on_slot Pool s0 Ts j s p T → pagetable p ≠ 0 → sz p = 0 →
  i ≠ j → procs s0 !! i = Some pi → pagetable pi ≠ 0 →
  wp (vmop (uvmcopy (pagetable pi) (pagetable p) (sz pi))) (λ r s', ∃ v' T', s' = set_vm v' s
    ∧ (r = 0 ∧ on_slot Pool s0 Ts j (set_procs (<[j := set_sz (sz pi) p]> (procs s)) s') (set_sz (sz pi) p) T'
         ∧ same_user (vm s) (pagetable pi) v' (pagetable p) (sz pi)
         ∧ (∀ x, in_page (usyscall p) x → vmem v' x = vmem (vm s) x)
       ∨ r = -1 ∧ on_slot Pool s0 Ts j s' p T')) s.
Proof using AL PL RL.
  intros K Hp Hsz Hij Hi Hpi. destruct (on_slot_other _ _ _ _ _ _ _ _ _ K Hij Hi) as (Hi' & Si & Hno & _).
  pose proof (on_slot_ok _ _ _ _ _ _ _ K) as S.
  assert (Htr : trampoline ∉ free (alloc (vm s))) by apply (os_inv _ _ _ _ _ _ _ K).
  destruct (proc_space_as _ _ _ Si Hpi Htr) as [Ii _], (proc_space_as _ _ _ S Hp Htr) as [Ij _].
  destruct (so_space _ _ _ Si Hpi) as (_ & _ & Spi), (so_space _ _ _ S Hp) as (_ & _ & Sp).
  destruct (sp_size _ _ _ _ _ _ Spi) as [Hs0 Hs1]. destruct (pgup_spec (sz pi)) as [_ Hup].
  destruct top_addrs as (H0 & Hal & E1 & E2 & E3 & _).
  pose proof (sp_empty _ _ _ _ _ _ Sp) as Hz. rewrite Hsz in Hz. change (pgup 0) with 0 in Hz.
  apply wp_vmop. eapply wp_mono.
  { apply (uvmcopy_wp _ _ _ (vm s) (Ts i) T Ii Ij); [by apply (slot_apart _ pi _ p _)|lia| |].
    - intros va Hva. by apply (sp_user _ _ _ _ _ _ Spi).
    - intros va Hva. apply Hz. lia. }
  cbv beta. intros r v' [(-> & T' & C & _)|(-> & T' & I' & Ho & He & Hm & _)].
  - exists v', T'. split; [done|]. left. split; [done|]. split.
    + apply (on_slot_table _ _ _ _ s p T v' T' (sz pi) (dom T ∪ free (alloc (vm s))) K Hp); try done; try lia.
      * apply C.
      * apply C.
      * apply C.
      * intros r Hr. by apply pool_slot.
      * intros va Hva. by apply (cp_pages _ _ _ _ _ _ _ C).
      * intros va Hva. rewrite (cp_rest _ _ _ _ _ _ _ C) by lia. apply Hz. lia.
      * intros va Hva. apply (cp_rest _ _ _ _ _ _ _ C); lia.
    + split; [intros va Hva; by destruct (cp_pages _ _ _ _ _ _ _ C va Hva) as (_ & ? & ?)|].
      destruct (so_space _ _ _ S Hp) as (_ & Hu & _).
      assert (Hs : slot_pages (vm s) p T (usyscall p)) by (split; auto).
      destruct (so_page _ _ _ S _ Hs) as (Pu & Fu & _). destruct (so_top _ _ _ S _ Hu (or_intror eq_refl)) as [Du _].
      apply (same_off_page _ _ _ _ (cp_mem _ _ _ _ _ _ _ C)); [intros q Hq; by eapply pool_pages|done|].
      by rewrite not_elem_of_union.
  - exists v', T'. split; [done|]. right. split; [done|].
    eapply (on_slot_table_same _ _ _ _ s p T v' T' _ K Hp I' Ho He Hm). intros r Hr. by apply pool_slot.
Qed.

(** The trap frame of the child. *)
Lemma fork_frame Pool s0 Ts j s p T i pi : on_slot Pool s0 Ts j s p T → pagetable p ≠ 0 →
  i ≠ j → procs s0 !! i = Some pi → pagetable pi ≠ 0 →
  let m' := store64 (memmove (vmem (vm s)) (trapframe p) (trapframe pi) sizeof_trapframe) (trapframe p + tf_a0) 0 in
  on_slot Pool s0 Ts j (set_vm (set_vmem m' (vm s)) s) p T
  ∧ child_frame (vm s) (trapframe pi) (set_vmem m' (vm s)) (trapframe p)
  ∧ (∀ x, in_page (usyscall p) x → m' x = vmem (vm s) x)
  ∧ ∀ v root, same_user v root (vm s) (pagetable p) (sz p) → same_user v root (set_vmem m' (vm s)) (pagetable p) (sz p).
Proof using AL PL RL.
  intros K Hp Hij Hi Hpi m'. pose proof (on_slot_ok _ _ _ _ _ _ _ K) as S.
  destruct (so_space _ _ _ S Hp) as (Ht & Hu & Sp).
  assert (Hs : slot_pages (vm s) p T (trapframe p)) by (split; auto).
  assert (Hsu : slot_pages (vm s) p T (usyscall p)) by (split; auto).
  assert (HPt : ∀ r, r ∈ ({[trapframe p]} : gset Z) → is_page r)
    by (intros r ->%elem_of_singleton; apply (so_page _ _ _ S _ Hs)).
  destruct (so_top _ _ _ S _ Ht (or_introl eq_refl)) as [HtT HtU]. specialize (HtU Hp).
  assert (Hoff : same_off {[trapframe p]} (vmem (vm s)) m').
  { intros x Hx. specialize (Hx (trapframe p) (proj2 (elem_of_singleton _ _) eq_refl)). unfold in_page in Hx.
    unfold m', tf_a0, sizeof_trapframe. rewrite store64_other, memmove_other by lia. done. }
  destruct (on_slot_write _ _ _ _ _ _ _ m' K) as [K' He].
  { intros q x _ _ Hx. apply Hoff. intros r ->%elem_of_singleton. by apply Hx. }
  split; [done|]. split; [split|split].
  - intros k Hk Hout. cbn [vmem set_vmem]. unfold m', tf_a0, sizeof_trapframe in *.
    rewrite store64_other, memmove_in by lia. f_equal. lia.
  - apply load64_store64_same. lia.
  - apply (same_off_page _ _ _ _ Hoff HPt (proj1 (so_page _ _ _ S _ Hsu))).
    intros E%elem_of_singleton. by apply Ht, (so_ne _ _ _ S).
  - intros v root Hsame va Hva. specialize (He Hp). pose proof (size_top _ _ _ _ _ _ Sp).
    assert (E := He va ltac:(lia)).
    destruct (Hsame va Hva) as [Hfl Hb]. split; [by rewrite E|]. intros off Hoff'. rewrite E, <- (Hb off Hoff').
    assert (Hup : user_page (vm s) (pagetable p) (sz p) (PTE2PA (entry (vmem (vm s)) (pagetable p) va))) by by exists va.
    destruct (sp_pages _ _ _ _ _ _ Sp _ Hup) as (Hpg & _ & _).
    apply (same_off_page _ _ _ _ Hoff HPt Hpg);
      [|unfold in_page; lia]. intros E'%elem_of_singleton. by rewrite E' in Hup.
Qed.

Lemma dup_files_wp j fs fd p s : procs s !! j = Some p →
  wp (dup_files j fs fd) (λ _ s', ∃ t fl, s' = set_trace t (set_procs (<[j := set_ofile fl p]> (procs s)) s)) s.
Proof using.
  revert fd p s. induction fs as [|f fs IH]; intros fd p s Hj; cbn [dup_files].
  { apply wp_ret. exists (trace s), (ofile p). replace (set_ofile (ofile p) p) with p by by destruct p.
    rewrite list_insert_id by done. by destruct s. }
  destruct (f =? 0).
  { apply wp_bind, wp_ret. by apply IH. }
  assert (Hlt : (j < length (procs s))%nat) by by eapply lookup_lt_Some.
  apply wp_bind. unfold filedup. apply wp_bind, wp_bind, wp_gets, wp_bind, wp_emit, wp_ret.
  eapply wp_updp; [exact Hj|]. eapply wp_mono; [apply (IH (S fd) (set_ofile (<[fd := filedup_ret (trace s) f]> (ofile p)) p))|].
  { cbn [procs set_procs set_trace]. by apply list_lookup_insert_eq. }
  intros [] s' (t & fl & ->). exists t, fl. cbn [procs set_procs set_trace]. by rewrite list_insert_insert_eq.
Qed.

Lemma wp_curproc me i (Q : nat → kst → Prop) s : cpu_proc <$> cpus s !! me = Some (Some i) → Q i s → wp (curproc me) Q s.
Proof using.
  intros Hc HQ. unfold curproc, myproc. apply wp_bind, wp_gets. destruct (cpus s !! me) as [c|]; [|done].
  cbn in Hc |- *. injection Hc as ->. by apply wp_ret.
Qed.

(** The state that work on a slot leaves satisfies the invariant. *)
Lemma on_slot_inv Pool s0 Ts i s p T : kernel_inv Pool s0 Ts → on_slot Pool s0 Ts i s p T →
  state p ≠ UNUSED → pagetable p ≠ 0 → kernel_inv Pool s (<[i := T]> Ts).
Proof using.
  intros I K Hst Hp.
  assert (Hlook : ∀ j pj, procs s !! j = Some pj → j = i ∧ pj = p ∨ procs s0 !! j = Some pj).
  { intros j pj. rewrite (os_procs _ _ _ _ _ _ _ K). destruct (decide (j = i)) as [->|?].
    - rewrite list_lookup_insert_eq by apply K. intros [= <-]. by left.
    - rewrite list_lookup_insert_ne by done. by right. }
  constructor; [apply K|..]; intros j pj Hj.
  - destruct (Hlook j pj Hj) as [[-> ->]|Hj']; [done|by eapply ki_used].
  - destruct (Hlook j pj Hj) as [[-> ->]|Hj']; [done|by eapply ki_unused].
Qed.

Lemma same_user_old v v' pi Ti v2 root2 : slot_ok v pi Ti → pagetable pi ≠ 0 →
  (∀ q x, slot_pages v pi Ti q → in_page q x → vmem v' x = vmem v x) →
  same_user v' (pagetable pi) v2 root2 (sz pi) → same_user v (pagetable pi) v2 root2 (sz pi).
Proof using PL RL.
  intros S Hp Hm Hs va Hva. destruct (so_space _ _ _ S Hp) as (_ & _ & Sp). destruct (sp_pt _ _ _ _ _ _ Sp) as [I1 _].
  destruct (table_frame (vmem v) (vmem v') _ _ I1) as [_ He].
  { intros q x Hq. apply Hm. split; [apply (slot_page_nz v pi Ti q S Hp)|]; auto. }
  pose proof (size_top _ _ _ _ _ _ Sp). destruct (Hs va Hva) as [Hf Hb]. rewrite (He va) in Hf, Hb by lia.
  split; [done|]. intros off Hoff. rewrite (Hb off Hoff). apply (Hm (PTE2PA (entry (vmem v) (pagetable pi) va))).
  - assert (Hup : user_page v (pagetable pi) (sz pi) (PTE2PA (entry (vmem v) (pagetable pi) va))) by by exists va.
    split; [apply (slot_page_nz v pi Ti _ S Hp)|]; auto.
  - unfold in_page. lia.
Qed.

(** The end of fork: fields of the child that do not concern its memory. *)
Lemma fork_tail Pool s0 Ts i pi j np T (n : Z) s : on_slot Pool s0 Ts j s np T →
  wp (dup_files j (ofile pi) 0;;
      w ← idup (cwd pi);
      updp j (set_cwd w);;
      updp j (λ q, set_name (safestrcpy (name q) (name pi) 16) q);;
      release (ProcLock j);;
      acquire WaitLock;; updp j (set_parent (Some i));; release WaitLock;;
      acquire (ProcLock j);; updp j (set_state RUNNABLE);; release (ProcLock j);;
      mret n) (λ r s', r = n ∧ vm s' = vm s ∧ ∃ p', on_slot Pool s0 Ts j s' p' T ∧ same_space np p'
        ∧ state p' = RUNNABLE ∧ pid p' = pid np ∧ parent p' = Some i) s.
Proof using AL PL RL.
  intros K. pose proof (on_slot_lookup _ _ _ _ _ _ _ K) as Hj. assert (Hlt : (j < length (procs s))%nat) by by eapply lookup_lt_Some.
  wp_seq (dup_files_wp j (ofile pi) 0 np s Hj). intros [] s1 (t & fl & ->).
  apply wp_bind. unfold idup. apply wp_bind, wp_gets, wp_bind, wp_emit, wp_ret.
  apply wp_bind. eapply wp_updp; [by apply list_lookup_insert_eq|]. cbn [procs set_procs set_trace].
  apply wp_bind. eapply wp_updp; [apply list_lookup_insert_eq; cbn; by rewrite !length_insert|].
  apply wp_bind, wp_emit, wp_bind, wp_emit, wp_bind.
  eapply wp_updp; [apply list_lookup_insert_eq; cbn; by rewrite !length_insert|].
  apply wp_bind, wp_emit, wp_bind, wp_emit, wp_bind.
  eapply wp_updp; [apply list_lookup_insert_eq; cbn; by rewrite !length_insert|].
  apply wp_bind, wp_emit, wp_ret. split; [done|]. split; [done|]. cbn [procs set_procs set_trace].
  eexists. split; [eapply (on_slot_fields _ _ _ _ s np T _ _ K)|].
  { cbn [procs set_procs set_trace]. rewrite !list_insert_insert_eq. reflexivity. }
  all: by repeat split.
Qed.

Lemma fork_wp Pool s Ts me i pi : kernel_inv Pool s Ts →
  cpu_proc <$> cpus s !! me = Some (Some i) → procs s !! i = Some pi → state pi ≠ UNUSED →
  wp (fork me) (λ r s', r = -1 ∧ not_allocated Pool s Ts s'
    ∨ r = nextpid s ∧ ∃ j T np, forked Pool s Ts i pi j T np s') s.
Proof using AL PL RL.
  intros I Hcpu Hi Hst. pose proof (ki_used _ _ _ I i pi Hi Hst) as Hpi.
  unfold fork. apply wp_bind, (wp_curproc me i); [done|]. wp_seq (allocproc_wp Pool s Ts I). intros [j|] s1 Ha.
  2:{ apply wp_ret. by left. }
  destruct Ha as (p0 & np & T & [[Hj Hun] Enp Hpt K Hpid Hnext]).
  assert (Hij : i ≠ j) by (intros ->; by simplify_eq).
  destruct (on_slot_other _ _ _ _ _ _ _ _ _ K Hij Hi) as (Hi1 & Si1 & _ & Hmem).
  destruct (ki_unused _ _ _ I j p0 Hj Hun) as (_ & _ & _ & Hsz0).
  assert (Hsz : sz np = 0) by by rewrite Enp.
  pose proof (on_slot_lookup _ _ _ _ _ _ _ K) as Hj1.
  apply wp_bind, (wp_getp i pi); [done|]. apply wp_bind, (wp_getp j np); [done|].
  wp_seq (uvmcopy_slot_wp Pool s Ts j s1 np T i pi K Hpt Hsz Hij Hi Hpi).
  intros r s2 (v2 & T2 & -> & [(-> & K2 & Hu2 & Hus2)|[-> K2]]).
  2:{ change (-1 <? 0) with true. cbn iota.
      eapply wp_mono; [apply (on_slot_not (-1) Pool s Ts j _ np T2 I K2); intros p' Hp'; by simplify_eq|].
      intros r s' [-> ?]. by left. }
  change (0 <? 0) with false. cbn iota. apply wp_bind, (wp_updp j _ np); [done|].
  apply wp_bind, wp_vmop, wp_modify. apply wp_bind, wp_vmop, wp_modify.
  destruct (on_slot_other _ _ _ _ _ _ _ _ _ K2 Hij Hi) as (_ & Si2 & _ & Hmem2).
  destruct (fork_frame _ _ _ _ _ _ _ i pi K2 Hpt Hij Hi Hpi) as (K3 & Hfr & Hus3 & Hu3).
  eapply wp_mono; [apply (fork_tail _ _ _ i pi j _ T2 (pid np) _ K3)|].
  intros r s' (-> & Hv & p' & K4 & (E1 & E2 & E3 & E4) & Hst' & Hpid' & Hpar). right. split; [by rewrite Enp|].
  cbn [pagetable sz trapframe usyscall pid set_sz] in *.
  exists j, T2, p'. constructor.
  - apply (on_slot_inv _ s _ _ _ _ _ I K4); [by rewrite Hst'|by rewrite E1].
  - by exists p0.
  - by apply K4.
  - split_and!; [done|by rewrite Hpid', Enp|done|done].
  - rewrite E1, Hv. apply (same_user_old (vm s) (vm s1) pi (Ts i)); [by apply I|done|done|]. by apply Hu3.
  - rewrite E3, Hv. destruct Hfr as [Hb Ha0]. split; [|exact Ha0]. intros k Hk Hout. etransitivity; [by apply Hb|].
    cbn [vm set_procs set_vm] in Hmem2 |- *.
    apply (Hmem2 (trapframe pi)); [|unfold in_page, sizeof_trapframe in *; lia].
    destruct (so_space _ _ _ (si_slot _ _ _ _ (ki_space _ _ _ I) i pi Hi) Hpi) as (? & _). split; auto.
  - rewrite E4, Hv, <- Hpid. pose proof usyscall_field.
    transitivity (load 4 (vmem v2) (usyscall np + usyscall_pid)).
    + apply load_ext. intros x Hx. apply Hus3. cbn [usyscall set_sz]. unfold in_page. lia.
    + apply load_ext. intros x Hx. apply Hus2. unfold in_page. lia.
  - apply K4.
Qed.

(** ** Lemmas: growproc *)

(** Pages that keep their entries and lie off the changes keep their contents. *)
Lemma same_user_off v v' p T (P : gset Z) n : slot_ok v p T → pagetable p ≠ 0 → 0 <= n <= sz p →
  same_off P (vmem v) (vmem v') → (∀ r, r ∈ P → is_page r) → (∀ va, 0 <= va < pgup n →
    entry (vmem v') (pagetable p) va = entry (vmem v) (pagetable p) va ∧ PTE2PA (entry (vmem v) (pagetable p) va) ∉ P) →
  same_user v (pagetable p) v' (pagetable p) n.
Proof using.
  intros S Hp Hn Hm HP He va Hva. destruct (He va Hva) as [E HnP]. rewrite E. split; [done|]. intros off Hoff.
  destruct (so_space _ _ _ S Hp) as (_ & _ & Sp).
  assert (Hle : pgup n <= pgup (sz p)) by (unfold pgup; Z.to_euclidean_division_equations; lia).
  apply (same_off_page _ _ _ (PTE2PA (entry (vmem v) (pagetable p) va)) Hm HP); [|done|unfold in_page; lia].
  apply (sp_pages _ _ _ _ _ _ Sp). exists va. split; [lia|done].
Qed.
Lemma user_off_pool v p T va : slot_ok v p T → pagetable p ≠ 0 → 0 <= va < pgup (sz p) →
  PTE2PA (entry (vmem v) (pagetable p) va) ∉ dom T ∪ free (alloc v).
Proof using.
  intros S Hp Hva. destruct (so_space _ _ _ S Hp) as (_ & _ & Sp). rewrite not_elem_of_union.
  destruct (sp_pages _ _ _ _ _ _ Sp (PTE2PA (entry (vmem v) (pagetable p) va))) as (_ & ? & ?); [by exists va|done].
Qed.

(** The user memory of [p] after a change of its size to [n]. *)
Definition resized (v : vst) (p : proc) (v' : vst) (n : Z) : Prop :=
  same_user v (pagetable p) v' (pagetable p) (Z.min (sz p) n)
  ∧ (∀ va, pgup (sz p) <= va < pgup n → zeroed v' (PTE2PA (entry (vmem v') (pagetable p) va)))
  ∧ ∀ x, in_page (trapframe p) x ∨ in_page (usyscall p) x → vmem v' x = vmem v x.

(** The trap frame and the usyscall page are apart from the tables, the free
    pages and the user's pages. *)
Lemma tops_off v v' p T (P : gset Z) : slot_ok v p T → pagetable p ≠ 0 → same_off P (vmem v) (vmem v') →
  (∀ q, q ∈ P → is_page q ∧ (q ∈ dom T ∨ q ∈ free (alloc v) ∨ user_page v (pagetable p) (sz p) q)) →
  ∀ x, in_page (trapframe p) x ∨ in_page (usyscall p) x → vmem v' x = vmem v x.
Proof using PL RL.
  intros S Hp Hm HP x Hx. destruct (so_space _ _ _ S Hp) as (Ht & Hu & _).
  assert (H : ∀ q, q ≠ 0 → q = trapframe p ∨ q = usyscall p → in_page q x → vmem v' x = vmem v x).
  { intros q Hq Hor Hin. apply Hm. intros r Hr Hr'. destruct (HP r Hr) as [Pr Hcase].
    assert (Hs : slot_pages v p T q) by (split; [done|tauto]). destruct (so_page _ _ _ S q Hs) as (Pq & Fq & _).
    assert (q = r) as <- by (by apply (in_page_eq q r x)). destruct (so_top _ _ _ S q Hq Hor) as [Hd Hn].
    destruct Hcase as [?|[?|?]]; [done|done|by apply Hn]. }
  destruct Hx as [Hx|Hx]; [apply (H (trapframe p))|apply (H (usyscall p))]; auto.
Qed.

Lemma grow_wp Pool s Ts i p n : kernel_inv Pool s Ts → procs s !! i = Some p → pagetable p ≠ 0 →
  sz p < n <= USYSCALL →
  wp (vmop (uvmalloc (pagetable p) (sz p) n PTE_W)) (λ r s', ∃ v' T', s' = set_vm v' s
    ∧ (r = n ∧ on_slot Pool s Ts i (set_procs (<[i := set_sz n p]> (procs s)) s') (set_sz n p) T' ∧ resized (vm s) p v' n
       ∨ r = 0 ∧ on_slot Pool s Ts i s' p T' ∧ resized (vm s) p v' (sz p))) s.
Proof using AL PL RL.
  intros I Hi Hp Hn. assert (K : on_slot Pool s Ts i s p (Ts i)) by (by apply on_slot_start; [apply I|..]).
  pose proof (on_slot_ok _ _ _ _ _ _ _ K) as S. destruct (so_space _ _ _ S Hp) as (_ & _ & Sp).
  destruct (sp_size _ _ _ _ _ _ Sp) as [Hs0 Hs1]. destruct top_addrs as (H0 & Hal & E1 & E2 & E3 & _).
  assert (Htr : trampoline ∉ free (alloc (vm s))) by apply (os_inv _ _ _ _ _ _ _ K).
  destruct (proc_space_as _ _ _ S Hp Htr) as [Ia _].
  assert (Hn' : pgup n <= USYSCALL) by (unfold pgup; Z.to_euclidean_division_equations; lia).
  assert (Hle : pgup (sz p) <= pgup n) by (unfold pgup; Z.to_euclidean_division_equations; lia).
  assert (Hpp : 0 <= pgup (sz p)) by (pose proof (pgup_spec (sz p)); lia).
  assert (Hpool : ∀ r, r ∈ dom (Ts i) ∪ free (alloc (vm s)) → is_page r) by (intros r Hr; by apply (pool_slot _ _ _ r S Hp)).
  apply wp_vmop.
  destruct (uvmalloc_grown (pagetable p) (sz p) n PTE_W (vm s) (Ts i) Ia) as (r & v' & T' & E & H); [lia|lia| | |].
  { by rewrite pte_w_bit. }
  { intros va Hva. apply (sp_empty _ _ _ _ _ _ Sp). lia. }
  unfold wp. rewrite E. exists v', T'. split; [done|]. destruct H as [[-> G]|(-> & I' & Ho & He & Hm)]; [left|right].
  - split; [done|]. split; [|split; [|split]].
    + apply (on_slot_table _ _ _ _ s p _ v' T' n (dom (Ts i) ∪ free (alloc (vm s))) K Hp); try apply G; try done; try lia.
      * intros r Hr. by apply pool_slot.
      * intros va Hva. destruct (decide (va < pgup (sz p))).
        -- rewrite (gr_old _ _ _ _ _ _ _ _ G) by lia. apply (sp_user _ _ _ _ _ _ Sp). lia.
        -- apply (gr_new _ _ _ _ _ _ _ _ G). lia.
      * intros va Hva. rewrite (gr_old _ _ _ _ _ _ _ _ G) by lia. apply (sp_empty _ _ _ _ _ _ Sp). lia.
      * intros va Hva. apply (gr_old _ _ _ _ _ _ _ _ G); lia.
    + rewrite Z.min_l by lia. apply (same_user_off _ _ p (Ts i) _ (sz p) S Hp ltac:(lia) (gr_mem _ _ _ _ _ _ _ _ G) Hpool).
      intros va Hva. split; [apply (gr_old _ _ _ _ _ _ _ _ G); lia|]. by apply user_off_pool.
    + intros va Hva. by apply (gr_new _ _ _ _ _ _ _ _ G).
    + apply (tops_off _ _ p (Ts i) _ S Hp (gr_mem _ _ _ _ _ _ _ _ G)). intros q Hq. split; [by apply Hpool|]. clear -Hq. set_solver.
  - split; [done|]. split; [|split; [|split]].
    + apply (on_slot_table_same _ _ _ _ s p _ v' T' _ K Hp I' Ho He Hm). intros r Hr. by apply pool_slot.
    + rewrite Z.min_l by lia. apply (same_user_off _ _ p (Ts i) _ (sz p) S Hp ltac:(lia) Hm Hpool).
      intros va Hva. split; [apply He; lia|]. by apply user_off_pool.
    + intros va Hva. lia.
    + apply (tops_off _ _ p (Ts i) _ S Hp Hm). intros q Hq. split; [by apply Hpool|]. clear -Hq. set_solver.
Qed.

Lemma shrink_wp Pool s Ts i p n : kernel_inv Pool s Ts → procs s !! i = Some p → pagetable p ≠ 0 → 0 <= n →
  let m := Z.min (sz p) n in
  wp (vmop (uvmdealloc (pagetable p) (sz p) n)) (λ r s', r = m ∧ ∃ v', s' = set_vm v' s
    ∧ on_slot Pool s Ts i (set_procs (<[i := set_sz m p]> (procs s)) s') (set_sz m p) (Ts i) ∧ resized (vm s) p v' m) s.
Proof using AL PL RL.
  intros I Hi Hp Hn m. assert (K : on_slot Pool s Ts i s p (Ts i)) by (by apply on_slot_start; [apply I|..]).
  pose proof (on_slot_ok _ _ _ _ _ _ _ K) as S. destruct (so_space _ _ _ S Hp) as (_ & _ & Sp).
  destruct (sp_size _ _ _ _ _ _ Sp) as [Hs0 Hs1]. destruct top_addrs as (H0 & Hal & E1 & E2 & E3 & _).
  assert (Htr : trampoline ∉ free (alloc (vm s))) by apply (os_inv _ _ _ _ _ _ _ K).
  destruct (proc_space_as _ _ _ S Hp Htr) as [Ia _].
  assert (Hpp : sz p <= pgup (sz p)) by (pose proof (pgup_spec (sz p)); lia).
  assert (Hm0 : 0 <= m <= sz p) by lia.
  assert (Hmp : 0 <= pgup m <= pgup (sz p)).
  { pose proof (pgup_spec m). split; [lia|]. unfold pgup. Z.to_euclidean_division_equations; lia. }
  assert (Hent : ∀ va e, (if n <? sz p then without (pgup n) (pgup (sz p)) e va else e va) = without (pgup m) (pgup (sz p)) e va).
  { intros va e. destruct (Z.ltb_spec n (sz p)).
    - by replace m with n by lia.
    - replace m with (sz p) by lia. rewrite without_out; [done|lia]. }
  apply wp_vmop. eapply wp_mono; [apply (uvmdealloc_wp (pagetable p) (sz p) n (vm s) (Ts i) Ia); [done|lia|]|].
  { intros _ va Hva. apply (sp_user _ _ _ _ _ _ Sp). pose proof (pgup_spec n). lia. }
  intros r v' (-> & I' & Ho & Hm & Hf & He). split; [lia|]. exists v'. split; [done|].
  assert (Hfm : ∀ q, q ∈ free (alloc v') → q ∈ free (alloc (vm s))
    ∨ ∃ va, pgup m <= va < pgup (sz p) ∧ q = PTE2PA (entry (vmem (vm s)) (pagetable p) va)).
  { intros q [?|[Hlt (va & Hva & ->)]]%Hf; [by left|right]. exists va. replace m with n by lia. done. }
  assert (HP : ∀ r, r ∈ dom (Ts i) ∪ free (alloc v') → is_page r ∧ (slot_pages (vm s) p (Ts i) r ∨ r ∈ free (alloc (vm s)))).
  { intros r [Hr|[Hr|(va & Hva & ->)]%Hfm]%elem_of_union; [apply (pool_slot _ _ _ r S Hp)..|].
    - by apply elem_of_union_l.
    - by apply elem_of_union_r.
    - assert (Hup : user_page (vm s) (pagetable p) (sz p) (PTE2PA (entry (vmem (vm s)) (pagetable p) va))) by (exists va; split; [lia|done]).
      split; [by apply (sp_pages _ _ _ _ _ _ Sp)|left]. split; [apply (slot_page_nz _ p _ _ S Hp)|]; auto. }
  split; [|split; [|split]].
  - apply (on_slot_table _ _ _ _ s p _ v' (Ts i) m _ K Hp I' Ho Hm HP); try lia.
    + intros va Hva. rewrite He, Hent, without_out by lia. apply (sp_user _ _ _ _ _ _ Sp). lia.
    + intros va Hva. rewrite He, Hent by lia. destruct (decide (va < pgup (sz p))); [apply without_in; lia|].
      rewrite without_out by lia. apply (sp_empty _ _ _ _ _ _ Sp). lia.
    + intros va Hva. rewrite He, Hent, without_out by lia. done.
  - replace (Z.min (sz p) m) with m by lia.
    apply (same_user_off _ _ p (Ts i) _ m S Hp ltac:(lia) Hm (λ r Hr, proj1 (HP r Hr))).
    intros va Hva. split; [rewrite He, Hent, without_out by lia; done|].
    pose proof (user_off_pool (vm s) p (Ts i) va S Hp ltac:(lia)) as Hno. rewrite not_elem_of_union in Hno.
    intros [?|[?|(va' & Hva' & E)]%Hfm]%elem_of_union; [tauto|tauto|].
    assert (E' := sp_inj _ _ _ _ _ _ Sp va va' ltac:(lia) ltac:(lia) E). pose proof (pgup_spec m).
    clear -E' Hva Hva' H. Z.to_euclidean_division_equations; lia.
  - intros va Hva. lia.
  - apply (tops_off _ _ p (Ts i) _ S Hp Hm). intros q Hq. split; [by apply HP|].
    apply elem_of_union in Hq as [Hq|[Hq|(va & Hva & ->)]%Hfm]; [by left|by right; left|right; right].
    exists va. split; [lia|done].
Qed.

Lemma resized_refl v p : resized v p v (sz p).
Proof using. split; [by intros va Hva|]. split; [|done]. intros va Hva. lia. Qed.

Lemma growproc_wp Pool s Ts me i p n : kernel_inv Pool s Ts → cpu_proc <$> cpus s !! me = Some (Some i) →
  procs s !! i = Some p → state p ≠ UNUSED → is_int n → sz p + n <= USYSCALL →
  wp (growproc me n) (λ r s', ∃ p' T', on_slot Pool s Ts i s' p' T' ∧ resized (vm s) p (vm s') (sz p')
    ∧ (r = 0 ∧ p' = set_sz (if sz p + n <? 0 then sz p else sz p + n) p ∨ r = -1 ∧ 0 < n ∧ p' = p)) s.
Proof using AL PL RL.
  intros I Hcpu Hi Hst Hint Hn. pose proof (ki_used _ _ _ I i p Hi Hst) as Hp.
  assert (K : on_slot Pool s Ts i s p (Ts i)) by (by apply on_slot_start; [apply I|..]).
  destruct (so_space _ _ _ (on_slot_ok _ _ _ _ _ _ _ K) Hp) as (_ & _ & Sp). destruct (sp_size _ _ _ _ _ _ Sp) as [Hs0 Hs1].
  pose proof (pgup_spec (sz p)). destruct top_addrs as (? & ? & ? & ? & ? & _). pose proof maxva_range.
  unfold is_int, INT_MIN, INT_MAX in Hint.
  unfold growproc. apply wp_bind, (wp_curproc me i); [done|]. apply wp_bind, (wp_getp i p); [done|].
  destruct (Z.ltb_spec 0 n) as [Hpos|Hneg]; [|destruct (Z.ltb_spec n 0)].
  - rewrite u64_small, (proj2 (Z.ltb_ge (sz p + n) 0)) by lia.
    wp_seq (grow_wp Pool s Ts i p (sz p + n) I Hi Hp); [lia|].
    intros r s' (v' & T' & -> & [(-> & K' & Hr)|(-> & K' & Hr)]).
    + rewrite (proj2 (Z.eqb_neq _ _)) by lia. apply wp_bind, (wp_updp i _ p); [done|]. apply wp_ret.
      eexists _, T'. split; [exact K'|]. split; [exact Hr|by left].
    + apply wp_ret. exists p, T'. split; [done|]. split; [done|by right].
  - assert (Hm : Z.min (sz p) (u64 (sz p + n)) = if sz p + n <? 0 then sz p else sz p + n).
    { destruct (Z.ltb_spec (sz p + n) 0); [|rewrite u64_small by lia; lia].
      unfold u64. rewrite <- (Z.mod_add (sz p + n) 1 (2 ^ 64)), Z.mod_small by lia. lia. }
    wp_seq (shrink_wp Pool s Ts i p (u64 (sz p + n)) I Hi Hp); [apply u64_range|]. rewrite Hm.
    intros r s' (-> & v' & -> & K' & Hr). apply wp_bind, (wp_updp i _ p); [done|]. apply wp_ret.
    eexists _, (Ts i). split; [exact K'|]. split; [exact Hr|by left].
  - assert (n = 0) as -> by lia. rewrite Z.add_0_r, (proj2 (Z.ltb_ge (sz p) 0)) by lia.
    apply wp_bind, (wp_updp i _ p); [done|]. apply wp_ret. exists (set_sz (sz p) p), (Ts i). rewrite set_sz_id.
    split; [|split; [apply resized_refl|by left]].
    by apply (on_slot_fields _ _ _ _ s p _ _ p K).
Qed.
End fork.
