(* ===== verification/RiscvQuiet.v ===== *)
(** Operations of proc.c (Lab3) that move no memory: state, channel, parent and
    the like change, what the slots hold does not. *)
From stdpp Require Import functions.
From S2P Require Import Prelude Riscv Vm RiscvProc RiscvSpace RiscvSlot RiscvAlloc RiscvFork.

(** ** Definitions *)
Section defs.
Context {R : Riscv} {L : Allocator} {KL : Layout} {PE : ProcExt}.

Definition same_use (p p' : proc) : Prop := same_space p p' ∧ (state p' = UNUSED ↔ state p = UNUSED).
(** The memory stays; no process but [o], which makes the call, becomes a zombie. *)
Definition quiet (o : option nat) (s s' : kst) : Prop :=
  vm s' = vm s ∧ length (procs s') = length (procs s) ∧
  ∀ k p, procs s !! k = Some p → ∃ p', procs s' !! k = Some p' ∧ same_use p p'
    ∧ (o ≠ Some k → state p' = ZOMBIE → state p = ZOMBIE).

(** If [c] returns from [s], it was quiet. *)
Definition keeps (o : option nat) {A} (c : M kst A) (s : kst) : Prop := ∀ a s', c s = Done a s' → quiet o s s'.

(** Slot [i] is in use; process [i] runs on CPU [me]. *)
Definition used (i : nat) (s : kst) : Prop := ∃ p, procs s !! i = Some p ∧ state p ≠ UNUSED.
Definition running (me i : nat) (s : kst) : Prop :=
  cpu_proc <$> cpus s !! me = Some (Some i) ∧ ∃ p, procs s !! i = Some p ∧ state p = RUNNING.
End defs.

Section keeps.
Context {R : Riscv} {L : Allocator} {KL : Layout} {PE : ProcExt}.
Context (o : option nat).
Implicit Types (p : proc) (s : kst).

(** ** Lemmas *)

#[local] Instance same_use_refl : Reflexive same_use.
Proof. done. Qed.
#[local] Instance same_use_trans : Transitive same_use.
Proof.
  intros p q r [(? & ? & ? & ?) ?] [(? & ? & ? & ?) ?]. split; [repeat split; congruence|tauto].
Qed.
#[local] Instance quiet_refl : Reflexive (quiet o).
Proof. intros s. split; [done|]. split; [done|]. intros k p Hp. by exists p. Qed.
#[local] Instance quiet_trans : Transitive (quiet o).
Proof.
  intros s s1 s2 (E & El & H) (E' & El' & H'). split; [congruence|]. split; [congruence|].
  intros k p Hp. destruct (H k p Hp) as (p1 & Hp1 & Hu1 & Hz1). destruct (H' k p1 Hp1) as (p2 & Hp2 & Hu2 & Hz2).
  exists p2. split; [done|]. split; [by etransitivity|]. auto.
Qed.
Lemma quiet_same s s' : vm s' = vm s → procs s' = procs s → quiet o s s'.
Proof. intros Hv Hp. split; [done|]. rewrite Hp. split; [done|]. intros k p Hk. by exists p. Qed.

Lemma quiet_slot_back s s' k p' : quiet o s s' → procs s' !! k = Some p' → ∃ p, procs s !! k = Some p ∧ same_use p p'.
Proof.
  intros (_ & El & H) Hp'. destruct (lookup_lt_is_Some_2 (procs s) k) as [p Hp].
  { rewrite <- El. by eapply lookup_lt_Some. }
  destruct (H k p Hp) as (p1 & Hp1 & Hu & _). exists p. by simplify_eq.
Qed.
Lemma kernel_inv_quiet Pool s s' Ts : quiet o s s' → kernel_inv Pool s Ts → kernel_inv Pool s' Ts.
Proof.
  intros Q [I Hu Hn]. pose proof (λ k p', quiet_slot_back s s' k p' Q) as Hb. destruct Q as (Hv & El & H). constructor.
  - rewrite Hv. eapply space_inv_fields; [|exact I]. apply Forall2_same_length_lookup. split; [done|].
    intros k p p' Hp Hp'. destruct (H k p Hp) as (p1 & Hp1 & [? _] & _). by simplify_eq.
  - intros i p' Hp Hst. destruct (Hb i p' Hp) as (p & Hp0 & (E & _) & Eu). rewrite E. apply (Hu i p Hp0). tauto.
  - intros i p' Hp Hst. destruct (Hb i p' Hp) as (p & Hp0 & (E1 & E2 & E3 & E4) & Eu). rewrite E1, E2, E3, E4.
    apply (Hn i p Hp0). tauto.
Qed.
Lemma used_quiet i s s' : quiet o s s' → used i s → used i s'.
Proof.
  intros (_ & _ & H) (p & Hp & Hst). destruct (H i p Hp) as (p' & Hp' & (_ & E) & _).
  exists p'. split; [done|]. tauto.
Qed.
Lemma running_used me i s : running me i s → used i s.
Proof. intros (_ & p & Hp & Hst). exists p. split; [done|]. by rewrite Hst. Qed.

(** *** Composition *)
Lemma keeps_ret {A} (a : A) s : keeps o (mret a) s.
Proof. intros ? ? [= <- <-]. done. Qed.
Lemma keeps_panic {A} w s : keeps o (panic w : M kst A) s.
Proof. done. Qed.
Lemma keeps_emit e s : keeps o (emit e) s.
Proof. intros ? ? [= <- <-]. by apply quiet_same. Qed.
Lemma keeps_acquire l s : keeps o (acquire l) s.
Proof. apply keeps_emit. Qed.
Lemma keeps_release l s : keeps o (release l) s.
Proof. apply keeps_emit. Qed.
Lemma keeps_gets {A} (f : kst → A) s : keeps o (gets f) s.
Proof. intros ? ? [= <- <-]. done. Qed.
Lemma keeps_bind {A B} (c : M kst A) (k : A → M kst B) s :
  keeps o c s → (∀ a s', c s = Done a s' → quiet o s s' → keeps o (k a) s') → keeps o (c ≫= k) s.
Proof.
  intros Hc Hk b s' E. apply bind_Done_inv in E as (a & s1 & E1 & E2).
  pose proof (Hc _ _ E1) as Hq. etransitivity; [exact Hq|]. by eapply Hk.
Qed.
Lemma keeps_gets_bind {A B} (f : kst → A) (k : A → M kst B) s : keeps o (k (f s)) s → keeps o (gets f ≫= k) s.
Proof. intros H. apply keeps_bind; [apply keeps_gets|]. by intros a s' [= <- <-] _. Qed.
Lemma keeps_getp_bind {B} i (k : proc → M kst B) s :
  (∀ p, procs s !! i = Some p → keeps o (k p) s) → keeps o (getp i ≫= k) s.
Proof.
  intros H b s' E. apply bind_Done_inv in E as (p & s1 & E1 & E2). unfold getp in E1.
  destruct (procs s !! i) as [p'|] eqn:Hp; [|done]. injection E1 as <- <-. by eapply H.
Qed.
Lemma keeps_updp i f s : (∀ p, procs s !! i = Some p → same_use p (f p) ∧ (o ≠ Some i → state (f p) = ZOMBIE → state p = ZOMBIE)) →
  keeps o (updp i f) s.
Proof.
  intros Hf ? ? [= <- <-]. split; [done|]. cbn [procs set_procs]. split; [by rewrite length_alter|].
  intros j p Hp. destruct (decide (i = j)) as [<-|Hne].
  - exists (f p). rewrite list_lookup_alter_eq, Hp. destruct (Hf p Hp). by split_and!.
  - exists p. by rewrite list_lookup_alter_ne.
Qed.
Lemma keeps_field i f s : (∀ p, same_space p (f p) ∧ state (f p) = state p) → keeps o (updp i f) s.
Proof. intros Hf. apply keeps_updp. intros p _. destruct (Hf p) as [? E]. unfold same_use. by rewrite E. Qed.
Lemma keeps_rest f s : vm (f s) = vm s → procs (f s) = procs s → keeps o (modify f) s.
Proof. intros Hv Hp ? ? [= <- <-]. by apply quiet_same. Qed.
Lemma keeps_curproc me s : keeps o (curproc me) s.
Proof.
  unfold curproc, myproc. apply keeps_gets_bind. case_match; [apply keeps_ret|apply keeps_panic].
Qed.
Lemma keeps_set_state i st s : used i s → st ≠ UNUSED → st ≠ ZOMBIE ∨ o = Some i → keeps o (updp i (set_state st)) s.
Proof.
  intros (p & Hp & Hst) Hn Hz. apply keeps_updp. intros q Hq. simplify_eq. split; [|cbn; tauto].
  split; [done|]. cbn. tauto.
Qed.
Lemma keeps_quiet_bind {A B} (c : M kst A) (k : A → M kst B) s :
  keeps o c s → (∀ a s', quiet o s s' → keeps o (k a) s') → keeps o (c ≫= k) s.
Proof. intros Hc Hk. apply keeps_bind; [done|]. auto. Qed.
End keeps.

#[export] Hint Resolve keeps_ret keeps_panic keeps_emit keeps_acquire keeps_release keeps_gets keeps_curproc : keeps.
(** One step of a composition. *)
Ltac keeps_step :=
  first
    [ solve [auto with keeps]
    | apply keeps_gets_bind
    | apply keeps_getp_bind; intros ? ?
    | apply keeps_quiet_bind; [|intros ? ? ?]
    | apply keeps_rest; done
    | apply keeps_field; by intros
    | case_match
    | case_bool_decide ].
Ltac keeps := repeat keeps_step.

Section quiet_ops.
Context {R : Riscv} {L : Allocator} {KL : Layout} {PE : ProcExt}.
Context (o : option nat).
Implicit Types (p : proc) (s : kst).

(** *** The operations *)
Lemma wakeup_loop_keeps self c n i s : keeps o (wakeup_loop self c n i) s.
Proof.
  revert i s. induction n as [|n IH]; intros i s; cbn [wakeup_loop]; [apply keeps_ret|].
  apply keeps_quiet_bind; [|intros; apply IH]. case_bool_decide; [apply keeps_ret|].
  apply keeps_quiet_bind; [apply keeps_emit|]. intros _ s1 _. apply keeps_getp_bind. intros p Hp.
  apply keeps_quiet_bind; [|intros; apply keeps_emit].
  case_bool_decide as Hc; [|apply keeps_ret]. apply keeps_set_state; [|done|by left]. exists p. split; [done|]. by rewrite (proj1 Hc).
Qed.
Lemma wakeup_keeps me c s : keeps o (wakeup me c) s.
Proof. unfold wakeup, myproc. do 2 apply keeps_gets_bind. apply wakeup_loop_keeps. Qed.
Lemma reparent_keeps me i s : keeps o (reparent me i) s.
Proof.
  unfold reparent. apply keeps_gets_bind. generalize (length (procs s)), 0%nat. intros n. revert s.
  induction n as [|n IH]; intros s j; cbn [reparent_loop]; [apply keeps_ret|].
  apply keeps_getp_bind. intros p Hp. apply keeps_quiet_bind; [|intros; apply IH].
  case_bool_decide; [|apply keeps_ret]. apply keeps_gets_bind.
  apply keeps_quiet_bind; [by apply keeps_field|]. intros. apply wakeup_keeps.
Qed.
Lemma sched_keeps me h intr s : keeps o (sched me h intr) s.
Proof. unfold sched. keeps. Qed.
Lemma sched_resume_keeps me ie s : keeps o (sched_resume me ie) s.
Proof. by apply keeps_rest. Qed.
Lemma kill_keeps n s : keeps o (kill n) s.
Proof.
  unfold kill. apply keeps_gets_bind.
  generalize (procs s), 0%nat. intros ps. revert s. induction ps as [|p ps IH]; intros s i; cbn [kill_loop]; [apply keeps_ret|].
  apply keeps_quiet_bind; [apply keeps_acquire|]. intros _ s2 _. case_match.
  - apply keeps_quiet_bind; [|intros; keeps]. apply keeps_updp. intros q _. unfold mark_killed.
    case_bool_decide as Hs; cbn in Hs; [|by repeat split]. repeat split; cbn; rewrite ?Hs; done.
  - apply keeps_quiet_bind; [apply keeps_release|]. intros. apply IH.
Qed.
Lemma setkilled_keeps i s : keeps o (setkilled i) s.
Proof. unfold setkilled, acquire, release. keeps. Qed.
Lemma close_files_keeps i fs fd s : keeps o (close_files i fs fd) s.
Proof.
  revert fd s. induction fs as [|f fs IH]; intros fd s; cbn [close_files]; [apply keeps_ret|].
  apply keeps_quiet_bind; [|intros; apply IH]. keeps.
Qed.

(** The calls of the current process. *)
Lemma curproc_bind {A} me i (k : nat → M kst A) s : cpu_proc <$> cpus s !! me = Some (Some i) →
  keeps o (k i) s → keeps o (curproc me ≫= k) s.
Proof.
  intros Hc Hk. apply keeps_bind; [apply keeps_curproc|]. intros a s' E _. unfold curproc, myproc in E.
  apply bind_Done_inv in E as (c0 & s1 & [= <- <-] & E). destruct (cpus s !! me) as [c|]; [|done].
  cbn in Hc, E. injection Hc as E1. rewrite E1 in E. injection E as <- <-. done.
Qed.
Lemma sleep_enter_keeps me i c lk intr s : running me i s → keeps o (sleep_enter me c lk intr) s.
Proof.
  intros H. unfold sleep_enter. apply (curproc_bind me i); [apply H|]. apply running_used in H.
  unfold acquire, release. do 2 (apply keeps_quiet_bind; [apply keeps_emit|intros ? ? ?]).
  apply keeps_quiet_bind; [by apply keeps_field|intros ? ? ?].
  apply keeps_quiet_bind; [|intros; apply sched_keeps]. apply keeps_set_state; [|done|by left].
  repeat (eapply used_quiet; [eassumption|]). done.
Qed.
Lemma sleep_leave_keeps me ie i lk s : keeps o (sleep_leave me ie i lk) s.
Proof. unfold sleep_leave, release, acquire, sched_resume. keeps. Qed.
Lemma yield_enter_keeps me i intr s : running me i s → keeps o (yield_enter me intr) s.
Proof.
  intros H. unfold yield_enter. apply (curproc_bind me i); [apply H|]. apply running_used in H.
  unfold acquire. apply keeps_quiet_bind; [apply keeps_emit|intros ? ? ?].
  apply keeps_quiet_bind; [|intros; apply sched_keeps]. apply keeps_set_state; [|done|by left]. by eapply used_quiet.
Qed.
Lemma yield_leave_keeps me ie i s : keeps o (yield_leave me ie i) s.
Proof. unfold yield_leave, release, sched_resume. keeps. Qed.
Lemma forkret_keeps me s : keeps o (forkret me) s.
Proof. unfold forkret, release. keeps. Qed.
Lemma scheduler_enter_keeps me i s : keeps o (scheduler_enter me i) s.
Proof.
  unfold scheduler_enter, acquire. apply keeps_quiet_bind; [apply keeps_emit|intros _ s1 _].
  apply keeps_getp_bind. intros p Hp. case_bool_decide as Hst; [|apply keeps_ret].
  apply keeps_quiet_bind; [|intros; unfold set_cpu_proc; keeps].
  apply keeps_set_state; [|done|by left]. exists p. by rewrite Hst.
Qed.
Lemma scheduler_leave_keeps me i b s : keeps o (scheduler_leave me i b) s.
Proof. unfold scheduler_leave, release, set_cpu_proc. keeps. Qed.

(** exit: only the caller becomes a zombie. *)
Lemma exit_close_keeps me s : keeps o (exit_close me) s.
Proof.
  unfold exit_close. apply keeps_quiet_bind; [apply keeps_curproc|intros i s1 _]. apply keeps_gets_bind.
  case_bool_decide; [apply keeps_panic|]. apply keeps_getp_bind. intros p _.
  apply keeps_quiet_bind; [apply close_files_keeps|intros]. keeps.
Qed.
Lemma exit_locked_keeps me i status s : running me i s → o = Some i → keeps o (exit_locked me status) s.
Proof.
  intros H Ho. unfold exit_locked. apply (curproc_bind me i); [apply H|]. apply running_used in H.
  apply keeps_quiet_bind; [apply keeps_acquire|intros _ s1 Q1].
  apply keeps_quiet_bind; [apply reparent_keeps|intros _ s2 Q2]. apply keeps_getp_bind. intros p _.
  apply keeps_quiet_bind; [apply wakeup_keeps|intros _ s3 Q3].
  apply keeps_quiet_bind; [apply keeps_acquire|intros _ s4 Q4].
  apply keeps_quiet_bind; [by apply keeps_field|intros _ s5 Q5].
  apply keeps_quiet_bind; [|intros; apply keeps_release].
  apply keeps_set_state; [|done|by right]. repeat (eapply used_quiet; [eassumption|]). done.
Qed.
Lemma is_killed_keeps i s : keeps o (is_killed i) s.
Proof. unfold is_killed. keeps. Qed.
End quiet_ops.
