(* ===== verification/RiscvMem.v ===== *)
(** The memory of the kernel in every reachable state (Lab3): the operations of
    proc.c as steps, each keeping the division of the pages, and each leaving
    the memory of the other processes alone. *)
From stdpp Require Import functions relations.
From S2P Require Import Prelude Riscv Vm PageTable Mappings AddrSpace UserCopy FreeWalk UvmCopy.
From S2P Require Import RiscvProc RiscvSpace RiscvSlot RiscvAlloc RiscvFork RiscvQuiet.

(** ** Definitions *)
Section defs.
Context {R : Riscv} {L : Allocator} {KL : Layout} {PE : ProcExt}.

(** The kernel buffer [a, a+n) lies off the pages that are divided. *)
Definition off_pool (Pool : Z → Prop) (a n : Z) : Prop :=
  ∀ x q, a <= x < a + n → Pool q ∨ q = trampoline → ¬ in_page q x.

(** A step of process [o] leaves the other live processes alone: the address
    space, the contents of user memory, trap frame and usyscall page. *)
Definition isolates (o : option nat) (s s' : kst) : Prop := ∀ k p, o ≠ Some k → procs s !! k = Some p →
  state p ≠ UNUSED → state p ≠ ZOMBIE → ∃ p', procs s' !! k = Some p' ∧ same_space p p'
    ∧ state p' ≠ UNUSED ∧ state p' ≠ ZOMBIE
    ∧ same_user (vm s) (pagetable p) (vm s') (pagetable p) (sz p)
    ∧ ∀ x, in_page (trapframe p) x ∨ in_page (usyscall p) x → vmem (vm s') x = vmem (vm s) x.
End defs.

Section isolation.
Context {R : Riscv} {L : Allocator} {KL : Layout} {PE : ProcExt}.
Context {RL : RiscvLaws R} {AL : AllocatorLaws L} {PL : ProcLaws PE}.
Implicit Types (v : vst) (T : tables) (p : proc) (s : kst).

(** ** Lemmas: isolation *)

Lemma same_user_trans v1 r1 v2 r2 v3 r3 n : same_user v1 r1 v2 r2 n → same_user v2 r2 v3 r3 n → same_user v1 r1 v3 r3 n.
Proof using.
  intros H1 H2 va Hva. destruct (H1 va Hva) as [F1 B1], (H2 va Hva) as [F2 B2]. split; [congruence|].
  intros off Hoff. by rewrite B2, B1.
Qed.
Lemma isolates_trans o s s1 s2 : isolates o s s1 → isolates o s1 s2 → isolates o s s2.
Proof using.
  intros H1 H2 k p Ho Hp Hu Hz. destruct (H1 k p Ho Hp Hu Hz) as (p1 & Hp1 & (E1 & E2 & E3 & E4) & Hu1 & Hz1 & U1 & B1).
  destruct (H2 k p1 Ho Hp1 Hu1 Hz1) as (p2 & Hp2 & (F1 & F2 & F3 & F4) & Hu2 & Hz2 & U2 & B2).
  exists p2. rewrite E1, E2, E3, E4 in *. split_and!; try done.
  - by eapply same_user_trans.
  - intros x Hx. by rewrite B2, B1.
Qed.
Lemma isolates_quiet o s s' : quiet o s s' → isolates o s s'.
Proof using.
  intros (Hv & _ & H) k p Ho Hp Hu Hz. destruct (H k p Hp) as (p' & Hp' & [Hs Hu'] & Hz'). exists p'.
  split_and!; try done; [tauto|by intros ?%Hz'| |]; rewrite Hv; [by intros va Hva|done].
Qed.

(** The other slots of a kernel in order. *)
Lemma kept_slot Pool s s' Ts k p : kernel_inv Pool s Ts → procs s !! k = Some p → state p ≠ UNUSED →
  (∀ q x, slot_pages (vm s) p (Ts k) q → in_page q x → vmem (vm s') x = vmem (vm s) x) →
  same_user (vm s) (pagetable p) (vm s') (pagetable p) (sz p)
  ∧ ∀ x, in_page (trapframe p) x ∨ in_page (usyscall p) x → vmem (vm s') x = vmem (vm s) x.
Proof using PL RL.
  intros I Hp Hu Hm. pose proof (si_slot _ _ _ _ (ki_space _ _ _ I) k p Hp) as S. pose proof (ki_used _ _ _ I k p Hp Hu) as Hpt.
  destruct (so_space _ _ _ S Hpt) as (Ht & Hus & _). split.
  - eapply same_user_old; [exact S|done|exact Hm|]. by intros va Hva.
  - intros x [Hx|Hx]; (eapply Hm; [|exact Hx]); split; auto.
Qed.
Lemma isolates_kept Pool o i s s' Ts : kernel_inv Pool s Ts → others_kept i s s' Ts →
  (∀ p, procs s !! i = Some p → o = Some i ∨ state p = UNUSED ∨ state p = ZOMBIE) →
  (∀ k p, k ≠ i → procs s !! k = Some p → state p ≠ UNUSED → procs s' !! k = Some p) → isolates o s s'.
Proof using PL RL.
  intros I Hk Hi Hp k p Ho Hkp Hu Hz.
  assert (Hki : k ≠ i) by (intros ->; destruct (Hi p Hkp) as [?|[?|?]]; done).
  exists p. split; [by apply Hp|]. split; [done|]. split; [done|]. split; [done|].
  apply (kept_slot Pool s s' Ts k p I Hkp Hu). intros q x Hq Hx. apply Hk. by exists k, p, q.
Qed.
Lemma isolates_on_slot Pool o i s s' Ts p T : kernel_inv Pool s Ts → on_slot Pool s Ts i s' p T →
  (∀ p, procs s !! i = Some p → o = Some i ∨ state p = UNUSED ∨ state p = ZOMBIE) → isolates o s s'.
Proof using PL RL.
  intros I K Hi. apply (isolates_kept Pool o i s s' Ts I (os_kept _ _ _ _ _ _ _ K) Hi).
  intros k q Hk Hq _. by rewrite (os_procs _ _ _ _ _ _ _ K), list_lookup_insert_ne.
Qed.
Lemma isolates_not_allocated Pool o s s' Ts : kernel_inv Pool s Ts → not_allocated Pool s Ts s' → isolates o s s'.
Proof using PL RL.
  intros I (_ & _ & (i & Hk & Hun) & Hp). apply (isolates_kept Pool o i s s' Ts I Hk); [auto|].
  intros k p _ Hkp Hu. by apply Hp.
Qed.

(** ** Lemmas: copies between a process and the kernel *)

Lemma start_slot Pool s Ts i p : kernel_inv Pool s Ts → procs s !! i = Some p → on_slot Pool s Ts i s p (Ts i).
Proof using. intros I Hi. by apply on_slot_start; [apply I|..]. Qed.

Lemma slot_pool Pool s0 Ts i s p T q : on_slot Pool s0 Ts i s p T → slot_pages (vm s) p T q → Pool q.
Proof using.
  intros K Hq. apply (si_pool _ _ _ _ (os_inv _ _ _ _ _ _ _ K) q). right. exists i, p.
  rewrite fn_lookup_insert. split; [by eapply on_slot_lookup|done].
Qed.

Lemma set_vm_mem v' s : alloc v' = alloc (vm s) → set_vm v' s = set_vm (set_vmem (vmem v') (vm s)) s.
Proof using. intros E. unfold set_vmem. rewrite <- E. by destruct v'. Qed.

(** A write to kernel memory. *)
Lemma on_slot_kernel Pool s0 Ts i s p T m' : on_slot Pool s0 Ts i s p T →
  (∀ q x, Pool q → in_page q x → m' x = vmem (vm s) x) →
  on_slot Pool s0 Ts i (set_vm (set_vmem m' (vm s)) s) p T.
Proof using AL PL RL. intros K Hm. apply on_slot_write; [done|]. intros q x Hq Hx _. by eapply Hm. Qed.

(** What the user can read or write lies in pages of the slot, off the tables. *)
Lemma ubyte_page v p T va : slot_ok v p T → pagetable p ≠ 0 → is_Some (ubyte (vmem v) (pagetable p) va) →
  slot_pages v p T (PTE2PA (entry (vmem v) (pagetable p) va)) ∧ PTE2PA (entry (vmem v) (pagetable p) va) ∉ dom T.
Proof using PL RL.
  intros S Hp Hub. destruct (so_space _ _ _ S Hp) as (Ht & Hu & Sp). pose proof (ubyte_leaf _ _ _ Hub) as Hlf.
  destruct top_perms as ([P1 Q1] & [P2 Q2] & [P3 Q3]).
  assert (Hpg : ∀ q', slot_pages v p T q' → is_page q') by (intros q' Hq'; apply (so_page _ _ _ S q' Hq')).
  assert (Pt : slot_pages v p T (trapframe p)) by (split; auto).
  assert (Pu : slot_pages v p T (usyscall p)) by (split; auto).
  destruct Hub as [b Hub]. rewrite ubyte_some in Hub by apply Hlf.
  destruct (proc_space_leaf _ _ _ _ _ _ _ _ Sp (Hpg _ Pt) (Hpg _ Pu) Hlf) as [[Hva _]|[[Hva ->]|[[Hva _]|[Hva _]]]].
  - assert (Hup : user_page v (pagetable p) (sz p) (PTE2PA (entry (vmem v) (pagetable p) va))) by by exists va.
    split; [split; [apply (slot_page_nz _ p T _ S Hp)|]; auto|]. by apply (sp_pages _ _ _ _ _ _ Sp).
  - split; [done|]. by apply (so_top _ _ _ S _ Hu (or_intror eq_refl)).
  - exfalso. rewrite (sp_tf _ _ _ _ _ _ Sp) in Hub by done. destruct (has (tf_pte _) PTE_V); [|done].
    unfold has, tf_pte in Hub. rewrite mk_pte_bits in Hub; [|by apply Hpg|done|by rewrite pte_u_bit].
    by rewrite pte_r_bit, pte_w_bit, pte_u_bit in Hub.
  - exfalso. rewrite (sp_tramp _ _ _ _ _ _ Sp) in Hub by done. destruct (has tramp_pte PTE_V); [|done].
    unfold has, tramp_pte in Hub. rewrite mk_pte_bits in Hub; [|apply trampoline_page|done|by rewrite pte_u_bit].
    by rewrite pte_r_bit, pte_x_bit, pte_u_bit in Hub.
Qed.

Lemma copyout_slot_wp Pool s0 Ts i s p T addr src len : on_slot Pool s0 Ts i s p T → pagetable p ≠ 0 →
  0 <= addr < 2 ^ 64 → 0 <= len → off_pool Pool src len →
  wp (vmop (copyout (pagetable p) addr src len)) (λ r s', ∃ v' k, s' = set_vm v' s
    ∧ on_slot Pool s0 Ts i s' p T ∧ 0 <= k <= len ∧ (r = 0 ∧ k = len ∨ r = -1 ∧ k < len)
    ∧ copied_out (vm s) T (pagetable p) addr src k v') s.
Proof using AL PL RL.
  intros K Hp Haddr Hlen Hoff. pose proof (on_slot_ok _ _ _ _ _ _ _ K) as S.
  assert (Htr : trampoline ∉ free (alloc (vm s))) by apply (os_inv _ _ _ _ _ _ _ K).
  destruct (proc_space_as _ _ _ S Hp Htr) as [Ia Hl]. destruct (so_space _ _ _ S Hp) as (Ht & Hu & Sp).
  assert (Hs : ∀ va q, leaf (vm s) (pagetable p) va q → Pool q ∨ q = trampoline).
  { intros va q Hq. destruct (Hl va q Hq); [by right|left]. by eapply slot_pool. }
  apply wp_vmop. eapply wp_mono; [apply (copyout_wp _ addr src len (vm s) T Ia Haddr Hlen)|].
  { intros x Hx va q Hq. by eapply Hoff, Hs. }
  intros r v' (k & Hk & Hr & C). exists v', k. split; [done|]. split; [|split; [done|split; [tauto|done]]].
  rewrite (set_vm_mem v' s (co_alloc _ _ _ _ _ _ _ C)).
  apply on_slot_write; [done|]. intros q x Hq Hx Hno. apply (co_rest _ _ _ _ _ _ _ C). intros va Hub.
  destruct (ubyte_page _ p T va S Hp Hub). by apply Hno.
Qed.

Lemma copyin_slot_wp Pool s0 Ts i s p T dst addr len : on_slot Pool s0 Ts i s p T → pagetable p ≠ 0 →
  0 <= addr < 2 ^ 64 → 0 <= len → off_pool Pool dst len →
  wp (vmop (copyin (pagetable p) dst addr len)) (λ r s', ∃ v' k, s' = set_vm v' s
    ∧ on_slot Pool s0 Ts i s' p T ∧ 0 <= k <= len ∧ (r = 0 ∧ k = len ∨ r = -1 ∧ k < len)
    ∧ copied_in (vm s) T (pagetable p) dst addr k v') s.
Proof using AL PL RL.
  intros K Hp Haddr Hlen Hoff. pose proof (on_slot_ok _ _ _ _ _ _ _ K) as S.
  assert (Htr : trampoline ∉ free (alloc (vm s))) by apply (os_inv _ _ _ _ _ _ _ K).
  destruct (proc_space_as _ _ _ S Hp Htr) as [Ia Hl].
  apply wp_vmop. eapply wp_mono; [apply (copyin_wp _ dst addr len (vm s) T Ia Haddr Hlen)|].
  { intros x Hx va q Hq. apply Hoff; [done|]. destruct (Hl va q Hq); [by right|left]. by eapply slot_pool. }
  { intros x Hx q Hq. apply Hoff; [done|]. left. eapply slot_pool; [exact K|]. split; [apply (slot_page_nz _ p T q S Hp)|]; auto. }
  intros r v' (k & Hk & Hr & C). exists v', k. split; [done|]. split; [|split; [done|split; [tauto|done]]].
  rewrite (set_vm_mem v' s (ci_alloc _ _ _ _ _ _ _ C)).
  apply on_slot_kernel; [done|]. intros q x Hq Hx. apply (ci_rest _ _ _ _ _ _ _ C).
  destruct (decide (dst <= x < dst + k)); [|lia]. exfalso. eapply (Hoff x q); [lia|by left|done].
Qed.

(** ** Lemmas: wait *)

Lemma on_slot_inv_same Pool s Ts i s' p p0 : kernel_inv Pool s Ts → procs s !! i = Some p0 → state p0 ≠ UNUSED →
  on_slot Pool s Ts i s' p (Ts i) → same_use p0 p → kernel_inv Pool s' Ts.
Proof using.
  intros I Hi Hst K [(E & _) Eu]. assert (I' : kernel_inv Pool s' (<[i := Ts i]> Ts)).
  { apply (on_slot_inv Pool s Ts i s' p (Ts i) I K); [tauto|]. rewrite E. by apply (ki_used _ _ _ I i p0). }
  destruct I' as [A B C]. constructor; [|done|done]. eapply space_inv_tables; [|exact A]. intros j.
  destruct (decide (j = i)) as [->|?]; [by rewrite fn_lookup_insert|by rewrite fn_lookup_insert_ne].
Qed.

Lemma freeproc_inv Pool s Ts j p : kernel_inv Pool s Ts → procs s !! j = Some p →
  wp (freeproc j) (λ _ s', ∃ v', s' = set_procs (<[j := free_slot p]> (procs s)) (set_vm v' s)
    ∧ kernel_inv Pool s' (<[j := ∅]> Ts) ∧ others_kept j s s' Ts
    ∧ ∀ q, q ∈ free (alloc v') ↔ q ∈ free (alloc (vm s)) ∨ slot_pages (vm s) p (Ts j) q) s.
Proof using AL PL RL.
  intros I Hj. eapply wp_mono; [apply (freeproc_wp Pool j p s Ts (ki_space _ _ _ I) Hj)|].
  intros [] s' (v' & -> & I' & Hk & Hf). exists v'. split; [done|]. split; [|by split].
  assert (Hlook : ∀ k pk, <[j := free_slot p]> (procs s) !! k = Some pk → k = j ∧ pk = free_slot p ∨ procs s !! k = Some pk).
  { intros k pk. destruct (decide (k = j)) as [->|?].
    - rewrite list_lookup_insert_eq by by eapply lookup_lt_Some. intros [= <-]. by left.
    - rewrite list_lookup_insert_ne by done. by right. }
  constructor; [done|..]; intros k pk Hpk Hst; destruct (Hlook k pk Hpk) as [[-> ->]|Hk']; try done.
  - by eapply ki_used.
  - by eapply ki_unused.
Qed.

(** Bytes the user reads, after a change elsewhere. *)
Lemma ubyte_kept v v' p T va : slot_ok v p T → pagetable p ≠ 0 →
  (∀ q x, slot_pages v p T q → in_page q x → vmem v' x = vmem v x) →
  ubyte (vmem v') (pagetable p) va = ubyte (vmem v) (pagetable p) va.
Proof using PL RL.
  intros S Hp Hm. destruct (so_space _ _ _ S Hp) as (_ & _ & Sp).
  destruct (sp_pt _ _ _ _ _ _ Sp) as [I1 _]. destruct (table_frame (vmem v) (vmem v') _ _ I1) as [_ He].
  { intros q x Hq. apply Hm. split; [apply (slot_page_nz v p T q S Hp)|]; auto. }
  destruct (decide (0 <= va < MAXVA)) as [Hva|?]; [|by rewrite !ubyte_out by lia].
  pose proof (ubyte_page v p T va S Hp) as Hpg. rewrite !ubyte_some, (He va Hva) in * by done.
  destruct (_ && _); [|done]. f_equal. destruct Hpg as [Hq _]; [by eexists|].
  apply (Hm _ _ Hq). unfold in_page. pose proof (Z.mod_pos_bound va 4096). lia.
Qed.

(** The exit status [x] lies at [addr] in the memory of [p]. *)
Definition status_at (v : vst) (root addr x : Z) : Prop :=
  ∀ m, 0 <= m < 4 → ubyte (vmem v) root (addr + m) = Some (Zbyte (x / 256 ^ m)).

(** The user's bytes are the same but for those of the status. *)
Definition bytes_off (addr : Z) (v v' : vst) (root : Z) : Prop :=
  ∀ va, addr = 0 ∨ ¬ addr <= va < addr + 4 → ubyte (vmem v') root va = ubyte (vmem v) root va.

(** copyout of the exit status, from its field in slot [j]. *)
Lemma reap_status_wp Pool s Ts i j pi addr x : kernel_inv Pool s Ts → procs s !! i = Some pi → state pi ≠ UNUSED →
  0 <= addr < 2 ^ 64 → off_pool Pool (xstate_addr j) 4 →
  wp (if addr =? 0 then mret 0 else
        vmop (modify (λ v, set_vmem (store 4 (vmem v) (xstate_addr j) x) v));;
        vmop (copyout (pagetable pi) addr (xstate_addr j) 4))
    (λ r s', on_slot Pool s Ts i s' pi (Ts i) ∧ (∃ v', s' = set_vm v' s) ∧ alloc (vm s') = alloc (vm s)
       ∧ (r = 0 ∧ (addr ≠ 0 → status_at (vm s') (pagetable pi) addr x) ∨ r = -1 ∧ addr ≠ 0)
       ∧ bytes_off addr (vm s) (vm s') (pagetable pi)) s.
Proof using AL PL RL.
  intros I Hi Hst Haddr Hoff. pose proof (start_slot _ _ _ _ _ I Hi) as K. pose proof (ki_used _ _ _ I i pi Hi Hst) as Hp.
  destruct (Z.eqb_spec addr 0) as [->|Hne].
  { apply wp_ret. split; [done|]. split; [exists (vm s); by destruct s|]. split; [done|]. split; [by left|]. by intros va _. }
  apply wp_bind, wp_vmop, wp_modify.
  assert (K1 := on_slot_kernel _ _ _ _ _ _ _ (store 4 (vmem (vm s)) (xstate_addr j) x) K).
  eapply wp_mono; [eapply (copyout_slot_wp Pool s Ts i); [apply K1|done|done|done|done]|].
  { intros q y Hq Hy. unfold store. destruct (Z.leb_spec (xstate_addr j) y), (Z.ltb_spec y (xstate_addr j + Z.of_nat 4)); try done.
    exfalso. eapply (Hoff y q); [lia|by left|done]. }
  intros r s' (v' & k & -> & K2 & Hk & Hr & C). split; [done|]. split; [by exists v'|].
  split; [apply (co_alloc _ _ _ _ _ _ _ C)|]. split.
  2:{ intros va Hva. cbn [vm set_vm]. rewrite (co_user _ _ _ _ _ _ _ C).
    replace ((addr <=? va) && (va <? addr + k)) with false by (symmetry; zcases; (done || lia)).
    apply (ubyte_kept (vm s) _ pi (Ts i)); [by apply (si_slot _ _ _ _ (ki_space _ _ _ I) i pi Hi)|done|].
    intros q y Hq Hy. cbn [vmem set_vmem set_vm vm]. apply store_other.
    destruct (decide (xstate_addr j <= y < xstate_addr j + 4)); [|lia]. exfalso.
    eapply (Hoff y q); [done|left|done]. by eapply (slot_pool Pool s Ts i s pi (Ts i)). }
  destruct Hr as [[-> ->]|[-> ?]]; [left|by right]. split; [done|]. intros _ m Hm.
  cbn [vm set_vm]. rewrite (co_user _ _ _ _ _ _ _ C), (proj2 (Z.leb_le _ _)), (proj2 (Z.ltb_lt _ _)) by lia. cbn [andb].
  f_equal. replace (xstate_addr j + (addr + m - addr)) with (xstate_addr j + m) by lia.
  cbn [vm set_vm vmem set_vmem]. unfold store.
  rewrite (proj2 (Z.leb_le _ _)), (proj2 (Z.ltb_lt _ _)) by lia. cbn [andb]. do 3 f_equal. lia.
Qed.

Lemma wait_reap_wp Pool s Ts i j pi pp addr : kernel_inv Pool s Ts →
  procs s !! i = Some pi → state pi ≠ UNUSED → procs s !! j = Some pp → i ≠ j →
  0 <= addr < 2 ^ 64 → off_pool Pool (xstate_addr j) 4 →
  wp (wait_reap i j addr) (λ r s', bytes_off addr (vm s) (vm s') (pagetable pi) ∧
   (r = -1 ∧ addr ≠ 0 ∧ kernel_inv Pool s' Ts ∧ procs s' = procs s ∧ others_kept i s s' Ts
    ∨ r = pid pp ∧ kernel_inv Pool s' (<[j := ∅]> Ts) ∧ procs s' = <[j := free_slot pp]> (procs s)
      ∧ (addr ≠ 0 → status_at (vm s') (pagetable pi) addr (xstate pp))
      ∧ (∀ q, q ∈ free (alloc (vm s')) ↔ q ∈ free (alloc (vm s)) ∨ slot_pages (vm s) pp (Ts j) q)
      ∧ ∀ k pk q x, k ≠ i → k ≠ j → procs s !! k = Some pk → slot_pages (vm s) pk (Ts k) q → in_page q x →
          vmem (vm s') x = vmem (vm s) x)) s.
Proof using AL PL RL.
  intros I Hi Hst Hj Hij Haddr Hoff. pose proof (ki_used _ _ _ I i pi Hi Hst) as Hp.
  unfold wait_reap. apply wp_bind, (wp_getp i pi); [done|]. apply wp_bind, (wp_getp j pp); [done|].
  wp_seq (reap_status_wp Pool s Ts i j pi addr (xstate pp) I Hi Hst Haddr Hoff).
  intros r s1 (K & [v' ->] & Ha & Hr & Hb). cbn [vm set_vm] in Hb.
  assert (I1 : kernel_inv Pool (set_vm v' s) Ts) by (by apply (on_slot_inv_same Pool s Ts i _ pi pi)).
  destruct Hr as [[-> Hstat]|[-> Hne]].
  2:{ change (-1 <? 0) with true. cbn iota. apply wp_bind, wp_emit, wp_bind, wp_emit, wp_ret. split; [exact Hb|]. left.
      split_and!; [done|done| |done|]; [by apply (kernel_inv_rest _ (set_vm v' s))|]. apply K. }
  change (0 <? 0) with false. cbn iota.
  wp_seq (freeproc_inv Pool (set_vm v' s) Ts j pp I1 Hj). intros [] s2 (v2 & -> & I2 & Hk2 & Hf2).
  assert (Hkept : ∀ va, ubyte (vmem v2) (pagetable pi) va = ubyte (vmem v') (pagetable pi) va).
  { intros va. apply (ubyte_kept v' v2 pi (Ts i)); [by apply (si_slot _ _ _ _ (ki_space _ _ _ I1) i pi Hi)|done|].
    intros q x Hq Hx. apply (Hk2 x). by exists i, pi, q. }
  apply wp_bind, wp_emit, wp_bind, wp_emit, wp_ret. split.
  { intros va Hva. cbn [vm set_vm set_trace set_procs]. rewrite Hkept. by apply Hb. }
  right. split; [done|].
  split; [refine (kernel_inv_rest _ _ _ _ _ _ I2); done|]. split; [done|].
  pose proof (λ k pk q Hk, os_same _ _ _ _ _ _ _ K k pk q Hk) as Hsame. cbn [vm set_vm] in Hsame, Hf2, Ha.
  split; [|split].
  - intros Hne m Hm. rewrite <- (Hstat Hne m Hm). apply Hkept.
  - intros q. rewrite <- (Hsame j pp q) by done. cbn [vm set_vm set_trace set_procs]. by rewrite Hf2, Ha.
  - intros k pk q x Hki Hkj Hpk Hq Hx. cbn [vm set_vm set_trace set_procs]. etransitivity.
    + apply (Hk2 x). exists k, pk, q. split; [done|]. split; [done|]. split; [|done]. by apply (Hsame k pk q Hki).
    + apply (os_kept _ _ _ _ _ _ _ K). by exists k, pk, q.
Qed.

(** What every step of process [o] does to the kernel's memory. *)
Definition step_ok (Pool : Z → Prop) (o : option nat) (s s' : kst) : Prop :=
  (∃ Ts', kernel_inv Pool s' Ts') ∧ isolates o s s'.

Lemma quiet_ok Pool o s s' Ts : kernel_inv Pool s Ts → quiet o s s' → step_ok Pool o s s'.
Proof using. intros I Q. split; [exists Ts; by eapply kernel_inv_quiet|by apply isolates_quiet]. Qed.
Lemma step_ok_trans Pool o s s1 s2 : step_ok Pool o s s1 → step_ok Pool o s1 s2 → step_ok Pool o s s2.
Proof using. intros [_ H1] [H2 H3]. split; [done|by eapply isolates_trans]. Qed.
Lemma keeps_ok Pool o {A} (c : M kst A) s Ts a s' : kernel_inv Pool s Ts → keeps o c s → c s = Done a s' → step_ok Pool o s s'.
Proof using. intros I Hc E. by eapply quiet_ok, Hc. Qed.

(** And what wait's steps do to the memory of its caller, in slot [i]. *)
Definition wait_ok (Pool : Z → Prop) (i : nat) (addr : Z) (s s' : kst) : Prop := step_ok Pool (Some i) s s'
  ∧ ∀ p, procs s !! i = Some p → ∃ p', procs s' !! i = Some p' ∧ same_space p p' ∧ bytes_off addr (vm s) (vm s') (pagetable p).
Lemma wait_ok_quiet Pool i addr s s' Ts : kernel_inv Pool s Ts → quiet (Some i) s s' → wait_ok Pool i addr s s'.
Proof using.
  intros I Q. split; [by eapply quiet_ok|]. intros p Hp. destruct Q as (Hv & _ & H).
  destruct (H i p Hp) as (p' & Hp' & [Hs _] & _). exists p'. split; [done|]. split; [done|]. rewrite Hv. by intros va _.
Qed.
Lemma wait_ok_trans Pool i addr s s1 s2 : wait_ok Pool i addr s s1 → wait_ok Pool i addr s1 s2 → wait_ok Pool i addr s s2.
Proof using.
  intros [H1 B1] [H2 B2]. split; [by eapply step_ok_trans|]. intros p Hp. destruct (B1 p Hp) as (p1 & Hp1 & (E1 & E2 & E3 & E4) & C1).
  destruct (B2 p1 Hp1) as (p2 & Hp2 & (F1 & F2 & F3 & F4) & C2). exists p2. split; [done|]. split; [split_and!; congruence|].
  rewrite E1 in C2. intros va Hva. by rewrite (C2 va Hva), (C1 va Hva).
Qed.

Lemma wait_reap_ok Pool s Ts i j pi pp addr r s' : kernel_inv Pool s Ts →
  procs s !! i = Some pi → state pi ≠ UNUSED → procs s !! j = Some pp → state pp = ZOMBIE → i ≠ j →
  0 <= addr < 2 ^ 64 → off_pool Pool (xstate_addr j) 4 → wait_reap i j addr s = Done r s' → wait_ok Pool i addr s s'.
Proof using AL PL RL.
  intros I Hi Hst Hj Hz Hij Haddr Hoff E.
  pose proof (wait_reap_wp Pool s Ts i j pi pp addr I Hi Hst Hj Hij Haddr Hoff) as H. unfold wp in H. rewrite E in H.
  destruct H as [Hb H]. split.
  2:{ intros p Hpi. assert (p = pi) as -> by congruence. exists pi. split; [|by split].
    destruct H as [(_ & _ & _ & -> & _)|(_ & _ & -> & _)]; [done|]. by rewrite list_lookup_insert_ne. }
  destruct H as [(_ & _ & I' & Hp & Hk)|(_ & I' & Hp & _ & _ & Hk)].
  - split; [by exists Ts|]. apply (isolates_kept Pool _ i s s' Ts I Hk); [by left|]. intros k p _ Hkp _. by rewrite Hp.
  - split; [by eexists|]. intros k p Ho Hkp Hu Hnz.
    assert (Hkj : k ≠ j) by (intros ->; by simplify_eq).
    assert (Hki : k ≠ i) by congruence.
    exists p. split; [by rewrite Hp, list_lookup_insert_ne|]. do 3 (split; [done|]).
    apply (kept_slot Pool s s' Ts k p I Hkp Hu). intros q x. by apply Hk.
Qed.

Lemma wait_scan_ok Pool i addr n j hk s Ts pi r s' : kernel_inv Pool s Ts →
  procs s !! i = Some pi → state pi ≠ UNUSED → state pi ≠ ZOMBIE → 0 <= addr < 2 ^ 64 →
  (∀ j, off_pool Pool (xstate_addr j) 4) → wait_scan i addr n j hk s = Done r s' → wait_ok Pool i addr s s'.
Proof using AL PL RL.
  intros I Hi Hst Hnz Haddr Hoff. revert j hk s Ts I Hi r s'. induction n as [|n IH]; intros j hk s Ts I Hi r s' E; cbn [wait_scan] in E.
  { injection E as <- <-. eapply wait_ok_quiet; [exact I|by apply quiet_same]. }
  apply bind_Done_inv in E as (pp & s1 & E1 & E). unfold getp in E1. destruct (procs s !! j) as [pj|] eqn:Hj; [|done].
  injection E1 as -> <-. case_bool_decide as Hpar.
  2:{ by eapply IH. }
  apply bind_Done_inv in E as ([] & s1 & [= <-] & E).
  set (s1 := set_trace (trace s ++ [EAcquire (ProcLock j)]) s) in *.
  assert (I1 : kernel_inv Pool s1 Ts) by by apply (kernel_inv_rest _ s).
  eapply wait_ok_trans; [apply (wait_ok_quiet Pool i addr s s1 Ts I); by apply quiet_same|].
  case_bool_decide as Hz.
  - apply bind_Done_inv in E as (v & s2 & E2 & [= <- <-]).
    apply (wait_reap_ok Pool s1 Ts i j pi pp addr v s2); try done. intros ->. by simplify_eq.
  - apply bind_Done_inv in E as ([] & s2 & [= <-] & E).
    set (s2 := set_trace _ s1) in E.
    eapply wait_ok_trans; [apply (wait_ok_quiet Pool i addr s1 s2 Ts I1); by apply quiet_same|].
    apply (IH (S j) true s2 Ts) with (r := r); [by apply (kernel_inv_rest _ s1)|done|exact E].
Qed.

Lemma curproc_Done me i a s s' : cpu_proc <$> cpus s !! me = Some (Some i) → curproc me s = Done a s' → a = i ∧ s' = s.
Proof using.
  intros Hc E. unfold curproc, myproc in E. apply bind_Done_inv in E as (c0 & s1 & [= <- <-] & E).
  destruct (cpus s !! me) as [c|]; [|done]. cbn in Hc, E. injection Hc as E1. rewrite E1 in E. by injection E as <- <-.
Qed.

Lemma wait_pass_ok Pool me i addr s Ts r s' : kernel_inv Pool s Ts → running me i s → 0 <= addr < 2 ^ 64 →
  (∀ j, off_pool Pool (xstate_addr j) 4) → wait_pass me addr s = Done r s' → wait_ok Pool i addr s s'.
Proof using AL PL RL.
  intros I [Hc (pi & Hi & Hst)] Haddr Hoff E. unfold wait_pass in E.
  apply bind_Done_inv in E as (i' & s1 & E1 & E). destruct (curproc_Done me i i' s s1 Hc E1) as [-> ->].
  apply bind_Done_inv in E as (ps & s1 & [= <- <-] & E). apply bind_Done_inv in E as ([o hk] & s1 & E2 & E).
  assert (H1 : wait_ok Pool i addr s s1) by (eapply wait_scan_ok; try done; by rewrite Hst).
  eapply wait_ok_trans; [exact H1|]. destruct H1 as [[[Ts1 I1] _] _].
  assert (Hk : keeps (Some i) (match (o, hk) with
    | (Some v, _) => mret (Some v)
    | (None, havekids) =>
        if negb havekids then release WaitLock;; mret (Some (-1))
        else k ← is_killed i; if negb (k =? 0) then release WaitLock;; mret (Some (-1)) else mret None
    end) s1).
  { destruct o; [apply keeps_ret|]. destruct (negb hk); [keeps|].
    apply keeps_quiet_bind; [apply is_killed_keeps|intros; keeps]. }
  eapply wait_ok_quiet; [exact I1|]. by eapply Hk.
Qed.

(** The other calls. *)
Lemma fork_ok Pool o me i s Ts r s' : kernel_inv Pool s Ts → running me i s → fork me s = Done r s' → step_ok Pool o s s'.
Proof using AL PL RL.
  intros I [Hc (pi & Hi & Hst)] E. assert (Hu : state pi ≠ UNUSED) by by rewrite Hst.
  pose proof (fork_wp Pool s Ts me i pi I Hc Hi Hu) as H. unfold wp in H. rewrite E in H.
  destruct H as [(_ & H)|(_ & j & T & np & H)].
  - split; [exists Ts; apply H|by eapply isolates_not_allocated].
  - split; [eexists; apply H|]. apply (isolates_kept Pool _ j s s' Ts I (fk_kept _ _ _ _ _ _ _ _ _ H)).
    + intros p Hp. destruct (fk_slot _ _ _ _ _ _ _ _ _ H) as (p0 & Hp0 & ?). right; left. by simplify_eq.
    + intros k p Hk Hp _. by rewrite (fk_procs _ _ _ _ _ _ _ _ _ H), list_lookup_insert_ne.
Qed.
Lemma on_slot_step_ok Pool i s Ts s' p p0 T : kernel_inv Pool s Ts → procs s !! i = Some p0 → state p0 ≠ UNUSED →
  on_slot Pool s Ts i s' p T → pagetable p = pagetable p0 → state p ≠ UNUSED → step_ok Pool (Some i) s s'.
Proof using AL PL RL.
  intros I Hi Hst K Hp Hu. split.
  - exists (<[i := T]> Ts). eapply on_slot_inv; [exact I|exact K|done|]. rewrite Hp. by eapply ki_used.
  - eapply isolates_on_slot; [exact I|exact K|by left].
Qed.
Lemma growproc_ok Pool me i p s Ts n r s' : kernel_inv Pool s Ts → running me i s → procs s !! i = Some p →
  is_int n → sz p + n <= USYSCALL → growproc me n s = Done r s' → step_ok Pool (Some i) s s'.
Proof using AL PL RL.
  intros I [Hc (pi & Hi & Hst)] Hp Hn Hsz E. assert (pi = p) as -> by congruence. assert (Hu : state p ≠ UNUSED) by by rewrite Hst.
  pose proof (growproc_wp Pool s Ts me i p n I Hc Hp Hu Hn Hsz) as H. unfold wp in H. rewrite E in H.
  destruct H as (p' & T' & K & _ & Hor).
  eapply (on_slot_step_ok Pool i s Ts s' p' p T'); [done..| |]; by destruct Hor as [(_ & ->)|(_ & _ & ->)].
Qed.
Lemma either_copyout_ok Pool me i user dst src len s Ts r s' : kernel_inv Pool s Ts → running me i s →
  0 <= dst < 2 ^ 64 → 0 <= len → off_pool Pool src len → (user = false → off_pool Pool dst len) →
  either_copyout me user dst src len s = Done r s' → step_ok Pool (Some i) s s'.
Proof using AL PL RL.
  intros I [Hc (pi & Hi & Hst)] Hdst Hlen Hsrc Hd E. assert (Hu : state pi ≠ UNUSED) by by rewrite Hst.
  pose proof (ki_used _ _ _ I i pi Hi Hu) as Hp. pose proof (start_slot _ _ _ _ _ I Hi) as K. unfold either_copyout in E.
  apply bind_Done_inv in E as (i' & s1 & E1 & E). destruct (curproc_Done me i i' s s1 Hc E1) as [-> ->].
  apply bind_Done_inv in E as (p & s1 & E2 & E). unfold getp in E2. rewrite Hi in E2. injection E2 as <- <-.
  destruct user.
  - pose proof (copyout_slot_wp Pool s Ts i s pi (Ts i) dst src len K Hp Hdst Hlen Hsrc) as H. unfold wp in H. rewrite E in H.
    destruct H as (v' & k & -> & K' & _). by eapply on_slot_step_ok.
  - apply bind_Done_inv in E as ([] & s1 & [= <-] & [= <- <-]). specialize (Hd eq_refl).
    eapply on_slot_step_ok; [exact I|exact Hi|done| |done|done]. apply on_slot_kernel; [exact K|].
    intros q x Hq Hx. apply memmove_other. destruct (decide (dst <= x < dst + len)); [|lia]. exfalso. by eapply (Hd x q); [|left|].
Qed.
Lemma either_copyin_ok Pool me i user dst src len s Ts r s' : kernel_inv Pool s Ts → running me i s →
  0 <= src < 2 ^ 64 → 0 <= len → off_pool Pool dst len →
  either_copyin me dst user src len s = Done r s' → step_ok Pool (Some i) s s'.
Proof using AL PL RL.
  intros I [Hc (pi & Hi & Hst)] Hsrc Hlen Hdst E. assert (Hu : state pi ≠ UNUSED) by by rewrite Hst.
  pose proof (ki_used _ _ _ I i pi Hi Hu) as Hp. pose proof (start_slot _ _ _ _ _ I Hi) as K. unfold either_copyin in E.
  apply bind_Done_inv in E as (i' & s1 & E1 & E). destruct (curproc_Done me i i' s s1 Hc E1) as [-> ->].
  apply bind_Done_inv in E as (p & s1 & E2 & E). unfold getp in E2. rewrite Hi in E2. injection E2 as <- <-.
  destruct user.
  - pose proof (copyin_slot_wp Pool s Ts i s pi (Ts i) dst src len K Hp Hsrc Hlen Hdst) as H. unfold wp in H. rewrite E in H.
    destruct H as (v' & k & -> & K' & _). by eapply on_slot_step_ok.
  - apply bind_Done_inv in E as ([] & s1 & [= <-] & [= <- <-]).
    eapply on_slot_step_ok; [exact I|exact Hi|done| |done|done]. apply on_slot_kernel; [exact K|].
    intros q x Hq Hx. apply memmove_other. destruct (decide (dst <= x < dst + len)); [|lia]. exfalso. by eapply (Hdst x q); [|left|].
Qed.

(** A process writes in its own memory. *)
Definition user_write_at (s : kst) (p : proc) (m' : mem) : Prop :=
  ∀ x, (∀ q, user_page (vm s) (pagetable p) (sz p) q → ¬ in_page q x) → m' x = vmem (vm s) x.
Lemma user_write_ok Pool i s Ts p m' : kernel_inv Pool s Ts → procs s !! i = Some p → state p ≠ UNUSED →
  user_write_at s p m' → step_ok Pool (Some i) s (set_vm (set_vmem m' (vm s)) s).
Proof using AL PL RL.
  intros I Hi Hu Hm. pose proof (start_slot _ _ _ _ _ I Hi) as K. pose proof (ki_used _ _ _ I i p Hi Hu) as Hp.
  eapply on_slot_step_ok; [exact I|exact Hi|done| |done|done]. apply on_slot_write; [exact K|].
  intros q x _ _ Hno. apply Hm. intros r Hr. pose proof (on_slot_ok _ _ _ _ _ _ _ K) as S.
  destruct (so_space _ _ _ S Hp) as (_ & _ & Sp). apply Hno.
  - split; [apply (slot_page_nz _ p (Ts i) r S Hp)|]; auto.
  - by apply (sp_pages _ _ _ _ _ _ Sp).
Qed.

(** ** Lemmas: the first process *)

Lemma uvmfirst_wp root src n v T : as_inv v root T → 0 <= n < 4096 → has (entry (vmem v) root 0) PTE_V = false →
  free (alloc v) ≠ ∅ →
  wp (uvmfirst root src n) (λ _ v', free (alloc v') = ∅ ∨ ∃ T' q0, as_inv v' root T'
    ∧ (∀ q, owned v' root T' q ↔ owned v root T q) ∧ same_off (dom T ∪ free (alloc v)) (vmem v) (vmem v')
    ∧ has (entry (vmem v') root 0) PTE_V = true
    ∧ ∀ va, 0 <= va < MAXVA → entry (vmem v') root va =
        if va / 4096 =? 0 then q0 else entry (vmem v) root va) v.
Proof using AL PL RL.
  intros I Hn Hv Hf. set (perm := Z.lor (Z.lor (Z.lor PTE_W PTE_R) PTE_X) PTE_U). pose proof maxva_range as HM.
  assert (Hpm : 0 <= perm < 1024 ∧ Z.lor perm 1 ≠ 1) by (unfold perm; by rewrite pte_w_bit, pte_r_bit, pte_x_bit, pte_u_bit).
  destruct Hpm as [Hpm Hp1].
  unfold uvmfirst. rewrite (proj2 (Z.leb_gt PGSIZE n)) by (rewrite pgsize_4096; lia).
  apply wp_bind, kalloc_wp; [done|]. intros p s1 Hp Hpp Hp0 Hf1 Hm1. apply wp_bind, wp_modify.
  set (s2 := set_vmem (memset (vmem s1) p x00 PGSIZE) s1).
  assert (Hoff2 : same_off (free (alloc v)) (vmem v) (vmem s2)).
  { eapply same_off_seq; [exact Hm1|]. apply same_off_memset; [done|]. by rewrite pgsize_4096. }
  destruct (as_take v s2 root T p I Hp Hf1 Hoff2) as (I2 & He2 & Hnf & HnT & Hnl & Ho2).
  apply wp_bind. eapply wp_mono.
  { apply (as_map root 0 p perm s2 T I2); try done; [lia|]. rewrite He2; [done|lia]. }
  cbv beta. intros r s3 (T3 & I3 & Hfr & [(-> & He3 & Ho3)|(_ & _ & _ & _ & _ & Hnone)]); apply wp_modify; [right|by left].
  assert (Hl : leaf s3 root 0 p).
  { split; [lia|]. rewrite He3, Z.eqb_refl by lia. by split; apply top_valid. }
  destruct (ai_leaf _ _ _ I3 _ _ Hl) as (_ & _ & Hpf3 & HpT3).
  destruct (user_write s3 root T3 0 p (memmove (vmem s3) p src n) I3 Hl) as [I4 He4].
  { rewrite <- (Z.add_0_r p) at 2. apply same_off_memmove; [set_solver|lia|lia]. }
  exists T3, (mk_pte p perm). split; [done|]. split; [|split; [|split]].
  - intros q. rewrite Ho2, <- Ho3. unfold owned. cbn [alloc set_vmem]. by setoid_rewrite (leaf_same _ _ _ _ _ He4).
  - eapply same_off_seq; [eapply same_off_mono; [|exact Hoff2]; set_solver|].
    eapply same_off_seq; [eapply same_off_mono; [|apply (pg_mem _ _ _ _ _ Hfr)]|].
    + cbn [alloc s2 set_vmem]. rewrite Hf1. clear. set_solver.
    + cbn [vmem set_vmem]. rewrite <- (Z.add_0_r p) at 1. apply same_off_memmove; [|lia|lia]. clear -Hp. set_solver.
  - rewrite He4, He3, Z.eqb_refl by lia. by apply top_valid.
  - intros va Hva. rewrite He4, He3 by done. change (0 / 4096) with 0. by rewrite He2.
Qed.

(** The end of userinit: registers and fields. *)
Lemma userinit_tail Pool s0 Ts i s p T : on_slot Pool s0 Ts i s p T → pagetable p ≠ 0 →
  wp (vmop (write64 (trapframe p + tf_epc) 0);;
      vmop (write64 (trapframe p + tf_sp) PGSIZE);;
      updp i (λ p, set_name (safestrcpy (name p) initcode_name 16) p);;
      w ← namei;
      updp i (set_cwd w);;
      updp i (set_state RUNNABLE);;
      release (ProcLock i)) (λ _ s', alloc (vm s') = alloc (vm s) ∧ ∃ p', on_slot Pool s0 Ts i s' p' T
        ∧ pagetable p' = pagetable p ∧ state p' = RUNNABLE) s.
Proof using AL PL RL.
  intros K Hp. do 2 (apply wp_bind, wp_vmop, wp_modify).
  pose proof (on_slot_ok _ _ _ _ _ _ _ K) as S. destruct (so_space _ _ _ S Hp) as (Ht & _).
  set (m' := store64 _ (trapframe p + tf_sp) PGSIZE).
  destruct (on_slot_write _ _ _ _ _ _ _ m' K) as [K1 _].
  { intros q x _ _ Hno. unfold m'. cbn [vmem set_vmem set_vm vm]. unfold tf_sp, tf_epc.
    assert (Hx : ¬ in_page (trapframe p) x).
    { apply Hno; [split; auto|]. by apply (so_top _ _ _ S _ Ht (or_introl eq_refl)). }
    unfold in_page in Hx. rewrite !store64_other by lia. done. }
  set (s1 := set_vm (set_vmem m' (vm s)) s) in K1. change (set_vm _ (set_vm _ s)) with s1.
  pose proof (on_slot_lookup _ _ _ _ _ _ _ K1) as Hi. assert (Hlt : (i < length (procs s1))%nat) by by eapply lookup_lt_Some.
  apply wp_bind, (wp_updp i _ p); [done|]. apply wp_bind. unfold namei. apply wp_bind, wp_gets, wp_bind, wp_emit, wp_ret.
  apply wp_bind. eapply wp_updp; [apply list_lookup_insert_eq; cbn; by rewrite ?length_insert|].
  apply wp_bind. eapply wp_updp; [apply list_lookup_insert_eq; cbn; by rewrite ?length_insert|]. apply wp_emit.
  split; [done|]. eexists. split; [eapply (on_slot_fields _ _ _ _ s1 p T _ _ K1)|].
  { cbn [procs set_procs set_trace]. rewrite !list_insert_insert_eq. reflexivity. }
  all: by repeat split.
Qed.

Lemma userinit_ok Pool s Ts i s1 r s' : kernel_inv Pool s Ts → 0 <= sizeof_initcode < 4096 →
  allocproc s = Done (Some i) s1 → free (alloc (vm s1)) ≠ ∅ →
  userinit s = Done r s' → free (alloc (vm s')) ≠ ∅ → step_ok Pool None s s'.
Proof using AL PL RL.
  intros I Hn Ea Hf1 E Hf'. pose proof (allocproc_wp Pool s Ts I) as H. unfold wp in H. rewrite Ea in H.
  destruct H as (p0 & np & T & [[Hi Hun] Enp Hpt K _ _]).
  unfold userinit in E. rewrite (bind_done _ _ _ _ _ Ea) in E. 
  apply bind_Done_inv in E as ([] & s2 & [= <-] & E). set (s2 := set_initproc (Some i) s1) in *.
  assert (K2 : on_slot Pool s Ts i s2 np T).
  { apply (on_slot_fields _ _ _ _ s1 np T s2 np K); [|done|done]. symmetry.
    exact (list_insert_id _ _ _ (on_slot_lookup _ _ _ _ _ _ _ K)). }
  destruct (ki_unused _ _ _ I i p0 Hi Hun) as (_ & _ & _ & Hsz0).
  assert (Hsz : sz np = 0) by by rewrite Enp.
  pose proof (on_slot_ok _ _ _ _ _ _ _ K2) as S. destruct (so_space _ _ _ S Hpt) as (Ht & _ & Sp).
  assert (Htr : trampoline ∉ free (alloc (vm s2))) by apply (os_inv _ _ _ _ _ _ _ K2).
  destruct (proc_space_as _ _ _ S Hpt Htr) as [Ia _]. destruct top_addrs as (H0 & Hal & E1 & E2 & E3 & _).
  pose proof usyscall_next as Hun'. pose proof top_room as Hroom.
  assert (Hz : ∀ va, 0 <= va < USYSCALL → entry (vmem (vm s2)) (pagetable np) va = 0).
  { intros va Hva. apply (sp_empty _ _ _ _ _ _ Sp). rewrite Hsz. by change (pgup 0) with 0. }
  assert (W : wp (p ← getp i;
      vmop (uvmfirst (pagetable p) initcode sizeof_initcode);;
      updp i (set_sz PGSIZE);;
      vmop (write64 (trapframe p + tf_epc) 0);;
      vmop (write64 (trapframe p + tf_sp) PGSIZE);;
      updp i (λ p, set_name (safestrcpy (name p) initcode_name 16) p);;
      w ← namei;
      updp i (set_cwd w);;
      updp i (set_state RUNNABLE);;
      release (ProcLock i)) (λ _ s', free (alloc (vm s')) = ∅ ∨ ∃ p' T', on_slot Pool s Ts i s' p' T'
        ∧ pagetable p' = pagetable np ∧ state p' = RUNNABLE) s2).
  { apply wp_bind, (wp_getp i np); [by eapply on_slot_lookup|]. apply wp_bind, wp_vmop.
    eapply wp_mono; [apply (uvmfirst_wp _ _ _ _ T Ia Hn)|].
    { rewrite Hz, has_0 by lia. done. }
    { done. }
    intros [] v' [Hnone|(T' & q0 & I' & Ho & Hm & Hv0 & He)].
    { left. exact Hnone. }
    apply wp_bind, (wp_updp i _ np); [exact (on_slot_lookup _ _ _ _ _ _ _ K2)|].
    assert (K3 : on_slot Pool s Ts i (set_procs (<[i := set_sz PGSIZE np]> (procs (set_vm v' s2))) (set_vm v' s2))
      (set_sz PGSIZE np) T').
    { assert (E4 : pgup PGSIZE = 4096) by by rewrite pgsize_4096.
      apply (on_slot_table _ _ _ _ s2 np T v' T' PGSIZE (dom T ∪ free (alloc (vm s2))) K2 Hpt I' Ho Hm).
      - intros q Hq. by apply pool_slot.
      - rewrite pgsize_4096. lia.
      - rewrite E4. lia.
      - rewrite E4. intros va Hva. rewrite (entry_page _ _ va 0); [done|..]; try lia. Z.to_euclidean_division_equations; lia.
      - rewrite E4. intros va Hva. rewrite He by lia. rewrite (proj2 (Z.eqb_neq (va / 4096) 0)); [apply Hz; lia|].
        Z.to_euclidean_division_equations; lia.
      - intros va Hva. rewrite He by lia. rewrite (proj2 (Z.eqb_neq (va / 4096) 0)); [done|].
        Z.to_euclidean_division_equations; lia. }
    eapply wp_mono; [apply (userinit_tail _ _ _ _ _ _ T' K3 Hpt)|]. intros [] s3 (_ & p' & K4 & Hp' & Hst).
    right. by exists p', T'. }
  unfold wp in W. rewrite E in W. destruct W as [?|(p' & T' & K' & Hp' & Hst)]; [done|]. split.
  - exists (<[i := T']> Ts). eapply on_slot_inv; [exact I|exact K'|by rewrite Hst|by rewrite Hp'].
  - eapply isolates_on_slot; [exact I|exact K'|]. intros p Hp. right; left. by simplify_eq.
Qed.
End isolation.
