(* ===== verification/Exec.v ===== *)
(** exec.c (Lab3): replacing the image of a process by a program file.  Data
    and operations; what they do to the kernel's memory is in ExecMem.v and
    ExecProps.v.

    - The file system is a parameter: [readi_ret] answers the bytes a readi
      delivers.  elf.h is not in the repository: the fields of a header are
      functions of its bytes.
    - [argv] and its strings lie in kernel memory, at their addresses; so does
      the local array [ustack].  The local headers [elf] and [ph] are values.
    - [fuel] bounds the length of a string argument. *)
From S2P Require Import Prelude Riscv Vm RiscvProc.

(** ** Definitions *)

Class ExecExt := {
  MAXARG : Z; ELF_MAGIC : Z; ELF_PROG_LOAD : Z; sizeof_elfhdr : Z; sizeof_proghdr : Z;
  elf_magic : list byte → Z; elf_entry : list byte → Z; elf_phoff : list byte → Z; elf_phnum : list byte → Z;
  ph_type : list byte → Z; ph_flags : list byte → Z; ph_off : list byte → Z; ph_vaddr : list byte → Z;
  ph_filesz : list byte → Z; ph_memsz : list byte → Z;
  namei_path : list event → list byte → Z;
  readi_ret : list event → Z → Z → Z → list byte;
  ustack : Z }.

(** The bytes [l] written at [a]. *)
Definition write_bytes (m : mem) (a : Z) (l : list byte) : mem := λ x,
  if (a <=? x) && (x <? a + Z.of_nat (length l)) then default x00 (l !! Z.to_nat (x - a)) else m x.

(** The string at [a], without its NUL. *)
Fixpoint cstring (fuel : nat) (m : mem) (a : Z) : option (list byte) :=
  match fuel with
  | O => None
  | S fuel' => if bool_decide (m a = x00) then Some [] else (m a ::.) <$> cstring fuel' m (a + 1)
  end.
(** [for(last=s=path; *s; s++) if( *s == '/') last = s+1]. *)
Fixpoint last_part (s last : list byte) : list byte :=
  match s with
  | [] => last
  | c :: s' => last_part s' (if bool_decide (c = x2f) then s' else last)
  end.

Section exec.
Context {R : Riscv} {L : Allocator} {KL : Layout} {PE : ProcExt} {EE : ExecExt}.
Notation K := (M kst).

Definition flags2perm (flags : Z) : Z :=
  let perm := if negb (Z.land flags 1 =? 0) then PTE_X else 0 in
  if negb (Z.land flags 2 =? 0) then Z.lor perm PTE_W else perm.

Definition string_at (fuel : nat) (a : Z) : K (list byte) := λ s,
  match cstring fuel (vmem (vm s)) a with Some l => Done l s | None => OutOfFuel end.
Definition namei_at (path : list byte) : K Z :=
  r ← gets (λ s, namei_path (trace s) path); emit (ENamei r);; mret r.
Definition readi (ip off n : Z) : K (list byte) :=
  l ← gets (λ s, readi_ret (trace s) ip off n);
  emit (EReadi ip off n (Z.of_nat (length l)));;
  mret l.
Definition readi_to (ip dst off n : Z) : K Z :=
  l ← readi ip off n;
  vmop (modify (λ v, set_vmem (write_bytes (vmem v) dst l) v));;
  mret (Z.of_nat (length l)).

(** [i], [offset] and [sz] are [uint]s. *)
Fixpoint loadseg_loop (fuel : nat) (pagetable va ip offset sz i : Z) : K Z :=
  match fuel with
  | O => no_fuel
  | S fuel' =>
      if i <? sz then
        pa ← vmop (walkaddr pagetable (u64 (va + i)));
        if pa =? 0 then panic "loadseg: address should exist"
        else
          let n := if u32 (sz - i) <? PGSIZE then u32 (sz - i) else PGSIZE in
          r ← readi_to ip pa (u32 (offset + i)) n;
          if negb (r =? n) then mret (-1)
          else loadseg_loop fuel' pagetable va ip offset sz (u32 (i + PGSIZE))
      else mret 0
  end.
Definition loadseg (pagetable va ip offset sz : Z) : K Z :=
  loadseg_loop (S (S (Z.to_nat (sz / PGSIZE)))) pagetable va ip offset sz 0.

(** The loop over the [n] program headers left, the next one at [off]: whether
    it came to the end, and [sz]. *)
Fixpoint load_segments (n : nat) (pagetable ip off sz : Z) : K (bool * Z) :=
  match n with
  | O => mret (true, sz)
  | S n' =>
      ph ← readi ip (u32 off) sizeof_proghdr;
      if negb (Z.of_nat (length ph) =? sizeof_proghdr) then mret (false, sz)
      else if negb (ph_type ph =? ELF_PROG_LOAD) then
        load_segments n' pagetable ip (i32 (off + sizeof_proghdr)) sz
      else if ph_memsz ph <? ph_filesz ph then mret (false, sz)
      else if u64 (ph_vaddr ph + ph_memsz ph) <? ph_vaddr ph then mret (false, sz)
      else if negb (ph_vaddr ph mod PGSIZE =? 0) then mret (false, sz)
      else
        sz1 ← vmop (uvmalloc pagetable sz (u64 (ph_vaddr ph + ph_memsz ph)) (flags2perm (i32 (ph_flags ph))));
        if sz1 =? 0 then mret (false, sz)
        else
          r ← loadseg pagetable (ph_vaddr ph) ip (u32 (ph_off ph)) (u32 (ph_filesz ph));
          if r <? 0 then mret (false, sz1)
          else load_segments n' pagetable ip (i32 (off + sizeof_proghdr)) sz1
  end.

(** [ustack[k] = v]; the array has MAXARG places. *)
Definition set_ustack (k v : Z) : K unit :=
  vmop (write64 (ustack + 8 * k) v).
(** The loop that pushes the argument strings, from [argc] on ([n] is its
    fuel): [argc] and [sp] at its end, unless it goes to [bad]. *)
Fixpoint push_args (n fuel : nat) (pagetable argv stackbase argc sp : Z) : K (option (Z * Z)) :=
  match n with
  | O => no_fuel
  | S n' =>
      a ← vmop (read64 (argv + 8 * argc));
      if a =? 0 then mret (Some (argc, sp))
      else if MAXARG <=? argc then mret None
      else
        str ← string_at fuel a;
        let len := Z.of_nat (length str) + 1 in
        let sp := u64 (sp - len) in
        let sp := u64 (sp - sp mod 16) in
        if sp <? stackbase then mret None
        else
          r ← vmop (copyout pagetable sp a len);
          if r <? 0 then mret None
          else set_ustack argc sp;; push_args n' fuel pagetable argv stackbase (argc + 1) sp
  end.

(** The label [bad]. *)
Definition exec_bad (pagetable sz ip : Z) : K Z :=
  (if pagetable =? 0 then mret tt else vmop (proc_freepagetable pagetable sz));;
  (if ip =? 0 then mret tt else emit (EIunlockput ip);; emit EEndOp);;
  mret (-1).

(** From "Commit to the user image" on. *)
Definition exec_commit (i : nat) (pagetable sz oldsz entry sp argc : Z) : K Z :=
  p ← getp i;
  let oldpagetable := RiscvProc.pagetable p in
  updp i (set_pagetable pagetable);;
  updp i (set_sz sz);;
  vmop (write64 (trapframe p + tf_epc) entry);;
  vmop (write64 (trapframe p + tf_sp) sp);;
  vmop (proc_freepagetable oldpagetable oldsz);;
  p ← getp i;
  (if pid p =? 1 then
     v ← gets vm; emit (EPrint (vmprint 3 (vmem v) (RiscvProc.pagetable p) 1))
   else mret tt);;
  mret (i32 argc).

(** The stack and the arguments, after the segments are loaded. *)
Definition exec_stack (fuel i : nat) (path argv pagetable sz entry : Z) : K Z :=
  p ← getp i;
  let oldsz := RiscvProc.sz p in
  let sz := PGROUNDUP sz in
  sz1 ← vmop (uvmalloc pagetable sz (u64 (sz + 2 * PGSIZE)) PTE_W);
  if sz1 =? 0 then exec_bad pagetable sz 0
  else
    let sz := sz1 in
    vmop (uvmclear pagetable (u64 (sz - 2 * PGSIZE)));;
    let stackbase := u64 (sz - PGSIZE) in
    o ← push_args (S (Z.to_nat MAXARG)) fuel pagetable argv stackbase 0 sz;
    match o with
    | None => exec_bad pagetable sz 0
    | Some (argc, sp) =>
        set_ustack argc 0;;
        let sp := u64 (sp - (argc + 1) * 8) in
        let sp := u64 (sp - sp mod 16) in
        if sp <? stackbase then exec_bad pagetable sz 0
        else
          r ← vmop (copyout pagetable sp ustack ((argc + 1) * 8));
          if r <? 0 then exec_bad pagetable sz 0
          else
            vmop (write64 (trapframe p + tf_a1) sp);;
            str ← string_at fuel path;
            updp i (λ p, set_name (safestrcpy (name p) (last_part str str) 16) p);;
            exec_commit i pagetable sz oldsz entry sp argc
    end.

Definition exec (me fuel : nat) (path argv : Z) : K Z :=
  emit EBeginOp;;
  str ← string_at fuel path;
  ip ← namei_at str;
  if ip =? 0 then emit EEndOp;; mret (-1)
  else
    emit (EIlock ip);;
    elf ← readi ip 0 sizeof_elfhdr;
    if negb (Z.of_nat (length elf) =? sizeof_elfhdr) then exec_bad 0 0 ip
    else if negb (elf_magic elf =? ELF_MAGIC) then exec_bad 0 0 ip
    else
      i ← curproc me;
      p ← getp i;
      pagetable ← vmop (proc_pagetable (trapframe p) (usyscall p));
      if pagetable =? 0 then exec_bad 0 0 ip
      else
        r ← load_segments (Z.to_nat (elf_phnum elf)) pagetable ip (i32 (elf_phoff elf)) 0;
        let '(ok, sz) := r in
        if negb ok then exec_bad pagetable sz ip
        else
          emit (EIunlockput ip);;
          emit EEndOp;;
          exec_stack fuel i path argv pagetable sz (elf_entry elf).
End exec.
