(* ===== verification/ExecMem.v ===== *)
(** The image that exec of exec.c (Lab3) builds: a page table beside the one
    in use, whose pages come from the free ones; each step of the building,
    its end when it fails, and the switch to it. *)
From stdpp Require Import functions.
From S2P Require Import Prelude Riscv Vm PageTable Mappings AddrSpace UserCopy FreeWalk UvmCopy.
From S2P Require Import RiscvProc RiscvSpace RiscvSlot RiscvAlloc RiscvFork RiscvQuiet RiscvMem Exec.

(** ** Definitions *)
Section defs.
Context {R : Riscv} {L : Allocator} {KL : Layout} {PE : ProcExt} {EE : ExecExt}.

(** The slot of the process as it would be with the new image. *)
Definition image (p : proc) (root n : Z) : proc := set_sz n (set_pagetable root p).

(** The array [ustack], with the place after its last that the code may write. *)
Definition in_ustack (x : Z) : Prop := ustack <= x < ustack + 8 * (MAXARG + 1).

(** From [v0], exec of the process [p] has built [n] bytes of user memory in the
    page table [root]: its pages were free, and nothing else has changed. *)
Record building (v0 : vst) (p : proc) (root n : Z) (v : vst) (T : tables) : Prop := {
  bd_root : root ≠ 0;
  bd_slot : slot_ok v (image p root n) T;
  bd_tramp : trampoline ∉ free (alloc v);
  bd_pool : ∀ q, q ∈ free (alloc v0) ↔ q ∈ free (alloc v) ∨ q ∈ dom T ∨ user_page v root n q;
  bd_mem : ∀ x, ¬ in_ustack x → (∀ q, q ∈ free (alloc v0) → ¬ in_page q x) → vmem v x = vmem v0 x }.
End defs.

Section exec.
Context {R : Riscv} {L : Allocator} {KL : Layout} {PE : ProcExt} {EE : ExecExt}.
Context {RL : RiscvLaws R} {AL : AllocatorLaws L} {PL : ProcLaws PE}.
Implicit Types (v : vst) (T : tables).

(** ** Lemmas: uvmclear *)

Lemma mk_pte_clear p perm : is_page p → 0 <= perm < 1024 →
  Z.land (mk_pte p perm) (Z.lnot PTE_U) = mk_pte p (Z.land perm (Z.lnot PTE_U)).
Proof using RL.
  intros (_ & ? & ?) Hpm. unfold mk_pte. rewrite pa2pte_field, pte_u_bit, pte_v_bit by lia.
  rewrite !Z.land_lor_distr_l. f_equal. f_equal. rewrite <- !Z.ldiff_land.
  rewrite <- (Z.lor_ldiff_and (p / 2 ^ 12 * 2 ^ 10) 16) at 2.
  assert (E : Z.land (p / 2 ^ 12 * 2 ^ 10) 16 = 0).
  { change 16 with (Z.land (Z.ones 10) 16). rewrite Z.land_assoc, Z.land_ones by lia. by rewrite Z.mod_mul. }
  by rewrite E, Z.lor_0_r.
Qed.
Lemma uvmclear_wp root va s T p perm : as_inv s root T → 0 <= va < MAXVA → is_page p → 0 <= perm < 1024 →
  entry (vmem s) root va = mk_pte p perm → Z.lor perm 1 ≠ 1 → Z.lor (Z.land perm (Z.lnot PTE_U)) 1 ≠ 1 →
  wp (uvmclear root va) (λ _ s', as_inv s' root T ∧ alloc s' = alloc s ∧ same_off (dom T) (vmem s) (vmem s')
    ∧ (∀ a q, leaf s' root a q ↔ leaf s root a q)
    ∧ ∀ a, 0 <= a < MAXVA → entry (vmem s') root a =
        if a / 4096 =? va / 4096 then mk_pte p (Z.land perm (Z.lnot PTE_U)) else entry (vmem s) root a) s.
Proof using AL PL RL.
  intros I Hva Hp Hpm He Hp0 Hp1. assert (Hpm' : 0 <= Z.land perm (Z.lnot PTE_U) < 1024).
  { assert (E : Z.land perm (Z.lnot PTE_U) = Z.land perm (Z.lnot PTE_U) mod 2 ^ 10); [|rewrite E; apply Z.mod_pos_bound; lia].
    rewrite <- (Z.land_ones _ 10), <- Z.land_assoc, (Z.land_comm (Z.lnot _)), Z.land_assoc, Z.land_ones, Z.mod_small by lia. done. }
  destruct (top_valid p perm Hp Hpm Hp0) as (Hv & Hf & Hpa), (top_valid p _ Hp Hpm' Hp1) as (Hv' & Hf' & Hpa').
  assert (Hva' : has (entry (vmem s) root va) PTE_V = true) by by rewrite He.
  destruct (entry_valid_slot _ _ _ _ Hva') as [sl Hsl]. unfold uvmclear.
  eapply wp_bind_done; [apply walk_noalloc; lia|]. rewrite Hsl. cbn [default id].
  rewrite (proj2 (Z.eqb_neq _ _)) by (eapply slot_nonzero; [apply I|done|done]).
  apply wp_bind, wp_gets. cbv beta. rewrite <- (entry_slot _ _ _ _ Hsl), He, mk_pte_clear by done. apply wp_modify.
  destruct (pt_frame_write root s T va sl (mk_pte p (Z.land perm (Z.lnot PTE_U))) (ai_pt _ _ _ I) Hva Hsl) as (F & _ & He').
  { pose proof (mk_pte_range p _ Hp Hpm'). lia. }
  assert (Hm : same_off (dom T) (vmem s) (store64 (vmem s) sl (mk_pte p (Z.land perm (Z.lnot PTE_U))))).
  { destruct (slot_table _ _ _ _ _ (proj1 (ai_pt _ _ _ I)) Hva Hsl) as (q & Hq & ->).
    apply same_off_store; [by eapply elem_of_dom_2|by apply px_range]. }
  set (s' := set_vmem _ s) in *.
  assert (Hl : ∀ a q, leaf s' root a q ↔ leaf s root a q).
  { intros a q. unfold leaf, s'. cbn [vmem set_vmem]. destruct (decide (0 <= a < MAXVA)); [|tauto]. rewrite He' by done.
    destruct (Z.eqb_spec (a / 4096) (va / 4096)) as [E|?]; [|done].
    rewrite (entry_page _ root a va) by done. rewrite He, Hv, Hv', Hpa, Hpa'. done. }
  split; [|by split_and!]. constructor.
  - apply F.
  - intros a q Hq. pose proof (proj1 (Hl a q) Hq) as Hq0. destruct (ai_leaf _ _ _ I _ _ Hq0) as (? & ?).
    split; [|done]. unfold s'. cbn [vmem set_vmem]. rewrite He' by apply Hq. by destruct (_ =? _).
  - intros a a' q Hq Hq'. apply (ai_inj _ _ _ I a a' q); by apply Hl.
Qed.

(** ** Lemmas: the pages of a slot, by their use *)

Lemma image_pages v p T q : slot_ok v p T → pagetable p ≠ 0 →
  q ∈ dom T ∨ user_page v (pagetable p) (sz p) q ↔ slot_pages v p T q ∧ q ≠ trapframe p ∧ q ≠ usyscall p.
Proof using.
  intros S Hp. destruct (so_space _ _ _ S Hp) as (Ht & Hu & _).
  destruct (so_top _ _ _ S _ Ht (or_introl eq_refl)) as [T1 U1], (so_top _ _ _ S _ Hu (or_intror eq_refl)) as [T2 U2].
  specialize (U1 Hp). specialize (U2 Hp). split.
  - intros Hq. split; [split; [by apply (slot_page_nz v p T q S Hp)|]; tauto|].
    split; intros ->; destruct Hq; done.
  - intros [[_ [?|[?|[?|[_ ?]]]]] [? ?]]; tauto.
Qed.

Lemma slot_tops v p T : slot_ok v p T → pagetable p ≠ 0 →
  (is_page (trapframe p) ∧ trapframe p ∉ free (alloc v)) ∧ (is_page (usyscall p) ∧ usyscall p ∉ free (alloc v)).
Proof using.
  intros S Hp. destruct (so_space _ _ _ S Hp) as (Ht & Hu & _).
  destruct (so_page _ _ _ S (trapframe p)) as (? & ? & _); [split; auto|].
  destruct (so_page _ _ _ S (usyscall p)) as (? & ? & _); [split; auto|]. done.
Qed.

(** ** Lemmas: building an image *)

Section building.
Context (v0 : vst) (p : proc) (T0 : tables).
Context (S0 : slot_ok v0 p T0) (Hp0 : pagetable p ≠ 0) (Htr0 : trampoline ∉ free (alloc v0)).
Context (Hoff : ∀ q x, in_ustack x → q ∈ free (alloc v0) ∨ slot_pages v0 p T0 q → ¬ in_page q x).

Lemma build_start : wp (proc_pagetable (trapframe p) (usyscall p)) (λ r v,
    r = 0 ∧ free (alloc v) = free (alloc v0) ∧ same_off (free (alloc v0)) (vmem v0) (vmem v)
    ∨ ∃ T, building v0 p r 0 v T) v0.
Proof using AL Hp0 Htr0 PL RL S0.
  destruct (so_space _ _ _ S0 Hp0) as (Ht & Hu & _). pose proof (tops_of v0 p T0 S0 Ht Hu Htr0) as Tp.
  eapply wp_mono; [apply (proc_pagetable_wp v0 _ _ Tp)|]. intros r v [H|(Hr & T & Ia & Sp & Hpool & Hm)]; [by left|right].
  exists T. destruct Tp as [[Ptf Ftf] [Pus Fus] _ (N1 & N2 & N3)].
  assert (Hf : ∀ q, q ∈ free (alloc v) → q ∈ free (alloc v0)) by (intros q Hq; apply Hpool; rewrite elem_of_union; tauto).
  assert (HT : ∀ q, q ∈ dom T → q ∈ free (alloc v0)) by (intros q Hq; apply Hpool; rewrite elem_of_union; tauto).
  assert (Hno : ∀ q, ¬ user_page v r 0 q) by (intros q (va & Hva & _); change (pgup 0) with 0 in Hva; lia).
  constructor; [done| |auto| |auto].
  - constructor.
    + intros q (Hq0 & [->|[->|[Hq|[_ Hq]]]]); [by split_and!; auto|by split_and!; auto| |by destruct (Hno q)].
      split_and!; [by eapply free_page, HT| |intros ->; auto]. intros Hq'. by apply (proj2 (sp_pt _ _ _ _ _ _ Sp) q).
    + intros E. by destruct N1.
    + intros q Hq [->| ->]; (split; [auto|]); intros _; apply Hno.
    + intros _. by split_and!.
    + intros E. by destruct Hr.
  - intros q. rewrite <- Hpool, elem_of_union. specialize (Hno q). tauto.
Qed.

Section image.
Context (root : Z).
Implicit Types (n : Z).

Lemma build_as n v T : building v0 p root n v T → as_inv v root T
  ∧ ∀ va q, leaf v root va q → q = trampoline ∨ slot_pages v (image p root n) T q.
Proof using PL RL. intros B. exact (proc_space_as v (image p root n) T (bd_slot _ _ _ _ _ _ B) (bd_root _ _ _ _ _ _ B) (bd_tramp _ _ _ _ _ _ B)). Qed.
Lemma build_space n v T : building v0 p root n v T → proc_space v root T n (trapframe p) (usyscall p).
Proof using. intros B. by apply (so_space _ _ _ (bd_slot _ _ _ _ _ _ B) (bd_root _ _ _ _ _ _ B)). Qed.

(** A step of the building: an operation on the page table. *)
Lemma build_table n v T m v' T' (P : gset Z) : building v0 p root n v T → as_inv v' root T' →
  (∀ q, owned v' root T' q ↔ owned v root T q) → same_off P (vmem v) (vmem v') →
  (∀ q, q ∈ P → q ∈ dom T ∨ q ∈ free (alloc v)) → 0 <= m → pgup m <= USYSCALL →
  all_mapped v' root 0 (pgup m) → (∀ va, pgup m <= va < USYSCALL → entry (vmem v') root va = 0) →
  (∀ va, USYSCALL <= va < MAXVA → entry (vmem v') root va = entry (vmem v) root va) → building v0 p root m v' T'.
Proof using PL RL.
  intros B I' Ho Hm HP Hm0 Hm1 Hall Hz Htop. pose proof B as [Hr S Htr Hpool Hmem].
  pose proof (build_space _ _ _ B) as Sp. destruct top_addrs as (H0 & Hal & E1 & E2 & E3 & _).
  destruct (so_space _ _ _ S Hr) as (Ht & Hu & _). pose proof trampoline_page as Ptr. destruct top_perms as ([P1 Q1] & _).
  destruct (slot_tops _ _ _ S Hr) as [[Pt _] [Pu _]].
  assert (Er : ∀ va, TRAMPOLINE <= va < MAXVA → entry (vmem v') root va = tramp_pte).
  { intros va Hva. rewrite Htop by lia. by apply (sp_tramp _ _ _ _ _ _ Sp). }
  assert (Lr : leaf v' root TRAMPOLINE trampoline) by (split; [lia|]; rewrite Er by lia; split; by apply (top_valid _ _ Ptr)).
  assert (Htr' : trampoline ∉ free (alloc v')) by by destruct (ai_leaf _ _ _ I' _ _ Lr) as (_ & _ & ? & _).
  assert (S' : slot_ok v' (image p root m) T').
  { apply slot_of_as; try done.
    - intros va Hva. cbn [pagetable usyscall image set_sz set_pagetable]. rewrite Htop by lia. by apply (sp_us _ _ _ _ _ _ Sp).
    - intros va Hva. cbn [pagetable trapframe image set_sz set_pagetable]. rewrite Htop by lia. by apply (sp_tf _ _ _ _ _ _ Sp). }
  constructor; [done|done|done| |].
  - intros q. rewrite Hpool.
    pose proof (image_pages v (image p root n) T q S Hr) as H1. pose proof (image_pages v' (image p root m) T' q S' Hr) as H2.
    pose proof (slot_owned v _ T q S Hr Htr) as O1. pose proof (slot_owned v' _ T' q S' Hr Htr') as O2.
    cbn [pagetable sz trapframe usyscall image set_sz set_pagetable] in H1, H2, O1, O2. rewrite H1, H2. rewrite Ho in O2.
    assert (F1 : q ∈ free (alloc v) → q ≠ trapframe p ∧ q ≠ usyscall p).
    { destruct (slot_tops _ _ _ S Hr) as [[_ ?] [_ ?]]. intros Hq. split; intros ->; done. }
    assert (F2 : q ∈ free (alloc v') → q ≠ trapframe p ∧ q ≠ usyscall p).
    { destruct (slot_tops _ _ _ S' Hr) as [[_ ?] [_ ?]]. intros Hq. split; intros ->; done. }
    clear -O1 O2 F1 F2. tauto.
  - intros x Hx Hq. rewrite <- (Hmem x Hx Hq). apply Hm. intros q Hq'. apply Hq, Hpool. destruct (HP q Hq'); auto.
Qed.

Lemma build_size n v T : building v0 p root n v T → 0 <= n <= pgup n ∧ pgup n <= USYSCALL ∧ pgup n mod 4096 = 0.
Proof using PL RL.
  intros B. destruct (sp_size _ _ _ _ _ _ (build_space _ _ _ B)). destruct (pgup_spec n) as [? ?]. lia.
Qed.

(** The size rounded up to a page. *)
Lemma build_round n v T : building v0 p root n v T → building v0 p root (pgup n) v T.
Proof using PL RL.
  intros B. destruct (build_as _ _ _ B) as [Ia _]. pose proof (build_space _ _ _ B) as Sp.
  destruct (build_size _ _ _ B) as (Hn & Hnu & Hnm). assert (E : pgup (pgup n) = pgup n) by by apply pgup_aligned.
  apply (build_table n v T (pgup n) v T ∅ B Ia); rewrite ?E; try done; try lia.
  - intros va Hva. by apply (sp_user _ _ _ _ _ _ Sp).
  - intros va Hva. by apply (sp_empty _ _ _ _ _ _ Sp).
Qed.

Lemma build_uvmalloc n v T m xperm : building v0 p root n v T → n <= m <= USYSCALL → 0 <= xperm < 1024 →
  wp (uvmalloc root n m xperm) (λ r v', ∃ T',
    r = m ∧ building v0 p root m v' T' ∧ grown v T root (pgup n) (pgup m) (Z.lor (Z.lor PTE_R PTE_U) xperm) v' T'
    ∨ r = 0 ∧ building v0 p root n v' T') v.
Proof using AL PL RL.
  intros B Hm Hx. destruct (build_as _ _ _ B) as [Ia _]. pose proof (build_space _ _ _ B) as Sp.
  destruct (build_size _ _ _ B) as (Hn & Hnu & Hnm). destruct top_addrs as (H0 & Hal & E1 & E2 & E3 & _).
  assert (Hm' : pgup m <= USYSCALL) by (unfold pgup; Z.to_euclidean_division_equations; lia).
  assert (Hle : pgup n <= pgup m) by (unfold pgup; Z.to_euclidean_division_equations; lia).
  destruct (uvmalloc_grown root n m xperm v T Ia) as (r & v' & T' & E & H); [lia|lia|done| |].
  { intros va Hva. apply (sp_empty _ _ _ _ _ _ Sp). lia. }
  unfold wp. rewrite E. exists T'. destruct H as [[-> G]|(-> & I' & Ho & He & Hmm)]; [left|right]; (split; [done|]).
  - split; [|done]. apply (build_table n v T m v' T' (dom T ∪ free (alloc v)) B); try apply G; try lia.
    + intros q. rewrite elem_of_union. tauto.
    + intros va Hva. destruct (decide (va < pgup n)).
      * rewrite (gr_old _ _ _ _ _ _ _ _ G) by lia. apply (sp_user _ _ _ _ _ _ Sp). lia.
      * apply (gr_new _ _ _ _ _ _ _ _ G). lia.
    + intros va Hva. rewrite (gr_old _ _ _ _ _ _ _ _ G) by lia. apply (sp_empty _ _ _ _ _ _ Sp). lia.
    + intros va Hva. apply (gr_old _ _ _ _ _ _ _ _ G); lia.
  - apply (build_table n v T n v' T' (dom T ∪ free (alloc v)) B I' Ho Hmm); try lia.
    + intros q. rewrite elem_of_union. tauto.
    + intros va Hva. rewrite He by lia. by apply (sp_user _ _ _ _ _ _ Sp).
    + intros va Hva. rewrite He by lia. by apply (sp_empty _ _ _ _ _ _ Sp).
    + intros va Hva. apply He. lia.
Qed.

(** A step of the building: writes to user pages and to [ustack]. *)
Lemma build_write n v T (m' : mem) : building v0 p root n v T →
  (∀ x, ¬ in_ustack x → (∀ q, user_page v root n q → ¬ in_page q x) → m' x = vmem v x) →
  building v0 p root n (set_vmem m' v) T ∧ same_entries v (set_vmem m' v) root.
Proof using AL Hoff PL RL.
  intros B Hm. pose proof B as [Hr S Htr Hpool Hmem]. pose proof (build_space _ _ _ B) as Sp.
  destruct (slot_write v (set_vmem m' v) (image p root n) T S eq_refl) as (S' & Hpg & He).
  { intros q x Hq Hx. assert (Hq0 : q ∈ free (alloc v0)) by (apply Hpool; auto). apply Hm.
    - intros Hu. by apply (Hoff q x Hu); [left|].
    - intros r Hr' Hx'. destruct (sp_pages _ _ _ _ _ _ Sp r Hr') as (Pr & _ & Hd). apply Hd.
      rewrite <- (in_page_eq q r x); [done| |done..]. by eapply free_page. }
  specialize (He Hr). split; [|exact He]. constructor; [done|done|done| |].
  - intros q. rewrite Hpool. cbn [alloc set_vmem].
    by rewrite (user_page_ext v (set_vmem m' v) root n q (size_top _ _ _ _ _ _ Sp) He).
  - intros x Hx Hq. cbn [vmem set_vmem]. rewrite Hm, Hmem; [done|done|done|done|]. intros q Hq'. apply Hq, Hpool. auto.
Qed.

(** The user pages of the image, as the user sees them. *)
Lemma build_user_leaf n v T va : building v0 p root n v T → is_Some (ubyte (vmem v) root va) →
  user_page v root n (PTE2PA (entry (vmem v) root va)) ∧ 0 <= va < pgup n
  ∨ PTE2PA (entry (vmem v) root va) = usyscall p ∧ USYSCALL <= va < TRAPFRAME.
Proof using PL RL.
  intros B Hub. pose proof B as [Hr S _ _ _]. destruct (slot_tops _ _ _ S Hr) as [[Pt _] [Pu _]].
  pose proof (ubyte_leaf _ _ _ Hub) as Hlf. destruct (ubyte_page _ _ _ _ S Hr Hub) as [Hsp _].
  destruct (proc_space_leaf _ _ _ _ _ _ _ _ (build_space _ _ _ B) Pt Pu Hlf) as [[Hva _]|[[Hva E]|[[Hva E]|[Hva E]]]].
  - left. split; [by exists va|done].
  - by right.
  - exfalso. destruct Hub as [b Hub]. rewrite ubyte_some in Hub by apply Hlf. pose proof (build_space _ _ _ B) as Sp.
    rewrite (sp_tf _ _ _ _ _ _ Sp) in Hub by done. destruct (has (tf_pte _) PTE_V); [|done].
    destruct top_perms as (_ & [P2 _] & _).
    unfold has, tf_pte in Hub. rewrite mk_pte_bits in Hub; [|done|done|by rewrite pte_u_bit].
    by rewrite pte_r_bit, pte_w_bit, pte_u_bit in Hub.
  - exfalso. cbn [pagetable image set_sz set_pagetable] in Hsp. rewrite E in Hsp.
    by destruct (so_page _ _ _ S _ Hsp) as (_ & _ & ?).
Qed.

Lemma build_copyout n v T addr src len : building v0 p root n v T → 0 <= addr < 2 ^ 64 → 0 <= len →
  addr + len <= USYSCALL ∨ MAXVA <= addr → off_user v root src len →
  wp (copyout root addr src len) (λ r v', building v0 p root n v' T ∧ ∃ k, 0 <= k <= len
    ∧ (r = 0 ∧ k = len ∨ r = -1 ∧ k < len) ∧ (MAXVA <= addr → k = 0) ∧ copied_out v T root addr src k v') v.
Proof using AL Hoff PL RL.
  intros B Ha Hlen Hr Hsrc. destruct (build_as _ _ _ B) as [Ia _]. pose proof (build_space _ _ _ B) as Sp.
  destruct top_addrs as (H0 & Hal & E1 & E2 & E3 & _).
  eapply wp_mono; [by apply (copyout_wp root addr src len v T Ia)|]. intros r v' (k & Hk & Hor & C).
  assert (Hk0 : MAXVA <= addr → k = 0).
  { intros Hge. destruct (decide (k = 0)); [done|]. destruct (co_mapped _ _ _ _ _ _ _ C 0 ltac:(lia)) as [b Hb].
    by rewrite ubyte_out in Hb by lia. }
  assert (Ev : v' = set_vmem (vmem v') v) by (destruct v'; unfold set_vmem; by rewrite <- (co_alloc _ _ _ _ _ _ _ C)).
  split; [|exists k; split_and!; try done; try lia; tauto]. rewrite Ev. apply (build_write n v T _ B).
  intros x _ Hx. destruct (decide (usyscall p <= x < usyscall p + 4096)) as [Hx'|Hno].
  - (* the usyscall page is the user's, but out of the range *)
    assert (∃ off, x = usyscall p + off ∧ 0 <= off < 4096) as (off & -> & Hof) by (exists (x - usyscall p); lia).
    pose proof (co_user _ _ _ _ _ _ _ C (USYSCALL + off)) as Hu.
    assert (E4 : entry (vmem v) root (USYSCALL + off) = us_pte (usyscall p)) by (apply (sp_us _ _ _ _ _ _ Sp); lia).
    assert (E5 : entry (vmem v') root (USYSCALL + off) = us_pte (usyscall p)) by (rewrite <- E4; apply C; lia).
    rewrite !(ubyte_some _ _ (USYSCALL + off)), E4, E5 in Hu by lia. destruct top_perms as (_ & _ & [P3 Q3]).
    destruct (slot_tops _ _ _ (bd_slot _ _ _ _ _ _ B) (bd_root _ _ _ _ _ _ B)) as [_ [Pu _]]. cbn in Pu.
    destruct (top_valid (usyscall p) _ Pu P3 Q3) as (V & _ & Epa). unfold us_pte in Hu. rewrite V, Epa in Hu.
    assert (U : has (mk_pte (usyscall p) (Z.lor PTE_R PTE_U)) PTE_U = true).
    { unfold has. rewrite mk_pte_bits; [|done|done|by rewrite pte_u_bit]. by rewrite pte_r_bit, pte_u_bit. }
    rewrite U in Hu. cbn [andb] in Hu.
    replace ((USYSCALL + off) mod 4096) with off in Hu by (Z.to_euclidean_division_equations; lia).
    destruct ((addr <=? USYSCALL + off) && (USYSCALL + off <? addr + k)) eqn:Eb; [|by injection Hu].
    apply andb_true_iff in Eb as [?%Z.leb_le ?%Z.ltb_lt]. lia.
  - apply (co_rest _ _ _ _ _ _ _ C). intros va Hub Hxp.
    destruct (build_user_leaf n v T va B Hub) as [[Hup _]|[E Hva]]; [by eapply Hx|].
    apply Hno. rewrite E in Hxp. exact Hxp.
Qed.

Lemma build_uvmclear n v T va pg perm : building v0 p root n v T → 0 <= va < pgup n → is_page pg → 0 <= perm < 1024 →
  entry (vmem v) root va = mk_pte pg perm → Z.lor perm 1 ≠ 1 → Z.lor (Z.land perm (Z.lnot PTE_U)) 1 ≠ 1 →
  wp (uvmclear root va) (λ _ v', building v0 p root n v' T ∧ alloc v' = alloc v ∧ same_off (dom T) (vmem v) (vmem v')
    ∧ ∀ a, 0 <= a < MAXVA → entry (vmem v') root a =
        if a / 4096 =? va / 4096 then mk_pte pg (Z.land perm (Z.lnot PTE_U)) else entry (vmem v) root a) v.
Proof using AL PL RL.
  intros B Hva Hpg Hpm He Hp0' Hp1. destruct (build_as _ _ _ B) as [Ia _]. pose proof (build_space _ _ _ B) as Sp.
  destruct (build_size _ _ _ B) as (Hn & Hnu & Hnm). destruct top_addrs as (H0 & Hal & E1 & E2 & E3 & _).
  eapply wp_mono; [apply (uvmclear_wp root va v T pg perm Ia); [lia|done..]|].
  intros [] v' (I' & Ha & Hm & Hl & He'). split; [|done].
  apply (build_table n v T n v' T (dom T) B I'); try done; try lia.
  - intros q. unfold owned. rewrite Ha. by setoid_rewrite Hl.
  - auto.
  - intros a Ha'. assert (Hlf : leaf v root a (PTE2PA (entry (vmem v) root a))).
    { apply mapped_leaf; [lia|]. by apply (sp_user _ _ _ _ _ _ Sp). }
    apply Hl in Hlf. apply Hlf.
  - intros a Ha'. rewrite He' by lia. rewrite (proj2 (Z.eqb_neq _ _)) by (Z.to_euclidean_division_equations; lia).
    by apply (sp_empty _ _ _ _ _ _ Sp).
  - intros a Ha'. rewrite He' by lia. by rewrite (proj2 (Z.eqb_neq _ _)) by (Z.to_euclidean_division_equations; lia).
Qed.

(** exec gives up: every page goes back. *)
Lemma build_abort n v T : building v0 p root n v T →
  wp (proc_freepagetable root n) (λ _ v', free (alloc v') = free (alloc v0)
    ∧ ∀ x, ¬ in_ustack x → (∀ q, q ∈ free (alloc v0) → ¬ in_page q x) → vmem v' x = vmem v0 x) v.
Proof using AL PL RL.
  intros B. pose proof B as [Hr S Htr Hpool Hmem].
  eapply wp_mono; [apply (space_free_wp (image p root n) T v v S); [by left|done|done]|].
  intros [] v' [Hf Hm]. cbn [pagetable sz image set_sz set_pagetable] in Hf.
  assert (E : free (alloc v') = free (alloc v0)) by (apply set_eq; intros q; by rewrite Hf, Hpool).
  split; [done|]. intros x Hx Hq. rewrite <- (Hmem x Hx Hq). apply Hm. by rewrite E.
Qed.
End image.
End building.
End exec.
