(* ===== verification/ExecLoad.v ===== *)
(** Loading a program file (exec.c, Lab3): loadseg and the loop over the
    program headers, against an abstract loader that computes the image of
    user memory from the contents of the file. *)
From stdpp Require Import functions.
From S2P Require Import Prelude Riscv Vm PageTable Mappings AddrSpace UserCopy FreeWalk UvmCopy.
From S2P Require Import RiscvProc RiscvSpace RiscvSlot RiscvAlloc RiscvFork RiscvQuiet RiscvMem Exec ExecMem.

(** ** Definitions *)

(** [n] bytes of a file's contents [c] from [off]. *)
Definition file_part (c : list byte) (off n : Z) : list byte := take (Z.to_nat n) (drop (Z.to_nat off) c).

(** elf.h and fs.c: the fields are of their widths; a readi of a locked inode
    delivers the bytes of the file that there are, and a file's size is a [uint]. *)
Class ExecLaws (EE : ExecExt) (content : Z → list byte) : Prop := {
  maxarg_range : 0 < MAXARG < 2 ^ 20;
  header_sizes : 0 < sizeof_elfhdr ∧ 0 < sizeof_proghdr;
  ph_range : ∀ h, 0 <= ph_vaddr h < 2 ^ 64 ∧ 0 <= ph_memsz h < 2 ^ 64 ∧ 0 <= ph_filesz h < 2 ^ 64;
  entry_range : ∀ h, 0 <= elf_entry h < 2 ^ 64;
  content_size : ∀ ip, Z.of_nat (length (content ip)) < 2 ^ 32;
  readi_file : ∀ tr ip off n, 0 <= off < 2 ^ 32 → 0 <= n → readi_ret tr ip off n = file_part (content ip) off n }.

Section defs.
Context {R : Riscv} {L : Allocator} {KL : Layout} {PE : ProcExt} {EE : ExecExt}.

(** The program header at [off], and the [n] ones the loop reads from [off] on. *)
Definition header (c : list byte) (off : Z) : list byte := file_part c (u32 off) sizeof_proghdr.
Fixpoint headers (n : nat) (c : list byte) (off : Z) : list (list byte) :=
  match n with O => [] | S n' => header c off :: headers n' c (i32 (off + sizeof_proghdr)) end.
Definition seg_end (ph : list byte) : Z := u64 (ph_vaddr ph + ph_memsz ph).

(** The abstract loader: the size and the contents of user memory after the
    [n] headers from [off] on; [None] when the file is not a program. *)
Fixpoint program (n : nat) (c : list byte) (off sz : Z) (img : mem) : option (Z * mem) :=
  match n with
  | O => Some (sz, img)
  | S n' =>
      let ph := header c off in
      let next := i32 (off + sizeof_proghdr) in
      if negb (Z.of_nat (length ph) =? sizeof_proghdr) then None
      else if negb (ph_type ph =? ELF_PROG_LOAD) then program n' c next sz img
      else if (ph_memsz ph <? ph_filesz ph) || (seg_end ph <? ph_vaddr ph) || negb (ph_vaddr ph mod 4096 =? 0) then None
      else
        let data := file_part c (u32 (ph_off ph)) (u32 (ph_filesz ph)) in
        let sz1 := Z.max sz (seg_end ph) in
        if (sz1 =? 0) || negb (Z.of_nat (length data) =? u32 (ph_filesz ph)) then None
        else program n' c next sz1 (write_bytes img (ph_vaddr ph) data)
  end.

(** The segments lie below the top of the user memory, with room for the stack. *)
Definition fits (ph : list byte) : Prop :=
  ph_type ph = ELF_PROG_LOAD → seg_end ph <= USYSCALL - 12288 ∧ u32 (ph_filesz ph) + 4096 <= 2 ^ 32.

(** The user sees [img] in its [n] bytes. *)
Definition image_is (v : vst) (root n : Z) (img : mem) : Prop :=
  ∀ va, 0 <= va < pgup n → ubyte (vmem v) root va = Some (img va).
End defs.

Section load.
Context {R : Riscv} {L : Allocator} {KL : Layout} {PE : ProcExt} {EE : ExecExt}.
Context {RL : RiscvLaws R} {AL : AllocatorLaws L} {PL : ProcLaws PE} {content : Z → list byte} {EL : ExecLaws EE content}.
Implicit Types (v : vst) (T : tables) (img : mem).

(** ** Lemmas: bytes *)

Lemma write_bytes_in m a l x : a <= x < a + Z.of_nat (length l) →
  write_bytes m a l x = default x00 (l !! Z.to_nat (x - a)).
Proof using. intros H. unfold write_bytes. by rewrite (proj2 (Z.leb_le a x)), (proj2 (Z.ltb_lt x _)) by lia. Qed.
Lemma write_bytes_out m a l x : x < a ∨ a + Z.of_nat (length l) <= x → write_bytes m a l x = m x.
Proof using. intros H. unfold write_bytes. zcases; done. Qed.
Lemma write_bytes_app m a l1 l2 x :
  write_bytes (write_bytes m a l1) (a + Z.of_nat (length l1)) l2 x = write_bytes m a (l1 ++ l2) x.
Proof using.
  destruct (decide (a <= x < a + Z.of_nat (length l1 + length l2))).
  - rewrite (write_bytes_in m a (l1 ++ l2)) by (rewrite length_app; lia).
    destruct (decide (x < a + Z.of_nat (length l1))).
    + rewrite write_bytes_out, write_bytes_in by lia. by rewrite lookup_app_l by lia.
    + rewrite write_bytes_in by lia. rewrite lookup_app_r by lia. do 2 f_equal. lia.
  - rewrite !write_bytes_out by (rewrite ?length_app; lia). done.
Qed.
Lemma write_bytes_ext m m' a l x : m x = m' x → write_bytes m a l x = write_bytes m' a l x.
Proof using. intros E. unfold write_bytes. by rewrite E. Qed.
Lemma file_part_length c off n : 0 <= n → Z.of_nat (length (file_part c off n)) <= n.
Proof using. intros. unfold file_part. rewrite length_take. lia. Qed.
Lemma file_part_fits c off n : 0 <= off → 0 < n → Z.of_nat (length (file_part c off n)) = n → off + n <= Z.of_nat (length c).
Proof using. unfold file_part. rewrite length_take, length_drop. lia. Qed.
Lemma file_part_split c off n k : 0 <= off → 0 <= k <= n →
  file_part c off n = file_part c off k ++ file_part c (off + k) (n - k).
Proof using.
  intros. unfold file_part. replace (Z.to_nat n) with (Z.to_nat k + Z.to_nat (n - k))%nat by lia.
  rewrite <- take_take_drop, drop_drop. do 3 f_equal. lia.
Qed.
Lemma file_part_short c off n : n <= 0 → file_part c off n = [].
Proof using. intros. unfold file_part. by replace (Z.to_nat n) with O by lia. Qed.

(** ** Lemmas: the user's view *)

(** Only the memory and the trace change. *)
Definition only_vm (s s' : kst) : Prop := ∃ v t, s' = set_trace t (set_vm v s).
Lemma only_vm_refl s : only_vm s s.
Proof using. exists (vm s), (trace s). by destruct s. Qed.
Lemma only_vm_trans s s1 s2 : only_vm s s1 → only_vm s1 s2 → only_vm s s2.
Proof using. intros (v & t & ->) (v' & t' & ->). by exists v', t'. Qed.

Section building.
Context (v0 : vst) (p : proc) (T0 : tables) (root n : Z).
Context (Hoff : ∀ q x, in_ustack x → q ∈ free (alloc v0) ∨ slot_pages v0 p T0 q → ¬ in_page q x).

Lemma image_write v T img va l : building v0 p root n v T → image_is v root n img → va mod 4096 = 0 →
  0 <= va < pgup n → Z.of_nat (length l) <= 4096 →
  let v' := set_vmem (write_bytes (vmem v) (PTE2PA (entry (vmem v) root va)) l) v in
  building v0 p root n v' T ∧ image_is v' root n (write_bytes img va l).
Proof using AL Hoff PL RL.
  intros B Hi Ha Hva Hl v'. set (pa := PTE2PA _) in v'. pose proof (build_space v0 p root n v T B) as Sp.
  pose proof (size_top _ _ _ _ _ _ Sp) as HM.
  destruct (build_write v0 p T0 Hoff root n v T (write_bytes (vmem v) pa l) B) as [B' He].
  { intros x _ Hx. apply write_bytes_out. specialize (Hx pa). unfold in_page in Hx.
    assert (Hup : user_page v root n pa) by by exists va. specialize (Hx Hup). lia. }
  split; [done|]. intros a Ha'. pose proof (Hi a Ha') as Hu. rewrite ubyte_some in Hu |- * by lia.
  assert (Ea : entry (write_bytes (vmem v) pa l) root a = entry (vmem v) root a) by (apply (He a); lia).
  unfold v'. cbn [vmem set_vmem]. rewrite !Ea. destruct (_ && _); [|done]. injection Hu as Hu. f_equal.
  destruct (decide (a / 4096 = va / 4096)) as [E|E].
  - rewrite (entry_page _ root a va) in Hu |- * by (done || lia). fold pa in Hu |- *.
    assert (a mod 4096 = a - va) as Em by (Z.to_euclidean_division_equations; lia). rewrite Em in Hu |- *.
    destruct (decide (a < va + Z.of_nat (length l))).
    + rewrite !write_bytes_in by (Z.to_euclidean_division_equations; lia). do 3 f_equal. lia.
    + by rewrite !write_bytes_out by lia.
  - assert (Hne : PTE2PA (entry (vmem v) root a) ≠ pa) by (intros E'; apply E, (sp_inj _ _ _ _ _ _ Sp); done).
    destruct (sp_pages _ _ _ _ _ _ Sp (PTE2PA (entry (vmem v) root a))) as (P1 & _); [by exists a|].
    destruct (sp_pages _ _ _ _ _ _ Sp pa) as (P2 & _); [by exists va|].
    rewrite !write_bytes_out; [done|Z.to_euclidean_division_equations; lia|].
    destruct P1 as (P1 & _), P2 as (P2 & _). Z.to_euclidean_division_equations; lia.
Qed.

Lemma image_ext v img img' : image_is v root n img → (∀ x, img' x = img x) → image_is v root n img'.
Proof using. intros H E va Hva. rewrite E. by apply H. Qed.

(** ** Lemmas: loadseg *)

Lemma readi_to_wp ip dst off k s : 0 <= off < 2 ^ 32 → 0 <= k →
  wp (readi_to ip dst off k) (λ r s', r = Z.of_nat (length (file_part (content ip) off k))
    ∧ vm s' = set_vmem (write_bytes (vmem (vm s)) dst (file_part (content ip) off k)) (vm s) ∧ only_vm s s') s.
Proof using EL.
  intros Ho Hk. unfold readi_to, readi. apply wp_bind, wp_bind, wp_gets. rewrite readi_file by done.
  apply wp_bind, wp_emit, wp_ret, wp_bind, wp_vmop, wp_modify, wp_ret. split; [done|]. split; [done|].
  eexists _, _. reflexivity.
Qed.

Lemma loadseg_loop_wp fuel va ip off size i s T img : building v0 p root n (vm s) T → image_is (vm s) root n img →
  va mod 4096 = 0 → 0 <= va → va + size <= n → i mod 4096 = 0 → 0 <= i → 0 <= off < 2 ^ 32 → size + 4096 <= 2 ^ 32 →
  (i < size → off + i < 2 ^ 32) → (Z.to_nat ((size - i + 4095) / 4096) < fuel)%nat →
  let d := file_part (content ip) (off + i) (size - i) in
  wp (loadseg_loop fuel root va ip off size i) (λ r s', only_vm s s' ∧ building v0 p root n (vm s') T ∧
    (r = 0 ∧ Z.of_nat (length d) = Z.max 0 (size - i) ∧ image_is (vm s') root n (write_bytes img (va + i) d)
     ∨ r = -1 ∧ Z.of_nat (length d) < size - i)) s.
Proof using AL EL Hoff PL RL.
  revert i s img. induction fuel as [|fuel IH]; intros i s img B Hi Hva H0 Hn Him Hi0 Hof Hsz Hwr Hf; [lia|].
  cbn [loadseg_loop]. destruct (build_size v0 p root n _ _ B) as (Hsn & Hsu & _). cbv zeta.
  destruct top_addrs as (_ & _ & _ & _ & E3 & _). pose proof maxva_range as HM.
  destruct (Z.ltb_spec i size) as [Hlt|Hge].
  2:{ apply wp_ret. split; [apply only_vm_refl|]. split; [done|]. left. rewrite file_part_short by lia.
      split; [done|]. split; [cbn; lia|]. eapply image_ext; [exact Hi|]. intros x. apply write_bytes_out. cbn. lia. }
  assert (Ha : (va + i) mod 4096 = 0) by (Z.to_euclidean_division_equations; lia).
  assert (Hpd : PGROUNDDOWN (va + i) = va + i) by (rewrite pgrounddown_def by lia; Z.to_euclidean_division_equations; lia).
  rewrite (u64_small (va + i)) by lia.
  destruct (walkaddr_page root (va + i) (vm s) T) as (pa & E & Hor); [by eapply build_as|lia|]. rewrite Hpd in E.
  eapply wp_bind_done. { unfold vmop. rewrite E. reflexivity. }
  destruct Hor as [[_ Hno]|(Hpa & _ & Hl & _)]; [by rewrite Hi in Hno by lia|]. rewrite (proj2 (Z.eqb_neq _ _)) by done.
  assert (Epa : pa = PTE2PA (entry (vmem (vm s)) root (va + i))) by (by destruct Hl as (_ & _ & <-)).
  rewrite (u32_small (size - i)), (u32_small (off + i)), (u32_small (i + PGSIZE)), pgsize_4096 by (rewrite ?pgsize_4096; lia).
  set (k := if size - i <? 4096 then size - i else 4096).
  assert (Hk : k = Z.min (size - i) 4096) by (unfold k; zcases; lia).
  assert (Es : set_vm (vm s) s = s) by by destruct s. rewrite Es.
  wp_seq readi_to_wp; [lia|lia|]. intros r s1 (-> & Hv1 & Ho1).
  set (l := file_part (content ip) (off + i) k) in *.
  assert (Hll : Z.of_nat (length l) <= k) by (apply file_part_length; lia).
  destruct (image_write (vm s) T img (va + i) l B Hi Ha) as [B1 I1]; [lia|lia|]. rewrite <- Epa, <- Hv1 in B1, I1.
  assert (Hsplit : file_part (content ip) (off + i) (size - i) = l ++ file_part (content ip) (off + (i + k)) (size - (i + k))).
  { rewrite (file_part_split _ _ _ k) by lia. unfold l. do 2 f_equal; lia. }
  destruct (Z.eqb_spec (Z.of_nat (length l)) k) as [El|El]; cbn [negb].
  2:{ apply wp_ret. split; [done|]. split; [done|]. right. split; [done|]. rewrite Hsplit, length_app.
      pose proof (file_part_length (content ip) (off + (i + k)) (size - (i + k))). lia. }
  assert (Hfit : off + i + k <= Z.of_nat (length (content ip))) by (apply file_part_fits; lia || done).
  pose proof (content_size ip) as Hcs.
  destruct (decide (size - i <= 4096)) as [Hlast|Hmore].
  - (* the last page *)
    destruct fuel as [|fuel]; [exfalso; Z.to_euclidean_division_equations; lia|].
    cbn [loadseg_loop]. rewrite (proj2 (Z.ltb_ge (i + 4096) size)) by lia. apply wp_ret. split; [done|]. split; [done|].
    left. split; [done|]. rewrite Hsplit, (file_part_short _ (off + (i + k))), app_nil_r by lia. split; [lia|done].
  - assert (k = 4096) as Ek by lia. rewrite Ek in *.
    eapply wp_mono; [apply (IH (i + 4096) s1 (write_bytes img (va + i) l)); try done; try lia|].
    + Z.to_euclidean_division_equations; lia.
    + Z.to_euclidean_division_equations; lia.
    + cbv zeta. intros r s' (Ho & B' & Hor). split; [by eapply only_vm_trans|]. split; [done|]. rewrite Hsplit, length_app.
      destruct Hor as [(-> & Hlen & I')|(-> & Hlen)]; [left|right; split; [done|lia]].
      split; [done|]. split; [lia|]. eapply image_ext; [exact I'|]. intros x.
      rewrite <- write_bytes_app, El. by replace (va + (i + 4096)) with (va + i + 4096) by lia.
Qed.
End building.

(** ** Lemmas: the segments *)

Section segments.
Context (v0 : vst) (p : proc) (T0 : tables) (root : Z).
Context (Hoff : ∀ q x, in_ustack x → q ∈ free (alloc v0) ∨ slot_pages v0 p T0 q → ¬ in_page q x).
Implicit Types (n : Z).

(** Growing keeps what the user sees, and adds zeros. *)
Lemma ubyte_grown n m v T v' T' xperm va : building v0 p root n v T → n <= m <= USYSCALL →
  grown v T root (pgup n) (pgup m) (Z.lor (Z.lor PTE_R PTE_U) xperm) v' T' → 0 <= va < pgup n →
  ubyte (vmem v') root va = ubyte (vmem v) root va.
Proof using AL PL RL.
  intros B Hm G Hva. destruct (build_as v0 p root n v T B) as [Ia _].
  pose proof (build_space v0 p root n v T B) as Sp. destruct top_addrs as (H0 & Hal & E1 & E2 & E3 & _).
  destruct (build_size v0 p root n _ _ B) as (_ & Hnu & _). rewrite !ubyte_some by lia.
  assert (Ea : entry (vmem v') root va = entry (vmem v) root va) by (apply (gr_old _ _ _ _ _ _ _ _ G); lia).
  rewrite !Ea. destruct (_ && _); [|done]. f_equal. set (q := PTE2PA (entry (vmem v) root va)) in *.
  destruct (sp_pages _ _ _ _ _ _ Sp q) as (Pq & Fq & Dq); [exists va; split; [lia|done]|].
  apply (same_off_page _ _ _ q (gr_mem _ _ _ _ _ _ _ _ G) (λ r, pool_pages v root T r Ia) Pq).
  - rewrite not_elem_of_union. done.
  - unfold in_page. Z.to_euclidean_division_equations; lia.
Qed.
Lemma image_grown n m v T v' T' img xperm : building v0 p root n v T → image_is v root n img →
  (∀ a, pgup n <= a → img a = x00) → n <= m <= USYSCALL → 0 <= xperm < 1024 →
  grown v T root (pgup n) (pgup m) (Z.lor (Z.lor PTE_R PTE_U) xperm) v' T' → image_is v' root m img.
Proof using AL PL RL.
  intros B Hi Hz Hm Hx G va Hva. destruct top_addrs as (H0 & Hal & E1 & E2 & E3 & _).
  assert (Hm' : pgup m <= USYSCALL) by (unfold pgup; Z.to_euclidean_division_equations; lia).
  destruct (decide (va < pgup n)) as [Hlt|Hge].
  - rewrite (ubyte_grown n m v T v' T' xperm va B) by (done || lia). apply Hi. lia.
  - destruct (gr_new _ _ _ _ _ _ _ _ G va ltac:(lia)) as (Hv & _ & Hzero).
    destruct (gr_mk _ _ _ _ _ _ _ _ G va ltac:(lia)) as (q & Pq & E). rewrite ubyte_some, Hv by lia.
    assert (Hp : 0 <= Z.lor (Z.lor PTE_R PTE_U) xperm < 1024).
    { apply (lor_range _ _ 10); [lia| |done]. by rewrite pte_r_bit, pte_u_bit. }
    assert (Hu : has (entry (vmem v') root va) PTE_U = true).
    { unfold has. rewrite E, mk_pte_bits; [|done|done|by rewrite pte_u_bit]. rewrite pte_r_bit, pte_u_bit.
      rewrite !Z.land_lor_distr_l. change (Z.land 2 16) with 0. change (Z.land 16 16) with 16. change (Z.land 1 16) with 0.
      rewrite Z.lor_0_r, Z.lor_0_l. destruct (Z.eqb_spec (Z.lor 16 (Z.land xperm 16)) 0) as [Ez|]; [|done].
      by apply Z.lor_eq_0_iff in Ez as [? _]. }
    rewrite Hu. cbn [andb]. rewrite Hz by lia. rewrite Hzero; [done|].
    unfold in_page. Z.to_euclidean_division_equations; lia.
Qed.
Lemma build_extend n m v T img xperm : building v0 p root n v T → image_is v root n img →
  (∀ a, pgup n <= a → img a = x00) → 0 <= n → m <= USYSCALL → 0 <= xperm < 1024 →
  wp (uvmalloc root n m xperm) (λ r v', ∃ T',
    r = Z.max n m ∧ building v0 p root (Z.max n m) v' T' ∧ image_is v' root (Z.max n m) img
    ∨ r = 0 ∧ building v0 p root n v' T') v.
Proof using AL PL RL.
  intros B Hi Hz Hn Hm Hx. destruct (Z.ltb_spec m n) as [Hlt|Hge].
  - unfold uvmalloc. rewrite (proj2 (Z.ltb_lt m n)) by done. apply wp_ret. exists T. left. by rewrite Z.max_l by lia.
  - rewrite Z.max_r by done. eapply wp_mono; [apply (build_uvmalloc v0 p root n v T m xperm B); [lia|done]|].
    intros r v' (T' & [(-> & B' & G)|H]); exists T'; [left|by right]. split; [done|]. split; [done|].
    eapply (image_grown n m v T); try done; lia.
Qed.

Lemma flags2perm_range flags : 0 <= flags2perm flags < 1024.
Proof using RL. unfold flags2perm. rewrite pte_x_bit, pte_w_bit. by do 2 destruct (negb _). Qed.

Lemma zeros_above img n n' a l : (∀ x, pgup n <= x → img x = x00) → n <= n' → a + Z.of_nat (length l) <= n' →
  ∀ x, pgup n' <= x → write_bytes img a l x = x00.
Proof using.
  intros Hz Hn Hl x Hx. destruct (pgup_spec n') as [_ ?]. rewrite write_bytes_out by lia. apply Hz.
  unfold pgup in *. Z.to_euclidean_division_equations; lia.
Qed.

Lemma load_segments_wp k ip off n s T img : building v0 p root n (vm s) T → image_is (vm s) root n img →
  (∀ a, pgup n <= a → img a = x00) → n <= USYSCALL - 12288 → Forall fits (headers k (content ip) off) →
  wp (load_segments k root ip off n) (λ r s', only_vm s s' ∧ ∃ T', building v0 p root r.2 (vm s') T' ∧
    (r.1 = true → r.2 <= USYSCALL - 12288 ∧ ∃ img', program k (content ip) off n img = Some (r.2, img')
       ∧ image_is (vm s') root r.2 img')) s.
Proof using AL EL Hoff PL RL.
  revert off n s T img. induction k as [|k IH]; intros off n s T img B Hi Hz Hn Hfit.
  { apply wp_ret. split; [apply only_vm_refl|]. exists T. split; [done|]. intros _. split; [done|]. by exists img. }
  cbn [load_segments program headers] in *. apply Forall_cons in Hfit as [Hfit Hfits]. cbv zeta.
  destruct header_sizes as [_ Hsz]. pose proof (u32_range off) as Hu. destruct (build_size v0 p root n _ _ B) as (Hn0 & _).
  unfold readi at 1. apply wp_bind, wp_bind, wp_gets. rewrite readi_file by lia.
  change (file_part (content ip) (u32 off) sizeof_proghdr) with (header (content ip) off). set (ph := header _ off) in *.
  apply wp_bind, wp_emit, wp_ret. set (s1 := set_trace _ s).
  assert (Ho1 : only_vm s s1) by (exists (vm s), (trace s1); by destruct s).
  assert (Hbad : ∀ (q : option (Z * mem)) n' s' T', only_vm s s' → building v0 p root n' (vm s') T' →
    wp (mret (false, n')) (λ r s', only_vm s s' ∧ ∃ T', building v0 p root r.2 (vm s') T' ∧
      (r.1 = true → r.2 <= USYSCALL - 12288 ∧ ∃ img', q = Some (r.2, img') ∧ image_is (vm s') root r.2 img')) s').
  { intros q n' s' T' H B'. apply wp_ret. split; [done|]. exists T'. by split. }
  destruct (negb (Z.of_nat (length ph) =? sizeof_proghdr)); [by eapply Hbad|].
  destruct (Z.eqb_spec (ph_type ph) ELF_PROG_LOAD) as [Hload|]; cbn [negb].
  2:{ eapply wp_mono; [by apply (IH _ n s1 T img)|]. intros r s' (Ho & H). split; [eapply only_vm_trans; [exact Ho1|exact Ho]|exact H]. }
  destruct (Hfit Hload) as [Hend Hbig]. fold (seg_end ph). destruct (ph_range ph) as (Rv & Rm & Rf).
  destruct (Z.ltb_spec (ph_memsz ph) (ph_filesz ph)); [by eapply Hbad|].
  destruct (Z.ltb_spec (seg_end ph) (ph_vaddr ph)); [by eapply Hbad|]. rewrite pgsize_4096.
  destruct (Z.eqb_spec (ph_vaddr ph mod 4096) 0) as [Hal|]; cbn [negb orb]; [|by eapply Hbad].
  assert (Hse : seg_end ph = ph_vaddr ph + ph_memsz ph).
  { unfold seg_end, u64 in *. Z.to_euclidean_division_equations; lia. }
  assert (Hu32 : u32 (ph_filesz ph) <= ph_filesz ph) by (unfold u32; Z.to_euclidean_division_equations; lia).
  pose proof (u32_range (ph_filesz ph)) as Hfr. pose proof (u32_range (ph_off ph)) as Hor.
  apply wp_bind, wp_vmop.
  eapply wp_mono; [apply (build_extend n (seg_end ph) (vm s1) T img _ B Hi Hz); [lia|lia|apply flags2perm_range]|].
  cbv beta. intros r v1 (T1 & H1). set (s2 := set_vm v1 s1).
  assert (Ho2 : only_vm s s2) by (eapply only_vm_trans; [exact Ho1|]; by exists v1, (trace s1)).
  destruct (Z.eqb_spec r 0) as [->|Hr].
  { assert (building v0 p root n (vm s2) T1) by (destruct H1 as [(E & B1 & _)|(_ & B1)]; [assert (Z.max n (seg_end ph) = n) as E' by lia; rewrite E' in B1|]; exact B1).
    by eapply Hbad. }
  destruct H1 as [(-> & B1 & I1)|(-> & _)]; [|done]. set (n1 := Z.max n (seg_end ph)) in *.
  rewrite (proj2 (Z.eqb_neq n1 0)) by done. cbn [orb].
  apply wp_bind. unfold loadseg. rewrite pgsize_4096.
  eapply wp_mono; [apply (loadseg_loop_wp v0 p T0 root n1 Hoff _ _ ip _ _ 0 s2 T1 img B1 I1); try done; try lia|].
  { Z.to_euclidean_division_equations; lia. }
  rewrite !Z.add_0_r, Z.sub_0_r. set (d := file_part _ _ _). intros r s3 (Ho3 & B3 & [(-> & Hd & I3)|(-> & Hd)]).
  - change (0 <? 0) with false. cbn iota. rewrite (proj2 (Z.eqb_eq _ _)) by lia. cbn [negb].
    eapply wp_mono; [apply (IH _ n1 s3 T1 (write_bytes img (ph_vaddr ph) d) B3 I3); [|lia|done]|].
    + apply (zeros_above img n); [done|lia..].
    + intros r s4 (Ho & H4). split; [|done]. eapply only_vm_trans; [exact Ho2|]. eapply only_vm_trans; [exact Ho3|exact Ho].
  - change (-1 <? 0) with true. cbn iota. eapply Hbad; [eapply only_vm_trans; [exact Ho2|exact Ho3]|exact B3].
Qed.
End segments.
End load.
