(* ===== verification/ExecArgs.v ===== *)
(** The stack of a new image (exec.c, Lab3): the argument strings and the
    array of pointers to them, pushed below the top of user memory. *)
From stdpp Require Import functions.
From S2P Require Import Prelude Riscv Vm PageTable Mappings AddrSpace UserCopy FreeWalk UvmCopy.
From S2P Require Import RiscvProc RiscvSpace RiscvSlot RiscvAlloc RiscvFork RiscvQuiet RiscvMem Exec ExecMem ExecLoad.

(** ** Definitions *)
Section defs.
Context {R : Riscv} {L : Allocator} {KL : Layout} {PE : ProcExt} {EE : ExecExt}.

(** The user sees the bytes [l] at [a]; the 64-bit word [u] at [a]. *)
Definition ubytes (v : vst) (root a : Z) (l : list byte) : Prop :=
  ∀ (j : nat) b, l !! j = Some b → ubyte (vmem v) root (a + Z.of_nat j) = Some b.
Definition uword (v : vst) (root a u : Z) : Prop :=
  ∀ k, 0 <= k < 8 → ubyte (vmem v) root (a + k) = Some (Zbyte (u / 256 ^ k)).

(** A buffer of the kernel that exec reads. *)
Definition off_ustack (a n : Z) : Prop := a + n <= ustack ∨ ustack + 8 * (MAXARG + 1) <= a.
Definition kernel_buffer (Pool : Z → Prop) (a n : Z) : Prop := off_pool Pool a n ∧ off_ustack a n.

(** [argv] is an array of pointers to the strings [args], ended by 0. *)
Record kernel_args (Pool : Z → Prop) (m : mem) (fuel : nat) (argv : Z) (args : list (Z * list byte)) : Prop := {
  ka_ptr : ∀ (k : nat) a w, args !! k = Some (a, w) → load64 m (argv + 8 * Z.of_nat k) = a ∧ a ≠ 0
    ∧ cstring fuel m a = Some w ∧ kernel_buffer Pool a (Z.of_nat (length w) + 1);
  ka_end : load64 m (argv + 8 * Z.of_nat (length args)) = 0;
  ka_array : kernel_buffer Pool argv (8 * (Z.of_nat (length args) + 1)) }.

(** The strings [ws] lie in user memory between [sp] and [n], and their
    addresses in [ustack]. *)
Definition pushed (v : vst) (root n sp : Z) (ws : list (list byte)) : Prop :=
  ∀ (j : nat) w, ws !! j = Some w → ∃ u, sp <= u ∧ u + Z.of_nat (length w) + 1 <= n
    ∧ ubytes v root u (w ++ [x00])
    ∧ ∀ k, 0 <= k < 8 → vmem v (ustack + 8 * Z.of_nat j + k) = Zbyte (u / 256 ^ k).

(** What main(argc, argv) finds: at [sp] the array of the addresses of the
    strings [ws], each with its NUL, ended by 0; all of it below [n]. *)
Definition args_at (v : vst) (root sp n : Z) (ws : list (list byte)) : Prop :=
  (∀ (j : nat) w, ws !! j = Some w → ∃ u, sp <= u ∧ u + Z.of_nat (length w) + 1 <= n
     ∧ uword v root (sp + 8 * Z.of_nat j) u ∧ ubytes v root u (w ++ [x00]))
  ∧ sp + 8 * (Z.of_nat (length ws) + 1) <= n ∧ uword v root (sp + 8 * Z.of_nat (length ws)) 0.
End defs.

Section args.
Context {R : Riscv} {L : Allocator} {KL : Layout} {PE : ProcExt} {EE : ExecExt}.
Context {RL : RiscvLaws R} {AL : AllocatorLaws L} {PL : ProcLaws PE} {content : Z → list byte} {EL : ExecLaws EE content}.
Implicit Types (v : vst) (T : tables) (img : mem).

(** ** Lemmas: strings *)

Lemma cstring_bytes fuel m a l : cstring fuel m a = Some l →
  ∀ (j : nat) b, (l ++ [x00]) !! j = Some b → m (a + Z.of_nat j) = b.
Proof using.
  revert a l. induction fuel as [|fuel IH]; intros a l H j b Hj; [done|]. cbn [cstring] in H.
  case_bool_decide as E.
  - injection H as <-. destruct j as [|j]; [|by destruct j]. injection Hj as <-. by rewrite Z.add_0_r.
  - destruct (cstring fuel m (a + 1)) as [l'|] eqn:Hl; [|done]. injection H as <-. destruct j as [|j].
    + injection Hj as <-. by rewrite Z.add_0_r.
    + rewrite <- (IH _ _ Hl j b Hj). f_equal. lia.
Qed.
Lemma cstring_ext fuel m m' a l : cstring fuel m a = Some l →
  (∀ x, a <= x < a + Z.of_nat (length l) + 1 → m' x = m x) → cstring fuel m' a = Some l.
Proof using.
  revert a l. induction fuel as [|fuel IH]; intros a l H Hm; [done|]. cbn [cstring] in *.
  case_bool_decide as E.
  - injection H as <-. rewrite Hm by (cbn; lia). by rewrite bool_decide_true.
  - destruct (cstring fuel m (a + 1)) as [l'|] eqn:Hl; [|done]. injection H as <-. cbn [length] in Hm.
    rewrite Hm by lia. rewrite bool_decide_false by done. rewrite (IH _ l'); [done|done|]. intros x Hx. apply Hm. lia.
Qed.
Lemma cstring_fuel fuel m a l : cstring fuel m a = Some l → (length l < fuel)%nat.
Proof using.
  revert a l. induction fuel as [|fuel IH]; intros a l H; [done|]. cbn [cstring] in H. case_bool_decide.
  - injection H as <-. cbn. lia.
  - destruct (cstring fuel m (a + 1)) as [l'|] eqn:Hl; [|done]. injection H as <-. apply IH in Hl. cbn. lia.
Qed.

Section building.
Context (v0 : vst) (p : proc) (T0 : tables) (root n : Z).
Context (Hoff : ∀ q x, in_ustack x → q ∈ free (alloc v0) ∨ slot_pages v0 p T0 q → ¬ in_page q x).
Context (Pool : Z → Prop) (HPool : ∀ q, q ∈ free (alloc v0) ∨ slot_pages v0 p T0 q → Pool q).

(** What the kernel's buffers hold does not change. *)
Lemma buffer_kept v T a k x : building v0 p root n v T → kernel_buffer Pool a k → a <= x < a + k → vmem v x = vmem v0 x.
Proof using HPool.
  intros B [Hp Hu] Hx. apply (bd_mem _ _ _ _ _ _ B).
  - unfold in_ustack. destruct Hu; lia.
  - intros q Hq. apply (Hp x q Hx). left. auto.
Qed.
Lemma buffer_off_user v T a k : building v0 p root n v T → off_pool Pool a k → trampoline ∉ free (alloc v0) →
  slot_ok v0 p T0 → pagetable p ≠ 0 → off_user v root a k.
Proof using AL HPool PL RL.
  intros B Hp Htr S0 Hp0 x Hx va q Hlf. destruct (build_as _ _ _ _ _ _ B) as [_ Hl].
  apply (Hp x q Hx). destruct (Hl va q Hlf) as [->|Hsp]; [by right|left]. apply HPool.
  destruct (so_space _ _ _ S0 Hp0) as (Ht & Hu & _). destruct Hsp as [Hq0 [->|[->|[Hq|[_ Hq]]]]].
  - right. split; auto.
  - right. split; auto.
  - left. apply (bd_pool _ _ _ _ _ _ B). auto.
  - left. apply (bd_pool _ _ _ _ _ _ B). auto.
Qed.

(** A store to [ustack]. *)
Lemma build_ustack k u v T : building v0 p root n v T → 0 <= k <= MAXARG →
  let v' := set_vmem (store64 (vmem v) (ustack + 8 * k) u) v in
  building v0 p root n v' T ∧ ∀ va, 0 <= va < pgup n → ubyte (vmem v') root va = ubyte (vmem v) root va.
Proof using AL Hoff PL RL.
  intros B Hk v'. destruct (build_write v0 p T0 Hoff root n v T (store64 (vmem v) (ustack + 8 * k) u) B) as [B' He].
  { intros x Hx _. apply store64_other. unfold in_ustack in Hx. lia. }
  split; [done|]. intros va Hva. pose proof (build_space _ _ _ _ _ _ B) as Sp. pose proof (size_top _ _ _ _ _ _ Sp).
  assert (Ea : entry (vmem v') root va = entry (vmem v) root va) by (apply He; lia). rewrite !ubyte_some, !Ea by lia.
  destruct (_ && _); [|done]. f_equal. apply store64_other.
  set (q := PTE2PA (entry (vmem v) root va)). assert (Hq : q ∈ free (alloc v0)).
  { apply (bd_pool _ _ _ _ _ _ B). right; right. by exists va. }
  destruct (decide (ustack + 8 * k <= q + va mod 4096 < ustack + 8 * k + 8)); [|lia]. exfalso.
  apply (Hoff q (q + va mod 4096)); [unfold in_ustack; lia|by left|]. unfold in_page. Z.to_euclidean_division_equations; lia.
Qed.

Lemma ubytes_same v v' a l lo hi : (∀ va, lo <= va < hi → ubyte (vmem v') root va = ubyte (vmem v) root va) →
  lo <= a → a + Z.of_nat (length l) <= hi → ubytes v root a l → ubytes v' root a l.
Proof using.
  intros Hs H1 H2 H j b Hj. rewrite Hs; [by apply H|]. apply lookup_lt_Some in Hj. lia.
Qed.

(** ** Lemmas: the strings *)

Lemma pushed_nil v sp : pushed v root n sp [].
Proof using. intros j w Hj. done. Qed.
Lemma pushed_mono v v' sp sp' ws : pushed v root n sp ws → sp' <= sp →
  (∀ va, sp <= va < n → ubyte (vmem v') root va = ubyte (vmem v) root va) →
  (∀ x, ustack <= x < ustack + 8 * Z.of_nat (length ws) → vmem v' x = vmem v x) → pushed v' root n sp' ws.
Proof using.
  intros H Hsp Hu Hm j w Hj. destruct (H j w Hj) as (u & H1 & H2 & Hb & Hd). exists u. split; [lia|]. split; [done|]. split.
  - eapply (ubytes_same v v' u _ sp n); try done. rewrite length_app. cbn. lia.
  - intros k Hk. apply lookup_lt_Some in Hj. rewrite Hm by lia. by apply Hd.
Qed.
(** One more string at [u]. *)
Lemma pushed_snoc v sp u ws w : pushed v root n sp ws → sp <= u → u + Z.of_nat (length w) + 1 <= n →
  ubytes v root u (w ++ [x00]) →
  (∀ k, 0 <= k < 8 → vmem v (ustack + 8 * Z.of_nat (length ws) + k) = Zbyte (u / 256 ^ k)) →
  pushed v root n sp (ws ++ [w]).
Proof using.
  intros H H1 H2 Hb Hd j w' Hj. apply lookup_app_Some in Hj as [Hj|[Hge Hj]]; [by apply H|].
  apply list_lookup_singleton_Some in Hj as [Hj <-]. exists u. split_and!; try done.
  replace j with (length ws) by lia. done.
Qed.
(** The string that copyout has put at [u]. *)
Lemma copied_string v v' T u a fuel w : copied_out v T root u a (Z.of_nat (length w) + 1) v' →
  cstring fuel (vmem v) a = Some w → ubytes v' root u (w ++ [x00]).
Proof using.
  intros C Hs j b Hj. assert (Hlt : (j < length (w ++ [x00]))%nat) by by eapply lookup_lt_Some.
  rewrite length_app in Hlt. cbn in Hlt. rewrite (co_user _ _ _ _ _ _ _ C).
  rewrite (proj2 (Z.leb_le _ _)), (proj2 (Z.ltb_lt _ _)) by lia. cbn [andb]. f_equal.
  rewrite <- (cstring_bytes _ _ _ _ Hs j b Hj). f_equal. lia.
Qed.
Lemma store64_digit m a u k : 0 <= k < 8 → store64 m a u (a + k) = Zbyte (u / 256 ^ k).
Proof using.
  intros Hk. unfold store64, store. rewrite (proj2 (Z.leb_le a _)), (proj2 (Z.ltb_lt _ _)) by lia. cbn [andb].
  by replace (a + k - a) with k by lia.
Qed.

(** The stack pointer below a string of [len] bytes. *)
Lemma sp_below sp len : 0 <= sp < 2 ^ 40 → 0 < len < 2 ^ 62 →
  let sp1 := u64 (sp - len) in let sp2 := u64 (sp1 - sp1 mod 16) in
  0 <= sp2 < 2 ^ 64 ∧ (0 <= sp2 ∧ sp2 + len <= sp ∧ sp2 mod 16 = 0 ∨ 2 ^ 40 <= sp2).
Proof using.
  intros Hsp Hlen. cbv zeta. split; [apply u64_range|]. unfold u64. destruct (decide (len <= sp)).
  - left. rewrite (Z.mod_small (sp - len)) by lia. rewrite Z.mod_small; Z.to_euclidean_division_equations; lia.
  - right. assert ((sp - len) mod 2 ^ 64 = sp - len + 2 ^ 64) as ->.
    { rewrite <- (Z.mod_small (sp - len + 2 ^ 64) (2 ^ 64)) by lia. rewrite Z.add_mod, Z.mod_same, Z.add_0_r, Z.mod_mod by lia. done. }
    rewrite Z.mod_small; Z.to_euclidean_division_equations; lia.
Qed.

Context (S0 : slot_ok v0 p T0) (Hp0 : pagetable p ≠ 0) (Htr0 : trampoline ∉ free (alloc v0)).
Context (Hn : 8192 <= n <= USYSCALL) (Hnm : n mod 4096 = 0).

(** copyout to the stack at [sp2], which lies below [sp] or is out of range. *)
Lemma stack_copyout v T sp sp2 src len : building v0 p root n v T → 0 < len → off_pool Pool src len → sp <= n →
  0 <= sp2 < 2 ^ 64 → 0 <= sp2 ∧ sp2 + len <= sp ∨ 2 ^ 40 <= sp2 →
  wp (copyout root sp2 src len) (λ r v', building v0 p root n v' T
    ∧ (r = 0 ∧ sp2 + len <= sp ∧ copied_out v T root sp2 src len v'
       ∨ r = -1 ∧ ∀ va, va < sp2 → ubyte (vmem v') root va = ubyte (vmem v) root va)) v.
Proof using AL Hn Hoff HPool Hp0 Htr0 PL RL S0.
  intros B Hlen Hsrc Hsp H2 Hor. destruct top_addrs as (_ & _ & _ & _ & E3 & _). pose proof maxva_range as HM.
  eapply wp_mono; [apply (build_copyout v0 p T0 Hoff root n v T sp2 src len B H2)|]; [lia|lia|by eapply buffer_off_user|].
  intros r v' (B' & k & Hk & Hr & Hk0 & C). split; [done|]. destruct Hr as [[-> ->]|[-> Hlt]]; [left|right]; (split; [done|]).
  - split; [|done]. destruct Hor; [lia|]. specialize (Hk0 ltac:(lia)). lia.
  - intros va Hva. rewrite (co_user _ _ _ _ _ _ _ C). by rewrite (proj2 (Z.leb_gt _ _)) by lia.
Qed.

Lemma push_args_wp m fuel argv args pre rest sp s T : kernel_args Pool (vmem v0) fuel argv args → args = pre ++ rest →
  Z.of_nat fuel < 2 ^ 62 → building v0 p root n (vm s) T → n - 4096 <= sp <= n →
  pushed (vm s) root n sp (pre.*2) → Z.of_nat (length pre) <= MAXARG → (Z.to_nat (MAXARG - Z.of_nat (length pre)) < m)%nat →
  wp (push_args m fuel root argv (n - 4096) (Z.of_nat (length pre)) sp) (λ r s', only_vm s s'
    ∧ building v0 p root n (vm s') T
    ∧ (∀ va, 0 <= va < n - 4096 → ubyte (vmem (vm s')) root va = ubyte (vmem (vm s)) root va)
    ∧ ∀ k sp', r = Some (k, sp') → k = Z.of_nat (length args) ∧ k <= MAXARG ∧ n - 4096 <= sp' <= n
        ∧ pushed (vm s') root n sp' (args.*2)) s.
Proof using AL EL Hn Hnm Hoff HPool Hp0 Htr0 PL RL S0.
  intros KA EA Hfu. revert pre rest sp s EA. induction m as [|m IH]; intros pre rest sp s EA B Hsp HP Hk Hm; [lia|].
  set (k := Z.of_nat (length pre)) in *. pose proof maxarg_range as HMA.
  destruct top_addrs as (_ & _ & _ & _ & E3 & _). pose proof maxva_range as HM.
  assert (Es : set_vm (vm s) s = s) by by destruct s.
  cbn [push_args]. apply wp_bind, wp_vmop, wp_gets. rewrite Es.
  assert (Hload : load64 (vmem (vm s)) (argv + 8 * k) = load64 (vmem v0) (argv + 8 * k)).
  { apply load64_ext. intros x Hx. apply (buffer_kept (vm s) T argv (8 * (Z.of_nat (length args) + 1)) x B); [apply KA|].
    rewrite EA, length_app. unfold k in Hx. lia. }
  rewrite Hload. destruct rest as [|[a w] rest].
  { rewrite app_nil_r in EA. assert (Ek : k = Z.of_nat (length args)) by by rewrite EA.
    rewrite Ek, (ka_end _ _ _ _ _ KA). apply wp_ret.
    split; [apply only_vm_refl|]. split; [done|]. split; [done|]. intros k' sp' [= <- <-]. rewrite EA. split_and!; [by rewrite <- EA|lia..|done]. }
  assert (Hlk : args !! length pre = Some (a, w)) by (rewrite EA; apply list_lookup_middle; done).
  destruct (ka_ptr _ _ _ _ _ KA _ _ _ Hlk) as (Hld & Ha0 & Hstr & Hbuf). fold k in Hld. rewrite Hld.
  rewrite (proj2 (Z.eqb_neq a 0)) by done.
  destruct (Z.leb_spec MAXARG k) as [Hge|Hlt].
  { apply wp_ret. split; [apply only_vm_refl|]. split; [done|]. by split. }
  pose proof (cstring_fuel _ _ _ _ Hstr) as Hwl.
  assert (Hstr' : cstring fuel (vmem (vm s)) a = Some w).
  { eapply cstring_ext; [exact Hstr|]. intros x Hx. eapply (buffer_kept (vm s) T a _ x B Hbuf). lia. }
  apply wp_bind. unfold wp at 1. unfold string_at. rewrite Hstr'. cbv zeta. set (len := Z.of_nat (length w) + 1).
  destruct (sp_below sp len) as (Hr2 & Hor2); [lia|unfold len; lia|]. cbv zeta in Hr2, Hor2.
  set (sp2 := u64 (u64 (sp - len) - u64 (sp - len) mod 16)) in *.
  destruct (Z.ltb_spec sp2 (n - 4096)) as [Hlow|Hok].
  { apply wp_ret. split; [apply only_vm_refl|]. split; [done|]. by split. }
  apply wp_bind, wp_vmop.
  eapply wp_mono; [apply (stack_copyout (vm s) T sp sp2 a len B); [unfold len; lia|apply Hbuf|lia|lia|lia]|].
  intros r v1 [B1 [(-> & Hfit & C)|[-> Hsame]]]; cbv beta.
  2:{ change (-1 <? 0) with true. cbn iota. apply wp_ret. split; [exists v1, (trace s); by destruct s|]. split; [done|].
      split; [|done]. intros va Hva. apply Hsame. lia. }
  change (0 <? 0) with false. cbn iota. unfold set_ustack. apply wp_bind, wp_vmop, wp_modify.
  destruct (build_ustack k sp2 v1 T B1) as [B2 Hub2]; [lia|]. set (v2 := set_vmem (store64 _ _ _) _) in *.
  pose proof (pgup_aligned n Hnm) as Epg. rewrite Epg in Hub2.
  assert (Hub : ∀ va, 0 <= va < n → va < sp2 ∨ sp2 + len <= va → ubyte (vmem v2) root va = ubyte (vmem (vm s)) root va).
  { intros va Hva Hout. rewrite Hub2, (co_user _ _ _ _ _ _ _ C) by done.
    destruct ((sp2 <=? va) && (va <? sp2 + len)) eqn:Eb; [|done]. apply andb_true_iff in Eb as [?%Z.leb_le ?%Z.ltb_lt]. lia. }
  assert (HP2 : pushed v2 root n sp2 (pre.*2 ++ [w])).
  { apply (pushed_snoc v2 sp2 sp2); [|lia|unfold len in *; lia| |].
    - apply (pushed_mono (vm s) v2 sp); [done|unfold len in *; lia|intros va Hva; apply Hub; unfold len in *; lia|].
      rewrite length_fmap. intros x Hx. unfold v2. cbn [vmem set_vmem]. rewrite store64_other by (unfold k; lia).
      apply (co_rest _ _ _ _ _ _ _ C). intros va Hva Hxp. apply (Hoff (PTE2PA (entry (vmem (vm s)) root va)) x); [unfold in_ustack; lia| |done].
      destruct (build_user_leaf _ _ _ _ _ _ _ B Hva) as [[Hup _]|[-> _]].
      + left. apply (bd_pool _ _ _ _ _ _ B). auto.
      + right. destruct (so_space _ _ _ S0 Hp0) as (? & ? & _). split; auto.
    - eapply (ubytes_same v1 v2 sp2 _ 0 n); [intros va Hva; by apply Hub2|lia|rewrite length_app; cbn; unfold len in *; lia|].
      by eapply copied_string.
    - intros j Hj. rewrite length_fmap. unfold v2. cbn [vmem set_vmem]. by apply store64_digit. }
  assert (EA' : args = (pre ++ [(a, w)]) ++ rest) by by rewrite <- app_assoc.
  assert (Ek : k + 1 = Z.of_nat (length (pre ++ [(a, w)]))) by (rewrite length_app; cbn; unfold k; lia). rewrite Ek.
  eapply wp_mono; [apply (IH (pre ++ [(a, w)]) rest sp2 (set_vm v2 (set_vm v1 s)) EA' B2)|].
  - unfold len in *. lia.
  - by rewrite fmap_app.
  - lia.
  - lia.
  - intros r s' (Ho & B' & Hlow & Hr). split; [|split; [done|split; [|done]]].
    + eapply only_vm_trans; [|exact Ho]. exists v2, (trace s). by destruct s.
    + intros va Hva. rewrite Hlow by done. apply Hub; lia.
Qed.
End building.
End args.
