(* ===== verification/ExecProps.v ===== *)
(** exec as a whole (exec.c, Lab3): the switch to the new image, the failures,
    and the properties. *)
From stdpp Require Import functions.
From S2P Require Import Prelude Riscv Vm PageTable Mappings AddrSpace UserCopy FreeWalk UvmCopy.
From S2P Require Import RiscvProc RiscvSpace RiscvSlot RiscvAlloc RiscvFork RiscvQuiet RiscvMem Exec ExecMem ExecLoad ExecArgs.

(** ** Definitions *)
Section defs.
Context {R : Riscv} {L : Allocator} {KL : Layout} {PE : ProcExt} {EE : ExecExt}.

(** The ELF header of a file; the abstract loader on the whole file, which
    must have a whole header with the magic number; a file whose segments leave
    room for the stack. *)
Definition elf_header (c : list byte) : list byte := file_part c 0 sizeof_elfhdr.
Definition load_program (c : list byte) : option (Z * mem) :=
  let elf := elf_header c in
  if negb (Z.of_nat (length elf) =? sizeof_elfhdr) || negb (elf_magic elf =? ELF_MAGIC) then None
  else program (Z.to_nat (elf_phnum elf)) c (i32 (elf_phoff elf)) 0 (λ _, x00).
Definition runnable (c : list byte) : Prop :=
  let elf := elf_header c in
  Forall fits (headers (Z.to_nat (elf_phnum elf)) c (i32 (elf_phoff elf))).

(** A successful exec of process [i]: its slot was [p] and is now [p'], its
    tables are [T]; the file's contents are [c], the arguments [ws]. *)
Record executed (Pool : Z → Prop) (s : kst) (Ts : nat → tables) (i : nat) (p : proc) (c : list byte)
    (ws : list (list byte)) (s' : kst) (p' : proc) (T : tables) : Prop := {
  ex_inv : kernel_inv Pool s' (<[i := T]> Ts);
  ex_slot : on_slot Pool s Ts i s' p' T;
  ex_fields : ∃ root n nm, root ≠ 0 ∧ p' = image (set_name nm p) root n;
  ex_image : ∃ lo img, load_program c = Some (lo, img) ∧ sz p' = pgup lo + 8192
    ∧ image_is (vm s') (pagetable p') lo img;
  ex_guard : ∀ va, sz p' - 8192 <= va < sz p' - 4096 → ubyte (vmem (vm s')) (pagetable p') va = None;
  ex_stack : ∃ sp, sz p' - 4096 <= sp < sz p' ∧ sp mod 16 = 0 ∧ args_at (vm s') (pagetable p') sp (sz p') ws
    ∧ load64 (vmem (vm s')) (trapframe p + tf_sp) = sp ∧ load64 (vmem (vm s')) (trapframe p + tf_a1) = sp
    ∧ load64 (vmem (vm s')) (trapframe p + tf_epc) = elf_entry (elf_header c);
  ex_shared : ∀ x, in_page (usyscall p) x → vmem (vm s') x = vmem (vm s) x }.

(** The buffers and the file of a call of exec by a process in state [s]. *)
Record exec_call (content : Z → list byte) (Pool : Z → Prop) (s : kst) (fuel : nat) (path argv : Z) (args : list (Z * list byte)) (pstr : list byte) : Prop := {
  ec_ustack : off_pool Pool ustack (8 * (MAXARG + 1));
  ec_fuel : Z.of_nat fuel < 2 ^ 62;
  ec_args : kernel_args Pool (vmem (vm s)) fuel argv args;
  ec_path : cstring fuel (vmem (vm s)) path = Some pstr ∧ kernel_buffer Pool path (Z.of_nat (length pstr) + 1);
  ec_file : runnable (content (namei_path (trace s ++ [EBeginOp]) pstr)) }.
End defs.

Section commit.
Context {R : Riscv} {L : Allocator} {KL : Layout} {PE : ProcExt} {EE : ExecExt}.
Context {RL : RiscvLaws R} {AL : AllocatorLaws L} {PL : ProcLaws PE}.
Implicit Types (v : vst) (T : tables).

(** ** Lemmas: the switch *)

Section commit.
Context (v0 : vst) (p : proc) (T0 : tables) (root n : Z).
Context (S0 : slot_ok v0 p T0) (Hp0 : pagetable p ≠ 0).
Context (Hoff : ∀ q x, in_ustack x → q ∈ free (alloc v0) ∨ slot_pages v0 p T0 q → ¬ in_page q x).

(** While the new image is built the old one is intact. *)
Lemma old_slot v T : building v0 p root n v T →
  slot_ok v p T0 ∧ ∀ q, slot_pages v p T0 q ↔ slot_pages v0 p T0 q.
Proof using AL Hoff PL RL S0.
  intros B. apply slot_frame; [done|..].
  - intros q x Hq Hx. destruct (so_page _ _ _ S0 q Hq) as (Pq & Fq & _). apply (bd_mem _ _ _ _ _ _ B).
    + intros Hu. by apply (Hoff q x Hu); [right|].
    + intros r Hr Hx'. apply Fq. rewrite (in_page_eq q r x); [done|done| |done..]. by eapply free_page.
  - intros q Hq Hf. destruct (so_page _ _ _ S0 q Hq) as (_ & Fq & _). apply Fq, (bd_pool _ _ _ _ _ _ B). by left.
Qed.

(** The new pages are not the old ones. *)
Lemma new_page v T q : building v0 p root n v T → q ∈ dom T ∨ user_page v root n q →
  ¬ slot_pages v0 p T0 q.
Proof using S0.
  intros B Hq Hs. destruct (so_page _ _ _ S0 q Hs) as (_ & Fq & _). apply Fq, (bd_pool _ _ _ _ _ _ B). tauto.
Qed.

(** A change of the trap frame alone. *)
Lemma frame_write v p' T m' : slot_ok v p' T → pagetable p' ≠ 0 →
  (∀ x, ¬ in_page (trapframe p') x → m' x = vmem v x) →
  slot_ok (set_vmem m' v) p' T ∧ (∀ q, slot_pages (set_vmem m' v) p' T q ↔ slot_pages v p' T q)
  ∧ same_entries v (set_vmem m' v) (pagetable p').
Proof using PL RL.
  intros S Hp Hm. destruct (slot_write v (set_vmem m' v) p' T S eq_refl) as (S' & Hpg & He); [|by auto].
  intros q x Hq Hx. apply Hm. intros Hx'. destruct (so_space _ _ _ S Hp) as (Ht & _).
  destruct (so_top _ _ _ S _ Ht (or_introl eq_refl)) as [Hd _]. apply Hd.
  assert (Hs : slot_pages v p' T q) by (split; [apply (slot_page_nz v p' T q S Hp)|]; auto).
  rewrite (in_page_eq (trapframe p') q x); [done| |apply (so_page _ _ _ S q Hs)|done..]. by apply (slot_tops _ _ _ S Hp).
Qed.

Lemma commit_wp v T m1 : building v0 p root n v T → (∀ x, ¬ in_page (trapframe p) x → m1 x = vmem v x) →
  wp (proc_freepagetable (pagetable p) (sz p)) (λ _ v2, slot_ok v2 (image p root n) T ∧ same_entries v v2 root
    ∧ (∀ q, slot_pages v2 (image p root n) T q ∨ q ∈ free (alloc v2) ↔ slot_pages v0 p T0 q ∨ q ∈ free (alloc v0))
    ∧ (∀ q x, slot_pages v (image p root n) T q → in_page q x → vmem v2 x = m1 x)
    ∧ ∀ x, ¬ in_ustack x → (∀ q, slot_pages v0 p T0 q ∨ q ∈ free (alloc v0) → ¬ in_page q x) → vmem v2 x = vmem v0 x)
    (set_vmem m1 v).
Proof using AL Hoff Hp0 PL RL S0.
  intros B Hm. pose proof B as [Hr S Htr Hpool Hmem]. set (v1 := set_vmem m1 v). destruct (old_slot v T B) as [So Ho].
  destruct (frame_write v p T0 m1 So Hp0 Hm) as (So1 & Ho1 & Heo).
  destruct (frame_write v (image p root n) T m1 S Hr Hm) as (S1 & Hp1 & He1). fold v1 in So1, Ho1, Heo, S1, Hp1, He1.
  eapply wp_mono; [apply (space_free_wp p T0 v1 v1 So1); [by left|done|done]|]. intros [] v2 [Hf2 Hm2].
  assert (Hold : ∀ q, q ∈ dom T0 ∨ user_page v1 (pagetable p) (sz p) q ↔ slot_pages v0 p T0 q ∧ q ≠ trapframe p ∧ q ≠ usyscall p).
  { intros q. rewrite (image_pages v1 p T0 q So1 Hp0). by rewrite Ho1, Ho. }
  assert (Hnew : ∀ q, q ∈ dom T ∨ user_page v root n q ↔ slot_pages v (image p root n) T q ∧ q ≠ trapframe p ∧ q ≠ usyscall p)
    by (intros q; apply (image_pages v (image p root n) T q S Hr)).
  assert (Hno : ∀ q, slot_pages v1 (image p root n) T q → q ∉ free (alloc v2)).
  { intros q Hq Hf. apply Hp1 in Hq. apply Hf2 in Hf as [Hf|Hf%Hold].
    - by destruct (so_page _ _ _ S q Hq) as (_ & ? & _).
    - destruct Hf as (Hs & H1 & H2). eapply (new_page v T q B); [apply Hnew|]; done. }
  destruct (slot_frame v1 v2 (image p root n) T S1) as [S2 Hp2]; [|done|].
  { intros q x Hq Hx. refine (same_off_page _ _ _ q Hm2 (λ r, free_page _ r) _ (Hno q Hq) x Hx). by apply (so_page _ _ _ S1). }
  split; [done|]. split; [|split; [|split]].
  - intros va Hva. destruct (sp_pt _ _ _ _ _ _ (build_space _ _ _ _ _ _ B)) as [It _].
    assert (Hsame : ∀ q x, q ∈ dom T → in_page q x → vmem v2 x = vmem v1 x).
    { intros q x Hq Hx. assert (Hs : slot_pages v1 (image p root n) T q).
      { apply Hp1. split; [apply (slot_page_nz v (image p root n) T q S Hr)|]; auto. }
      refine (same_off_page _ _ _ q Hm2 (λ r, free_page _ r) _ (Hno q Hs) x Hx). by apply (so_page _ _ _ S1). }
    destruct (sp_pt _ _ _ _ _ _ (proj2 (proj2 (so_space _ _ _ S1 Hr)))) as [It1 _].
    destruct (table_frame _ _ _ _ It1 Hsame) as [_ He2]. rewrite <- He1 by done. by apply He2.
  - intros q. rewrite Hp2, Hp1, Hf2, Hold, Hpool. change (alloc v1) with (alloc v). specialize (Hnew q).
    assert (Ht : q = trapframe p ∨ q = usyscall p → slot_pages v (image p root n) T q ∧ slot_pages v0 p T0 q).
    { destruct (so_space _ _ _ S0 Hp0) as (? & ? & _). intros [->| ->]; split; split; auto. }
    clear -Hnew Ht. destruct (decide (q = trapframe p)), (decide (q = usyscall p)); tauto.
  - intros q x Hq Hx. refine (same_off_page _ _ _ q Hm2 (λ r, free_page _ r) _ (Hno q _) x Hx); [|by apply Hp1].
    by apply (so_page _ _ _ S).
  - intros x Hu Hx. rewrite Hm2.
    + cbn [v1 vmem set_vmem]. unfold v1. cbn. rewrite Hm; [apply Hmem; [done|]|].
      * intros q Hq. apply Hx. by right.
      * apply Hx. left. destruct (so_space _ _ _ S0 Hp0) as (? & _). split; auto.
    + intros q [Hq|Hq%Hold]%Hf2; apply Hx; [right; apply Hpool; by left|left; tauto].
Qed.
End commit.
End commit.

Section exec.
Context {R : Riscv} {L : Allocator} {KL : Layout} {PE : ProcExt} {EE : ExecExt}.
Context {RL : RiscvLaws R} {AL : AllocatorLaws L} {PL : ProcLaws PE} {content : Z → list byte} {EL : ExecLaws EE content}.
Implicit Types (v : vst) (T : tables) (img : mem).

Section run.
Context (Pool : Z → Prop) (s0 : kst) (Ts : nat → tables) (i : nat) (p : proc).
Context (I0 : kernel_inv Pool s0 Ts) (Hi : procs s0 !! i = Some p) (Hst : state p ≠ UNUSED).
Context (Hus : off_pool Pool ustack (8 * (MAXARG + 1))).
Notation v0 := (vm s0).

Lemma run_slot : slot_ok v0 p (Ts i) ∧ pagetable p ≠ 0 ∧ trampoline ∉ free (alloc v0).
Proof using I0 Hi Hst.
  split; [by apply (si_slot _ _ _ _ (ki_space _ _ _ I0))|]. split; [by eapply ki_used|apply (ki_space _ _ _ I0)].
Qed.
Lemma run_pool q : q ∈ free (alloc v0) ∨ slot_pages v0 p (Ts i) q → Pool q.
Proof using I0 Hi.
  intros Hq. apply (si_pool _ _ _ _ (ki_space _ _ _ I0) q). destruct Hq; [by left|right]. by exists i, p.
Qed.
Lemma run_off q x : in_ustack x → q ∈ free (alloc v0) ∨ slot_pages v0 p (Ts i) q → ¬ in_page q x.
Proof using I0 Hi Hus. intros Hx Hq. apply (Hus x q Hx). left. by apply run_pool. Qed.

(** exec has given up: everything is as before, but for [ustack]. *)
Definition failed (s' : kst) : Prop := only_vm s0 s' ∧ free (alloc (vm s')) = free (alloc v0)
  ∧ ∀ x, ¬ in_ustack x → (∀ q, q ∈ free (alloc v0) → ¬ in_page q x) → vmem (vm s') x = vmem v0 x.

Lemma failed_slot s' : failed s' → on_slot Pool s0 Ts i s' p (Ts i).
Proof using AL I0 Hi Hst Hus PL RL.
  intros ((v & t & ->) & Hf & Hm). destruct run_slot as (S & Hp & _). cbn [vm set_trace set_vm] in Hf, Hm.
  pose proof (on_slot_start Pool s0 Ts i s0 p (ki_space _ _ _ I0) Hi eq_refl eq_refl) as K.
  assert (Hk : ∀ q x, is_page q → q ∉ free (alloc v0) → Pool q → in_page q x → vmem v x = vmem v0 x).
  { intros q x Pq Fq Hq Hx. apply Hm.
    - intros Hu. by apply (Hus x q Hu); [left|].
    - intros r Hr Hx'. apply Fq. rewrite (in_page_eq q r x); [done|done| |done..]. by eapply free_page. }
  destruct (slot_frame v0 v p (Ts i) S) as [S' Hpg].
  { intros q x Hq Hx. destruct (so_page _ _ _ S q Hq) as (? & ? & _). apply (Hk q x); try done. apply run_pool. by right. }
  { intros q Hq. rewrite Hf. by apply (so_page _ _ _ S). }
  apply (on_slot_change Pool s0 Ts i s0 p (Ts i) _ p (Ts i) K); try done.
  - cbn [procs set_trace set_vm]. symmetry. by apply list_insert_id.
  - intros q. cbn [vm set_trace set_vm]. by rewrite Hpg, Hf.
  - intros x (j & pj & q & Hj & Hpj & Hq & Hx). rewrite fn_lookup_insert_ne in Hq by done.
    destruct (so_page _ _ _ (si_slot _ _ _ _ (ki_space _ _ _ I0) j pj Hpj) q Hq) as (Pq & Fq & _).
    apply (Hk q x); try done. apply (si_pool _ _ _ _ (ki_space _ _ _ I0) q). right. by exists j, pj.
Qed.
Lemma failed_inv s' : failed s' → kernel_inv Pool s' Ts ∧ procs s' = procs s0.
Proof using AL I0 Hi Hst Hus PL RL.
  intros F. split; [|by destruct F as ((v & t & ->) & _)].
  apply (on_slot_inv_same Pool s0 Ts i s' p p I0 Hi Hst); [by apply failed_slot|]. by repeat split.
Qed.

(** The usyscall page is off what exec writes, and stays. *)
Lemma usyscall_off x : in_page (usyscall p) x →
  ¬ in_ustack x ∧ ∀ q, q ∈ free (alloc v0) → ¬ in_page q x.
Proof using AL I0 Hi Hst Hus PL RL.
  intros Hx. destruct run_slot as (S & Hp & _). destruct (slot_tops _ _ _ S Hp) as [_ [Pu Fu]].
  destruct (so_space _ _ _ S Hp) as (_ & Hu & _). split.
  - intros Hx'. apply (run_off (usyscall p) x Hx'); [|done]. right. split; auto.
  - intros q Hq Hx'. apply Fu. rewrite (in_page_eq (usyscall p) q x); [done|done| |done..]. by eapply free_page.
Qed.
Lemma failed_shared s' : failed s' → ∀ x, in_page (usyscall p) x → vmem (vm s') x = vmem v0 x.
Proof using AL I0 Hi Hst Hus PL RL. intros (_ & _ & Hm) x Hx. destruct (usyscall_off x Hx). by apply Hm. Qed.
Lemma commit_shared root n v v2 T m1 : building v0 p root n v T → (∀ x, ¬ in_page (trapframe p) x → m1 x = vmem v x) →
  (∀ q x, slot_pages v (image p root n) T q → in_page q x → vmem v2 x = m1 x) →
  ∀ x, in_page (usyscall p) x → vmem v2 x = vmem v0 x.
Proof using AL I0 Hi Hst Hus PL RL.
  intros B Hm Hpg x Hx. destruct run_slot as (S & Hp & _). destruct (slot_tops _ _ _ S Hp) as [[Pt _] [Pu _]].
  destruct (so_space _ _ _ S Hp) as (Ht & Hu & _). destruct (usyscall_off x Hx) as [H1 H2].
  rewrite (Hpg (usyscall p)); [|split; auto|done]. rewrite Hm; [by apply (bd_mem _ _ _ _ _ _ B)|].
  intros Hx'. apply Ht, (so_ne _ _ _ S). by rewrite (in_page_eq (trapframe p) (usyscall p) x).
Qed.

(** Giving up. *)
Lemma exec_bad_none ip s : only_vm s0 s → free (alloc (vm s)) = free (alloc v0) →
  same_off (free (alloc v0)) (vmem v0) (vmem (vm s)) → wp (exec_bad 0 0 ip) (λ r s', r = -1 ∧ failed s') s.
Proof using.
  intros Ho Hf Hm. assert (F : ∀ t, failed (set_trace t s)).
  { intros t. destruct Ho as (v & t' & ->). split; [by exists v, t|]. split; [done|]. intros x _ Hx. by apply Hm. }
  unfold exec_bad. apply wp_bind, wp_ret. destruct (ip =? 0).
  - apply wp_bind, wp_ret, wp_ret. split; [done|]. replace s with (set_trace (trace s) s) by by destruct s. apply F.
  - apply wp_bind, wp_bind, wp_emit, wp_emit, wp_ret. split; [done|]. apply F.
Qed.
Lemma exec_bad_wp root n ip s T : only_vm s0 s → building v0 p root n (vm s) T →
  wp (exec_bad root n ip) (λ r s', r = -1 ∧ failed s') s.
Proof using AL PL RL.
  intros Ho B. unfold exec_bad. rewrite (proj2 (Z.eqb_neq root 0)) by apply B. apply wp_bind, wp_vmop.
  eapply wp_mono; [by apply (build_abort v0 p root n (vm s) T)|]. intros [] v [Hf Hm].
  assert (F : ∀ t, failed (set_trace t (set_vm v s))).
  { intros t. destruct Ho as (v' & t' & ->). split; [by exists v, t|]. split; [done|]. done. }
  destruct (ip =? 0).
  - apply wp_bind, wp_ret, wp_ret. split; [done|]. apply (F (trace s)).
  - apply wp_bind, wp_bind, wp_emit, wp_emit, wp_ret. split; [done|]. apply F.
Qed.

(** ** Lemmas: the end of exec *)

Definition frame_set (v : vst) (sp entry : Z) : mem :=
  store64 (store64 (store64 (vmem v) (trapframe p + tf_a1) sp) (trapframe p + tf_epc) entry) (trapframe p + tf_sp) sp.
Lemma frame_set_off v sp entry x : ¬ in_page (trapframe p) x → frame_set v sp entry x = vmem v x.
Proof using.
  intros Hx. unfold in_page in Hx. unfold frame_set, tf_sp, tf_epc, tf_a1. rewrite !store64_other by lia. done.
Qed.
Lemma frame_set_loads v sp entry : 0 <= sp < 2 ^ 64 → 0 <= entry < 2 ^ 64 →
  load64 (frame_set v sp entry) (trapframe p + tf_sp) = sp ∧ load64 (frame_set v sp entry) (trapframe p + tf_a1) = sp
  ∧ load64 (frame_set v sp entry) (trapframe p + tf_epc) = entry.
Proof using.
  intros Hsp He. unfold frame_set, tf_sp, tf_epc, tf_a1. split_and!.
  - by apply load64_store64_same.
  - rewrite !load64_store64_other by lia. by apply load64_store64_same.
  - rewrite load64_store64_other by lia. by apply load64_store64_same.
Qed.

(** What the user sees is in pages of the image off the trap frame. *)
Lemma ubyte_commit root n v v2 T m1 : building v0 p root n v T → same_entries v v2 root →
  (∀ x, ¬ in_page (trapframe p) x → m1 x = vmem v x) →
  (∀ q x, slot_pages v (image p root n) T q → in_page q x → vmem v2 x = m1 x) →
  ∀ va, 0 <= va < pgup n → ubyte (vmem v2) root va = ubyte (vmem v) root va.
Proof using AL PL RL.
  intros B He Hm H2 va Hva. pose proof B as [Hr S _ _ _]. pose proof (build_space _ _ _ _ _ _ B) as Sp.
  pose proof (size_top _ _ _ _ _ _ Sp). rewrite !ubyte_some by lia.
  assert (Ea : entry (vmem v2) root va = entry (vmem v) root va) by (apply He; lia). rewrite !Ea.
  destruct (_ && _); [|done]. f_equal. set (q := PTE2PA (entry (vmem v) root va)).
  assert (Hup : user_page v root n q) by by exists va. destruct (sp_pages _ _ _ _ _ _ Sp q Hup) as (Pq & _).
  assert (Hin : in_page q (q + va mod 4096)) by (unfold in_page; Z.to_euclidean_division_equations; lia).
  rewrite (H2 q); [|split; [apply (slot_page_nz v (image p root n) T q S Hr)|]; auto|done]. apply Hm.
  destruct (so_space _ _ _ S Hr) as (Ht & _). intros Hx.
  destruct (so_top _ _ _ S _ Ht (or_introl eq_refl)) as [_ Hn]. apply (Hn Hr).
  cbn [pagetable sz trapframe image set_sz set_pagetable].
  rewrite (in_page_eq (trapframe p) q (q + va mod 4096)); [done| |done..]. by apply (slot_tops _ _ _ S Hr).
Qed.

Lemma commit_slot root n s v2 T m1 nm s' : only_vm s0 s → building v0 p root n (vm s) T →
  (∀ x, ¬ in_page (trapframe p) x → m1 x = vmem (vm s) x) →
  slot_ok v2 (image p root n) T →
  (∀ q, slot_pages v2 (image p root n) T q ∨ q ∈ free (alloc v2) ↔ slot_pages v0 p (Ts i) q ∨ q ∈ free (alloc v0)) →
  (∀ x, ¬ in_ustack x → (∀ q, slot_pages v0 p (Ts i) q ∨ q ∈ free (alloc v0) → ¬ in_page q x) → vmem v2 x = vmem v0 x) →
  vm s' = v2 → procs s' = <[i := image (set_name nm p) root n]> (procs s0) →
  on_slot Pool s0 Ts i s' (image (set_name nm p) root n) T.
Proof using AL Hi Hst Hus I0 PL RL.
  intros Ho B Hm S2 Hown Hmem Hv Hp.
  pose proof (on_slot_start Pool s0 Ts i s0 p (ki_space _ _ _ I0) Hi eq_refl eq_refl) as K.
  assert (E : same_space (image p root n) (image (set_name nm p) root n)) by done.
  apply (on_slot_change Pool s0 Ts i s0 p (Ts i) s' _ T K); [done|rewrite Hv; by eapply slot_ok_fields| |].
  - intros q. rewrite Hv, (slot_pages_fields _ _ _ _ q E). apply Hown.
  - intros x (j & pj & q & Hj & Hpj & Hq & Hx). rewrite fn_lookup_insert_ne in Hq by done. rewrite Hv. apply Hmem.
    + intros Hu. apply (Hus x q Hu); [|done]. left. apply (si_pool _ _ _ _ (ki_space _ _ _ I0) q). right. by exists j, pj.
    + destruct (so_page _ _ _ (si_slot _ _ _ _ (ki_space _ _ _ I0) j pj Hpj) q Hq) as (Pq & Fq & _).
      intros r Hr Hx'. assert (Er : q = r).
      { apply (in_page_eq q r x); try done. destruct Hr as [Hr|Hr]; [|by eapply free_page].
        by apply (so_page _ _ _ (proj1 run_slot) r Hr). }
      subst r. destruct Hr as [Hr|Hr]; [|done]. apply Hj. by apply (si_apart _ _ _ _ (ki_space _ _ _ I0) j i pj p q).
Qed.

Lemma wp_string_at fuel a l (Q : list byte → kst → Prop) s : cstring fuel (vmem (vm s)) a = Some l → Q l s →
  wp (string_at fuel a) Q s.
Proof using. intros H HQ. unfold wp, string_at. by rewrite H. Qed.

Lemma exec_tail_wp root n s T sp entry argc fuel path pstr : only_vm s0 s → building v0 p root n (vm s) T →
  0 <= sp < 2 ^ 64 → 0 <= entry < 2 ^ 64 → cstring fuel (vmem v0) path = Some pstr →
  kernel_buffer Pool path (Z.of_nat (length pstr) + 1) →
  wp (vmop (write64 (trapframe p + tf_a1) sp);;
      str ← string_at fuel path;
      updp i (λ p, set_name (safestrcpy (name p) (last_part str str) 16) p);;
      exec_commit i root n (sz p) entry sp argc)
    (λ r s', r = i32 argc ∧ ∃ nm, on_slot Pool s0 Ts i s' (image (set_name nm p) root n) T
      ∧ (∀ va, 0 <= va < pgup n → ubyte (vmem (vm s')) root va = ubyte (vmem (vm s)) root va)
      ∧ load64 (vmem (vm s')) (trapframe p + tf_sp) = sp ∧ load64 (vmem (vm s')) (trapframe p + tf_a1) = sp
      ∧ load64 (vmem (vm s')) (trapframe p + tf_epc) = entry
      ∧ ∀ x, in_page (usyscall p) x → vmem (vm s') x = vmem v0 x) s.
Proof using AL Hi Hst Hus I0 PL RL.
  intros Ho B Hsp He Hstr Hbuf. destruct run_slot as (S & Hp & Htr). pose proof run_off as Hoff.
  pose proof B as [Hr Si _ Hpool _]. destruct (slot_tops _ _ _ S Hp) as [[Pt Ft] _].
  assert (Hps : procs s = procs s0) by by destruct Ho as (v & t & ->).
  apply wp_bind, wp_vmop, wp_modify. apply wp_bind. apply (wp_string_at _ _ pstr).
  { eapply cstring_ext; [exact Hstr|]. intros x Hx. cbn [vm vmem set_vm set_vmem].
    rewrite store64_other; [apply (buffer_kept v0 p (Ts i) root n Pool run_pool (vm s) T path _ x B Hbuf); lia|].
    destruct Hbuf as [Hbuf _]. assert (Hx' : ¬ in_page (trapframe p) x).
    { apply (Hbuf x); [lia|left]. apply run_pool. right. destruct (so_space _ _ _ S Hp) as (? & _). split; auto. }
    unfold in_page in Hx'. unfold tf_a1. lia. }
  apply wp_bind. apply (wp_updp i _ p); [cbn; by rewrite Hps|]. set (nm := safestrcpy _ _ _).
  unfold exec_commit. cbv zeta.
  assert (Hlt : (i < length (procs s0))%nat) by by eapply lookup_lt_Some.
  assert (Hlook : ∀ q, <[i := q]> (procs s) !! i = Some q) by (intros q; apply list_lookup_insert_eq; by rewrite Hps).
  apply wp_bind. eapply wp_getp; [apply Hlook|].
  apply wp_bind. eapply wp_updp; [apply Hlook|]. apply wp_bind.
  eapply wp_updp; [cbn [procs set_procs set_vm]; rewrite list_insert_insert_eq; apply Hlook|].
  do 2 (apply wp_bind, wp_vmop, wp_modify). apply wp_bind, wp_vmop.
  cbn [vm procs set_vm set_procs vmem set_vmem alloc]. rewrite !list_insert_insert_eq.
  cbn [pagetable trapframe set_name set_pagetable set_sz].
  set (m1 := store64 _ (trapframe p + tf_sp) sp).
  change m1 with (frame_set (vm s) sp entry). clear m1.
  eapply wp_mono; [apply (commit_wp v0 p (Ts i) root n S Hp Hoff (vm s) T (frame_set (vm s) sp entry) B)|].
  { apply frame_set_off. }
  intros [] v2 (S2 & He2 & Hown & Hpg & Hmem).
  apply wp_bind. eapply wp_getp; [apply Hlook|].
  assert (H : ∀ s', vm s' = v2 → procs s' = <[i := image (set_name nm p) root n]> (procs s0) →
    on_slot Pool s0 Ts i s' (image (set_name nm p) root n) T
    ∧ (∀ va, 0 <= va < pgup n → ubyte (vmem (vm s')) root va = ubyte (vmem (vm s)) root va)
    ∧ load64 (vmem (vm s')) (trapframe p + tf_sp) = sp ∧ load64 (vmem (vm s')) (trapframe p + tf_a1) = sp
    ∧ load64 (vmem (vm s')) (trapframe p + tf_epc) = entry
    ∧ ∀ x, in_page (usyscall p) x → vmem (vm s') x = vmem v0 x).
  { intros s' Hv Hps'. split; [by apply (commit_slot root n s v2 T (frame_set (vm s) sp entry) nm s' Ho B (frame_set_off _ _ _))|].
    rewrite Hv. split; [by apply (ubyte_commit root n (vm s) v2 T _ B He2 (frame_set_off _ _ _) Hpg)|].
    destruct (frame_set_loads (vm s) sp entry Hsp He) as (L1 & L2 & L3).
    assert (Hl : ∀ k, 0 <= k → k + 8 <= 4096 → load64 (vmem v2) (trapframe p + k) = load64 (frame_set (vm s) sp entry) (trapframe p + k)).
    { intros k Hk Hk'. apply load64_ext. intros x Hx. destruct (so_space _ _ _ Si Hr) as (Ht & _).
      apply (Hpg (trapframe p)); [split; auto|unfold in_page; lia]. }
    pose proof (commit_shared root n (vm s) v2 T _ B (frame_set_off _ _ _) Hpg) as Hsh.
    unfold tf_sp, tf_a1, tf_epc in *. rewrite !Hl by lia. done. }
  destruct (pid _ =? 1).
  - apply wp_bind, wp_bind, wp_gets, wp_emit, wp_ret. split; [done|]. exists nm. apply H; [done|]. cbn. by rewrite Hps.
  - apply wp_bind, wp_ret, wp_ret. split; [done|]. exists nm. apply H; [done|]. cbn. by rewrite Hps.
Qed.

(** ** Lemmas: the stack *)

(** The array of pointers, copied to [sp2] below the strings. *)
Lemma array_at v v' T root n sp sp2 ws : pushed v root n sp ws →
  (∀ k, 0 <= k < 8 → vmem v (ustack + 8 * Z.of_nat (length ws) + k) = x00) →
  sp2 + (Z.of_nat (length ws) + 1) * 8 <= sp → sp <= n →
  copied_out v T root sp2 ustack ((Z.of_nat (length ws) + 1) * 8) v' → args_at v' root sp2 n ws.
Proof using.
  intros HP Hz Hfit Hspn C.
  assert (Hin : ∀ (j : nat) k, (j <= length ws)%nat → 0 <= k < 8 →
    ubyte (vmem v') root (sp2 + 8 * Z.of_nat j + k) = Some (vmem v (ustack + 8 * Z.of_nat j + k))).
  { intros j k Hj Hk. rewrite (co_user _ _ _ _ _ _ _ C). rewrite (proj2 (Z.leb_le _ _)), (proj2 (Z.ltb_lt _ _)) by lia.
    cbn [andb]. do 2 f_equal. lia. }
  split.
  - intros j w Hj. destruct (HP j w Hj) as (u & H1 & H2 & Hb & Hd). apply lookup_lt_Some in Hj. exists u. split; [lia|]. split; [lia|]. split.
    + intros k Hk. rewrite Hin by lia. by rewrite Hd.
    + intros m b Hm. rewrite (co_user _ _ _ _ _ _ _ C). rewrite (proj2 (Z.ltb_ge _ _)), andb_false_r by lia. by apply Hb.
  - split; [lia|]. intros k Hk. rewrite Hin, Hz by lia. by rewrite Z.div_0_l by (apply Z.pow_nonzero; lia).
Qed.

(** The guard page: the user sees the rest as before. *)
Lemma guard_wp root n v T : building v0 p root n v T → 8192 <= n → n mod 4096 = 0 →
  (∃ q, is_page q ∧ entry (vmem v) root (n - 8192) = mk_pte q (Z.lor (Z.lor PTE_R PTE_U) PTE_W)) →
  wp (uvmclear root (n - 8192)) (λ _ v', building v0 p root n v' T
    ∧ ∀ va, 0 <= va < n → ubyte (vmem v') root va =
        if (n - 8192 <=? va) && (va <? n - 4096) then None else ubyte (vmem v) root va) v.
Proof using AL PL RL.
  intros B Hn Hnm (q & Pq & Eq). destruct (build_size _ _ _ _ _ _ B) as (_ & Hnu & _). rewrite (pgup_aligned n Hnm) in Hnu.
  destruct top_addrs as (H0 & Hal & E1 & E2 & E3 & _). pose proof (build_space _ _ _ _ _ _ B) as Sp.
  assert (Hbits : Z.land (Z.lor (Z.lor PTE_R PTE_U) PTE_W) (Z.lnot PTE_U) = 6) by by rewrite pte_r_bit, pte_u_bit, pte_w_bit.
  eapply wp_mono; [apply (build_uvmclear v0 p root n v T (n - 8192) q (Z.lor (Z.lor PTE_R PTE_U) PTE_W) B)|]; try done.
  - rewrite (pgup_aligned n Hnm). lia.
  - by rewrite pte_r_bit, pte_u_bit, pte_w_bit.
  - by rewrite pte_r_bit, pte_u_bit, pte_w_bit.
  - by rewrite Hbits.
  - intros [] v' (B' & Ha & Hm & He). split; [done|]. intros va Hva. rewrite Hbits in He. rewrite !ubyte_some, !He by lia.
    destruct (Z.eqb_spec (va / 4096) ((n - 8192) / 4096)) as [E|E].
    + rewrite (proj2 (Z.leb_le _ _)), (proj2 (Z.ltb_lt _ _)) by (Z.to_euclidean_division_equations; lia). cbn [andb].
      assert (Hu : has (mk_pte q 6) PTE_U = false) by (unfold has; rewrite mk_pte_bits; [by rewrite pte_u_bit|done|done|by rewrite pte_u_bit]).
      by rewrite Hu, andb_false_r.
    + replace ((n - 8192 <=? va) && (va <? n - 4096)) with false.
      2:{ symmetry. destruct (Z.leb_spec (n - 8192) va), (Z.ltb_spec va (n - 4096)); try done.
          exfalso. Z.to_euclidean_division_equations; lia. }
      destruct (_ && _); [|done]. f_equal. set (r := PTE2PA (entry (vmem v) root va)).
      destruct (sp_pages _ _ _ _ _ _ Sp r) as (Pr & _ & Dr); [exists va; rewrite (pgup_aligned n Hnm); done|].
      apply (same_off_page _ _ _ r Hm); [|done|done|unfold in_page; Z.to_euclidean_division_equations; lia].
      intros t [[l pre] Ht]%elem_of_dom. by apply (pt_page _ _ _ (proj1 (sp_pt _ _ _ _ _ _ Sp)) _ _ _ Ht).
Qed.

(** What a successful exec leaves, for the image [img] of [lo] bytes. *)
Definition stack_done (root lo entry : Z) (img : mem) (ws : list (list byte)) (s' : kst) : Prop :=
  let n := pgup lo + 8192 in
  ∃ T nm, on_slot Pool s0 Ts i s' (image (set_name nm p) root n) T
    ∧ image_is (vm s') root lo img
    ∧ (∀ va, n - 8192 <= va < n - 4096 → ubyte (vmem (vm s')) root va = None)
    ∧ ∃ sp, n - 4096 <= sp < n ∧ sp mod 16 = 0 ∧ args_at (vm s') root sp n ws
      ∧ load64 (vmem (vm s')) (trapframe p + tf_sp) = sp ∧ load64 (vmem (vm s')) (trapframe p + tf_a1) = sp
      ∧ load64 (vmem (vm s')) (trapframe p + tf_epc) = entry
      ∧ ∀ x, in_page (usyscall p) x → vmem (vm s') x = vmem v0 x.

Lemma args_same v v' root sp n ws : 0 <= sp → (∀ va, 0 <= va < n → ubyte (vmem v') root va = ubyte (vmem v) root va) →
  args_at v root sp n ws → args_at v' root sp n ws.
Proof using.
  intros Hsp Hs (H & Hn & Hz). assert (Hw : ∀ (j : nat) u, (j <= length ws)%nat →
    uword v root (sp + 8 * Z.of_nat j) u → uword v' root (sp + 8 * Z.of_nat j) u).
  { intros j u Hj Hu k Hk. rewrite Hs by lia. by apply Hu. }
  split; [|split; [done|by apply Hw]]. intros j w Hj. destruct (H j w Hj) as (u & H1 & H2 & Hu & Hb). exists u.
  split; [done|]. split; [done|]. split; [apply Hw; [|done]; apply lookup_lt_Some in Hj; lia|].
  eapply (ubytes_same root v v' u _ 0 n); [done|lia|rewrite length_app; cbn; lia|done].
Qed.

(** The strings and the array. *)
Lemma exec_args_wp fuel path argv root n entry s T args pstr : only_vm s0 s → building v0 p root n (vm s) T →
  8192 <= n <= USYSCALL → n mod 4096 = 0 → 0 <= entry < 2 ^ 64 → Z.of_nat fuel < 2 ^ 62 →
  kernel_args Pool (vmem v0) fuel argv args → cstring fuel (vmem v0) path = Some pstr →
  kernel_buffer Pool path (Z.of_nat (length pstr) + 1) →
  wp (o ← push_args (S (Z.to_nat MAXARG)) fuel root argv (n - 4096) 0 n;
      match o with
      | None => exec_bad root n 0
      | Some (argc, sp) =>
          set_ustack argc 0;;
          let sp := u64 (sp - (argc + 1) * 8) in
          let sp := u64 (sp - sp mod 16) in
          if sp <? n - 4096 then exec_bad root n 0
          else
            r ← vmop (copyout root sp ustack ((argc + 1) * 8));
            if r <? 0 then exec_bad root n 0
            else
              vmop (write64 (trapframe p + tf_a1) sp);;
              str ← string_at fuel path;
              updp i (λ p, set_name (safestrcpy (name p) (last_part str str) 16) p);;
              exec_commit i root n (sz p) entry sp argc
      end)
    (λ r s', r = -1 ∧ failed s' ∨ r = i32 (Z.of_nat (length args)) ∧ ∃ T nm,
       on_slot Pool s0 Ts i s' (image (set_name nm p) root n) T
       ∧ (∀ va, 0 <= va < n - 4096 → ubyte (vmem (vm s')) root va = ubyte (vmem (vm s)) root va)
       ∧ ∃ sp, n - 4096 <= sp < n ∧ sp mod 16 = 0 ∧ args_at (vm s') root sp n (args.*2)
         ∧ load64 (vmem (vm s')) (trapframe p + tf_sp) = sp ∧ load64 (vmem (vm s')) (trapframe p + tf_a1) = sp
         ∧ load64 (vmem (vm s')) (trapframe p + tf_epc) = entry
         ∧ ∀ x, in_page (usyscall p) x → vmem (vm s') x = vmem v0 x) s.
Proof using AL EL Hi Hst Hus I0 PL RL.
  intros Ho B Hn Hnm He Hfu KA Hstr Hbuf. destruct run_slot as (S & Hp & Htr). pose proof run_off as Hoff.
  destruct top_addrs as (_ & _ & _ & _ & E3 & _). pose proof maxva_range as HM. pose proof maxarg_range as HMA.
  pose proof (pgup_aligned n Hnm) as Epg.
  apply wp_bind. eapply wp_mono.
  { apply (push_args_wp v0 p (Ts i) root n Hoff Pool run_pool S Hp Htr Hn Hnm _ fuel argv args [] args n s T KA eq_refl Hfu B);
      [lia|apply pushed_nil|cbn; lia|cbn; lia]. }
  intros o s1 (Ho1 & B1 & Hlow1 & Hr). assert (Hs1 : only_vm s0 s1) by (eapply only_vm_trans; [exact Ho|exact Ho1]).
  destruct o as [[argc sp]|].
  2:{ eapply wp_mono; [by apply (exec_bad_wp root n 0 s1 T)|]. intros r s' H. by left. }
  destruct (Hr argc sp eq_refl) as (-> & Hmax & Hsp & HP). cbv zeta.
  set (k := Z.of_nat (length args)) in *. unfold set_ustack. apply wp_bind, wp_vmop, wp_modify.
  destruct (build_ustack v0 p (Ts i) root n Hoff k 0 (vm s1) T B1) as [B2 Hub2]; [lia|]. rewrite Epg in Hub2.
  set (v2 := set_vmem (store64 _ _ _) _) in *. set (s2 := set_vm v2 s1).
  assert (Hs2 : only_vm s0 s2).
  { eapply only_vm_trans; [exact Hs1|]. exists v2, (trace s1). by destruct s1. }
  assert (Hlen : length args.*2 = length args) by apply length_fmap.
  assert (HP2 : pushed v2 root n sp (args.*2)).
  { apply (pushed_mono root n (vm s1) v2 sp); [done|lia|intros va Hva; apply Hub2; lia|].
    rewrite Hlen. intros x Hx. unfold v2. cbn [vmem set_vmem]. apply store64_other. unfold k. lia. }
  destruct (sp_below sp ((k + 1) * 8)) as (Hr2 & Hor2); [lia|unfold k in *; lia|]. cbv zeta in Hr2, Hor2.
  set (sp2 := u64 (u64 (sp - (k + 1) * 8) - u64 (sp - (k + 1) * 8) mod 16)) in *.
  destruct (Z.ltb_spec sp2 (n - 4096)) as [Hl|Hok].
  { eapply wp_mono; [by apply (exec_bad_wp root n 0 s2 T)|]. intros r s' H. by left. }
  apply wp_bind, wp_vmop. eapply wp_mono.
  { apply (stack_copyout v0 p (Ts i) root n Hoff Pool run_pool S Hp Htr Hn v2 T sp sp2 ustack ((k + 1) * 8) B2);
      [unfold k; lia| |lia|done|lia].
    intros x q Hx. apply (Hus x q). lia. }
  intros r v3 [B3 [(-> & Hfit & C)|[-> _]]]; cbv beta.
  2:{ change (-1 <? 0) with true. cbn iota. eapply wp_mono; [apply (exec_bad_wp root n 0 (set_vm v3 s2) T); [|done]|].
      - eapply only_vm_trans; [exact Hs2|]. exists v3, (trace s2). by destruct s2.
      - intros r s' H. by left. }
  change (0 <? 0) with false. cbn iota.
  assert (Hs3 : only_vm s0 (set_vm v3 s2)).
  { eapply only_vm_trans; [exact Hs2|]. exists v3, (trace s2). by destruct s2. }
  eapply wp_mono; [apply (exec_tail_wp root n (set_vm v3 s2) T sp2 entry k fuel path pstr Hs3 B3 Hr2 He Hstr Hbuf)|].
  intros r s' (-> & nm & K & Hub & L1 & L2 & L3 & L4). rewrite Epg in Hub. right. split; [done|]. exists T, nm. split; [done|].
  assert (Hsp2 : sp2 + (k + 1) * 8 <= sp) by lia. split.
  - intros va Hva. rewrite Hub by lia. cbn [vm set_vm]. rewrite (co_user _ _ _ _ _ _ _ C).
    rewrite (proj2 (Z.leb_gt _ _)) by lia. cbn [andb]. rewrite Hub2 by lia. by apply Hlow1.
  - exists sp2. split; [unfold k in *; lia|]. split; [by destruct Hor2 as [(_ & _ & ?)|?]; [|lia]|]. split; [|done].
    apply (args_same v3 (vm s') root sp2 n); [lia|exact Hub|].
    apply (array_at v2 v3 T root n sp sp2 (args.*2) HP2); rewrite ?Hlen; [|done|lia|done].
    intros j Hj. unfold v2. cbn [vmem set_vmem]. fold k. rewrite store64_digit by done.
    by rewrite Z.div_0_l by (apply Z.pow_nonzero; lia).
Qed.

Lemma exec_stack_wp fuel path argv root lo entry img s T args pstr : only_vm s0 s → building v0 p root lo (vm s) T →
  image_is (vm s) root lo img → lo <= USYSCALL - 12288 → 0 <= entry < 2 ^ 64 → Z.of_nat fuel < 2 ^ 62 →
  kernel_args Pool (vmem v0) fuel argv args → cstring fuel (vmem v0) path = Some pstr →
  kernel_buffer Pool path (Z.of_nat (length pstr) + 1) →
  wp (exec_stack fuel i path argv root lo entry)
    (λ r s', r = -1 ∧ failed s'
       ∨ r = i32 (Z.of_nat (length args)) ∧ root ≠ 0 ∧ stack_done root lo entry img (args.*2) s') s.
Proof using AL EL Hi Hst Hus I0 PL RL.
  intros Ho B Him Hlo He Hfu KA Hstr Hbuf. pose proof (build_size _ _ _ _ _ _ B) as (Hl0 & Hlu & Hlm).
  destruct top_addrs as (H0 & Hal & E1 & E2 & E3 & _). pose proof maxva_range as HM.
  assert (Hlo' : pgup lo <= USYSCALL - 12288) by (unfold pgup; Z.to_euclidean_division_equations; lia).
  set (n := pgup lo + 8192).
  assert (Hnm : n mod 4096 = 0) by (unfold n; clear -Hlm; Z.to_euclidean_division_equations; lia).
  assert (Hps : procs s = procs s0) by by destruct Ho as (v & t & ->).
  unfold exec_stack. apply wp_bind, (wp_getp i p); [by rewrite Hps|]. cbv zeta.
  rewrite pgroundup_pgup, pgsize_4096 by lia. rewrite (u64_small (pgup lo + 2 * 4096)) by lia.
  change (pgup lo + 2 * 4096) with n. pose proof (build_round _ _ _ _ _ _ B) as Br.
  apply wp_bind, wp_vmop. eapply wp_mono.
  { apply (build_uvmalloc v0 p root (pgup lo) (vm s) T n PTE_W Br); [unfold n; lia|by rewrite pte_w_bit]. }
  intros r v1 (T1 & H1). cbv beta. set (s1 := set_vm v1 s).
  assert (Hs1 : only_vm s0 s1) by (eapply only_vm_trans; [exact Ho|]; exists v1, (trace s); by destruct s).
  destruct (Z.eqb_spec r 0) as [->|Hr].
  { destruct H1 as [(E & _)|(_ & B1)]; [unfold n in E; lia|].
    eapply wp_mono; [by apply (exec_bad_wp root (pgup lo) 0 s1 T1)|]. intros r s' H. by left. }
  destruct H1 as [(-> & B1 & G)|(-> & _)]; [|done].
  rewrite (u64_small (n - 2 * 4096)), (u64_small (n - 4096)) by (unfold n; lia). change (n - 2 * 4096) with (n - 8192).
  apply wp_bind, wp_vmop. eapply wp_mono; [apply (guard_wp root n v1 T1 B1); [unfold n; lia|done|]|].
  { apply (gr_mk _ _ _ _ _ _ _ _ G). rewrite (pgup_aligned (pgup lo)), (pgup_aligned n) by done. unfold n; lia. }
  intros [] v2 [B2 Hg]. set (s2 := set_vm v2 s1).
  assert (Hs2 : only_vm s0 s2) by (eapply only_vm_trans; [exact Hs1|]; exists v2, (trace s1); by destruct s1).
  eapply wp_mono; [apply (exec_args_wp fuel path argv root n entry s2 T1 args pstr Hs2 B2); [unfold n; lia|done..]|].
  intros r s' [H|(-> & T2 & nm & K & Hlow & Hsp)]; [by left|right]. split; [done|]. split; [apply B2|].
  exists T2, nm. split; [done|]. split; [|split; [|done]].
  - intros va Hva. rewrite Hlow by (unfold n; lia). change (vm s2) with v2. rewrite Hg by (unfold n; lia).
    rewrite (proj2 (Z.leb_gt _ _)) by (unfold n; lia). cbn [andb].
    rewrite (ubyte_grown v0 p root (pgup lo) n (vm s) T v1 T1 PTE_W va Br) by
      (done || (rewrite ?(pgup_aligned (pgup lo)) by done; unfold n; lia)). by apply Him.
  - fold n. intros va Hva. rewrite Hlow by (unfold n in *; lia). change (vm s2) with v2. rewrite Hg by (unfold n in *; lia).
    by rewrite (proj2 (Z.leb_le _ _)), (proj2 (Z.ltb_lt _ _)) by lia.
Qed.

(** ** Lemmas: exec *)

Lemma exec_wp me fuel path argv args pstr : cpu_proc <$> cpus s0 !! me = Some (Some i) → Z.of_nat fuel < 2 ^ 62 →
  kernel_args Pool (vmem v0) fuel argv args → cstring fuel (vmem v0) path = Some pstr →
  kernel_buffer Pool path (Z.of_nat (length pstr) + 1) →
  let ip := namei_path (trace s0 ++ [EBeginOp]) pstr in let c := content ip in
  runnable c →
  wp (exec me fuel path argv) (λ r s', r = -1 ∧ failed s'
     ∨ r = i32 (Z.of_nat (length args)) ∧ ∃ root lo img, root ≠ 0 ∧ load_program c = Some (lo, img)
         ∧ stack_done root lo (elf_entry (elf_header c)) img (args.*2) s') s0.
Proof using AL EL Hi Hst Hus I0 PL RL.
  intros Hc Hfu KA Hstr Hbuf ip c Hrun. destruct run_slot as (S & Hp & Htr). pose proof run_off as Hoff.
  destruct header_sizes as [Hes _].
  assert (Hev : ∀ t, only_vm s0 (set_trace t s0)) by (intros t; exists v0, t; by destruct s0).
  unfold exec. apply wp_bind, wp_emit. apply wp_bind, (wp_string_at _ _ pstr); [done|].
  unfold namei_at. apply wp_bind, wp_bind, wp_gets, wp_bind, wp_emit, wp_ret. cbn [trace set_trace]. fold ip.
  destruct (Z.eqb_spec ip 0) as [E0|Hip].
  { apply wp_bind, wp_emit, wp_ret. left. split; [done|]. split; [apply Hev|]. done. }
  apply wp_bind, wp_emit. unfold readi. apply wp_bind, wp_bind, wp_gets. cbn [trace set_trace].
  rewrite readi_file by lia. change (file_part (content ip) 0 sizeof_elfhdr) with (elf_header c). set (elf := elf_header c) in *.
  apply wp_bind, wp_emit, wp_ret. cbn [set_trace trace]. set (t1 := _ ++ [EReadi _ _ _ _]).
  change (set_trace t1 _) with (set_trace t1 s0). set (s1 := set_trace t1 s0).
  assert (Hbad : ∀ v, free (alloc v) = free (alloc v0) → same_off (free (alloc v0)) (vmem v0) (vmem v) →
    wp (exec_bad 0 0 ip) (λ r s', r = -1 ∧ failed s' ∨ r = i32 (Z.of_nat (length args)) ∧ ∃ root lo img, root ≠ 0
      ∧ load_program c = Some (lo, img) ∧ stack_done root lo (elf_entry elf) img (args.*2) s') (set_vm v s1)).
  { intros v Hf Hm. eapply wp_mono; [apply (exec_bad_none ip); [by exists v, t1|done|done]|]. intros r s' H. by left. }
  assert (Hbad0 := Hbad v0 eq_refl ltac:(done)). replace (set_vm v0 s1) with s1 in Hbad0 by by destruct s0.
  destruct (negb (Z.of_nat (length elf) =? sizeof_elfhdr)) eqn:Hsize; [exact Hbad0|].
  destruct (negb (elf_magic elf =? ELF_MAGIC)) eqn:Hmagic; [exact Hbad0|]. clear Hbad0.
  apply wp_bind, wp_curproc with (i := i); [done|]. apply wp_bind, (wp_getp i p); [done|].
  apply wp_bind, wp_vmop. change (vm s1) with v0.
  eapply wp_mono; [apply (build_start v0 p (Ts i) S Hp Htr)|]. cbv beta. intros root v1 Hroot. set (s2 := set_vm v1 s1).
  assert (Hs2 : only_vm s0 s2) by by exists v1, t1.
  destruct Hroot as [(-> & Hf & Hm)|(T & B)]; [by apply Hbad|]. rewrite (proj2 (Z.eqb_neq root 0)) by apply B.
  apply wp_bind. eapply wp_mono.
  { apply (load_segments_wp v0 p (Ts i) root Hoff (Z.to_nat (elf_phnum elf)) ip (i32 (elf_phoff elf)) 0 s2 T (λ _, x00) B); [|done| |exact Hrun].
    - intros va Hva. change (pgup 0) with 0 in Hva. lia.
    - destruct top_addrs as (? & ? & ? & ? & ? & _). pose proof usyscall_next. pose proof top_room. lia. }
  intros [ok n] s3 (Ho3 & T3 & B3 & Hok). cbn [fst snd] in B3, Hok.
  assert (Hs3 : only_vm s0 s3) by (eapply only_vm_trans; [exact Hs2|exact Ho3]).
  destruct ok; cbn [negb].
  2:{ eapply wp_mono; [by apply (exec_bad_wp root n ip s3 T3)|]. intros r s' H. by left. }
  destruct (Hok eq_refl) as (Hn & img & Hprog & Him). do 2 (apply wp_bind, wp_emit). cbn [set_trace].
  eapply wp_mono; [apply (exec_stack_wp fuel path argv root n (elf_entry elf) img (set_trace _ s3) T3 args pstr); try done|].
  - destruct Hs3 as (v & t & ->). eexists v, _. reflexivity.
  - apply entry_range.
  - intros r s' [H|(-> & Hr & H)]; [by left|right]. split; [done|].
    exists root, n, img. split; [done|]. split; [|done]. unfold load_program. fold elf. by rewrite Hsize, Hmagic.
Qed.

Lemma stack_done_executed root lo img c ws s' : root ≠ 0 → load_program c = Some (lo, img) →
  stack_done root lo (elf_entry (elf_header c)) img ws s' → ∃ p' T, executed Pool s0 Ts i p c ws s' p' T.
Proof using Hst I0.
  intros Hr Hl (T & nm & K & Him & Hg & sp & Hs1 & Hs2 & Hs3 & L1 & L2 & L3 & Hsh). exists (image (set_name nm p) root (pgup lo + 8192)), T.
  constructor; try done.
  - by eapply on_slot_inv.
  - exists root, (pgup lo + 8192), nm. done.
  - by exists lo, img.
  - by exists sp.
Qed.
End run.

(** exec is a step of its process. *)
Lemma exec_ok Pool me i fuel path argv args pstr s Ts r s' : kernel_inv Pool s Ts → running me i s →
  exec_call content Pool s fuel path argv args pstr → exec me fuel path argv s = Done r s' → step_ok Pool (Some i) s s'.
Proof using AL EL PL RL.
  intros I [Hc (p & Hi & Hst)] [H1 H2 H3 [H4 H5] H6] E. assert (Hu : state p ≠ UNUSED) by by rewrite Hst.
  pose proof (exec_wp Pool s Ts i p I Hi Hu H1 me fuel path argv args pstr Hc H2 H3 H4 H5 H6) as W.
  unfold wp in W. rewrite E in W. destruct W as [(_ & F)|(_ & root & lo & img & Hr & Hl & D)].
  - destruct (failed_inv Pool s Ts i p I Hi Hu H1 s' F) as [I' _]. split; [by exists Ts|].
    eapply isolates_on_slot; [exact I|by eapply failed_slot|by left].
  - destruct (stack_done_executed Pool s Ts i p I Hu root lo img _ _ s' Hr Hl D) as (p' & T & X).
    split; [eexists; apply X|]. eapply isolates_on_slot; [exact I|apply X|by left].
Qed.
End exec.
