(* ===== verification/RiscvSteps.v ===== *)
(** The RISC-V kernel's process table as a whole (Lab3): the operations of
    proc.c and exec as steps from boot, and their properties. *)
From stdpp Require Import functions relations.
From S2P Require Import Prelude Riscv Vm PageTable Mappings AddrSpace UserCopy FreeWalk UvmCopy.
From S2P Require Import RiscvProc RiscvSpace RiscvSlot RiscvAlloc RiscvFork RiscvQuiet RiscvMem.
From S2P Require Import Exec ExecMem ExecLoad ExecArgs ExecProps.

(** ** Definitions *)
Section defs.
Context {R : Riscv} {L : Allocator} {KL : Layout} {PE : ProcExt} {EE : ExecExt} (content : Z → list byte).

(** One operation on the process table, by process [i] ([Some i]) or by the
    scheduler and the boot ([None]); the buffers the kernel copies from and to
    lie off the pages [Pool] that the table manages. *)
Inductive kstep (Pool : Z → Prop) : option nat → kst → kst → Prop :=
  | k_userinit i s1 r s s' : 0 <= sizeof_initcode < 4096 → allocproc s = Done (Some i) s1 →
      free (alloc (vm s1)) ≠ ∅ → userinit s = Done r s' → free (alloc (vm s')) ≠ ∅ → kstep Pool None s s'
  | k_fork me i r s s' : running me i s → fork me s = Done r s' → kstep Pool (Some i) s s'
  | k_growproc me i p n r s s' : running me i s → procs s !! i = Some p → is_int n → sz p + n <= USYSCALL →
      growproc me n s = Done r s' → kstep Pool (Some i) s s'
  | k_exit_close me i r s s' : running me i s → exit_close me s = Done r s' → kstep Pool (Some i) s s'
  | k_exit_locked me i status r s s' : running me i s → exit_locked me status s = Done r s' → kstep Pool (Some i) s s'
  | k_wait me i addr r s s' : running me i s → 0 <= addr < 2 ^ 64 → (∀ j, off_pool Pool (xstate_addr j) 4) →
      wait_pass me addr s = Done r s' → kstep Pool (Some i) s s'
  | k_sleep_enter me i c lk intr r s s' : running me i s → sleep_enter me c lk intr s = Done r s' → kstep Pool (Some i) s s'
  | k_sleep_leave me i ie lk r s s' : running me i s → sleep_leave me ie i lk s = Done r s' → kstep Pool (Some i) s s'
  | k_yield_enter me i intr r s s' : running me i s → yield_enter me intr s = Done r s' → kstep Pool (Some i) s s'
  | k_yield_leave me i ie r s s' : running me i s → yield_leave me ie i s = Done r s' → kstep Pool (Some i) s s'
  | k_forkret me i r s s' : running me i s → forkret me s = Done r s' → kstep Pool (Some i) s s'
  | k_sched me i holding intr r s s' : sched me holding intr s = Done r s' → kstep Pool (Some i) s s'
  | k_kill i n r s s' : kill n s = Done r s' → kstep Pool (Some i) s s'
  | k_setkilled i j r s s' : setkilled j s = Done r s' → kstep Pool (Some i) s s'
  | k_killed i j r s s' : is_killed j s = Done r s' → kstep Pool (Some i) s s'
  | k_wakeup o me c r s s' : wakeup me c s = Done r s' → kstep Pool o s s'
  | k_copyout me i user dst src len r s s' : running me i s → 0 <= dst < 2 ^ 64 → 0 <= len →
      off_pool Pool src len → (user = false → off_pool Pool dst len) →
      either_copyout me user dst src len s = Done r s' → kstep Pool (Some i) s s'
  | k_copyin me i user dst src len r s s' : running me i s → 0 <= src < 2 ^ 64 → 0 <= len → off_pool Pool dst len →
      either_copyin me dst user src len s = Done r s' → kstep Pool (Some i) s s'
  | k_user me i p m' s : running me i s → procs s !! i = Some p → user_write_at s p m' →
      kstep Pool (Some i) s (set_vm (set_vmem m' (vm s)) s)
  | k_exec me i fuel path argv args pstr r s s' : running me i s → exec_call content Pool s fuel path argv args pstr →
      exec me fuel path argv s = Done r s' → kstep Pool (Some i) s s'
  | k_scheduler_enter me j b s s' : scheduler_enter me j s = Done b s' → kstep Pool None s s'
  | k_scheduler_leave me j b r s s' : scheduler_leave me j b s = Done r s' → kstep Pool None s s'.

(** The table in zeroed static storage, before procinit; its state after it. *)
Definition zeroed_table (s : kst) : Prop := length (procs s) = NPROC ∧ trampoline ∉ free (alloc (vm s))
  ∧ ∀ i p, procs s !! i = Some p → pagetable p = 0 ∧ trapframe p = 0 ∧ usyscall p = 0 ∧ sz p = 0.
Definition boot (s0 s : kst) : Prop := zeroed_table s0 ∧ procinit s0 = Done tt s.
(** The pages that are divided: those the allocator has at boot. *)
Definition boot_pages (s : kst) (q : Z) : Prop := q ∈ free (alloc (vm s)).

(** The states reached from boot. *)
Definition reached (s0 s : kst) : Prop :=
  ∃ s1, boot s0 s1 ∧ rtc (λ s s', ∃ o, kstep (boot_pages s0) o s s') s1 s.
End defs.

Section steps.
Context {R : Riscv} {L : Allocator} {KL : Layout} {PE : ProcExt} {EE : ExecExt}.
Context {RL : RiscvLaws R} {AL : AllocatorLaws L} {PL : ProcLaws PE} {content : Z → list byte} {EL : ExecLaws EE content}.
Implicit Types (v : vst) (T : tables) (p : proc) (s : kst).

(** ** Lemmas *)

Lemma kstep_ok Pool o s s' Ts : kernel_inv Pool s Ts → kstep content Pool o s s' → step_ok Pool o s s'.
Proof using AL EL PL RL.
  intros I H. destruct H.
  - by eapply userinit_ok.
  - by eapply fork_ok.
  - by eapply growproc_ok.
  - eapply keeps_ok; [exact I| |done]. apply exit_close_keeps.
  - eapply keeps_ok; [exact I| |done]. by eapply exit_locked_keeps.
  - by apply (wait_pass_ok Pool me i addr s Ts r s').
  - eapply keeps_ok; [exact I| |done]. by eapply sleep_enter_keeps.
  - eapply keeps_ok; [exact I| |done]. apply sleep_leave_keeps.
  - eapply keeps_ok; [exact I| |done]. by eapply yield_enter_keeps.
  - eapply keeps_ok; [exact I| |done]. apply yield_leave_keeps.
  - eapply keeps_ok; [exact I| |done]. apply forkret_keeps.
  - eapply keeps_ok; [exact I| |done]. apply sched_keeps.
  - eapply keeps_ok; [exact I| |done]. apply kill_keeps.
  - eapply keeps_ok; [exact I| |done]. apply setkilled_keeps.
  - eapply keeps_ok; [exact I| |done]. apply is_killed_keeps.
  - eapply keeps_ok; [exact I| |done]. apply wakeup_keeps.
  - by eapply either_copyout_ok.
  - by eapply either_copyin_ok.
  - destruct H as (_ & p' & Hp' & Hst). eapply user_write_ok; try done. simplify_eq. by rewrite Hst.
  - by eapply exec_ok.
  - eapply keeps_ok; [exact I| |done]. apply scheduler_enter_keeps.
  - eapply keeps_ok; [exact I| |done]. apply scheduler_leave_keeps.
Qed.

(** procinit: every slot unused, with its kernel stack. *)
Lemma procinit_loop_wp n i s : (i + n <= length (procs s))%nat →
  wp (procinit_loop n i) (λ _ s', vm s' = vm s ∧ length (procs s') = length (procs s)
    ∧ ∀ k p, procs s !! k = Some p → procs s' !! k =
        Some (if bool_decide (i <= k < i + n)%nat then set_kstack (KSTACK k) (set_state UNUSED p) else p)) s.
Proof using.
  revert i s. induction n as [|n IH]; intros i s Hlen; cbn [procinit_loop].
  { apply wp_ret. split; [done|]. split; [done|]. intros k p Hp. rewrite bool_decide_false by lia. done. }
  apply wp_bind, wp_emit. destruct (lookup_lt_is_Some_2 (procs s) i) as [pi Hi]; [lia|].
  apply wp_bind, (wp_updp i _ pi); [done|]. eapply wp_mono; [apply IH|].
  { cbn [procs set_procs set_trace]. rewrite length_insert. lia. }
  intros [] s' (Hv & Hl & H). split; [done|]. split; [rewrite Hl; apply length_insert|]. intros k p Hp.
  destruct (decide (k = i)) as [->|Hne].
  - rewrite (H i (set_kstack (KSTACK i) (set_state UNUSED pi))).
    + rewrite bool_decide_false, bool_decide_true by lia. by simplify_eq.
    + cbn [procs set_procs set_trace]. apply list_lookup_insert_eq. by eapply lookup_lt_Some.
  - rewrite (H k p); [|cbn [procs set_procs set_trace]; by rewrite list_lookup_insert_ne].
    f_equal. by rewrite (bool_decide_ext (S i <= k < S i + n)%nat (i <= k < i + S n)%nat) by lia.
Qed.

Lemma procinit_wp s : (NPROC <= length (procs s))%nat →
  wp procinit (λ _ s', vm s' = vm s ∧ length (procs s') = length (procs s)
    ∧ ∀ k p, procs s !! k = Some p → (k < NPROC)%nat → procs s' !! k = Some (set_kstack (KSTACK k) (set_state UNUSED p))) s.
Proof using.
  intros Hlen. unfold procinit. apply wp_bind, wp_emit, wp_bind, wp_emit. eapply wp_mono; [by apply procinit_loop_wp|].
  intros [] s' (Hv & Hl & H). split; [done|]. split; [done|]. intros k p Hp Hk. rewrite (H k p Hp).
  by rewrite bool_decide_true by lia.
Qed.

Lemma boot_inv s0 s : boot s0 s → kernel_inv (boot_pages s0) s (λ _, ∅).
Proof using.
  intros [(Hlen & Htr & Hz) E]. destruct (proj1 (wp_done _ _ _) (procinit_wp s0 ltac:(lia))) as ([] & s' & E' & Hv & Hl & Hp').
  rewrite E in E'. injection E' as <-.
  assert (H : ∀ k p, procs s !! k = Some p → state p = UNUSED ∧ pagetable p = 0 ∧ trapframe p = 0 ∧ usyscall p = 0 ∧ sz p = 0).
  { intros k p Hp. assert (Hk : (k < length (procs s0))%nat) by (rewrite <- Hl; by eapply lookup_lt_Some).
    destruct (lookup_lt_is_Some_2 (procs s0) k Hk) as [p0 Hp0].
    rewrite (Hp' k p0 Hp0) in Hp by lia. simplify_eq. destruct (Hz k p0 Hp0) as (? & ? & ? & ?). done. }
  assert (He : ∀ k p, procs s !! k = Some p → slot_ok (vm s) p ∅ ∧ ∀ q, ¬ slot_pages (vm s) p ∅ q).
  { intros k p Hp. destruct (H k p Hp) as (_ & ? & ? & ? & _). by apply empty_slot. }
  constructor; [constructor|..].
  - intros k p Hp. by destruct (He k p Hp).
  - intros i j p p' q Hp _ Hq. destruct (He i p Hp) as [_ Hn]. by destruct (Hn q).
  - by rewrite Hv.
  - intros q. unfold boot_pages. rewrite Hv. split; [by left|]. intros [?|(k & p & Hp & Hq)]; [done|].
    destruct (He k p Hp) as [_ Hn]. exfalso. apply (Hn q). by rewrite Hv.
  - intros k p Hp Hst. destruct (H k p Hp) as (? & _). done.
  - intros k p Hp _. destruct (H k p Hp) as (_ & ? & ? & ? & ?). done.
Qed.

Lemma reached_inv s0 s : reached content s0 s → ∃ Ts, kernel_inv (boot_pages s0) s Ts.
Proof using AL EL PL RL.
  intros (s1 & Hb & Hr). apply boot_inv in Hb. assert (H : ∃ Ts, kernel_inv (boot_pages s0) s1 Ts) by eauto.
  clear Hb. induction Hr as [|s1 s2 s3 [o Ho] _ IH]; [done|]. destruct H as [Ts H]. apply IH. by eapply kstep_ok.
Qed.
End steps.

(** *** Samples *)

Definition sample_layout : Layout := {|
  UART0 := 0x10000000; VIRTIO0 := 0x10001000; PLIC := 0x0c000000; KERNBASE := 0x80000000; PHYSTOP := 0x88000000;
  TRAMPOLINE := 2 ^ 38 - 4096; KSTACK := λ i, 2 ^ 38 - 4096 - (Z.of_nat i + 1) * 8192; etext := 0x80008000;
  trampoline := 0x8000 |}.
Definition sample_ext : ProcExt := {|
  filedup_ret := λ _ f, f; idup_ret := λ _ ip, ip; namei_ret := λ _, 0x500;
  safestrcpy := λ _ src n, take (Z.to_nat n) src; initcode_name := [x69; x6e; x69; x74];
  TRAPFRAME := 2 ^ 38 - 8192; USYSCALL := 2 ^ 38 - 12288; usyscall_pid := 0; forkret_addr := 0x80001000;
  initcode := 0x600; sizeof_initcode := 52; xstate_addr := λ i, 0x200 + 4 * Z.of_nat i |}.
Lemma sample_laws : @ProcLaws sv39 sample_layout sample_ext.
Proof. by constructor. Qed.

(** A file system with one file, a program of one segment: 3 bytes of the file,
    from offset 10, at 0, in 16 bytes of memory.  The ELF header is the first
    4 bytes, the program header the next 6; a field is a byte. *)
Definition sample_file : list byte := [x7f; x01; x04; x00; x01; x05; x0a; x00; x03; x10; x11; x22; x33].
Definition sample_content (ip : Z) : list byte := if ip =? 0x500 then sample_file else [].
Definition byte_field (k : nat) (h : list byte) : Z := byteZ (default x00 (h !! k)).
Definition sample_exec : ExecExt := {|
  MAXARG := 32; ELF_MAGIC := 0x7f; ELF_PROG_LOAD := 1; sizeof_elfhdr := 4; sizeof_proghdr := 6;
  elf_magic := byte_field 0; elf_phnum := byte_field 1; elf_phoff := byte_field 2; elf_entry := byte_field 3;
  ph_type := byte_field 0; ph_flags := byte_field 1; ph_off := byte_field 2; ph_vaddr := byte_field 3;
  ph_filesz := byte_field 4; ph_memsz := byte_field 5;
  namei_path := λ _ path, if bool_decide (path = [x78]) then 0x500 else 0;
  readi_ret := λ _ ip off n, file_part (sample_content ip) off n;
  ustack := 0x700 |}.
Lemma sample_exec_laws : ExecLaws sample_exec sample_content.
Proof.
  assert (H : ∀ k h, 0 <= byte_field k h < 2 ^ 64) by (intros k h; pose proof (byteZ_range (default x00 (h !! k))); unfold byte_field; lia).
  constructor; try done.
  - intros h. split_and!; apply H.
  - intros h. apply H.
  - intros ip. unfold sample_content. destruct (ip =? 0x500); cbn; lia.
Qed.

Definition blank_proc : proc := Proc UNUSED NoChan 0 0 0 None 0 0 0 0 0 (Context_ 0 0 []) (replicate NOFILE 0) 0 [].
Definition sample_pages : list Z := (λ i, 0x10000 + Z.of_nat i * 4096) <$> seq 0 28.
(** Kernel memory: at 0x300 an argument array with the one string at 0x400, "a";
    at 0x500 a path, "x". *)
Definition sample_mem : mem := λ x,
  if x =? 0x301 then x04 else if x =? 0x400 then x61 else if x =? 0x500 then x78 else x00.
Definition K0 : @kst page_stack := @Kst page_stack (Vst page_stack sample_mem sample_pages) (replicate NPROC blank_proc) 1 None
  (replicate 2 (Cpu None 0 0)) true [].
(** Boot, the first process, CPU 0 runs it, it forks; CPU 1 runs the child, which exits. *)
Definition K1 := after (@procinit page_stack sample_layout K0) K0.
Definition K2 := after (@userinit sv39 page_stack sample_layout sample_ext K1) K1.
Definition K3 := after (@scheduler_enter page_stack 0 0 K2) K2.
Definition K4 := after (@fork sv39 page_stack sample_layout sample_ext 0 K3) K3.
Definition K5 := after (@scheduler_enter page_stack 1 1 K4) K4.
Definition K6 := after (@exit_locked page_stack 1 7 K5) K5.

Lemma nonempty_elem (X : gset Z) q : bool_decide (q ∈ X) = true → X ≠ ∅.
Proof. intros H ->. apply bool_decide_eq_true in H. by apply not_elem_of_empty in H. Qed.
Lemma lookup_state {L : Allocator} (s : kst) i st : state <$> procs s !! i = Some st → ∃ p, procs s !! i = Some p ∧ state p = st.
Proof. destruct (procs s !! i) as [p|]; [|done]. cbn. intros [= <-]. by exists p. Qed.

Notation sstep := (λ s s', ∃ o, @kstep sv39 page_stack sample_layout sample_ext sample_exec sample_content (@boot_pages page_stack K0) o s s').

Lemma sample_boot : @boot page_stack sample_layout K0 K1.
Proof.
  split.
  - split; [vm_compute; reflexivity|]. split.
    + cbn [K0 vm alloc free page_stack]. rewrite elem_of_list_to_set, list.list_elem_of_filter. intros [_ H].
      unfold sample_pages in H. apply list.list_elem_of_fmap in H as (k & E & _).
      change (@trampoline sample_layout) with 0x8000 in E. lia.
    + intros i p Hp. cbn [K0 procs] in Hp. apply lookup_replicate in Hp as [-> _]. done.
  - assert (E : value (@procinit page_stack sample_layout K0) = Some tt) by (vm_compute; reflexivity).
    exact (after_run _ K0 _ E).
Qed.
Lemma sample_init : sstep K1 K2.
Proof.
  set (s1 := after (@allocproc sv39 page_stack sample_layout sample_ext K1) K1).
  assert (E1 : value (@allocproc sv39 page_stack sample_layout sample_ext K1) = Some (Some 0%nat)) by (vm_compute; reflexivity).
  assert (E2 : value (@userinit sv39 page_stack sample_layout sample_ext K1) = Some tt) by (vm_compute; reflexivity).
  exists None. apply (@k_userinit sv39 page_stack sample_layout sample_ext sample_exec sample_content _ 0 s1 tt).
  - change (0 <= 52 < 4096). lia.
  - exact (after_run _ K1 _ E1).
  - apply (nonempty_elem _ 0x2b000). vm_compute. reflexivity.
  - exact (after_run _ K1 _ E2).
  - apply (nonempty_elem _ 0x2b000). vm_compute. reflexivity.
Qed.
Lemma sample_run : sstep K2 K3.
Proof.
  assert (E : value (@scheduler_enter page_stack 0 0 K2) = Some true) by (vm_compute; reflexivity).
  exists None. eapply k_scheduler_enter. exact (after_run _ K2 _ E).
Qed.
Lemma sample_running : @running page_stack 0 0 K3.
Proof. split; [vm_compute; reflexivity|]. apply lookup_state. vm_compute. reflexivity. Qed.
Lemma sample_fork : sstep K3 K4.
Proof.
  assert (E : value (@fork sv39 page_stack sample_layout sample_ext 0 K3) = Some 2) by (vm_compute; reflexivity).
  exists (Some 0%nat). eapply k_fork; [apply sample_running|exact (after_run _ K3 _ E)].
Qed.
Lemma sample_run1 : sstep K4 K5.
Proof.
  assert (E : value (@scheduler_enter page_stack 1 1 K4) = Some true) by (vm_compute; reflexivity).
  exists None. eapply k_scheduler_enter. exact (after_run _ K4 _ E).
Qed.
Lemma sample_exit : sstep K5 K6.
Proof.
  assert (E : value (@exit_locked page_stack 1 7 K5) = Some tt) by (vm_compute; reflexivity).
  assert (H : @running page_stack 1 1 K5) by (split; [vm_compute; reflexivity|]; apply lookup_state; vm_compute; reflexivity).
  exists (Some 1%nat). eapply k_exit_locked; [exact H|exact (after_run _ K5 _ E)].
Qed.
Lemma sample_reached3 : @reached sv39 page_stack sample_layout sample_ext sample_exec sample_content K0 K3.
Proof.
  exists K1. split; [exact sample_boot|]. eapply rtc_l; [exact sample_init|]. apply rtc_once, sample_run.
Qed.
Lemma sample_reached5 : @reached sv39 page_stack sample_layout sample_ext sample_exec sample_content K0 K5.
Proof.
  exists K1. split; [exact sample_boot|]. eapply rtc_l; [exact sample_init|]. eapply rtc_l; [exact sample_run|].
  eapply rtc_l; [exact sample_fork|]. apply rtc_once, sample_run1.
Qed.
Lemma sample_reached6 : @reached sv39 page_stack sample_layout sample_ext sample_exec sample_content K0 K6.
Proof. destruct sample_reached5 as (s1 & Hb & Hr). exists s1. split; [exact Hb|]. eapply rtc_r; [exact Hr|exact sample_exit]. Qed.
Lemma sample_running5 : @running page_stack 0 0 K5.
Proof. split; [vm_compute; reflexivity|]. apply lookup_state. vm_compute. reflexivity. Qed.

(** ** Properties *)

(** C1.  In every state that the operations of proc.c reach from boot, the
    pages the allocator had at boot are divided among the free list and the
    slots of the process table, each page to one of them and none lost; a slot
    in use has a page table that maps exactly its user memory, its usyscall
    page, its trap frame and the trampoline; an unused slot holds nothing. *)
Theorem memory_invariant {R : Riscv} {L : Allocator} {KL : Layout} {PE : ProcExt} {EE : ExecExt}
  {RL : RiscvLaws R} {AL : AllocatorLaws L} {PL : ProcLaws PE} {content : Z → list byte} {EL : ExecLaws EE content}
  (s0 s : kst) (Hr : reached content s0 s) :
  ∃ Ts, kernel_inv (boot_pages s0) s Ts.
Proof. by apply reached_inv. Qed.

(** After boot, the first process, its fork, and the child's exit. *)
Lemma memory_invariant_witness :
  @reached sv39 page_stack sample_layout sample_ext sample_exec sample_content K0 K6
  ∧ ∃ Ts, @kernel_inv sv39 page_stack sample_layout sample_ext (@boot_pages page_stack K0) K6 Ts.
Proof.
  split; [exact sample_reached6|].
  exact (@memory_invariant sv39 page_stack sample_layout sample_ext sample_exec sv39_laws page_stack_laws sample_laws sample_content sample_exec_laws K0 K6 sample_reached6).
Defined.

(** C2.  No step of a process changes the memory of another live one: its
    address space, its size, the contents of its user pages with their
    permissions, its trap frame and its usyscall page stay as they are, and it
    is neither freed nor made a zombie. *)
Theorem process_isolation {R : Riscv} {L : Allocator} {KL : Layout} {PE : ProcExt} {EE : ExecExt}
  {RL : RiscvLaws R} {AL : AllocatorLaws L} {PL : ProcLaws PE} {content : Z → list byte} {EL : ExecLaws EE content}
  (s0 s s' : kst) (o : option nat)
  (Hr : reached content s0 s) (Hs : kstep content (boot_pages s0) o s s') : isolates o s s'.
Proof. apply reached_inv in Hr as [Ts I]. by apply (kstep_ok _ _ _ _ Ts I Hs). Qed.

(** With the child running on the other CPU, the first process forks again: it
    takes pages and writes them, and the child's memory stays as it is. *)
Lemma process_isolation_witness : ∃ s' p p', @fork sv39 page_stack sample_layout sample_ext 0 K5 = Done 3 s'
  ∧ (length (alloc (vm s')) < length (alloc (vm K5)))%nat
  ∧ procs K5 !! 1%nat = Some p ∧ state p = RUNNING ∧ procs s' !! 1%nat = Some p' ∧ same_space p p'
  ∧ state p' ≠ UNUSED ∧ state p' ≠ ZOMBIE ∧ @same_user sv39 page_stack (vm K5) (pagetable p) (vm s') (pagetable p) (sz p)
  ∧ ∀ x, in_page (trapframe p) x ∨ in_page (usyscall p) x → vmem (vm s') x = vmem (vm K5) x.
Proof.
  set (s' := after (@fork sv39 page_stack sample_layout sample_ext 0 K5) K5).
  assert (E : value (@fork sv39 page_stack sample_layout sample_ext 0 K5) = Some 3) by (vm_compute; reflexivity).
  assert (Hl : (length (alloc (vm s')) <? length (alloc (vm K5)))%nat = true) by (vm_compute; reflexivity).
  assert (H1 : ∃ p, procs K5 !! 1%nat = Some p ∧ state p = RUNNING) by (apply lookup_state; vm_compute; reflexivity).
  destruct H1 as (p & Hp & Hst). pose proof (after_run _ K5 _ E) as E'. fold s' in E'.
  destruct (@process_isolation sv39 page_stack sample_layout sample_ext sample_exec sv39_laws page_stack_laws sample_laws
    sample_content sample_exec_laws K0 K5 s' (Some 0%nat) sample_reached5
    (k_fork _ _ 0 0 3 K5 s' sample_running5 E') 1%nat p) as (p' & Hp' & Hsp & Hu & Hz & Hsame & Htop);
    [discriminate|exact Hp|rewrite Hst; discriminate|rewrite Hst; discriminate|].
  exists s', p, p'. split; [exact E'|]. split; [apply Nat.ltb_lt; exact Hl|]. split; [exact Hp|]. split; [exact Hst|].
  split; [exact Hp'|]. split; [exact Hsp|]. split; [exact Hu|]. split; [exact Hz|]. split; [exact Hsame|exact Htop].
Defined.

(** C16.  fork by process [i]: without a slot or the memory for a whole copy it
    answers -1 and every used slot and the free list are as before; otherwise
    it answers the new pid and makes in an unused slot a runnable child of [i]
    with pages of its own: user memory with its parent's permissions and
    contents, its parent's trap frame with 0 in a0, its pid in the usyscall
    page.  The memory of every other slot, its parent's too, is untouched. *)
Theorem fork_memory {R : Riscv} {L : Allocator} {KL : Layout} {PE : ProcExt}
  {RL : RiscvLaws R} {AL : AllocatorLaws L} {PL : ProcLaws PE} (Pool : Z → Prop) (s : kst) (Ts : nat → tables)
  (me i : nat) (pi : proc) (I : kernel_inv Pool s Ts) (Hcpu : cpu_proc <$> cpus s !! me = Some (Some i))
  (Hi : procs s !! i = Some pi) (Hst : state pi ≠ UNUSED) :
  ∃ r s', fork me s = Done r s' ∧
    (r = -1 ∧ not_allocated Pool s Ts s' ∨ r = nextpid s ∧ ∃ j T np, forked Pool s Ts i pi j T np s').
Proof. by apply wp_done, fork_wp. Qed.

Lemma fork_memory_witness : ∃ s' np, @fork sv39 page_stack sample_layout sample_ext 0 K3 = Done 2 s'
  ∧ procs s' !! 1%nat = Some np ∧ state np = RUNNABLE ∧ parent np = Some 0%nat.
Proof.
  destruct (@reached_inv sv39 page_stack sample_layout sample_ext sample_exec sv39_laws page_stack_laws sample_laws sample_content sample_exec_laws K0 K3 sample_reached3) as [Ts I].
  destruct sample_running as [Hc (p & Hp & Hst)].
  destruct (@fork_memory sv39 page_stack sample_layout sample_ext sv39_laws page_stack_laws sample_laws _ K3 Ts 0 0 p I Hc Hp)
    as (r & s' & E & H); [by rewrite Hst|].
  assert (Hv : value (@fork sv39 page_stack sample_layout sample_ext 0 K3) = Some 2) by (vm_compute; reflexivity).
  assert (Ho : (λ p, (state p, parent p)) <$> procs (after (@fork sv39 page_stack sample_layout sample_ext 0 K3) K3) !! 1%nat
    = Some (RUNNABLE, Some 0%nat)) by (vm_compute; reflexivity).
  rewrite E in Hv, Ho. cbn in Hv. injection Hv as ->. cbn [after] in Ho.
  destruct (procs s' !! 1%nat) as [np|] eqn:Hn; [|discriminate Ho]. exists s', np. cbn in Ho. injection Ho as H1 H2.
  split; [exact E|]. split; [exact Hn|]. split; [exact H1|exact H2].
Defined.

(** C36.  allocproc, on every path: it either hands out an unused slot with a
    trap frame, a usyscall page that holds the pid, and a page table with the
    three top pages and no user memory; or, when slots or memory run out, it
    answers 0 and the free pages are those there were.  freeproc undoes a
    successful one: the free pages are again those before it. *)
Theorem allocproc_freeproc {R : Riscv} {L : Allocator} {KL : Layout} {PE : ProcExt}
  {RL : RiscvLaws R} {AL : AllocatorLaws L} {PL : ProcLaws PE} (Pool : Z → Prop) (s : kst) (Ts : nat → tables)
  (I : kernel_inv Pool s Ts) :
  ∃ o s1, allocproc s = Done o s1 ∧ match o with
    | None => not_allocated Pool s Ts s1
    | Some i => (∃ p0 p T, allocated Pool s Ts i s1 p0 p T)
        ∧ ∃ s2, freeproc i s1 = Done tt s2 ∧ kernel_inv Pool s2 Ts
            ∧ ∀ q, q ∈ free (alloc (vm s2)) ↔ q ∈ free (alloc (vm s))
    end.
Proof.
  destruct (proj1 (wp_done _ _ _) (allocproc_wp Pool s Ts I)) as (o & s1 & E & H). exists o, s1. split; [done|].
  destruct o as [i|]; [|done]. split; [done|]. destruct H as (p0 & p & T & [[Hp0 Hun] _ _ K _ _]).
  destruct (proj1 (wp_done _ _ _) (on_slot_free Pool s Ts i s1 p T I K ltac:(intros; by simplify_eq)))
    as ([] & s2 & E2 & I2 & _ & _ & Hf). by exists s2.
Qed.

Lemma allocproc_freeproc_witness : ∃ s1, @allocproc sv39 page_stack sample_layout sample_ext K3 = Done (Some 1%nat) s1.
Proof.
  destruct (@reached_inv sv39 page_stack sample_layout sample_ext sample_exec sv39_laws page_stack_laws sample_laws sample_content sample_exec_laws K0 K3 sample_reached3) as [Ts I].
  destruct (@allocproc_freeproc sv39 page_stack sample_layout sample_ext sv39_laws page_stack_laws sample_laws _ K3 Ts I)
    as (o & s1 & E & _).
  assert (Hv : value (@allocproc sv39 page_stack sample_layout sample_ext K3) = Some (Some 1%nat)) by (vm_compute; reflexivity).
  rewrite E in Hv. cbn in Hv. injection Hv as ->. exists s1. exact E.
Defined.

(** growproc by process [i], the new size at most USYSCALL: it answers -1
    with the size and the memory as they were, or 0 with the new size (the old
    one when the new one would be negative); the bytes below both sizes are kept,
    the new pages hold zeros, and every page is accounted for. *)
Theorem growproc_memory {R : Riscv} {L : Allocator} {KL : Layout} {PE : ProcExt}
  {RL : RiscvLaws R} {AL : AllocatorLaws L} {PL : ProcLaws PE} (Pool : Z → Prop) (s : kst) (Ts : nat → tables)
  (me i : nat) (p : proc) (n : Z) (I : kernel_inv Pool s Ts) (Hcpu : cpu_proc <$> cpus s !! me = Some (Some i))
  (Hi : procs s !! i = Some p) (Hst : state p ≠ UNUSED) (Hn : is_int n) (Hsz : sz p + n <= USYSCALL) :
  ∃ r s' p' T', growproc me n s = Done r s' ∧ procs s' = <[i := p']> (procs s)
    ∧ kernel_inv Pool s' (<[i := T']> Ts) ∧ resized (vm s) p (vm s') (sz p')
    ∧ (r = 0 ∧ p' = set_sz (if sz p + n <? 0 then sz p else sz p + n) p ∨ r = -1 ∧ 0 < n ∧ p' = p).
Proof.
  destruct (proj1 (wp_done _ _ _) (growproc_wp Pool s Ts me i p n I Hcpu Hi Hst Hn Hsz))
    as (r & s' & E & p' & T' & K & Hr & Hor). exists r, s', p', T'. split; [done|]. split; [apply K|].
  split; [|by split]. assert (state p' = state p ∧ pagetable p' = pagetable p) as [E1 E2]
    by by destruct Hor as [(_ & ->)|(_ & _ & ->)].
  eapply on_slot_inv; [exact I|exact K|by rewrite E1|]. rewrite E2. by eapply ki_used.
Qed.

Lemma growproc_memory_witness : ∃ s', @growproc sv39 page_stack 0 5000 K3 = Done 0 s'.
Proof.
  destruct (@reached_inv sv39 page_stack sample_layout sample_ext sample_exec sv39_laws page_stack_laws sample_laws sample_content sample_exec_laws K0 K3 sample_reached3) as [Ts I].
  destruct sample_running as [Hc (p & Hp & Hst)].
  assert (Hsz : sz p = 4096).
  { assert (E : sz <$> procs K3 !! 0%nat = Some 4096) by (vm_compute; reflexivity). rewrite Hp in E. cbn in E. by injection E. }
  destruct (@growproc_memory sv39 page_stack sample_layout sample_ext sv39_laws page_stack_laws sample_laws _ K3 Ts 0 0 p 5000 I Hc Hp)
    as (r & s' & p' & T' & E & _).
  - by rewrite Hst.
  - split; discriminate.
  - rewrite Hsz. discriminate.
  - assert (Hv : value (@growproc sv39 page_stack 0 5000 K3) = Some 0) by (vm_compute; reflexivity).
    rewrite E in Hv. cbn in Hv. injection Hv as ->. exists s'. exact E.
Defined.

(** wait's reaping of the zombie in slot [j] by process [i]: when the
    exit status cannot be copied to [addr] it answers -1 and the zombie stays;
    otherwise it answers the child's pid, the status is at [addr] (if not 0),
    the slot is unused, exactly its pages have become free, and no other slot's
    memory has changed. *)
Theorem reap_memory {R : Riscv} {L : Allocator} {KL : Layout} {PE : ProcExt}
  {RL : RiscvLaws R} {AL : AllocatorLaws L} {PL : ProcLaws PE} (Pool : Z → Prop) (s : kst) (Ts : nat → tables)
  (i j : nat) (pi pp : proc) (addr : Z) (I : kernel_inv Pool s Ts)
  (Hi : procs s !! i = Some pi) (Hst : state pi ≠ UNUSED) (Hj : procs s !! j = Some pp) (Hij : i ≠ j)
  (Haddr : 0 <= addr < 2 ^ 64) (Hoff : off_pool Pool (xstate_addr j) 4) :
  ∃ r s', wait_reap i j addr s = Done r s' ∧
    (r = -1 ∧ addr ≠ 0 ∧ kernel_inv Pool s' Ts ∧ procs s' = procs s ∧ others_kept i s s' Ts
     ∨ r = pid pp ∧ kernel_inv Pool s' (<[j := ∅]> Ts) ∧ procs s' = <[j := free_slot pp]> (procs s)
       ∧ (addr ≠ 0 → status_at (vm s') (pagetable pi) addr (xstate pp))
       ∧ (∀ q, q ∈ free (alloc (vm s')) ↔ q ∈ free (alloc (vm s)) ∨ slot_pages (vm s) pp (Ts j) q)
       ∧ ∀ k pk q x, k ≠ i → k ≠ j → procs s !! k = Some pk → slot_pages (vm s) pk (Ts k) q → in_page q x →
           vmem (vm s') x = vmem (vm s) x).
Proof.
  apply wp_done. eapply wp_mono; [by apply (wait_reap_wp Pool s Ts i j pi pp addr)|]. by intros r s' [_ H].
Qed.

(** The zombie child of the run above, its status read back at 0x100. *)
Lemma reap_memory_witness : ∃ s', @wait_reap sv39 page_stack sample_layout sample_ext 0 1 0x100 K6 = Done 2 s'.
Proof.
  destruct (@reached_inv sv39 page_stack sample_layout sample_ext sample_exec sv39_laws page_stack_laws sample_laws sample_content sample_exec_laws K0 K6 sample_reached6) as [Ts I].
  assert (H0 : ∃ p, procs K6 !! 0%nat = Some p ∧ state p = RUNNING) by (apply lookup_state; vm_compute; reflexivity).
  assert (H1 : ∃ p, procs K6 !! 1%nat = Some p ∧ state p = ZOMBIE) by (apply lookup_state; vm_compute; reflexivity).
  destruct H0 as (pi & Hi & Hst), H1 as (pp & Hj & _).
  destruct (@reap_memory sv39 page_stack sample_layout sample_ext sv39_laws page_stack_laws sample_laws _ K6 Ts 0 1 pi pp 0x100 I Hi)
    as (r & s' & E & _); [by rewrite Hst|exact Hj|discriminate|lia| |].
  - intros x q Hx Hq Hin. change (0x204 <= x < 0x208) in Hx. unfold in_page in Hin. destruct Hq as [Hq| ->].
    + unfold boot_pages in Hq. cbn [K0 vm alloc free page_stack] in Hq.
      rewrite elem_of_list_to_set, list.list_elem_of_filter in Hq. destruct Hq as [_ Hq]. unfold sample_pages in Hq.
      apply list.list_elem_of_fmap in Hq as (k & -> & _). lia.
    + change (@trampoline sample_layout) with 0x8000 in Hin. lia.
  - assert (Hv : value (@wait_reap sv39 page_stack sample_layout sample_ext 0 1 0x100 K6) = Some 2) by (vm_compute; reflexivity).
    rewrite E in Hv. cbn in Hv. injection Hv as ->. exists s'. exact E.
Defined.

(** C3.  exec by process [i], for a file whose segments leave room for the
    stack: it answers -1 with the process table and every page, mapped or free,
    as they were (only [ustack] has been written); or it answers the number of
    arguments and the process has a new address space: the image the abstract
    loader computes from the file, an inaccessible guard page, and a stack page
    with the argument strings and, at sp (a multiple of 16, also in a1), the
    array of their addresses; epc is the file's entry.  The pages of the old
    address space are free again and no other slot's memory has changed. *)
Theorem exec_memory {R : Riscv} {L : Allocator} {KL : Layout} {PE : ProcExt} {EE : ExecExt}
  {RL : RiscvLaws R} {AL : AllocatorLaws L} {PL : ProcLaws PE} {content : Z → list byte} {EL : ExecLaws EE content}
  (Pool : Z → Prop) (s : kst) (Ts : nat → tables) (me i fuel : nat) (p : proc) (path argv : Z)
  (args : list (Z * list byte)) (pstr : list byte) (I : kernel_inv Pool s Ts)
  (Hcpu : cpu_proc <$> cpus s !! me = Some (Some i)) (Hi : procs s !! i = Some p) (Hst : state p ≠ UNUSED)
  (Hcall : exec_call content Pool s fuel path argv args pstr) :
  let c := content (namei_path (trace s ++ [EBeginOp]) pstr) in
  ∃ r s', exec me fuel path argv s = Done r s' ∧
    (r = -1 ∧ failed s s' ∧ kernel_inv Pool s' Ts ∧ procs s' = procs s
     ∨ r = i32 (Z.of_nat (length args)) ∧ ∃ p' T, executed Pool s Ts i p c (args.*2) s' p' T).
Proof.
  destruct Hcall as [H1 H2 H3 [H4 H5] H6].
  destruct (proj1 (wp_done _ _ _) (exec_wp Pool s Ts i p I Hi Hst H1 me fuel path argv args pstr Hcpu H2 H3 H4 H5 H6))
    as (r & s' & E & [(Hr & F)|(Hr & root & lo & img & H0 & Hl & D)]); exists r, s'; (split; [done|]); [left|right].
  - split; [done|]. split; [done|]. by eapply failed_inv.
  - split; [done|]. by eapply stack_done_executed.
Qed.

Lemma sample_off_pool a n : 0 <= a → a + n <= 0x8000 → off_pool (@boot_pages page_stack K0) (KL := sample_layout) a n.
Proof.
  intros Ha Hn x q Hx Hq Hin. unfold in_page in Hin. destruct Hq as [Hq| ->].
  - unfold boot_pages in Hq. cbn [K0 vm alloc free page_stack] in Hq.
    rewrite elem_of_list_to_set, list.list_elem_of_filter in Hq. destruct Hq as [_ Hq]. unfold sample_pages in Hq.
    apply list.list_elem_of_fmap in Hq as (k & -> & _). lia.
  - change (@trampoline sample_layout) with 0x8000 in Hin. lia.
Qed.

(** The sample program with the argument "a", by the first process. *)
Lemma exec_memory_witness : ∃ s' p' T, @exec sv39 page_stack sample_layout sample_ext sample_exec 0 8 0x500 0x300 K3 = Done 1 s'
  ∧ ∃ Ts p, @executed sv39 page_stack sample_layout sample_ext sample_exec (@boot_pages page_stack K0) K3 Ts 0 p
      sample_file [[x61]] s' p' T.
Proof.
  destruct (@reached_inv sv39 page_stack sample_layout sample_ext sample_exec sv39_laws page_stack_laws sample_laws
    sample_content sample_exec_laws K0 K3 sample_reached3) as [Ts I].
  destruct sample_running as [Hc (p & Hp & Hst)].
  assert (Hv : value (@exec sv39 page_stack sample_layout sample_ext sample_exec 0 8 0x500 0x300 K3) = Some 1) by (vm_compute; reflexivity).
  destruct (@exec_memory sv39 page_stack sample_layout sample_ext sample_exec sv39_laws page_stack_laws sample_laws
    sample_content sample_exec_laws _ K3 Ts 0 0 8 p 0x500 0x300 [(0x400, [x61])] [x78] I Hc Hp)
    as (r & s' & E & H); [by rewrite Hst| |].
  - constructor.
    + apply sample_off_pool; vm_compute; discriminate.
    + cbn. lia.
    + constructor.
      * intros [|[|k]] a w [= <- <-]. split; [vm_compute; reflexivity|]. split; [done|]. split; [vm_compute; reflexivity|].
        split; [apply sample_off_pool; vm_compute; discriminate|left; vm_compute; discriminate].
      * vm_compute; reflexivity.
      * split; [apply sample_off_pool; vm_compute; discriminate|left; vm_compute; discriminate].
    + split; [vm_compute; reflexivity|].
      split; [apply sample_off_pool; vm_compute; discriminate|left; vm_compute; discriminate].
    + apply Forall_cons. split; [|by apply Forall_nil]. intros _. split; vm_compute; discriminate.
  - rewrite E in Hv. cbn in Hv. injection Hv as ->. destruct H as [(H & _)|(_ & p' & T & X)]; [discriminate H|].
    exists s', p', T. split; [exact E|]. exists Ts, p. exact X.
Defined.
