(* ===== verification/RiscvSched.v ===== *)
(** The scheduler of proc.c (Lab3): a runnable process stays so until a
    scheduler switches to it, whatever the other processes do; and each round of
    a scheduler switches to every process that waits. *)
From stdpp Require Import relations.
From S2P Require Import Prelude Riscv Vm RiscvProc RiscvSpace RiscvSlot RiscvAlloc RiscvFork RiscvQuiet RiscvMem.
From S2P Require Import Exec RiscvSteps.

(** ** Definitions *)

Section defs.
Context {R : Riscv} {L : Allocator} {KL : Layout} {PE : ProcExt} {EE : ExecExt} (content : Z → list byte).

(** Process [n] waits for a CPU in slot [k]. *)
Definition waiting (k : nat) (n : Z) (s : kst) : Prop :=
  ∃ p, procs s !! k = Some p ∧ state p = RUNNABLE ∧ pid p = n.
(** A scheduler switches to slot [k]: the step from [s] to [s']. *)
Definition dispatch (k me : nat) (s s' : kst) : Prop := scheduler_enter me k s = Done true s'.

(** The steps of processes and of schedulers that are not a switch to slot [k]. *)
Inductive elsewhere (Pool : Z → Prop) (k : nat) (s s' : kst) : Prop :=
  | by_process i : kstep content Pool (Some i) s s' → elsewhere Pool k s s'
  | by_scheduler me j b : j ≠ k → scheduler_enter me j s = Done b s' → elsewhere Pool k s s'
  | by_scheduler_leave me j b r : scheduler_leave me j b s = Done r s' → elsewhere Pool k s s'.
End defs.

Section stays.
Context {R : Riscv} {L : Allocator} {KL : Layout} {PE : ProcExt}.
Context (k : nat) (n : Z) (N C : nat).
Implicit Types (s : kst).

(** ** Lemmas: operations that leave a waiting process alone *)

(** ... and the sizes of the tables. *)
Definition waits (s : kst) : Prop := length (procs s) = N ∧ length (cpus s) = C ∧ waiting k n s.
(** If [c] returns from [s], then process [n] still waits. *)
Definition stays {A} (c : M kst A) s : Prop := waits s → ∀ a s', c s = Done a s' → waits s'.

Lemma waits_same s s' : procs s' = procs s → length (cpus s') = length (cpus s) → waits s → waits s'.
Proof. unfold waits, waiting. intros -> ->. done. Qed.
(** The process may be assumed to wait. *)
Lemma stays_use {A} (c : M kst A) s : (waits s → stays c s) → stays c s.
Proof. intros H Hw. by apply H. Qed.
Lemma stays_ret {A} (a : A) s : stays (mret a) s.
Proof. by intros Hw ? ? [= <- <-]. Qed.
Lemma stays_panic {A} w s : stays (panic w : M kst A) s.
Proof. done. Qed.
Lemma stays_no_fuel {A} s : stays (no_fuel : M kst A) s.
Proof. done. Qed.
Lemma stays_modify f s : procs (f s) = procs s → length (cpus (f s)) = length (cpus s) → stays (modify f) s.
Proof. intros Hp Hc Hw ? ? [= <- <-]. by eapply waits_same. Qed.
Lemma stays_emit e s : stays (emit e) s.
Proof. by apply stays_modify. Qed.
Lemma stays_cpu f me s : stays (modify (λ s, set_cpus (alter f me (cpus s)) s)) s.
Proof. apply stays_modify; [done|]. cbn. by rewrite length_alter. Qed.
Lemma stays_vmop {A} (c : V A) s : stays (vmop c) s.
Proof.
  intros Hw a s' E. unfold vmop in E. destruct (c (vm s)); [|done..]. injection E as <- <-. by eapply waits_same.
Qed.
Lemma stays_bind {A B} (c : M kst A) (f : A → M kst B) s :
  stays c s → (∀ a s', c s = Done a s' → waits s' → stays (f a) s') → stays (c ≫= f) s.
Proof.
  intros Hc Hf Hw b s' E. apply bind_Done_inv in E as (a & s1 & E1 & E2).
  pose proof (Hc Hw _ _ E1) as Hw1. by eapply Hf.
Qed.
Lemma stays_seq {A B} (c : M kst A) (f : A → M kst B) s :
  stays c s → (∀ a s', stays (f a) s') → stays (c ≫= f) s.
Proof. intros Hc Hf. apply stays_bind; [done|]. intros a s' _ _. apply Hf. Qed.
Lemma stays_gets_bind {B} {A} (g : kst → A) (f : A → M kst B) s : stays (f (g s)) s → stays (gets g ≫= f) s.
Proof. intros H. apply stays_bind; [by intros Hw ? ? [= <- <-]|]. by intros a s' [= <- <-] _. Qed.
Lemma stays_getp_bind {B} i (f : proc → M kst B) s :
  (∀ p, procs s !! i = Some p → stays (f p) s) → stays (getp i ≫= f) s.
Proof.
  intros H Hw b s' E. apply bind_Done_inv in E as (p & s1 & E1 & E2). unfold getp in E1.
  destruct (procs s !! i) as [p'|] eqn:Hp; [|done]. injection E1 as <- <-. by eapply (H p').
Qed.

(** A change of another slot, or of other fields, or to RUNNABLE. *)
Lemma stays_updp i f s : (∀ p, i = k → state p = RUNNABLE → state (f p) = RUNNABLE ∧ pid (f p) = pid p) → stays (updp i f) s.
Proof.
  intros Hf (Hl & Hc & p & Hp & Hst & Hn) ? ? [= <- <-]. unfold waits, waiting. cbn [procs cpus set_procs].
  rewrite length_alter. split_and!; [done..|]. destruct (decide (i = k)) as [->|Hne].
  - exists (f p). rewrite list_lookup_alter_eq, Hp. destruct (Hf p eq_refl Hst). split_and!; (done || congruence).
  - exists p. by rewrite list_lookup_alter_ne.
Qed.
Lemma stays_other i f s : i ≠ k → stays (updp i f) s.
Proof. intros Hne. by apply stays_updp. Qed.
Lemma stays_field i f s : (∀ p, state (f p) = state p ∧ pid (f p) = pid p) → stays (updp i f) s.
Proof. intros Hf. apply stays_updp. intros p _ Hst. destruct (Hf p) as [-> ->]. done. Qed.

(** A slot in another state is another slot. *)
Lemma waits_ne s i p : waits s → procs s !! i = Some p → state p ≠ RUNNABLE → i ≠ k.
Proof. intros (_ & _ & q & Hq & Hst & _) Hp Hne ->. simplify_eq. Qed.
Lemma running_ne me i s : waits s → running me i s → i ≠ k.
Proof. intros Hw (_ & p & Hp & Hst). apply (waits_ne s i p Hw Hp). by rewrite Hst. Qed.
Lemma stays_curproc me s : stays (curproc me) s.
Proof.
  unfold curproc, myproc. apply stays_gets_bind. case_match; [apply stays_ret|apply stays_panic].
Qed.
End stays.

#[export] Hint Resolve stays_ret stays_panic stays_no_fuel stays_emit stays_cpu stays_vmop stays_other stays_curproc : stays.
Ltac stays_step :=
  first
    [ solve [auto with stays]
    | apply stays_gets_bind
    | apply stays_getp_bind; intros ? ?
    | apply stays_seq; [|intros ? ?]
    | apply stays_field; by intros
    | apply stays_modify; done
    | case_match ].
Ltac stays := repeat stays_step.

Section stays_ops.
Context {R : Riscv} {L : Allocator} {KL : Layout} {PE : ProcExt} {EE : ExecExt}.
Context (k : nat) (n : Z) (N C : nat).
Notation stays := (stays k n N C).
Implicit Types (s : kst).

(** *** Waking, and the calls that take a slot's index *)
Lemma wakeup_loop_stays self c m i s : stays (wakeup_loop self c m i) s.
Proof.
  revert i s. induction m as [|m IH]; intros i s; cbn [wakeup_loop]; [apply stays_ret|].
  apply stays_seq; [|intros; apply IH]. unfold acquire, release. stays. by apply stays_updp.
Qed.
Lemma wakeup_stays me c s : stays (wakeup me c) s.
Proof. unfold wakeup, myproc. do 2 apply stays_gets_bind. apply wakeup_loop_stays. Qed.
#[local] Hint Resolve wakeup_stays : stays.
Lemma reparent_stays me i s : stays (reparent me i) s.
Proof.
  unfold reparent. apply stays_gets_bind. generalize (length (procs s)), 0%nat. intros m. revert s.
  induction m as [|m IH]; intros s j; cbn [reparent_loop]; [apply stays_ret|].
  apply stays_getp_bind. intros p Hp. apply stays_seq; [|intros; apply IH].
  stays.
Qed.
Lemma sched_stays me h intr s : stays (sched me h intr) s.
Proof. unfold sched. stays. Qed.
Lemma kill_stays m s : stays (kill m) s.
Proof.
  unfold kill. apply stays_gets_bind. generalize (procs s), 0%nat. intros ps. revert s.
  induction ps as [|p ps IH]; intros s i; cbn [kill_loop]; [apply stays_ret|]. unfold acquire, release.
  stays. apply stays_updp. intros q _ Hst. unfold mark_killed. cbn. by rewrite Hst.
Qed.
Lemma setkilled_stays i s : stays (setkilled i) s.
Proof. unfold setkilled, acquire, release. stays. Qed.
Lemma is_killed_stays i s : stays (is_killed i) s.
Proof. unfold is_killed, acquire, release. stays. Qed.
Lemma close_files_stays i fs fd s : stays (close_files i fs fd) s.
Proof. revert fd s. induction fs as [|f fs IH]; intros fd s; cbn [close_files]; stays. Qed.
Lemma freeproc_stays i s : i ≠ k → stays (freeproc i) s.
Proof. intros Hi. unfold freeproc. stays. Qed.

#[local] Hint Resolve reparent_stays sched_stays is_killed_stays close_files_stays freeproc_stays : stays.

(** *** Calls of the current process, which is not the one that waits *)
Lemma curproc_stays {A} me i (f : nat → M kst A) s : running me i s → (i ≠ k → stays (f i) s) → stays (curproc me ≫= f) s.
Proof.
  intros Hr Hf. apply stays_use. intros Hw. specialize (Hf (running_ne _ _ _ _ _ _ _ Hw Hr)).
  destruct Hr as [Hc _]. unfold curproc, myproc.
  apply stays_bind; [apply stays_gets_bind; case_match; auto with stays|].
  intros a s' E _. apply bind_Done_inv in E as (c0 & s1 & [= <- <-] & E). destruct (cpus s !! me) as [c|]; [|done].
  cbn in Hc, E. injection Hc as E1. rewrite E1 in E. by injection E as <- <-.
Qed.
Lemma sleep_enter_stays me i c lk intr s : running me i s → stays (sleep_enter me c lk intr) s.
Proof.
  intros Hr. unfold sleep_enter, acquire, release. apply (curproc_stays me i); [done|intros Hi]. stays.
Qed.
Lemma yield_enter_stays me i intr s : running me i s → stays (yield_enter me intr) s.
Proof. intros Hr. unfold yield_enter, acquire. apply (curproc_stays me i); [done|intros Hi]. stays. Qed.
Lemma sleep_leave_stays me ie i lk s : stays (sleep_leave me ie i lk) s.
Proof. unfold sleep_leave, sched_resume, acquire, release. stays. Qed.
Lemma yield_leave_stays me ie i s : stays (yield_leave me ie i) s.
Proof. unfold yield_leave, sched_resume, release. stays. Qed.
Lemma forkret_stays me s : stays (forkret me) s.
Proof. unfold forkret, release. stays. Qed.
Lemma exit_close_stays me i s : running me i s → stays (exit_close me) s.
Proof.
  intros Hr. unfold exit_close. apply (curproc_stays me i); [done|intros Hi]. stays.
Qed.
Lemma exit_locked_stays me i status s : running me i s → stays (exit_locked me status) s.
Proof.
  intros Hr. unfold exit_locked, acquire, release. apply (curproc_stays me i); [done|intros Hi]. stays.
Qed.
Lemma growproc_stays me i m s : running me i s → stays (growproc me m) s.
Proof. intros Hr. unfold growproc. apply (curproc_stays me i); [done|intros Hi]. stays. Qed.
Lemma either_copyout_stays me user dst src len s : stays (either_copyout me user dst src len) s.
Proof. unfold either_copyout. stays. Qed.
Lemma either_copyin_stays me user dst src len s : stays (either_copyin me dst user src len) s.
Proof. unfold either_copyin. stays. Qed.

(** wait frees the slot of a zombie only. *)
Lemma wait_reap_stays i j addr s : j ≠ k → stays (wait_reap i j addr) s.
Proof. intros Hj. unfold wait_reap, release. stays. Qed.
Lemma wait_scan_stays i addr m j hk s : stays (wait_scan i addr m j hk) s.
Proof.
  revert j hk s. induction m as [|m IH]; intros j hk s; cbn [wait_scan]; [apply stays_ret|].
  apply stays_getp_bind. intros p Hp. apply stays_use. intros Hw. assert (Hj : state p = ZOMBIE → j ≠ k).
  { intros Hz. apply (waits_ne k n N C s j p Hw Hp). by rewrite Hz. }
  destruct (bool_decide (parent p = Some i)); [|apply IH]. apply stays_seq; [apply stays_emit|]. intros _ s1.
  destruct (bool_decide_reflect (state p = ZOMBIE)) as [Hz|_].
  - apply stays_seq; [by apply wait_reap_stays, Hj|]. intros. apply stays_ret.
  - apply stays_seq; [apply stays_emit|]. intros. apply IH.
Qed.
#[local] Hint Resolve wait_scan_stays : stays.
Lemma wait_pass_stays me addr s : stays (wait_pass me addr) s.
Proof.
  unfold wait_pass, release. stays.
Qed.

(** *** allocproc, fork and userinit take an unused slot *)
Lemma find_unused_run ps i s o s' : find_unused ps i s = Done o s' →
  procs s' = procs s ∧ cpus s' = cpus s ∧ ∀ j, o = Some j → (i <= j)%nat ∧ ∃ p, ps !! (j - i)%nat = Some p ∧ state p = UNUSED.
Proof.
  revert i s. induction ps as [|p ps IH]; intros i s E; cbn [find_unused] in E; [by injection E as <- <-|].
  apply bind_Done_inv in E as (u & s1 & [= _ <-] & E). case_bool_decide as Hst.
  - injection E as <- <-. split; [done|]. split; [done|]. intros j [= <-]. split; [done|]. exists p. by rewrite Nat.sub_diag.
  - apply bind_Done_inv in E as (u' & s2 & [= _ <-] & E). apply IH in E as (Ep & Ec & Hj). split; [done|]. split; [done|].
    intros j Ej. destruct (Hj j Ej) as (Hle & q & Hq & Hu). split; [lia|]. exists q.
    replace (j - i)%nat with (S (j - S i)) by lia. done.
Qed.

(** The same with a fact about the result. *)
Definition stays_to {A} (Q : A → Prop) (c : M kst A) s : Prop :=
  waits k n N C s → ∀ a s', c s = Done a s' → waits k n N C s' ∧ Q a.
Lemma stays_to_ret {A} (Q : A → Prop) a s : Q a → stays_to Q (mret a) s.
Proof. by intros HQ Hw ? ? [= <- <-]. Qed.
Lemma stays_to_seq {A B} (Q : B → Prop) (c : M kst A) (f : A → M kst B) s :
  stays c s → (∀ a s', stays_to Q (f a) s') → stays_to Q (c ≫= f) s.
Proof.
  intros Hc Hf Hw b s' E. apply bind_Done_inv in E as (a & s1 & E1 & E2).
  pose proof (Hc Hw _ _ E1) as Hw1. by eapply Hf.
Qed.
Lemma stays_to_bind {A B} (Q : A → Prop) (c : M kst A) (f : A → M kst B) s :
  stays_to Q c s → (∀ a s', Q a → stays (f a) s') → stays (c ≫= f) s.
Proof.
  intros Hc Hf Hw b s' E. apply bind_Done_inv in E as (a & s1 & E1 & E2).
  destruct (Hc Hw _ _ E1) as [Hw1 HQ]. by eapply Hf.
Qed.
Definition other (o : option nat) : Prop := o ≠ Some k.

Lemma allocproc_stays s : stays_to other allocproc s.
Proof.
  unfold allocproc, allocpid, acquire, release. intros Hw o s' E.
  apply bind_Done_inv in E as (ps & s0 & [= <- <-] & E). apply bind_Done_inv in E as (o1 & s1 & E1 & E).
  apply find_unused_run in E1 as (Ep & Ec & Hj).
  assert (Hw1 : waits k n N C s1) by (eapply waits_same; [exact Ep|by rewrite Ec|done]).
  destruct o1 as [j|]; [|by injection E as <- <-].
  assert (Hne : j ≠ k).
  { destruct (Hj j eq_refl) as (_ & p & Hp & Hu). rewrite Nat.sub_0_r in Hp.
    apply (waits_ne k n N C s j p Hw Hp). by rewrite Hu. }
  assert (Hfail : ∀ s2, stays_to other (freeproc j;; emit (ERelease (ProcLock j));; mret None) s2).
  { intros s2. apply stays_to_seq; [by apply freeproc_stays|]. intros _ s3.
    apply stays_to_seq; [apply stays_emit|]. intros _ s4. by apply stays_to_ret. }
  refine ((_ : stays_to other _ s1) Hw1 o s' E). cbv beta zeta.
  repeat first [ apply Hfail | apply stays_to_ret; unfold other; congruence
    | apply stays_to_seq; [by stays|intros ? ?] | case_match ].
Qed.
Lemma dup_files_stays j fs fd s : stays (dup_files j fs fd) s.
Proof. revert fd s. induction fs as [|f fs IH]; intros fd s; cbn [dup_files]; unfold filedup; stays. Qed.
#[local] Hint Resolve dup_files_stays : stays.
Lemma fork_stays me i s : running me i s → stays (fork me) s.
Proof.
  intros Hr. unfold fork, idup, acquire, release. apply (curproc_stays me i); [done|intros Hi].
  eapply stays_to_bind; [apply allocproc_stays|]. intros [j|] s1 Hj; [|apply stays_ret].
  assert (j ≠ k) by (unfold other in Hj; congruence). stays.
Qed.
Lemma userinit_stays s : stays userinit s.
Proof.
  unfold userinit, namei, release. eapply stays_to_bind; [apply allocproc_stays|]. intros [j|] s1 Hj.
  - assert (j ≠ k) by (unfold other in Hj; congruence). stays.
  - stays.
Qed.

(** *** exec *)
Lemma exec_bad_stays pt sz ip s : stays (exec_bad pt sz ip) s.
Proof. unfold exec_bad. stays. Qed.
Lemma string_at_stays fuel a s : stays (string_at fuel a) s.
Proof. intros Hw l s' E. unfold string_at in E. case_match; [|done]. by injection E as <- <-. Qed.
#[local] Hint Resolve exec_bad_stays string_at_stays : stays.
Lemma loadseg_stays pt va ip off sz s : stays (loadseg pt va ip off sz) s.
Proof.
  unfold loadseg. generalize (S (S (Z.to_nat (sz / PGSIZE)))), 0. intros m. revert s.
  induction m as [|m IH]; intros s i; cbn [loadseg_loop]; [apply stays_no_fuel|].
  unfold readi_to, readi. stays.
Qed.
#[local] Hint Resolve loadseg_stays : stays.
Lemma load_segments_stays m pt ip off sz s : stays (load_segments m pt ip off sz) s.
Proof.
  revert off sz s. induction m as [|m IH]; intros off sz s; cbn [load_segments]; [apply stays_ret|].
  unfold readi. stays.
Qed.
Lemma push_args_stays m fuel pt argv base argc sp s : stays (push_args m fuel pt argv base argc sp) s.
Proof.
  revert argc sp s. induction m as [|m IH]; intros argc sp s; cbn [push_args]; [apply stays_no_fuel|].
  unfold set_ustack. stays.
Qed.
#[local] Hint Resolve load_segments_stays push_args_stays : stays.
Lemma exec_commit_stays i pt sz oldsz entry sp argc s : i ≠ k → stays (exec_commit i pt sz oldsz entry sp argc) s.
Proof. intros Hi. unfold exec_commit. stays. Qed.
#[local] Hint Resolve exec_commit_stays : stays.
Lemma exec_stack_stays fuel i path argv pt sz entry s : i ≠ k → stays (exec_stack fuel i path argv pt sz entry) s.
Proof. intros Hi. unfold exec_stack, set_ustack. stays. Qed.
#[local] Hint Resolve exec_stack_stays : stays.
(** Calls that touch neither table. *)
Definition apart_from {A} (c : M kst A) : Prop := ∀ s a s', c s = Done a s' → procs s' = procs s ∧ cpus s' = cpus s.
Lemma stays_apart {A B} (c : M kst A) (f : A → M kst B) me i s : apart_from c → running me i s →
  (∀ a s', running me i s' → stays (f a) s') → stays (c ≫= f) s.
Proof.
  intros Hc Hr Hf Hw b s' E. apply bind_Done_inv in E as (a & s1 & E1 & E2). destruct (Hc _ _ _ E1) as [Hp Hcpu].
  eapply (Hf a s1); [|eapply waits_same; [exact Hp|by rewrite Hcpu|exact Hw]|exact E2].
  unfold running. by rewrite Hp, Hcpu.
Qed.
Lemma emit_apart e : apart_from (emit e).
Proof. by intros s a s' [= <- <-]. Qed.
Lemma string_at_apart fuel a : apart_from (string_at fuel a).
Proof. intros s l s' E. unfold string_at in E. case_match; [|done]. by injection E as <- <-. Qed.
Lemma namei_at_apart path : apart_from (namei_at path).
Proof. intros s a s' E. by injection E as <- <-. Qed.
Lemma readi_apart ip off m : apart_from (readi ip off m).
Proof. intros s a s' E. by injection E as <- <-. Qed.

Lemma exec_stays me i fuel path argv s : running me i s → stays (exec me fuel path argv) s.
Proof.
  intros Hr. unfold exec. apply (stays_apart _ _ me i); [apply emit_apart|done|clear s Hr; intros _ s Hr].
  apply (stays_apart _ _ me i); [apply string_at_apart|done|clear s Hr; intros str s Hr].
  apply (stays_apart _ _ me i); [apply namei_at_apart|done|clear s Hr; intros ip s Hr].
  case_match; [stays|]. apply (stays_apart _ _ me i); [apply emit_apart|done|clear s Hr; intros _ s Hr].
  apply (stays_apart _ _ me i); [apply readi_apart|done|clear s Hr; intros elf s Hr].
  do 2 (case_match; [stays|]). apply (curproc_stays me i); [done|intros Hi]. stays.
Qed.

(** *** The scheduler *)
Lemma scheduler_enter_stays me j s b s' : waits k n N C s → scheduler_enter me j s = Done b s' → j ≠ k ∨ b = false → waits k n N C s'.
Proof.
  intros Hw E Hor. unfold scheduler_enter, acquire, set_cpu_proc in E. apply bind_Done_inv in E as (u & s1 & [= _ <-] & E).
  apply bind_Done_inv in E as (p & s2 & E1 & E). unfold getp in E1.
  destruct (_ !! j) as [q|]; [|done]. injection E1 as <- <-.
  set (s1 := set_trace _ s) in E. assert (Hw1 : waits k n N C s1) by exact Hw.
  case_bool_decide; [|by injection E as _ <-]. destruct Hor as [Hj| ->].
  - revert Hw1 b s' E. match goal with |- _ → ∀ b s', ?c s1 = Done b s' → _ => change (stays c s1) end. stays.
  - apply bind_Done_inv in E as (? & ? & _ & E). apply bind_Done_inv in E as (? & ? & _ & E).
    by apply bind_Done_inv in E as (? & ? & _ & E).
Qed.
Lemma scheduler_leave_stays me j b s : stays (scheduler_leave me j b) s.
Proof. unfold scheduler_leave, set_cpu_proc, release. stays. Qed.
End stays_ops.

Section rounds.
Context {R : Riscv} {L : Allocator} {KL : Layout} {PE : ProcExt} {EE : ExecExt} {content : Z → list byte}.
Implicit Types (s : kst).

(** ** Lemmas: the steps of the system *)

(** Everything but a scheduler's switch leaves the process waiting. *)
Lemma kstep_waits Pool k n N C o s s' : waits k n N C s → kstep content Pool o s s' →
  waits k n N C s' ∨ o = None ∧ ∃ me, dispatch k me s s'.
Proof.
  intros Hw H. destruct H as [| | | | | | | | | | | | | | | | | | | |me j b s s' E|];
    [..|destruct (decide (j = k)) as [->|Hj]; [destruct b; [right; by eauto|]|]; left;
        apply (scheduler_enter_stays k n N C _ _ _ _ _ Hw E); by auto|];
    left; revert Hw; try match goal with E : ?c ?s = Done ?r ?s' |- _ → waits _ _ _ _ ?s' =>
      intros Hw; refine ((_ : stays k n N C c s) Hw r s' E) end;
    eauto using userinit_stays, fork_stays, growproc_stays, exit_close_stays, exit_locked_stays, wait_pass_stays, sleep_enter_stays,
      sleep_leave_stays, yield_enter_stays, yield_leave_stays, forkret_stays, sched_stays, kill_stays, setkilled_stays,
      is_killed_stays, wakeup_stays, either_copyout_stays, either_copyin_stays, exec_stays, scheduler_leave_stays.
Qed.
Lemma elsewhere_waits Pool k n N C s s' : waits k n N C s → elsewhere content Pool k s s' → waits k n N C s'.
Proof.
  intros Hw [i H|me j b Hj E|me j b r E].
  - by destruct (kstep_waits _ _ _ _ _ _ _ _ Hw H) as [?|[? _]].
  - apply (scheduler_enter_stays k n N C _ _ _ _ _ Hw E). by left.
  - by apply (scheduler_leave_stays k n N C me j b s Hw r s' E).
Qed.
Lemma elsewheres_waits Pool k n N C s s' : waits k n N C s → rtc (elsewhere content Pool k) s s' → waits k n N C s'.
Proof. intros Hw. induction 1 as [|s s1 s2 H _ IH]; [done|]. by apply IH, (elsewhere_waits Pool k n N C s). Qed.

(** ** Lemmas: the scan *)

(** Reaching slot [j]: a switch if its process is runnable. *)
Lemma scheduler_enter_run me j s p : procs s !! j = Some p → (me < length (cpus s))%nat →
  ∃ s', scheduler_enter me j s = Done (bool_decide (state p = RUNNABLE)) s'
    ∧ (state p = RUNNABLE → running me j s' ∧ ∃ p', procs s' !! j = Some p' ∧ pid p' = pid p).
Proof.
  intros Hp Hme. destruct (lookup_lt_is_Some_2 (cpus s) me Hme) as [c Hc].
  unfold scheduler_enter, acquire, set_cpu_proc. case_bool_decide as Hst; eexists.
  - split.
    + unfold emit. autorewrite with run. erewrite bind_done by (unfold getp; cbn; by rewrite Hp).
      rewrite bool_decide_true by done. unfold updp. autorewrite with run. reflexivity.
    + intros _. unfold running. cbn. rewrite !list_lookup_alter_eq, Hc, Hp. cbn. split; [split; [done|]|]; eauto.
  - split; [|done]. unfold emit. autorewrite with run. erewrite bind_done by (unfold getp; cbn; by rewrite Hp).
    rewrite bool_decide_false by done. reflexivity.
Qed.

Lemma scan_app me run a b j s :
  scheduler_scan me run (a + b) j s = (scheduler_scan me run a j;; scheduler_scan me run b (j + a)) s.
Proof.
  revert j s. induction a as [|a IH]; intros j s; cbn [scheduler_scan Nat.add].
  { by rewrite ret_bind, Nat.add_0_r. }
  rewrite bind_assoc. unfold mbind, M_bind. cbn.
  destruct (scheduler_slot me run j s) as [[] s1| |]; [|done..].
  rewrite IH. by rewrite <- Nat.add_succ_comm.
Qed.
Lemma scan_app_bind {B} me run a b j (c : M kst B) s :
  (scheduler_scan me run (a + b) j;; c) s = (scheduler_scan me run a j;; scheduler_scan me run b (j + a);; c) s.
Proof. rewrite <- bind_assoc. unfold mbind at 1 2, M_bind at 1 2. by rewrite scan_app. Qed.

(** What the system does while CPU [me] runs another process: anything but a
    switch, by another CPU, to slot [k]. *)
Definition runs_others (Pool : Z → Prop) (k me : nat) (run : nat → kst → kst) : Prop := ∀ i s,
  i ≠ k → running me i s → rtc (elsewhere content Pool k) s (run i s).

Lemma scheduler_slot_waits Pool k n N C me run j s : waits k n N C s → runs_others Pool k me run →
  j ≠ k → (j < N)%nat → (me < C)%nat →
  ∃ s', scheduler_slot me run j s = Done tt s' ∧ waits k n N C s'.
Proof.
  intros Hw Hrun Hj HjN Hme. pose proof Hw as (Hl & Hc & _).
  destruct (lookup_lt_is_Some_2 (procs s) j ltac:(lia)) as [p Hp].
  destruct (scheduler_enter_run me j s p Hp ltac:(lia)) as (s1 & E & Hr).
  assert (Hw1 : waits k n N C s1) by (apply (scheduler_enter_stays k n N C _ _ _ _ _ Hw E); by left).
  unfold scheduler_slot. rewrite (bind_done _ _ _ _ _ E). destruct (bool_decide_reflect (state p = RUNNABLE)) as [Hst|Hst].
  - destruct (Hr Hst) as [Hrj _]. rewrite modify_bind.
    pose proof (elsewheres_waits _ _ _ _ _ _ _ Hw1 (Hrun j s1 Hj Hrj)) as Hw2.
    eexists. split; [reflexivity|]. by apply (scheduler_leave_stays k n N C me j true _ Hw2 tt).
  - rewrite ret_bind. eexists. split; [reflexivity|]. by apply (scheduler_leave_stays k n N C me j false _ Hw1 tt).
Qed.

(** The slots before [k], or after it. *)
Lemma scan_waits Pool k n N C me run a j s : waits k n N C s → runs_others Pool k me run → (me < C)%nat →
  (j + a <= N)%nat → (j + a <= k)%nat ∨ (k < j)%nat →
  ∃ s', scheduler_scan me run a j s = Done tt s' ∧ waits k n N C s'.
Proof.
  intros Hw Hrun Hme. revert j s Hw. induction a as [|a IH]; intros j s Hw HN Hk; cbn [scheduler_scan].
  { by exists s. }
  destruct (scheduler_slot_waits Pool k n N C me run j s Hw Hrun ltac:(lia) ltac:(lia) Hme) as (s1 & E & Hw1).
  rewrite (bind_done _ _ _ _ _ E). apply IH; [done|lia|lia].
Qed.

(** The scan from slot [j <= k] comes to slot [k] and switches to it. *)
Lemma scan_dispatches Pool k n N C me run j s : waits k n N C s → runs_others Pool k me run →
  (me < C)%nat → (j <= k)%nat → (k < N)%nat →
  ∃ s1 s2, waits k n N C s1 ∧ dispatch k me s1 s2 ∧ running me k s2 ∧ (∃ p, procs s2 !! k = Some p ∧ pid p = n)
    ∧ ∀ (c : M kst unit), (scheduler_scan me run (N - j) j;; c) s =
      (modify (run k);; scheduler_leave me k true;; scheduler_scan me run (N - S k) (S k);; c) s2.
Proof.
  intros Hw Hrun Hme Hj HkN.
  destruct (scan_waits Pool k n N C me run (k - j) j s Hw Hrun Hme ltac:(lia) ltac:(lia)) as (s1 & E1 & Hw1).
  pose proof Hw1 as (_ & Hc & p & Hp & Hst & Hn).
  destruct (scheduler_enter_run me k s1 p Hp ltac:(lia)) as (s2 & E2 & Hr). rewrite bool_decide_true in E2 by done.
  destruct (Hr Hst) as [Hrk Hpid]. rewrite Hn in Hpid. exists s1, s2. split_and!; try done. intros c.
  replace (N - j)%nat with ((k - j) + S (N - S k))%nat by lia.
  rewrite scan_app_bind, (bind_done _ _ _ _ _ E1). replace (j + (k - j))%nat with k by lia.
  cbn [scheduler_scan]. unfold scheduler_slot. by rewrite !bind_assoc, (bind_done _ _ _ _ _ E2), !bind_assoc.
Qed.
End rounds.

(** ** Properties *)

(** C17.  A runnable process stays in its slot, runnable, at every step of the system
    until a scheduler switches to it; and a scheduler that is at slot [j] of its
    scan switches to it in what is left of this round, or in the next, before
    any other slot has a second turn: it runs then, on this CPU.  This holds for
    whatever the processes do meanwhile, on this and other CPUs, if no other
    CPU takes the process first. *)
Theorem no_starvation {R : Riscv} {L : Allocator} {KL : Layout} {PE : ProcExt} {EE : ExecExt} {content : Z → list byte}
  (Pool : Z → Prop) (k : nat) (n : Z) (s : kst) (Hw : waiting k n s) :
  (∀ o s', kstep content Pool o s s' → waiting k n s' ∨ ∃ me, dispatch k me s s')
  ∧ ∀ me run j, runs_others (content := content) Pool k me run → (me < length (cpus s))%nat → (j <= length (procs s))%nat →
      ∃ s1 s2, waiting k n s1 ∧ dispatch k me s1 s2 ∧ running me k s2 ∧ (∃ p, procs s2 !! k = Some p ∧ pid p = n)
        ∧ ∀ r, (scheduler_scan me run (length (procs s) - j) j;; scheduler_rounds me run (S r)) s =
            (modify (run k);; scheduler_leave me k true;;
             scheduler_scan me run (length (procs s) - S k) (S k);;
             scheduler_rounds me run (if decide (j <= k)%nat then S r else r)) s2.
Proof.
  assert (HW : waits k n (length (procs s)) (length (cpus s)) s) by done.
  assert (HkN : (k < length (procs s))%nat) by (destruct Hw as (p & Hp & _); by eapply lookup_lt_Some).
  split.
  - intros o s' H. destruct (kstep_waits _ _ _ _ _ _ _ _ HW H) as [(_ & _ & ?)|[_ ?]]; auto.
  - intros me run j Hrun Hme Hj. destruct (decide (j <= k)%nat) as [Hjk|Hjk].
    + destruct (scan_dispatches Pool k n _ _ me run j s HW Hrun Hme Hjk HkN) as (s1 & s2 & (_ & _ & ?) & Hd & Hr & Hp & E).
      exists s1, s2. split_and!; try done.
    + destruct (scan_waits Pool k n _ _ me run (length (procs s) - j) j s HW Hrun Hme) as (s3 & E3 & HW3); [lia..|].
      pose proof HW3 as (Hl & _). set (s4 := set_trace (trace s3 ++ [EIntrOn]) s3).
      assert (HW4 : waits k n (length (procs s)) (length (cpus s)) s4) by done.
      destruct (scan_dispatches Pool k n _ _ me run 0 s4 HW4 Hrun Hme ltac:(lia) HkN) as (s1 & s2 & (_ & _ & ?) & Hd & Hr & Hp & E).
      exists s1, s2. split_and!; try done. intros r. rewrite (bind_done _ _ _ _ _ E3).
      cbn [scheduler_rounds]. unfold emit. rewrite modify_bind, gets_bind. fold s4.
      replace (length (procs s4)) with (length (procs s)) by (symmetry; exact Hl).
      rewrite Nat.sub_0_r in E. apply E.
Qed.

(** The first process has forked and given up CPU 0; both processes wait, and
    each yields at once when it runs. *)
Definition sample_yield (i : nat) (s : @kst page_stack) : @kst page_stack := after (@yield_enter page_stack 0 false s) s.
Definition two_waiting : @kst page_stack :=
  let s := after (@yield_enter page_stack 0 false K4) K4 in after (@scheduler_leave page_stack 0 0 true s) s.

Lemma no_starvation_witness :
  @waiting page_stack 1 2 two_waiting
  ∧ ∃ s1 s2, @dispatch page_stack 1 0 s1 s2 ∧ @running page_stack 0 1 s2
    ∧ ∀ r, (@scheduler_scan page_stack 0 sample_yield 62 2;; @scheduler_rounds page_stack 0 sample_yield (S r)) two_waiting =
        (modify (sample_yield 1);; scheduler_leave 0 1 true;; scheduler_scan 0 sample_yield 62 2;; scheduler_rounds 0 sample_yield r) s2.
Proof.
  assert (Hw : @waiting page_stack 1 2 two_waiting).
  { destruct (procs two_waiting !! 1%nat) as [p|] eqn:E; [|vm_compute in E; discriminate].
    exists p. split; [exact E|]. vm_compute in E. injection E as <-. split; reflexivity. }
  split; [exact Hw|].
  destruct (@no_starvation sv39 page_stack sample_layout sample_ext sample_exec sample_content (@boot_pages page_stack K0) 1 2 two_waiting Hw)
    as [_ H].
  destruct (H 0%nat sample_yield 2%nat) as (s1 & s2 & _ & Hd & Hr & _ & E).
  - intros i s Hi Hrun. unfold sample_yield. destruct (yield_enter 0 false s) as [r s'| |] eqn:Ey; [|apply rtc_refl..].
    apply rtc_once. apply by_process with i. eapply k_yield_enter; [exact Hrun|exact Ey].
  - vm_compute. lia.
  - vm_compute. lia.
  - exists s1, s2. split; [exact Hd|]. split; [exact Hr|]. exact E.
Defined.
