(* ===== verification/RiscvShared.v ===== *)
(** The page that a process shares with the kernel (Lab3): what user code reads
    at USYSCALL is the pid that fork gave it, and how long that lasts. *)
From stdpp Require Import functions relations.
From S2P Require Import Prelude Riscv Vm PageTable Mappings AddrSpace UserCopy.
From S2P Require Import RiscvProc RiscvSpace RiscvSlot RiscvAlloc RiscvFork RiscvQuiet RiscvMem.
From S2P Require Import Exec ExecMem ExecLoad ExecArgs ExecProps RiscvSteps.

(** ** Definitions *)
Section defs.
Context {R : Riscv} {L : Allocator} {KL : Layout} {PE : ProcExt} {EE : ExecExt} (content : Z → list byte).

(** User code of [p] may read at USYSCALL, may not write there, and reads [n] in
    the field [pid] of struct usyscall. *)
Definition user_reads_pid (s : kst) (p : proc) (n : Z) : Prop :=
  let e := entry (vmem (vm s)) (pagetable p) USYSCALL in
  (has e PTE_V && has e PTE_R && has e PTE_U = true) ∧ has e PTE_W = false
  ∧ load 4 (vmem (vm s)) (PTE2PA e + usyscall_pid) = u32 n.

Definition live (j : nat) (s : kst) : Prop := ∃ p, procs s !! j = Some p ∧ state p ≠ UNUSED ∧ state p ≠ ZOMBIE.

(** The user range [a, a+n) has a byte of that field. *)
Definition over_pid (a n : Z) : Prop := ∃ k, 0 <= k < 4 ∧ a <= USYSCALL + usyscall_pid + k < a + n.
(** The step from [s] to [s'] is a system call of process [j] that has the kernel
    write there: a read into a buffer over the field, or a wait for whose status
    the process gives an address there. *)
Definition stores_pid (j : nat) (s s' : kst) : Prop := ∃ me dst, running me j s ∧
  ((∃ src len r, either_copyout me true dst src len s = Done r s' ∧ over_pid dst len)
   ∨ (∃ r, wait_pass me dst s = Done r s' ∧ dst ≠ 0 ∧ over_pid dst 4)).
(** Any other step of any process or scheduler (fork, exec, growproc, copies,
    user code, ... of [j] too) that leaves process [j] alive. *)
Definition undisturbed (Pool : Z → Prop) (j : nat) (s s' : kst) : Prop :=
  (∃ o, kstep content Pool o s s') ∧ ¬ stores_pid j s s' ∧ live j s'.
End defs.

Section shared.
Context {R : Riscv} {L : Allocator} {KL : Layout} {PE : ProcExt} {EE : ExecExt}.
Context {RL : RiscvLaws R} {AL : AllocatorLaws L} {PL : ProcLaws PE} {content : Z → list byte} {EL : ExecLaws EE content}.
Implicit Types (s : kst) (p : proc) (T : tables).

(** ** Lemmas *)

(** The page as the kernel sees it. *)
Definition holds_pid (j : nat) (n : Z) s : Prop := ∃ p, procs s !! j = Some p ∧ state p ≠ UNUSED ∧ state p ≠ ZOMBIE
  ∧ load 4 (vmem (vm s)) (usyscall p + usyscall_pid) = u32 n.

Lemma usyscall_slot Pool s Ts j p : kernel_inv Pool s Ts → procs s !! j = Some p → state p ≠ UNUSED →
  is_page (usyscall p) ∧ entry (vmem (vm s)) (pagetable p) USYSCALL = us_pte (usyscall p)
  ∧ ¬ user_page (vm s) (pagetable p) (sz p) (usyscall p).
Proof.
  intros I Hp Hu. pose proof (ki_used _ _ _ I j p Hp Hu) as Hpt. pose proof (si_slot _ _ _ _ (ki_space _ _ _ I) j p Hp) as S.
  destruct (so_space _ _ _ S Hpt) as (_ & Hus & Sp). split; [|split].
  - apply (so_page _ _ _ S). split; [done|]. auto.
  - apply (sp_us _ _ _ _ _ _ Sp). pose proof usyscall_next. pose proof trapframe_next. lia.
  - by apply (so_top _ _ _ S (usyscall p) Hus (or_intror eq_refl)).
Qed.

Lemma load_shift n (m m' : mem) a b : (∀ k, 0 <= k < Z.of_nat n → m' (a + k) = m (b + k)) → load n m' a = load n m b.
Proof.
  revert a b. induction n as [|n IH]; intros a b H; [done|]. cbn [load].
  rewrite <- (Z.add_0_r a), <- (Z.add_0_r b), (H 0) by lia. f_equal. f_equal. apply IH. intros k Hk.
  replace (a + 0 + 1 + k) with (a + (k + 1)) by lia. replace (b + 0 + 1 + k) with (b + (k + 1)) by lia. apply H. lia.
Qed.
Lemma load_usyscall s s' p : (∀ x, in_page (usyscall p) x → vmem (vm s') x = vmem (vm s) x) →
  load 4 (vmem (vm s')) (usyscall p + usyscall_pid) = load 4 (vmem (vm s)) (usyscall p + usyscall_pid).
Proof. intros H. apply load_ext. intros x Hx. apply H. pose proof usyscall_field. unfold in_page. lia. Qed.

(** The bytes of the field at USYSCALL and in the page are the same ones. *)
Lemma usyscall_byte m root us k : is_page us → entry m root USYSCALL = us_pte us → 0 <= k < 4 →
  ubyte m root (USYSCALL + usyscall_pid + k) = Some (m (us + usyscall_pid + k)).
Proof.
  intros Hpg E Hk. pose proof usyscall_field as Hf. pose proof usyscall_next. pose proof maxva_range.
  pose proof maxva_page. pose proof top_room.
  rewrite ubyte_some by lia. rewrite (entry_page _ root (USYSCALL + usyscall_pid + k) USYSCALL)
    by (lia || (Z.to_euclidean_division_equations; lia)). rewrite E.
  assert (Hperm : 0 <= Z.lor PTE_R PTE_U < 1024) by (rewrite pte_r_bit, pte_u_bit; done).
  replace (has (us_pte us) PTE_V && has (us_pte us) PTE_U) with true.
  - unfold us_pte. rewrite mk_pte_pa by done. do 2 f_equal.
    assert ((USYSCALL + usyscall_pid + k) mod 4096 = usyscall_pid + k) as ->; [|lia]. Z.to_euclidean_division_equations; lia.
  - unfold has, us_pte. rewrite pte_v_bit, pte_r_bit, pte_u_bit, !mk_pte_bits by done. done.
Qed.

(** *** Steps that leave the field *)

Definition field_kept (j : nat) s s' : Prop := ∀ p, procs s !! j = Some p → ∃ p', procs s' !! j = Some p'
  ∧ usyscall p' = usyscall p
  ∧ load 4 (vmem (vm s')) (usyscall p + usyscall_pid) = load 4 (vmem (vm s)) (usyscall p + usyscall_pid).

Lemma field_isolated o j s s' : isolates o s s' → o ≠ Some j → live j s → field_kept j s s'.
Proof.
  intros H Ho (p & Hp & Hu & Hz) p1 Hp1. assert (p1 = p) as -> by congruence.
  destruct (H j p Ho Hp Hu Hz) as (p' & Hp' & (_ & _ & _ & Eu) & _ & _ & _ & Hb). exists p'. split; [done|]. split; [done|].
  apply load_usyscall. auto.
Qed.
Lemma field_quiet o j s s' : quiet o s s' → field_kept j s s'.
Proof.
  intros (Hv & _ & H) p Hp. destruct (H j p Hp) as (p' & Hp' & ((_ & _ & _ & Eu) & _) & _). exists p'.
  split; [done|]. split; [done|]. by rewrite Hv.
Qed.
Lemma field_keeps o j {A} (c : M kst A) s a s' : keeps o c s → c s = Done a s' → field_kept j s s'.
Proof. intros H E. by eapply field_quiet, H. Qed.
(** The user's bytes there are the same before and after. *)
Lemma field_user Pool Pool' j s s' Ts Ts' p p' : kernel_inv Pool s Ts → kernel_inv Pool' s' Ts' →
  procs s !! j = Some p → procs s' !! j = Some p' → state p ≠ UNUSED → state p' ≠ UNUSED → same_space p p' →
  (∀ k, 0 <= k < 4 → ubyte (vmem (vm s')) (pagetable p) (USYSCALL + usyscall_pid + k)
    = ubyte (vmem (vm s)) (pagetable p) (USYSCALL + usyscall_pid + k)) →
  load 4 (vmem (vm s')) (usyscall p + usyscall_pid) = load 4 (vmem (vm s)) (usyscall p + usyscall_pid).
Proof.
  intros I I' Hp Hp' Hu Hu' (E1 & _ & _ & E4) Hb.
  destruct (usyscall_slot _ _ _ _ _ I Hp Hu) as (Pg & E & _), (usyscall_slot _ _ _ _ _ I' Hp' Hu') as (_ & E' & _).
  rewrite E1, E4 in E'. apply load_shift. intros k Hk. specialize (Hb k Hk).
  rewrite (usyscall_byte _ _ _ k Pg E Hk), (usyscall_byte _ _ _ k Pg E' Hk) in Hb. by injection Hb.
Qed.

(** The calls of the process itself that move memory. *)
Lemma field_growproc Pool me j p n r s s' Ts : kernel_inv Pool s Ts → running me j s → procs s !! j = Some p →
  is_int n → sz p + n <= USYSCALL → growproc me n s = Done r s' → field_kept j s s'.
Proof.
  intros I [Hc (p1 & Hp1 & Hst)] Hp Hn Hsz E q Hq. assert (p1 = p) as -> by congruence. assert (q = p) as -> by congruence.
  assert (Hu : state p ≠ UNUSED) by by rewrite Hst.
  pose proof (growproc_wp Pool s Ts me j p n I Hc Hp Hu Hn Hsz) as H. unfold wp in H. rewrite E in H.
  destruct H as (p' & T' & K & (_ & _ & Ht) & Hor). exists p'. split; [by eapply on_slot_lookup|].
  split; [by destruct Hor as [(_ & ->)|(_ & _ & ->)]|]. apply load_usyscall. auto.
Qed.
Lemma field_exec Pool me j fuel path argv args pstr r s s' Ts : kernel_inv Pool s Ts → running me j s →
  exec_call content Pool s fuel path argv args pstr → exec me fuel path argv s = Done r s' → field_kept j s s'.
Proof.
  intros I [Hc (p & Hp & Hst)] [H1 H2 H3 [H4 H5] H6] E q Hq. assert (q = p) as -> by congruence.
  assert (Hu : state p ≠ UNUSED) by by rewrite Hst.
  pose proof (exec_wp Pool s Ts j p I Hp Hu H1 me fuel path argv args pstr Hc H2 H3 H4 H5 H6) as W.
  unfold wp in W. rewrite E in W. destruct W as [(_ & F)|(_ & root & lo & img & Hr & Hl & D)].
  - destruct (failed_inv Pool s Ts j p I Hp Hu H1 s' F) as [_ Ep]. exists p. rewrite Ep. split; [done|]. split; [done|].
    apply load_usyscall. by apply (failed_shared Pool s Ts j p I Hp Hu H1).
  - destruct (stack_done_executed Pool s Ts j p I Hu root lo img _ _ s' Hr Hl D) as (p' & T & X).
    exists p'. split; [eapply on_slot_lookup, X|].
    destruct (ex_fields _ _ _ _ _ _ _ _ _ _ X) as (? & ? & ? & _ & ->). split; [done|].
    apply load_usyscall. exact (ex_shared _ _ _ _ _ _ _ _ _ _ X).
Qed.
Lemma field_wait Pool me j addr r s s' Ts : kernel_inv Pool s Ts → running me j s → live j s' → 0 <= addr < 2 ^ 64 →
  (∀ j, off_pool Pool (xstate_addr j) 4) → wait_pass me addr s = Done r s' → ¬ stores_pid j s s' → field_kept j s s'.
Proof.
  intros I Hr (p1 & Hp1 & Hu1 & _) Ha Hoff E Hno p Hp.
  destruct (wait_pass_ok Pool me j addr s Ts r s' I Hr Ha Hoff E) as [[[Ts' I'] _] Hb].
  destruct (Hb p Hp) as (p' & Hp' & Hs & Hbytes). assert (p1 = p') as -> by congruence. exists p'. split; [done|].
  split; [apply Hs|]. assert (Hu : state p ≠ UNUSED) by (destruct Hr as (_ & q & Hq & Hst); congruence).
  apply (field_user Pool Pool j s s' Ts Ts' p p'); try done. intros k Hk. apply Hbytes.
  destruct (decide (addr = 0)) as [?|Hne]; [by left|right]. intros Hin. apply Hno. exists me, addr. split; [done|]. right.
  exists r. split; [done|]. split; [done|]. by exists k.
Qed.
(** A kernel buffer is off the page. *)
Lemma usyscall_buffer Pool s Ts j p a n x : kernel_inv Pool s Ts → procs s !! j = Some p → state p ≠ UNUSED →
  off_pool Pool a n → in_page (usyscall p) x → ¬ a <= x < a + n.
Proof.
  intros I Hp Hu Hoff Hx Hin. apply (Hoff x (usyscall p) Hin); [|done]. left.
  pose proof (ki_used _ _ _ I j p Hp Hu) as Hpt. pose proof (si_slot _ _ _ _ (ki_space _ _ _ I) j p Hp) as S.
  destruct (so_space _ _ _ S Hpt) as (_ & Hus & _).
  eapply (slot_pool Pool s Ts j s p (Ts j)); [by apply start_slot|]. split; auto.
Qed.
Lemma field_memory j p s m' : procs s !! j = Some p → (∀ x, in_page (usyscall p) x → m' x = vmem (vm s) x) →
  field_kept j s (set_vm (set_vmem m' (vm s)) s).
Proof.
  intros Hp Hm q Hq. assert (q = p) as -> by congruence. exists p. split; [done|]. split; [done|].
  by apply (load_usyscall s (set_vm (set_vmem m' (vm s)) s)).
Qed.
Lemma field_copyout Pool me j user dst src len r s s' Ts : kernel_inv Pool s Ts → running me j s →
  0 <= dst < 2 ^ 64 → 0 <= len → off_pool Pool src len → (user = false → off_pool Pool dst len) →
  either_copyout me user dst src len s = Done r s' → ¬ stores_pid j s s' → field_kept j s s'.
Proof.
  intros I Hr Hdst Hlen Hsrc Hd E Hno. pose proof Hr as [Hc (p & Hp & Hst)]. assert (Hu : state p ≠ UNUSED) by by rewrite Hst.
  destruct (either_copyout_ok Pool me j user dst src len s Ts r s' I Hr Hdst Hlen Hsrc Hd E) as [[Ts' I'] _].
  pose proof E as E0. unfold either_copyout in E.
  apply bind_Done_inv in E as (i' & s1 & E1 & E). destruct (curproc_Done me j i' s s1 Hc E1) as [-> ->].
  apply bind_Done_inv in E as (q & s1 & E2 & E). unfold getp in E2. rewrite Hp in E2. injection E2 as <- <-.
  destruct user.
  - pose proof (copyout_slot_wp Pool s Ts j s p (Ts j) dst src len (start_slot _ _ _ _ _ I Hp) (ki_used _ _ _ I j p Hp Hu) Hdst Hlen Hsrc) as H.
    unfold wp in H. rewrite E in H. destruct H as (v' & k & -> & _ & Hk & _ & C).
    intros q Hq. assert (q = p) as -> by congruence. exists p. split; [done|]. split; [done|].
    apply (field_user Pool Pool j s (set_vm v' s) Ts Ts' p p); try done. intros i Hi. cbn [vm set_vm].
    rewrite (co_user _ _ _ _ _ _ _ C).
    replace ((dst <=? _) && (_ <? dst + k)) with false; [done|]. symmetry. zcases; try done; try lia. exfalso. apply Hno.
    exists me, dst. split; [done|]. left. exists src, len, r. split; [done|]. exists i. lia.
  - apply bind_Done_inv in E as ([] & s1 & [= <-] & [= <- <-]). apply (field_memory j p); [done|].
    intros x Hx. apply memmove_other. pose proof (usyscall_buffer Pool s Ts j p dst len x I Hp Hu (Hd eq_refl) Hx). lia.
Qed.
Lemma field_copyin Pool me j user dst src len r s s' Ts : kernel_inv Pool s Ts → running me j s →
  0 <= src < 2 ^ 64 → 0 <= len → off_pool Pool dst len →
  either_copyin me dst user src len s = Done r s' → field_kept j s s'.
Proof.
  intros I [Hc (p & Hp & Hst)] Hsrc Hlen Hdst E. assert (Hu : state p ≠ UNUSED) by by rewrite Hst.
  unfold either_copyin in E.
  apply bind_Done_inv in E as (i' & s1 & E1 & E). destruct (curproc_Done me j i' s s1 Hc E1) as [-> ->].
  apply bind_Done_inv in E as (q & s1 & E2 & E). unfold getp in E2. rewrite Hp in E2. injection E2 as <- <-.
  destruct user.
  - pose proof (copyin_slot_wp Pool s Ts j s p (Ts j) dst src len (start_slot _ _ _ _ _ I Hp) (ki_used _ _ _ I j p Hp Hu) Hsrc Hlen Hdst) as H.
    unfold wp in H. rewrite E in H. destruct H as (v' & k & -> & _ & Hk & _ & C).
    rewrite (set_vm_mem v' s (ci_alloc _ _ _ _ _ _ _ C)). apply (field_memory j p); [done|]. intros x Hx.
    apply (ci_rest _ _ _ _ _ _ _ C). pose proof (usyscall_buffer Pool s Ts j p dst len x I Hp Hu Hdst Hx). lia.
  - apply bind_Done_inv in E as ([] & s1 & [= <-] & [= <- <-]). apply (field_memory j p); [done|].
    intros x Hx. apply memmove_other. pose proof (usyscall_buffer Pool s Ts j p dst len x I Hp Hu Hdst Hx). lia.
Qed.
Lemma field_write Pool j p s m' Ts : kernel_inv Pool s Ts → procs s !! j = Some p → state p ≠ UNUSED →
  user_write_at s p m' → field_kept j s (set_vm (set_vmem m' (vm s)) s).
Proof.
  intros I Hp Hu Hw. apply (field_memory j p); [done|]. intros x Hx. apply Hw. intros q Hq Hin.
  destruct (usyscall_slot _ _ _ _ _ I Hp Hu) as (Hpg & _ & Hno).
  pose proof (si_slot _ _ _ _ (ki_space _ _ _ I) j p Hp) as S. pose proof (ki_used _ _ _ I j p Hp Hu) as Hpt.
  destruct (so_space _ _ _ S Hpt) as (_ & _ & Sp). apply Hno.
  rewrite <- (in_page_eq q (usyscall p) x); [done| |done..]. by apply (sp_pages _ _ _ _ _ _ Sp).
Qed.

(** Every step. *)
Lemma step_field Pool o j s s' Ts : kernel_inv Pool s Ts → kstep content Pool o s s' → live j s → live j s' →
  ¬ stores_pid j s s' → field_kept j s s'.
Proof.
  intros I H Hl Hl' Hno. destruct (decide (o = Some j)) as [->|Ho].
  2:{ destruct (kstep_ok _ _ _ _ _ I H) as [_ Hiso]. by eapply field_isolated. }
  remember (Some j) as o eqn:Eo. destruct H; try (injection Eo as ->); try discriminate Eo.
  - destruct (fork_ok Pool None me j s Ts r s' I) as [_ Hiso]; [done|done|]. by eapply field_isolated.
  - by eapply field_growproc.
  - eapply field_keeps; [by eapply exit_close_keeps|done].
  - eapply field_keeps; [by eapply exit_locked_keeps|done].
  - by eapply field_wait.
  - eapply field_keeps; [by eapply sleep_enter_keeps|done].
  - eapply field_keeps; [by eapply sleep_leave_keeps|done].
  - eapply field_keeps; [by eapply yield_enter_keeps|done].
  - eapply field_keeps; [by eapply yield_leave_keeps|done].
  - eapply field_keeps; [by eapply forkret_keeps|done].
  - eapply field_keeps; [by eapply sched_keeps|done].
  - eapply field_keeps; [by eapply kill_keeps|done].
  - eapply field_keeps; [by eapply setkilled_keeps|done].
  - eapply field_keeps; [by eapply is_killed_keeps|done].
  - eapply field_keeps; [by eapply wakeup_keeps|done].
  - by eapply field_copyout.
  - by eapply field_copyin.
  - destruct H as (_ & q & Hq & Hst). assert (q = p) as -> by congruence. eapply field_write; try eassumption. by rewrite Hst.
  - by eapply field_exec.
  Unshelve. all: exact None.
Qed.
Lemma undisturbed_all Pool j n s s' Ts : kernel_inv Pool s Ts → rtc (undisturbed content Pool j) s s' → holds_pid j n s →
  (∃ Ts', kernel_inv Pool s' Ts') ∧ holds_pid j n s'.
Proof.
  intros I H. revert Ts I. induction H as [s|s s1 s2 ([o Ho] & Hno & Hl) _ IH]; intros Ts I Hh; [eauto|].
  destruct (kstep_ok _ _ _ _ _ I Ho) as [[Ts1 I1] _]. apply (IH Ts1 I1).
  destruct Hh as (p & Hp & Hu & Hz & Hld).
  destruct (step_field Pool o j s s1 Ts I Ho) with (p := p) as (p' & Hp' & Eu & E); [by exists p|done|done|done|].
  destruct Hl as (p1 & Hp1 & Hu1 & Hz1). exists p1. split; [done|]. split; [done|]. split; [done|].
  assert (p1 = p') as -> by congruence. by rewrite Eu, E.
Qed.

Lemma holds_reads Pool j n s Ts : kernel_inv Pool s Ts → holds_pid j n s → ∃ p, procs s !! j = Some p ∧ user_reads_pid s p n.
Proof.
  intros I (p & Hp & Hu & _ & Hl). destruct (usyscall_slot _ _ _ _ _ I Hp Hu) as (Hpg & E & _). exists p. split; [done|].
  assert (Hperm : 0 <= Z.lor PTE_R PTE_U < 1024) by (rewrite pte_r_bit, pte_u_bit; done).
  unfold user_reads_pid. rewrite E. cbv zeta. unfold us_pte at 5. rewrite mk_pte_pa by done. split; [|split; [|done]].
  - unfold has, us_pte. rewrite pte_v_bit, pte_r_bit, pte_u_bit, !mk_pte_bits by done. done.
  - unfold has, us_pte. rewrite pte_w_bit, pte_r_bit, pte_u_bit, mk_pte_bits by done. done.
Qed.
Lemma fork_holds Pool s Ts me i r s' : kernel_inv Pool s Ts → running me i s → fork me s = Done r s' → r ≠ -1 →
  ∃ j np Ts', procs s' !! j = Some np ∧ pid np = r ∧ parent np = Some i ∧ kernel_inv Pool s' Ts' ∧ holds_pid j r s'.
Proof.
  intros I (Hc & p & Hp & Hst) E Hr. assert (Hu : state p ≠ UNUSED) by by rewrite Hst.
  pose proof (fork_wp Pool s Ts me i p I Hc Hp Hu) as H. unfold wp in H. rewrite E in H.
  destruct H as [[? _]|(-> & j & T & np & F)]; [done|]. destruct (fk_slot _ _ _ _ _ _ _ _ _ F) as (p0 & Hj & _).
  destruct (fk_state _ _ _ _ _ _ _ _ _ F) as (Hs & Hpid & Hpar & _).
  assert (Hnp : procs s' !! j = Some np).
  { rewrite (fk_procs _ _ _ _ _ _ _ _ _ F). apply list_lookup_insert_eq. by eapply lookup_lt_Some. }
  exists j, np, (<[j := T]> Ts). split_and!; try done; [apply F|].
  exists np. rewrite Hs. split_and!; try done. apply (fk_pid _ _ _ _ _ _ _ _ _ F).
Qed.

(** Steps that are no store there: they change what a copy, or a wait without
    children, leaves alone. *)
Lemma wait_scan_childless i addr n : ∀ j hk s r s', (∀ k p, procs s !! k = Some p → parent p ≠ Some i) →
  wait_scan i addr n j hk s = Done r s' → r = (None, hk) ∧ s' = s.
Proof.
  induction n as [|n IH]; intros j hk s r s' H E; cbn [wait_scan] in E; [by injection E|].
  apply bind_Done_inv in E as (q & s1 & E1 & E). unfold getp in E1. destruct (procs s !! j) as [q'|] eqn:Hq; [|done].
  injection E1 as -> <-. rewrite bool_decide_eq_false_2 in E by (by eapply H). by eapply IH.
Qed.
Lemma vmop_Done {A} (c : V A) s r s' : vmop c s = Done r s' → nextpid s' = nextpid s.
Proof. unfold vmop. destruct (c (vm s)); [|done..]. by intros [= _ <-]. Qed.
Lemma either_copyout_nextpid me i user dst src len s r s' : cpu_proc <$> cpus s !! me = Some (Some i) →
  either_copyout me user dst src len s = Done r s' → nextpid s' = nextpid s.
Proof.
  intros Hc E. unfold either_copyout in E.
  apply bind_Done_inv in E as (i' & s1 & E1 & E). destruct (curproc_Done me i i' s s1 Hc E1) as [-> ->].
  apply bind_Done_inv in E as (q & s1 & E2 & E). unfold getp in E2. destruct (procs s !! i); [|done]. injection E2 as -> <-.
  destruct user; [by eapply vmop_Done|]. apply bind_Done_inv in E as ([] & s1 & E & [= _ <-]). by eapply vmop_Done.
Qed.
Lemma wait_pass_childless me i addr s r s' : cpu_proc <$> cpus s !! me = Some (Some i) →
  (∀ k p, procs s !! k = Some p → parent p ≠ Some i) → wait_pass me addr s = Done r s' → nextpid s' = nextpid s.
Proof.
  intros Hc H E. unfold wait_pass in E.
  apply bind_Done_inv in E as (i' & s1 & E1 & E). destruct (curproc_Done me i i' s s1 Hc E1) as [-> ->].
  apply bind_Done_inv in E as (ps & s1 & [= <- <-] & E). apply bind_Done_inv in E as ([o hk] & s1 & E2 & E).
  apply wait_scan_childless in E2 as [[= -> ->] ->]; [|done]. by injection E as _ <-.
Qed.
Lemma not_stored j s s' : nextpid s' ≠ nextpid s → (∀ k p, procs s !! k = Some p → parent p ≠ Some j) → ¬ stores_pid j s s'.
Proof.
  intros Hn Hpar (me & dst & [Hc _] & [(src & len & r & E & _)|(r & E & _)]); apply Hn.
  - by eapply either_copyout_nextpid.
  - by eapply wait_pass_childless.
Qed.

(** *** A system call that writes there *)

Lemma copyout_pid_wp Pool s Ts me j p src : kernel_inv Pool s Ts → running me j s → procs s !! j = Some p → off_pool Pool src 4 →
  wp (either_copyout me true (USYSCALL + usyscall_pid) src 4) (λ r s', r = 0 ∧ procs s' = procs s
    ∧ load 4 (vmem (vm s')) (usyscall p + usyscall_pid) = load 4 (vmem (vm s)) src) s.
Proof.
  intros I [Hc (p1 & Hp1 & Hst)] Hp Hoff. assert (p1 = p) as -> by congruence. assert (Hu : state p ≠ UNUSED) by by rewrite Hst.
  pose proof usyscall_field as Hf. pose proof usyscall_next. pose proof maxva_range. pose proof top_room.
  unfold either_copyout. apply wp_bind, (wp_curproc me j); [done|]. apply wp_bind, (wp_getp j p); [done|].
  pose proof (ki_used _ _ _ I j p Hp Hu) as Hpt. pose proof (start_slot _ _ _ _ _ I Hp) as K.
  pose proof (on_slot_ok _ _ _ _ _ _ _ K) as S. pose proof (si_tramp _ _ _ _ (ki_space _ _ _ I)) as Htr.
  destruct (proc_space_as _ _ _ S Hpt Htr) as [Ia Hl].
  apply wp_vmop. eapply wp_mono; [apply (copyout_wp _ (USYSCALL + usyscall_pid) src 4 (vm s) (Ts j) Ia); try lia|].
  { intros x Hx va q Hq. eapply Hoff; [exact Hx|]. destruct (Hl va q Hq); [by right|left]. by eapply slot_pool. }
  intros r v' (k & Hk & Hr & C).
  destruct (usyscall_slot _ _ _ _ _ I Hp Hu) as (Hpg & E & _).
  assert (Hk4 : r = 0 ∧ k = 4).
  { destruct Hr as [?|(_ & Hlt & Hn)]; [done|]. by rewrite (usyscall_byte _ _ (usyscall p) k Hpg E) in Hn by lia. }
  destruct Hk4 as [-> ->]. split; [done|]. split; [done|]. cbn [vm set_vm]. apply load_shift. intros k' Hk'.
  pose proof (co_user _ _ _ _ _ _ _ C (USYSCALL + usyscall_pid + k')) as Hb.
  rewrite (usyscall_byte _ _ (usyscall p)) in Hb; [|done|by rewrite (co_entries _ _ _ _ _ _ _ C) by lia|lia].
  rewrite (proj2 (Z.leb_le _ _)), (proj2 (Z.ltb_lt _ _)) in Hb by lia. injection Hb as ->. f_equal. lia.
Qed.
End shared.

(** ** Theorems *)

(** C12.  What user code reads of its pid in the shared page is the pid it has.
    When fork has made a process and answered [r], that process is a slot [j]
    with pid [r] and the caller as its parent, and user code of [j] reads [r]
    at USYSCALL, in a page it cannot write, after any steps of any processes and
    schedulers in which [j] stays alive and none is a system call of [j] itself
    that has the kernel write over the field (read into a buffer there, or wait
    with a status address there; such a call succeeds, [copyout_forges_pid]).
    So forks, execs, growprocs, waits and copies of [j] elsewhere keep it. *)
Theorem ugetpid_after_fork {R : Riscv} {L : Allocator} {KL : Layout} {PE : ProcExt} {EE : ExecExt}
  {RL : RiscvLaws R} {AL : AllocatorLaws L} {PL : ProcLaws PE} {content : Z → list byte} {EL : ExecLaws EE content}
  (s0 s s' : kst) (me i : nat) (r : Z) (Hs : reached content s0 s) (Hrun : running me i s)
  (E : fork me s = Done r s') (Hr : r ≠ -1) :
  ∃ j np, procs s' !! j = Some np ∧ pid np = r ∧ parent np = Some i ∧
    ∀ s'', rtc (undisturbed content (boot_pages s0) j) s' s'' →
      ∃ p, procs s'' !! j = Some p ∧ user_reads_pid s'' p r.
Proof.
  destruct (reached_inv s0 s Hs) as [Ts I].
  destruct (fork_holds _ s Ts me i r s' I Hrun E Hr) as (j & np & Ts' & Hj & Hpid & Hpar & I' & H).
  exists j, np. split_and!; [done..|]. intros s'' Hn.
  destruct (undisturbed_all _ j r s' s'' Ts' I' Hn H) as [[Ts'' I''] H']. exact (holds_reads _ j r s'' Ts'' I'' H').
Qed.

(** The first process forks; the second CPU then runs the child, which forks
    itself: it still reads 2. *)
Lemma sample_forks : @running page_stack 1 1 K5
  ∧ value (@fork sv39 page_stack sample_layout sample_ext 1 K5) = Some 3
  ∧ (∀ k p, procs K5 !! k = Some p → parent p ≠ Some 1%nat)
  ∧ nextpid (after (@fork sv39 page_stack sample_layout sample_ext 1 K5) K5) = 4 ∧ nextpid K5 = 3.
Proof.
  split; [split; [vm_compute; reflexivity|apply lookup_state; vm_compute; reflexivity]|].
  split; [vm_compute; reflexivity|]. split; [|split; vm_compute; reflexivity].
  intros k p Hk Hpar. assert (H : (parent <$> procs K5) !! k = Some (Some 1%nat)) by (rewrite list_lookup_fmap, Hk; cbn; by rewrite Hpar).
  assert (E : parent <$> procs K5 = None :: Some 0%nat :: replicate 62 None) by (vm_compute; reflexivity).
  rewrite E in H. clear E Hk Hpar. destruct k as [|[|k]]; [discriminate H..|].
  apply (lookup_replicate 62 None (Some 1%nat) k) in H as [H _]. discriminate H.
Qed.
Lemma running_live {L : Allocator} (s : kst) j : (∃ p, procs s !! j = Some p ∧ state p = RUNNING) → live j s.
Proof. intros (p & Hp & Hst). exists p. by rewrite Hst. Qed.
Lemma sample_child j np : procs K4 !! j = Some np → pid np = 2 → j = 1%nat ∧ state np ≠ RUNNING.
Proof.
  intros Hj Hp. assert (H : ((λ p, (pid p, state p)) <$> procs K4) !! j = Some (2, state np)) by (rewrite list_lookup_fmap, Hj; cbn; by rewrite Hp).
  assert (E : (λ p, (pid p, state p)) <$> procs K4 = (1, RUNNING) :: (2, RUNNABLE) :: replicate 62 (0, UNUSED)) by (vm_compute; reflexivity).
  rewrite E in H. clear E Hj. destruct j as [|[|j]]; [discriminate H| |].
  - split; [reflexivity|]. injection H as H. rewrite <- H. discriminate.
  - apply (lookup_replicate 62 (0, UNUSED) (2, state np) j) in H as [H _]. discriminate H.
Qed.
Notation sundisturbed := (@undisturbed sv39 page_stack sample_layout sample_ext sample_exec sample_content (@boot_pages page_stack K0) 1).
Lemma sample_undisturbed : rtc sundisturbed K4 (after (@fork sv39 page_stack sample_layout sample_ext 1 K5) K5).
Proof.
  destruct sample_forks as (Hrun & E & Hpar & Hn & Hn0). eapply rtc_l; [|apply rtc_once]; split_and!.
  - exact sample_run1.
  - intros (me & dst & (_ & p & Hp & Hst) & _). assert (H : pid <$> procs K4 !! 1%nat = Some 2) by (vm_compute; reflexivity).
    rewrite Hp in H. injection H as H. exact (proj2 (sample_child 1 p Hp H) Hst).
  - apply running_live, Hrun.
  - exists (Some 1%nat). eapply k_fork; [exact Hrun|exact (after_run _ K5 _ E)].
  - apply not_stored; [|exact Hpar]. rewrite Hn, Hn0. discriminate.
  - apply running_live, lookup_state. vm_compute. reflexivity.
Qed.
Lemma ugetpid_after_fork_witness : ∃ s' p, @fork sv39 page_stack sample_layout sample_ext 1 K5 = Done 3 s'
  ∧ procs s' !! 1%nat = Some p ∧ @user_reads_pid sv39 page_stack sample_ext s' p 2.
Proof.
  assert (E : value (@fork sv39 page_stack sample_layout sample_ext 0 K3) = Some 2) by (vm_compute; reflexivity).
  destruct (@ugetpid_after_fork sv39 page_stack sample_layout sample_ext sample_exec sv39_laws page_stack_laws sample_laws
    sample_content sample_exec_laws K0 K3 K4 0 0 2 sample_reached3 sample_running (after_run _ K3 _ E)) as (j & np & Hj & Hpid & _ & H); [discriminate|].
  destruct (sample_child j np Hj Hpid) as [-> _]. destruct (H _ sample_undisturbed) as (p & Hp & Hread).
  destruct sample_forks as (_ & E2 & _). exists (after (@fork sv39 page_stack sample_layout sample_ext 1 K5) K5), p.
  split; [exact (after_run _ K5 _ E2)|]. split; [exact Hp|exact Hread].
Defined.

(** The kernel does not keep a system call from writing there: a copy of four
    bytes to the field at USYSCALL, as read makes it for a buffer there,
    succeeds, and the process then reads those bytes as its pid. *)
Theorem copyout_forges_pid {R : Riscv} {L : Allocator} {KL : Layout} {PE : ProcExt} {EE : ExecExt}
  {RL : RiscvLaws R} {AL : AllocatorLaws L} {PL : ProcLaws PE} {content : Z → list byte} {EL : ExecLaws EE content}
  (s0 s : kst) (me i : nat) (p : proc) (src : Z) (Hs : reached content s0 s) (Hrun : running me i s)
  (Hp : procs s !! i = Some p) (Hoff : off_pool (boot_pages s0) src 4) :
  ∃ s', either_copyout me true (USYSCALL + usyscall_pid) src 4 s = Done 0 s'
    ∧ procs s' !! i = Some p ∧ user_reads_pid s' p (load 4 (vmem (vm s)) src).
Proof.
  destruct (reached_inv s0 s Hs) as [Ts I].
  destruct (proj1 (wp_done _ _ _) (copyout_pid_wp _ s Ts me i p src I Hrun Hp Hoff)) as (r & s' & E & -> & Hps & Hl).
  exists s'. split; [exact E|]. rewrite Hps. split; [exact Hp|].
  assert (Hst : state p = RUNNING) by (destruct Hrun as (_ & p1 & Hp1 & Hst); congruence).
  pose proof usyscall_field as Hf. pose proof usyscall_next. pose proof maxva_range. pose proof top_room.
  destruct (kstep_ok (boot_pages s0) (Some i) s s' Ts I) as [[Ts' I'] _].
  { assert (0 <= USYSCALL + usyscall_pid < 2 ^ 64) by lia.
    eapply k_copyout with (user := true) (len := 4); [exact Hrun|eassumption|done|exact Hoff|discriminate|exact E]. }
  destruct (holds_reads (boot_pages s0) i (load 4 (vmem (vm s)) src) s' Ts' I') as (p' & Hp' & Hu).
  - exists p. rewrite Hps, Hst, Hl, (u32_small _ (load_range 4 _ _)). auto.
  - rewrite Hps in Hp'. congruence.
Qed.

(** The first process, whose pid is 1, with a buffer of the kernel's that holds 120. *)
Lemma copyout_forges_pid_witness : ∃ s' p, @either_copyout sv39 page_stack 0 true 0x3fffffd000 0x500 4 K3 = Done 0 s'
  ∧ @user_reads_pid sv39 page_stack sample_ext s' p 120.
Proof.
  destruct sample_running as [Hc (p & Hp & Hst)].
  destruct (@copyout_forges_pid sv39 page_stack sample_layout sample_ext sample_exec sv39_laws page_stack_laws sample_laws
    sample_content sample_exec_laws K0 K3 0 0 p 0x500 sample_reached3 sample_running Hp) as (s' & E & _ & H).
  - apply sample_off_pool; vm_compute; discriminate.
  - assert (Hl : load 4 (vmem (vm K3)) 0x500 = 120) by (vm_compute; reflexivity). rewrite Hl in H.
    exists s', p. split; [exact E|exact H].
Defined.
