(* ===== verification/Bio.v ===== *)
(** bio.c (Lab4): the buffer cache with one lock per hash bucket.  Data and
    operations, as a machine in which the processes' steps interleave.

    - A [struct buf *] is a [bptr]: a slot of [bcache.buf] or the head of a
      bucket; the bucket lists are doubly linked through [prev] and [next].
    - What runs under a bucket's spinlock is cut at every access to memory the
      lock does not protect (the [used] flags); a sleeplock blocks.
    - virtio_disk_rw is a block device with its law (spinlock.c, sleeplock.c
      and virtio_disk.c are not part of these sources).
    - [pins] counts the bpin calls without their bunpin: no operation reads it.
    - [disk], the field only the driver uses, is left out. *)
From stdpp Require Import functions.
From S2P Require Import Prelude.

(** ** Definitions *)

(** virtio_disk_rw: a block read is the block last written. *)
Class Disk := { block : Type; zero_block : block; dstate : Type;
  disk_read : dstate → Z → Z → block; disk_write : dstate → Z → Z → block → dstate }.
Class DiskLaws (D : Disk) : Prop := {
  read_written : ∀ k d b x, disk_read (disk_write k d b x) d b = x;
  read_other : ∀ k d b x d' b', (d', b') ≠ (d, b) → disk_read (disk_write k d b x) d' b' = disk_read k d' b' }.

(** A disk as a map from device and block number. *)
Definition map_disk : Disk := {|
  block := list byte; zero_block := []; dstate := gmap (Z * Z) (list byte);
  disk_read k d b := default [] (k !! (d, b)); disk_write k d b x := <[(d, b) := x]> k |}.

Definition NPROC : nat := 64.
Definition NBUF : nat := 30.
Definition NBUCKETS : Z := 13.
Definition hash_v (key : Z) : nat := Z.to_nat (key mod NBUCKETS).

Inductive bptr := Head (v : nat) | Buf (i : nat).
#[export] Instance bptr_eq_dec : EqDecision bptr.
Proof. solve_decision. Defined.

Record buf `{Disk} := {
  valid : Z; dev : Z; blockno : Z; slock : option nat (* who holds the sleeplock *);
  refcnt : Z; prev : bptr; next : bptr; data : block; used : bool }.

(** Where a process is in the operation it runs. *)
Inductive pcs :=
  | Idle
  | WaitGet (d b : Z)              (* bget: before acquire(&bucket->lock) *)
  | Scan (d b : Z)                 (* bget: the search of the bucket *)
  | Probe (d b : Z) (i : nat)      (* bget: reads buf[i].used *)
  | Tas (d b : Z) (i : nat)        (* bget: __atomic_test_and_set *)
  | Fill (d b : Z) (i : nat)       (* bget: the fields and links of buf[i] *)
  | SleepOn (d b : Z) (p : bptr)   (* bget: acquiresleep *)
  | Check (d b : Z) (p : bptr)     (* bread: after bget *)
  | WaitRel (p : bptr)             (* brelse: before acquire *)
  | Dec (p : bptr) (v : nat)       (* brelse: the count and the links *)
  | Clear (p : bptr) (v : nat)     (* brelse: __atomic_clear *)
  | Unlock (v : nat)               (* brelse: release *)
  | WaitPin (p : bptr) | WaitUnpin (p : bptr)
  | Panicked (why : string).

(** The calls of the clients; [Store] is a write to [b->data]. *)
Inductive call `{Disk} :=
  | Bread (d b : Z) | Store (i : nat) (x : block) | Bwrite (i : nat) | Brelse (i : nat)
  | Bpin (i : nat) | Bunpin (i : nat).

Section bio.
Context {D : Disk}.

Record bst := Bst {
  node : bptr → buf; lock : nat → option nat (* who holds buckets[v].lock *);
  dk : dstate; pc : nat → pcs; pins : bptr → nat }.

Definition set_node (p : bptr) (f : buf → buf) (s : bst) : bst :=
  Bst (<[p := f (node s p)]> (node s)) (lock s) (dk s) (pc s) (pins s).
Definition set_lock (v : nat) (o : option nat) (s : bst) : bst :=
  Bst (node s) (<[v := o]> (lock s)) (dk s) (pc s) (pins s).
Definition set_dk (k : dstate) (s : bst) : bst := Bst (node s) (lock s) k (pc s) (pins s).
Definition set_pins (p : bptr) (n : nat) (s : bst) : bst :=
  Bst (node s) (lock s) (dk s) (pc s) (<[p := n]> (pins s)).
Definition goto (t : nat) (c : pcs) (s : bst) : bst :=
  Bst (node s) (lock s) (dk s) (<[t := c]> (pc s)) (pins s).

Definition set_slock (o : option nat) (b : buf) : buf :=
  Build_buf _ (valid b) (dev b) (blockno b) o (refcnt b) (prev b) (next b) (data b) (used b).
Definition set_refcnt (n : Z) (b : buf) : buf :=
  Build_buf _ (valid b) (dev b) (blockno b) (slock b) n (prev b) (next b) (data b) (used b).
Definition set_prev (p : bptr) (b : buf) : buf :=
  Build_buf _ (valid b) (dev b) (blockno b) (slock b) (refcnt b) p (next b) (data b) (used b).
Definition set_next (p : bptr) (b : buf) : buf :=
  Build_buf _ (valid b) (dev b) (blockno b) (slock b) (refcnt b) (prev b) p (data b) (used b).
Definition set_used (u : bool) (b : buf) : buf :=
  Build_buf _ (valid b) (dev b) (blockno b) (slock b) (refcnt b) (prev b) (next b) (data b) u.
Definition set_data (x : block) (b : buf) : buf :=
  Build_buf _ (valid b) (dev b) (blockno b) (slock b) (refcnt b) (prev b) (next b) x (used b).
Definition set_valid (z : Z) (b : buf) : buf :=
  Build_buf _ z (dev b) (blockno b) (slock b) (refcnt b) (prev b) (next b) (data b) (used b).

Definition zero_buf : buf := Build_buf _ 0 0 0 None 0 (Head 0) (Head 0) zero_block false.
Definition binit (k : dstate) : bst := {|
  node p := match p with
            | Head v => set_next (Head v) (set_prev (Head v) zero_buf)
            | Buf _ => zero_buf
            end;
  lock _ := None; dk := k; pc _ := Idle; pins _ := O |}.

(** The first loop of bget, from [p]: it ends with the buffer found, if any. *)
Fixpoint scan (fuel : nat) (nd : bptr → buf) (p head : bptr) (d b : Z) : option (option bptr) :=
  match fuel with
  | O => None
  | S fuel' =>
      if decide (p = head) then Some None
      else if (dev (nd p) =? d) && (blockno (nd p) =? b) then Some (Some p)
      else scan fuel' nd (next (nd p)) head d b
  end.

Definition bucket_of (s : bst) (p : bptr) : nat := hash_v (blockno (node s p)).

(** [buf->dev = dev; ...; bucket->head.next = buf]: the new buffer's fields and
    its insertion at the head of the bucket. *)
Definition fill (d b : Z) (i : nat) (s : bst) : bst :=
  let h := Head (hash_v b) in
  let s := set_node (Buf i) (λ x, Build_buf _ 0 d b (slock x) 1 (prev x) (next x) (data x) (used x)) s in
  let s := set_node (Buf i) (set_next (next (node s h))) s in
  let s := set_node (Buf i) (set_prev h) s in
  let s := set_node (next (node s h)) (set_prev (Buf i)) s in
  set_node h (set_next (Buf i)) s.

(** [b->next->prev = b->prev; b->prev->next = b->next]. *)
Definition unlink (p : bptr) (s : bst) : bst :=
  let s := set_node (next (node s p)) (set_prev (prev (node s p))) s in
  set_node (prev (node s p)) (set_next (next (node s p))) s.

(** Process [t]'s next step in the operation it runs; [None] when it has to
    wait for a lock (or runs nothing). *)
Definition exec (t : nat) (s : bst) : option bst :=
  match pc s t with
  | Idle | Panicked _ => None
  | WaitGet d b =>
      let v := hash_v b in
      if lock s v then None else Some (goto t (Scan d b) (set_lock v (Some t) s))
  | Scan d b =>
      let v := hash_v b in
      match scan (S NBUF) (node s) (next (node s (Head v))) (Head v) d b with
      | None => None
      | Some (Some p) =>
          Some (goto t (SleepOn d b p) (set_lock v None (set_node p (λ x, set_refcnt (u32 (refcnt x + 1)) x) s)))
      | Some None => Some (goto t (Probe d b 0) s)
      end
  | Probe d b i =>
      Some (goto t (if (i <? NBUF)%nat then
                      if negb (used (node s (Buf i))) then Tas d b i else Probe d b (S i)
                    else Panicked "bget: no buffers") s)
  | Tas d b i =>
      Some (goto t (if used (node s (Buf i)) then Probe d b (S i) else Fill d b i)
                 (set_node (Buf i) (set_used true) s))
  | Fill d b i =>
      Some (goto t (SleepOn d b (Buf i)) (set_lock (hash_v b) None (fill d b i s)))
  | SleepOn d b p =>
      if slock (node s p) then None
      else Some (goto t (Check d b p) (set_node p (set_slock (Some t)) s))
  | Check d b p =>
      Some (goto t Idle
        (if valid (node s p) =? 0 then
           set_node p (λ x, set_valid 1 (set_data (disk_read (dk s) (dev x) (blockno x)) x)) s
         else s))
  | WaitRel p =>
      let v := bucket_of s p in
      if lock s v then None else Some (goto t (Dec p v) (set_lock v (Some t) s))
  | Dec p v =>
      let s := set_node p (λ x, set_refcnt (u32 (refcnt x - 1)) x) s in
      Some (if refcnt (node s p) =? 0 then goto t (Clear p v) (unlink p s)
            else goto t (Unlock v) s)
  | Clear p v => Some (goto t (Unlock v) (set_node p (set_used false) s))
  | Unlock v => Some (goto t Idle (set_lock v None s))
  | WaitPin p =>
      if lock s (bucket_of s p) then None
      else Some (goto t Idle (set_pins p (S (pins s p)) (set_node p (λ x, set_refcnt (u32 (refcnt x + 1)) x) s)))
  | WaitUnpin p =>
      if lock s (bucket_of s p) then None
      else Some (goto t Idle (set_node p (λ x, set_refcnt (u32 (refcnt x - 1)) x) s))
  end.

Definition holdingsleep (t : nat) (s : bst) (p : bptr) : bool := bool_decide (slock (node s p) = Some t).

(** A call by process [t].  The clients write to and pin only a buffer they
    hold, unpin only what was pinned, and keep fewer than 2^31 pins. *)
Definition invoke (t : nat) (c : call) (s : bst) : option bst :=
  match c with
  | Bread d b => Some (goto t (WaitGet d b) s)
  | Store i x =>
      if holdingsleep t s (Buf i) then Some (goto t Idle (set_node (Buf i) (set_data x) s)) else None
  | Bwrite i =>
      Some (if negb (holdingsleep t s (Buf i)) then goto t (Panicked "bwrite") s
            else let x := node s (Buf i) in goto t Idle (set_dk (disk_write (dk s) (dev x) (blockno x) (data x)) s))
  | Brelse i =>
      Some (if negb (holdingsleep t s (Buf i)) then goto t (Panicked "brelse") s
            else goto t (WaitRel (Buf i)) (set_node (Buf i) (set_slock None) s))
  | Bpin i =>
      if holdingsleep t s (Buf i) && (Z.of_nat (pins s (Buf i)) <? 2 ^ 31)
      then Some (goto t (WaitPin (Buf i)) s) else None
  | Bunpin i =>
      if (0 <? pins s (Buf i))%nat
      then Some (goto t (WaitUnpin (Buf i)) (set_pins (Buf i) (pred (pins s (Buf i))) s)) else None
  end.

(** One step of the machine, and the states it reaches. *)
Inductive bstep (s : bst) : bst → Prop :=
  | step_exec t s' : (t < NPROC)%nat → exec t s = Some s' → bstep s s'
  | step_call t c s' : (t < NPROC)%nat → pc s t = Idle → invoke t c s = Some s' → bstep s s'.
Definition reachable (s : bst) : Prop := ∃ k, rtc bstep (binit k) s.
End bio.
