(* ===== verification/BioInv.v ===== *)
(** The invariant of the buffer cache of bio.c (Lab4): the bucket lists are well
    linked, a block is in one buffer only, every count is the number of
    references, and the locks are held by the processes in their sections. *)
From stdpp Require Import functions.
From S2P Require Import Prelude Bio.

Section bio_inv.
Context {D : Disk}.
Implicit Types (s : bst) (L : nat → list bptr) (p : bptr).

(** ** Definitions *)

Definition is_buf p : Prop := ∃ i, p = Buf i ∧ (i < NBUF)%nat.

(** From [p] on, [next] leads through [l] to [h], and [prev] leads back. *)
Fixpoint links (nd : bptr → buf) p (l : list bptr) (h : bptr) : Prop :=
  match l with
  | [] => next (nd p) = h ∧ prev (nd h) = p
  | q :: l' => next (nd p) = q ∧ prev (nd q) = p ∧ links nd q l' h
  end.

(** A process that counts in [p]'s reference count without holding its lock. *)
Definition waits (c : pcs) p : bool :=
  match c with
  | SleepOn _ _ q | WaitRel q | Dec q _ | WaitUnpin q => bool_decide (q = p)
  | _ => false
  end.
Definition waiting s p : nat := length (filter (λ t, waits (pc s t) p = true) (seq 0 NPROC)).
#[local] Arguments waiting : simpl never.
Definition held s p : nat := if slock (node s p) then 1%nat else 0%nat.
Definition refs s p : nat := (waiting s p + held s p + pins s p)%nat.

Definition key s p : Z * Z := (dev (node s p), blockno (node s p)).
(** A buffer taken by a process and on no list yet, or no more. *)
Definition claims (c : pcs) p : Prop :=
  match c with Fill _ _ i => p = Buf i | Clear q _ => p = q | _ => False end.
Definition unlisted L p : Prop := ∀ v, p ∉ L v.

(** What holds for a process where it is. *)
Definition at_pc s L (t : nat) (c : pcs) : Prop :=
  let fresh d b := lock s (hash_v b) = Some t ∧ ∀ p, p ∈ L (hash_v b) → key s p ≠ (d, b) in
  match c with
  | Idle | WaitGet _ _ | Panicked _ => True
  | Scan d b => lock s (hash_v b) = Some t
  | Probe d b i => fresh d b
  | Tas d b i => fresh d b ∧ (i < NBUF)%nat
  | Fill d b i => fresh d b ∧ (i < NBUF)%nat ∧ used (node s (Buf i)) = true ∧ unlisted L (Buf i)
  | SleepOn d b p => is_buf p ∧ key s p = (d, b)
  | WaitRel p | WaitUnpin p => is_buf p
  | Check d b p => is_buf p ∧ key s p = (d, b) ∧ slock (node s p) = Some t
  | Dec p v => is_buf p ∧ bucket_of s p = v ∧ lock s v = Some t
  | Clear p v => is_buf p ∧ lock s v = Some t ∧ used (node s p) = true ∧ unlisted L p
  | Unlock v => lock s v = Some t
  | WaitPin p => is_buf p ∧ slock (node s p) = Some t ∧ Z.of_nat (pins s p) < 2 ^ 31
  end.

(** In the section of bucket [v]; a panic keeps the lock. *)
Definition inside (c : pcs) (v : nat) : Prop :=
  match c with
  | Scan _ b | Probe _ b _ | Tas _ b _ | Fill _ b _ => v = hash_v b
  | Dec _ w | Clear _ w | Unlock w => v = w
  | Panicked _ => True
  | _ => False
  end.

Definition list_ok s L (v : nat) : Prop :=
  links (node s) (Head v) (L v) (Head v) ∧ NoDup (L v)
  ∧ (∀ p, p ∈ L v → is_buf p ∧ used (node s p) = true ∧ bucket_of s p = v
       ∧ refcnt (node s p) = Z.of_nat (refs s p))
  ∧ ∀ p q, p ∈ L v → q ∈ L v → key s p = key s q → p = q.

(** In bread, with [p]'s lock. *)
Definition checks (c : pcs) p : bool := match c with Check _ _ q => bool_decide (q = p) | _ => false end.

Record binv s L : Prop := {
  i_lists : ∀ v, list_ok s L v;
  i_pcs : ∀ t, (t < NPROC)%nat → at_pc s L t (pc s t);
  i_held : ∀ v t, lock s v = Some t → (t < NPROC)%nat ∧ inside (pc s t) v;
  i_claims : ∀ t t' p, (t < NPROC)%nat → (t' < NPROC)%nat → claims (pc s t) p → claims (pc s t') p → t = t';
  i_out : ∀ p, unlisted L p → refs s p = O;
  i_used : ∀ p, is_buf p → used (node s p) = true →
             (∃ v, p ∈ L v) ∨ ∃ t, (t < NPROC)%nat ∧ claims (pc s t) p;
  i_pins : ∀ p, Z.of_nat (pins s p) <= 2 ^ 31;
  i_slock : ∀ p t, slock (node s p) = Some t → (t < NPROC)%nat;
  i_valid : ∀ p t, slock (node s p) = Some t → checks (pc s t) p = true ∨ valid (node s p) ≠ 0 }.

(** ** Lemmas: the linked lists *)

Lemma links_ext (nd nd' : bptr → buf) p l h :
  (∀ q, q ∈ p :: l → next (nd' q) = next (nd q)) →
  (∀ q, q ∈ h :: l → prev (nd' q) = prev (nd q)) →
  links nd p l h → links nd' p l h.
Proof.
  revert p; induction l as [|q l IH]; intros p Hn Hp; cbn [links].
  - intros [E1 E2]. rewrite Hn, Hp by set_solver. done.
  - intros (E1 & E2 & Hl). rewrite Hn, Hp by set_solver. split_and!; [done..|].
    apply IH; [| |done]; intros r Hr; [apply Hn|apply Hp]; set_solver.
Qed.
Lemma links_app nd p l1 q l2 h : links nd p (l1 ++ q :: l2) h ↔ links nd p l1 q ∧ links nd q l2 h.
Proof. revert p; induction l1 as [|r l1 IH]; intros p; cbn [links app]; [tauto|]. rewrite IH. tauto. Qed.

(** The search of a well-linked bucket finds the listed buffer of the block. *)
Lemma scan_links (nd : bptr → buf) h d b l : ∀ fuel p, links nd p l h → h ∉ l → (length l < fuel)%nat →
  (∃ q, scan fuel nd (next (nd p)) h d b = Some (Some q) ∧ q ∈ l ∧ (dev (nd q), blockno (nd q)) = (d, b))
  ∨ scan fuel nd (next (nd p)) h d b = Some None ∧ ∀ q, q ∈ l → (dev (nd q), blockno (nd q)) ≠ (d, b).
Proof.
  induction l as [|q l IH]; intros fuel p Hl Hh Hf; (destruct fuel as [|fuel]; [cbn in Hf; lia|]); cbn [scan].
  - destruct Hl as [Hn _]. rewrite decide_True by done. right. split; [done|]. set_solver.
  - destruct Hl as (Hn & _ & Hl). rewrite Hn, decide_False by set_solver.
    destruct (Z.eqb_spec (dev (nd q)) d) as [Hd|Hd], (Z.eqb_spec (blockno (nd q)) b) as [Hb|Hb]; cbn [andb].
    1: left; exists q; split_and!; [done|set_solver|congruence].
    all: destruct (IH fuel q Hl) as [(r & Hr & Hin & Hk)|[Hr Hk]]; [set_solver|cbn in Hf; lia|..].
    1,3,5: left; exists r; split_and!; [done|set_solver|done].
    all: right; split; [done|]; intros r [->|Hr']%elem_of_cons; [congruence|auto].
Qed.

Lemma nbuf_list (l : list bptr) : NoDup l → (∀ p, p ∈ l → is_buf p) → (length l <= NBUF)%nat.
Proof.
  intros Hnd Hb. rewrite <- (length_seq NBUF 0), <- (length_fmap Buf).
  apply submseteq_length, NoDup_submseteq; [done|]. intros p Hp. destruct (Hb p Hp) as (i & -> & Hi).
  apply list_elem_of_fmap. exists i. split; [done|]. apply elem_of_seq. lia.
Qed.

Lemma links_last nd a l p : links nd a l p → prev (nd p) ∈ a :: l.
Proof.
  revert a; induction l as [|q l IH]; intros a; cbn [links]; [intros [_ ->]; set_solver|].
  intros (_ & _ & Hl). apply IH in Hl. set_solver.
Qed.
(** The list leads to [c] instead of [p] when its last node does. *)
Lemma links_retarget (nd nd' : bptr → buf) a l p c :
  NoDup (a :: l) → links nd a l p →
  (∀ q, q ∈ a :: l → q ≠ prev (nd p) → next (nd' q) = next (nd q)) → next (nd' (prev (nd p))) = c →
  (∀ q, q ∈ l → prev (nd' q) = prev (nd q)) → prev (nd' c) = prev (nd p) →
  links nd' a l c.
Proof.
  revert a; induction l as [|q l IH]; intros a Hnd Hl Hn Hc Hp Hpc; cbn [links] in *.
  - destruct Hl as [_ <-]. done.
  - destruct Hl as (E1 & E2 & Hl). apply NoDup_cons in Hnd as [Ha Hnd]. pose proof (links_last _ _ _ _ Hl) as Hin.
    rewrite Hn, Hp by first [by left|congruence]. split_and!; [done..|].
    apply IH; try done; intros r Hr; [intros Hne; apply Hn; [by right|done]|apply Hp; by right].
Qed.

(** *** The nodes after an insertion and a removal *)

Definition same_block (x y : buf) : Prop :=
  valid x = valid y ∧ dev x = dev y ∧ blockno x = blockno y ∧ slock x = slock y
  ∧ refcnt x = refcnt y ∧ data x = data y ∧ used x = used y.

#[global] Instance same_block_equiv : Equivalence same_block.
Proof.
  split; unfold same_block; [done|intros x y (?&?&?&?&?&?&?); by split_and!|].
  intros x y z (?&?&?&?&?&?&?) (?&?&?&?&?&?&?). split_and!; congruence.
Qed.

Lemma node_set_eq s p f : node (set_node p f s) p = f (node s p).
Proof. cbn. by rewrite fn_lookup_insert. Qed.
Lemma node_set_ne s p q f : q ≠ p → node (set_node p f s) q = node s q.
Proof. intros. cbn. by rewrite fn_lookup_insert_ne. Qed.

(** A field of a node after a node was set. *)
Lemma set_field {A} (g : buf → A) s p q f : (∀ x, g (f x) = g x) → g (node (set_node p f s) q) = g (node s q).
Proof.
  intros Hf. destruct (decide (q = p)) as [->|Hne]; [by rewrite node_set_eq, Hf|by rewrite node_set_ne].
Qed.
Lemma block_set_prev s p q x : same_block (node (set_node p (set_prev x) s) q) (node s q).
Proof. unfold same_block. by rewrite !set_field. Qed.
Lemma block_set_next s p q x : same_block (node (set_node p (set_next x) s) q) (node s q).
Proof. unfold same_block. by rewrite !set_field. Qed.
Lemma next_set_prev s p q x : next (node (set_node p (set_prev x) s) q) = next (node s q).
Proof. by apply set_field. Qed.
Lemma prev_set_next s p q x : prev (node (set_node p (set_next x) s) q) = prev (node s q).
Proof. by apply set_field. Qed.
Lemma next_set_next s p q x : next (node (set_node p (set_next x) s) q) = if decide (q = p) then x else next (node s q).
Proof. case_decide as E; [by rewrite E, node_set_eq|by rewrite node_set_ne]. Qed.
Lemma prev_set_prev s p q x : prev (node (set_node p (set_prev x) s) q) = if decide (q = p) then x else prev (node s q).
Proof. case_decide as E; [by rewrite E, node_set_eq|by rewrite node_set_ne]. Qed.
Ltac nodes := rewrite ?next_set_next, ?next_set_prev, ?prev_set_next, ?prev_set_prev.

Definition new_block (d b : Z) (x : buf) : buf :=
  Build_buf _ 0 d b (slock x) 1 (prev x) (next x) (data x) (used x).
Lemma fill_next s d b i p : next (node (fill d b i s) p) =
  if decide (p = Head (hash_v b)) then Buf i
  else if decide (p = Buf i) then next (node s (Head (hash_v b))) else next (node s p).
Proof.
  unfold fill. change (λ x, Build_buf _ 0 d b (slock x) 1 (prev x) (next x) (data x) (used x)) with (new_block d b).
  repeat nodes. rewrite !(set_field next _ _ _ (new_block d b)) by done. done.
Qed.
Lemma fill_prev s d b i p : prev (node (fill d b i s) p) =
  if decide (p = next (node s (Head (hash_v b)))) then Buf i
  else if decide (p = Buf i) then Head (hash_v b) else prev (node s p).
Proof.
  unfold fill. change (λ x, Build_buf _ 0 d b (slock x) 1 (prev x) (next x) (data x) (used x)) with (new_block d b).
  repeat nodes. rewrite !(set_field prev _ _ _ (new_block d b)) by done. done.
Qed.
Lemma fill_block s d b i p : p ≠ Buf i → same_block (node (fill d b i s) p) (node s p).
Proof.
  intros Hp. unfold fill. rewrite block_set_next, !block_set_prev, block_set_next, node_set_ne by done. done.
Qed.
Lemma fill_self s d b i : same_block (node (fill d b i s) (Buf i)) (new_block d b (node s (Buf i))).
Proof.
  unfold fill. rewrite block_set_next, !block_set_prev, block_set_next, node_set_eq. done.
Qed.

Lemma fill_links s d b i l h : h = Head (hash_v b) →
  links (node s) h l h → NoDup l → h ∉ l → Buf i ∉ l → links (node (fill d b i s)) h (Buf i :: l) h.
Proof.
  intros Hb Hl Hnd Hh Hi. assert (h ≠ Buf i) by congruence. cbn [links].
  assert (Hx : next (node s h) ≠ Buf i) by (intros E; destruct l as [|q l]; cbn [links] in Hl; destruct Hl as [Hl _];
    [congruence|apply Hi; rewrite <- E, Hl; by left]).
  rewrite fill_next, fill_prev, <- Hb. rewrite decide_True, decide_False, decide_True by done.
  split_and!; [done..|]. destruct l as [|q l]; cbn [links] in *; destruct Hl as (E1 & E2).
  - rewrite fill_next, fill_prev, <- Hb. by rewrite decide_False, decide_True, E1, decide_True by done.
  - destruct E2 as [E2 Hl]. rewrite fill_next, fill_prev, <- Hb.
    rewrite decide_False, decide_True, E1, decide_True by done. split_and!; [done..|].
    apply NoDup_cons in Hnd as [Hq Hnd].
    apply (links_ext (node s)); [| |done]; intros r Hr.
    + rewrite fill_next, <- Hb, !decide_False; [done|set_solver..].
    + rewrite fill_prev, <- Hb, E1, !decide_False; [done|set_solver..].
Qed.

Lemma unlink_next s p q : q ≠ prev (node s p) → next (node s p) ≠ p → next (node (unlink p s) q) = next (node s q).
Proof. intros Hq Hp. unfold unlink. nodes. rewrite decide_False; [done|]. nodes. by rewrite decide_False. Qed.
Lemma unlink_next_eq s p : next (node s p) ≠ p → next (node (unlink p s) (prev (node s p))) = next (node s p).
Proof. intros Hp. unfold unlink. nodes. rewrite decide_True; [done|]. nodes. by rewrite decide_False. Qed.
Lemma unlink_prev_eq s p : prev (node (unlink p s) (next (node s p))) = prev (node s p).
Proof. unfold unlink. nodes. by rewrite decide_True. Qed.
Lemma unlink_prev s p q : q ≠ next (node s p) → prev (node (unlink p s) q) = prev (node s q).
Proof. intros. unfold unlink. nodes. by rewrite decide_False. Qed.
Lemma unlink_block s p q : same_block (node (unlink p s) q) (node s q).
Proof. unfold unlink. by rewrite block_set_next, block_set_prev. Qed.

Lemma neighbours nd h l1 p l2 : links nd h (l1 ++ p :: l2) h → NoDup (h :: l1 ++ p :: l2) →
  prev (nd p) ∈ h :: l1 ∧ next (nd p) ∈ l2 ++ [h] ∧ next (nd p) ≠ p.
Proof.
  intros [Hl1 Hl2]%links_app [Hh Hnd]%NoDup_cons. split; [by eapply links_last|].
  assert (Hc : next (nd p) ∈ l2 ++ [h]).
  { destruct l2 as [|q l2]; cbn [links] in Hl2; destruct Hl2 as [-> _]; by left. }
  split; [done|]. intros E. rewrite E in Hc. apply NoDup_app in Hnd as (_ & _ & [Hp _]%NoDup_cons).
  apply elem_of_app in Hc as [?|Hc]; [done|]. apply list_elem_of_singleton in Hc as ->.
  apply Hh, elem_of_app. right. by left.
Qed.
Lemma unlink_links s h l1 p l2 :
  links (node s) h (l1 ++ p :: l2) h → NoDup (h :: l1 ++ p :: l2) → links (node (unlink p s)) h (l1 ++ l2) h.
Proof.
  intros Hl Hnd. destruct (neighbours _ _ _ _ _ Hl Hnd) as (Hlast & Hc & Hpc).
  apply links_app in Hl as [Hl1 Hl2]. set (c := next (node s p)) in *.
  assert (Hdis : ∀ r, r ∈ h :: l1 → r ∉ l2 ∧ r ≠ p).
  { apply NoDup_cons in Hnd as [Hh Hnd]. apply NoDup_app in Hnd as (_ & Hd & _). set_solver. }
  assert (H1 : links (node (unlink p s)) h l1 c).
  { eapply (links_retarget (node s)); [|done|..].
    - change (h :: l1 ++ p :: l2) with ((h :: l1) ++ p :: l2) in Hnd. by apply NoDup_app in Hnd as [? _].
    - intros r Hr Hne. by apply unlink_next.
    - by apply unlink_next_eq.
    - intros r Hr. apply unlink_prev. fold c. intros E. rewrite <- E in Hc.
      destruct (Hdis r ltac:(set_solver)) as [Hr2 _]. apply elem_of_app in Hc as [?|Hc]; [done|].
      apply list_elem_of_singleton in Hc. apply NoDup_cons in Hnd as [Hh _]. set_solver.
    - apply unlink_prev_eq. }
  destruct l2 as [|r l2]; cbn [links] in Hl2.
  - rewrite app_nil_r. by replace h with c at 2 by (by destruct Hl2).
  - destruct Hl2 as (E1 & E2 & Hl2). apply links_app. replace c with r in H1 by done. split; [done|].
    apply (links_ext (node s)); [| |done]; intros q Hq.
    + apply unlink_next; [|done]. intros ->. destruct (Hdis _ Hlast); set_solver.
    + apply unlink_prev. fold c. replace c with r by done. intros ->.
      apply NoDup_cons in Hnd as [Hh Hnd]. apply NoDup_app in Hnd as (_ & _ & Hnd).
      apply NoDup_cons in Hnd as [_ Hnd]. apply NoDup_cons in Hnd as [? _]. set_solver.
Qed.

Lemma fill_links_other s d b i l h : h ≠ Head (hash_v b) → h ≠ Buf i → Buf i ∉ l → Head (hash_v b) ∉ l →
  next (node s (Head (hash_v b))) ∉ h :: l →
  links (node s) h l h → links (node (fill d b i s)) h l h.
Proof.
  intros Hh Hhi Hi Hl Hx. apply links_ext; intros q Hq.
  - rewrite fill_next, !decide_False; [done|set_solver..].
  - rewrite fill_prev, !decide_False; [done|set_solver..].
Qed.
Lemma unlink_links_other s p l h : next (node s p) ≠ p →
  prev (node s p) ∉ h :: l → next (node s p) ∉ h :: l →
  links (node s) h l h → links (node (unlink p s)) h l h.
Proof.
  intros Hp Hpr Hnx. apply links_ext; intros q Hq; [apply unlink_next|apply unlink_prev]; congruence.
Qed.

(** ** Lemmas: the counts *)

Lemma waiting_goto s t c p : (t < NPROC)%nat →
  (waiting (goto t c s) p + Nat.b2n (waits (pc s t) p) = waiting s p + Nat.b2n (waits c p))%nat.
Proof.
  intros Ht. unfold waiting, goto; cbn [pc].
  assert (Hs : seq 0 NPROC = seq 0 t ++ t :: seq (S t) (NPROC - S t)).
  { change (t :: seq (S t) (NPROC - S t)) with (seq t (S (NPROC - S t))). rewrite <- seq_app. f_equal. lia. }
  assert (Hother : ∀ l : list nat, t ∉ l →
    filter (λ u, waits (<[t:=c]> (pc s) u) p = true) l = filter (λ u, waits (pc s u) p = true) l).
  { induction l as [|u l IH]; intros Hl; [done|]. apply not_elem_of_cons in Hl as [Hu Hl].
    rewrite !list.filter_cons, fn_lookup_insert_ne, IH by done. done. }
  rewrite Hs, !list_filter_app, !length_app, !list.filter_cons, fn_lookup_insert.
  rewrite !Hother by (rewrite elem_of_seq; lia).
  assert (Hc : ∀ (x : bool) (k : list nat), length (if decide (x = true) then t :: k else k) = (Nat.b2n x + length k)%nat)
    by (by intros []).
  rewrite !Hc. lia.
Qed.
Lemma waiting_ge s t p : (t < NPROC)%nat → waits (pc s t) p = true → (1 <= waiting s p)%nat.
Proof.
  intros Ht Hw. pose proof (waiting_goto s t Idle p Ht) as H. rewrite Hw in H. cbn [waits Nat.b2n] in H. lia.
Qed.
Lemma waiting_bound s p : (waiting s p <= NPROC)%nat.
Proof. unfold waiting. etrans; [apply list.length_filter|]. by rewrite length_seq. Qed.
End bio_inv.
