(* ===== verification/BioStep.v ===== *)
(** Every step of the buffer cache of bio.c (Lab4) keeps its invariant. *)
From stdpp Require Import functions.
From S2P Require Import Prelude Bio BioInv.

Section bio_step.
Context {D : Disk}.
Implicit Types (s : bst) (L : nat → list bptr) (p : bptr) (t u v : nat).

(** ** Definitions *)

(** What a step of process [t] may do: the invariant's parts that change, and
    what the other processes rely on. *)
Record step_ok s L s' L' t : Prop := {
  h_lists : ∀ v, list_ok s' L' v;
  h_at : at_pc s' L' t (pc s' t);
  h_pc : ∀ u, u ≠ t → pc s' u = pc s u;
  h_held : ∀ v u, lock s' v = Some u → u ≠ t ∧ lock s v = Some u ∨ u = t ∧ inside (pc s' t) v;
  h_lock : ∀ v u, u ≠ t → lock s v = Some u → lock s' v = Some u ∧ L' v = L v;
  h_key : ∀ p v, p ∈ L v → key s' p = key s p;
  h_listed : ∀ p v, p ∈ L' v → p ∈ L v ∨ claims (pc s t) p;
  h_unlisted : ∀ p v, p ∈ L v → p ∈ L' v ∨ claims (pc s' t) p;
  h_used : ∀ p, used (node s p) = true → used (node s' p) = true ∨ claims (pc s t) p;
  h_used' : ∀ p, used (node s' p) = true → used (node s p) = true ∨ claims (pc s' t) p;
  h_claims : ∀ p, claims (pc s' t) p → claims (pc s t) p ∨ used (node s p) = false ∨ ∃ v, p ∈ L v;
  h_claims' : ∀ p, claims (pc s t) p → claims (pc s' t) p ∨ used (node s' p) = false ∨ ∃ v, p ∈ L' v;
  h_out : ∀ p, unlisted L' p → refs s' p = O;
  h_pins : ∀ p, Z.of_nat (pins s' p) <= 2 ^ 31;
  h_slock : ∀ p u, u ≠ t → slock (node s p) = Some u → slock (node s' p) = Some u ∧ (pins s' p <= pins s p)%nat;
  h_slock' : ∀ p u, slock (node s' p) = Some u →
    u ≠ t ∧ slock (node s p) = Some u ∧ (valid (node s' p) = valid (node s p) ∨ valid (node s' p) ≠ 0)
    ∨ u = t ∧ (checks (pc s' t) p = true ∨ valid (node s' p) ≠ 0) }.

(** The bucket locks after process [t] went to [c]. *)
Definition lock_ok s t (c : pcs) (lk : nat → option nat) : Prop :=
  (∀ v u, lk v = Some u → u ≠ t ∧ lock s v = Some u ∨ u = t ∧ inside c v)
  ∧ ∀ v u, u ≠ t → lock s v = Some u → lk v = Some u.

(** ** Lemmas *)

Section from_inv.
Context s L (I : binv s L).

Lemma listed_dec p : p ∈ L (bucket_of s p) ∨ unlisted L p.
Proof using I.
  destruct (decide (p ∈ L (bucket_of s p))) as [H|H]; [by left|right]. intros v Hv.
  destruct (i_lists _ _ I v) as (_ & _ & Hb & _). destruct (Hb p Hv) as (_ & _ & Hbv & _). congruence.
Qed.
Lemma listed_in p v : p ∈ L v → v = bucket_of s p ∧ is_buf p ∧ used (node s p) = true ∧ refcnt (node s p) = Z.of_nat (refs s p).
Proof using I. intros H. destruct (i_lists _ _ I v) as (_ & _ & Hb & _). naive_solver. Qed.
Lemma refs_listed p : refs s p ≠ O → p ∈ L (bucket_of s p).
Proof using I. intros H. destruct (listed_dec p) as [?|Hu]; [done|]. by apply (i_out _ _ I) in Hu. Qed.
Lemma waits_listed t p : (t < NPROC)%nat → waits (pc s t) p = true → p ∈ L (bucket_of s p).
Proof using I. intros Ht Hw. apply refs_listed. pose proof (waiting_ge s t p Ht Hw). unfold refs. lia. Qed.
Lemma held_listed t p : slock (node s p) = Some t → p ∈ L (bucket_of s p).
Proof using I. intros H. apply refs_listed. unfold refs, held. rewrite H. lia. Qed.
Lemma claim_at t p : (t < NPROC)%nat → claims (pc s t) p → is_buf p ∧ used (node s p) = true ∧ unlisted L p.
Proof using I.
  intros Ht Hc. pose proof (i_pcs _ _ I t Ht) as Ha. destruct (pc s t); cbn in Hc; try done; subst; cbn in Ha; [|naive_solver].
  split_and!; [eexists; naive_solver|naive_solver..].
Qed.
Lemma refs_bound p : Z.of_nat (refs s p) < 2 ^ 32 - 1.
Proof using I.
  pose proof (i_pins _ _ I p). pose proof (waiting_bound s p) as Hw. change NPROC with 64%nat in Hw.
  unfold refs, held. destruct (slock _); lia.
Qed.
End from_inv.

Lemma at_pc_other s L s' L' t u : binv s L → step_ok s L s' L' t →
  (t < NPROC)%nat → (u < NPROC)%nat → u ≠ t → at_pc s' L' u (pc s' u).
Proof.
  intros I H Ht Hu Hne. rewrite (h_pc _ _ _ _ _ H) by done.
  pose proof (i_pcs _ _ I u Hu) as Ha. pose proof (h_lock _ _ _ _ _ H) as Hlock.
  assert (Hfresh : ∀ d b, lock s (hash_v b) = Some u ∧ (∀ p, p ∈ L (hash_v b) → key s p ≠ (d, b)) →
    lock s' (hash_v b) = Some u ∧ ∀ p, p ∈ L' (hash_v b) → key s' p ≠ (d, b)).
  { intros d b [Hl Hf]. destruct (Hlock _ u Hne Hl) as [Hl' E]. split; [done|]. rewrite E.
    intros p Hp. rewrite (h_key _ _ _ _ _ H p _ Hp). auto. }
  assert (Hclaim : ∀ p, claims (pc s u) p → used (node s' p) = true ∧ unlisted L' p).
  { intros p Hc. destruct (claim_at s L I u p Hu Hc) as (_ & Hus & Hun).
    assert (¬ claims (pc s t) p) by (intros ?; by apply Hne, (i_claims _ _ I u t p)).
    split; [by destruct (h_used _ _ _ _ _ H p Hus)|]. intros v Hv.
    destruct (h_listed _ _ _ _ _ H p v Hv) as [?|?]; [by apply (Hun v)|done]. }
  pose proof (h_slock _ _ _ _ _ H) as Hsl. pose proof (waits_listed s L I u) as Hwl.
  destruct (pc s u) eqn:E; cbn [at_pc claims waits] in *; try done.
  - by apply Hlock.
  - by apply Hfresh.
  - destruct Ha as [Hf ?]. split; [by apply Hfresh|done].
  - destruct Ha as (Hf & ? & _). split; [by apply Hfresh|]. split; [done|]. by apply Hclaim.
  - destruct Ha as [? Hk]. split; [done|]. rewrite <- Hk. eapply h_key; [done|]. apply Hwl; [done|].
    by rewrite bool_decide_eq_true_2.
  - destruct Ha as (? & Hk & Hs). split_and!; [done| |by destruct (Hsl p u Hne Hs)].
    rewrite <- Hk. eapply h_key; [done|]. by apply (held_listed s L I u).
  - destruct Ha as (? & Hb & Hs). split_and!; [done| |by apply Hlock].
    assert (Hk : key s' p = key s p).
    { eapply h_key; [done|]. apply Hwl; [done|]. by rewrite bool_decide_eq_true_2. }
    unfold key in Hk. unfold bucket_of in *. congruence.
  - destruct Ha as (? & Hs & _). split; [done|]. split; [by apply Hlock|]. by apply Hclaim.
  - by apply Hlock.
  - destruct Ha as (? & Hs & Hp). destruct (Hsl p u Hne Hs). split_and!; [done|done|lia].
Qed.

Lemma binv_step s L s' L' t : binv s L → (t < NPROC)%nat → step_ok s L s' L' t → binv s' L'.
Proof.
  intros I Ht H.
  assert (Hpc : ∀ u, u = t ∨ u ≠ t ∧ pc s' u = pc s u).
  { intros u. destruct (decide (u = t)); [by left|right]. split; [done|by apply H]. }
  assert (Hcl : ∀ u p, (u < NPROC)%nat → u ≠ t → claims (pc s' t) p → ¬ claims (pc s u) p).
  { intros u p Hu Hne Hc Hc'. destruct (claim_at s L I u p Hu Hc') as (_ & Hus & Hun).
    destruct (h_claims _ _ _ _ _ H p Hc) as [?|[?|[v Hv]]]; [|congruence|by apply (Hun v)].
    by apply Hne, (i_claims _ _ I u t p). }
  constructor.
  - apply H.
  - intros u Hu. destruct (Hpc u) as [->|[Hne _]]; [apply H|by eapply at_pc_other].
  - intros v u Hl. destruct (h_held _ _ _ _ _ H v u Hl) as [[Hne Hl']|[-> ?]]; [|done].
    rewrite (h_pc _ _ _ _ _ H u Hne). by apply I.
  - intros u u' p Hu Hu' Hc Hc'. destruct (Hpc u) as [->|[Hne E]], (Hpc u') as [->|[Hne' E']];
      rewrite ?E, ?E' in *; [done| | |by apply (i_claims _ _ I u u' p)].
    + by destruct (Hcl u' p Hu' Hne' Hc).
    + by destruct (Hcl u p Hu Hne Hc').
  - apply H.
  - intros p Hb Hus. destruct (h_used' _ _ _ _ _ H p Hus) as [Hus'|?]; [|right; by exists t].
    destruct (i_used _ _ I p Hb Hus') as [[v Hv]|(u & Hu & Hc)].
    + destruct (h_unlisted _ _ _ _ _ H p v Hv); [left; by exists v|right; by exists t].
    + destruct (Hpc u) as [->|[Hne E]]; [|right; exists u; by rewrite E].
      destruct (h_claims' _ _ _ _ _ H p Hc) as [?|[?|?]]; [right; by exists t|congruence|by left].
  - apply H.
  - intros p u Hs. destruct (h_slock' _ _ _ _ _ H p u Hs) as [(_ & Hs' & _)|[-> _]]; [by eapply (i_slock _ _ I)|done].
  - intros p u Hs. destruct (h_slock' _ _ _ _ _ H p u Hs) as [(Hne & Hs' & Hv)|[-> ?]]; [|done].
    rewrite (h_pc _ _ _ _ _ H u Hne). destruct (i_valid _ _ I p u Hs'); [by left|right].
    destruct Hv; congruence.
Qed.

(** *** Steps that leave the lists alone *)

Lemma list_ok_ext s s' L v : list_ok s L v →
  (∀ p, next (node s' p) = next (node s p) ∧ prev (node s' p) = prev (node s p)) →
  (∀ p, p ∈ L v → used (node s' p) = true ∧ key s' p = key s p ∧ refcnt (node s' p) = Z.of_nat (refs s' p)) →
  list_ok s' L v.
Proof.
  intros (Hl & Hnd & Hb & Hk) Hn Hp. split_and!.
  - eapply links_ext; [..|exact Hl]; intros q _; apply Hn.
  - done.
  - intros p Hin. destruct (Hb p Hin) as (? & _ & Hv & _), (Hp p Hin) as (? & Hkey & ?). split_and!; [done..| |done].
    unfold key in Hkey. unfold bucket_of in *. congruence.
  - intros p q Hin Hin'. destruct (Hp p Hin) as (_ & -> & _), (Hp q Hin') as (_ & -> & _). auto.
Qed.

Lemma refs_same s s' t c p : (t < NPROC)%nat → pc s' = <[t := c]> (pc s) → pins s' p = pins s p →
  slock (node s' p) = slock (node s p) → waits c p = waits (pc s t) p → refs s' p = refs s p.
Proof.
  intros Ht Hpc Hpn Hs Hw. pose proof (waiting_goto s t c p Ht) as H.
  assert (waiting s' p = waiting (goto t c s) p) as E by (unfold waiting; by rewrite Hpc).
  unfold refs, held. rewrite Hpn, Hs, E. rewrite Hw in H. lia.
Qed.

(** The process moves on, and may take or release a bucket's lock. *)
Lemma binv_goto s L t c lk : let s' := Bst (node s) lk (dk s) (<[t := c]> (pc s)) (pins s) in
  binv s L → (t < NPROC)%nat →
  (∀ p, waits c p = waits (pc s t) p) → (∀ p, claims c p ↔ claims (pc s t) p) →
  lock_ok s t c lk →
  at_pc s' L t c → (∀ p, slock (node s p) = Some t → checks c p = true ∨ valid (node s p) ≠ 0) →
  binv s' L.
Proof.
  intros s' I Ht Hw Hc [Hlk Hlk'] Hat Hv.
  assert (Hr : ∀ p, refs s' p = refs s p) by (intros p; by eapply refs_same).
  assert (E : pc s' t = c) by (subst s'; cbn; by rewrite fn_lookup_insert).
  apply (binv_step s L s' L t I Ht). constructor; rewrite ?E; try done.
  - intros v. apply (list_ok_ext s); [apply I|done|]. intros p Hp. rewrite Hr.
    destruct (listed_in s L I p v Hp) as (_ & _ & ? & ?). done.
  - intros u Hne. subst s'; cbn. by rewrite fn_lookup_insert_ne.
  - intros v u Hne Hl. split; [by apply Hlk'|done].
  - intros p v Hp. by left.
  - intros p v Hp. by left.
  - intros p Hu. by left.
  - intros p Hu. by left.
  - intros p Hp. left. by apply Hc.
  - intros p Hp. left. by apply Hc.
  - intros p Hp. rewrite Hr. by apply (i_out _ _ I).
  - apply I.
  - intros p u Hs. destruct (decide (u = t)) as [->|Hne]; [right|left]; split_and!; try done; [by apply Hv|by left].
Qed.

Lemma refs_goto s s' t c p : (t < NPROC)%nat → pc s' = <[t := c]> (pc s) →
  (refs s' p + Nat.b2n (waits (pc s t) p) + held s p + pins s p
   = refs s p + Nat.b2n (waits c p) + held s' p + pins s' p)%nat.
Proof.
  intros Ht Hpc. pose proof (waiting_goto s t c p Ht) as H.
  assert (waiting s' p = waiting (goto t c s) p) as E by (unfold waiting; by rewrite Hpc).
  unfold refs. lia.
Qed.

(** The process moves on and changes the counts or the contents of the listed
    buffer [p]. *)
Lemma binv_node s L t c lk pn p nd : let x := nd p in let s' := Bst nd lk (dk s) (<[t := c]> (pc s)) pn in
  binv s L → (t < NPROC)%nat → p ∈ L (bucket_of s p) →
  (∀ q, q ≠ p → nd q = node s q) →
  (next x = next (node s p) ∧ prev x = prev (node s p) ∧ dev x = dev (node s p)
   ∧ blockno x = blockno (node s p) ∧ used x = used (node s p)) →
  (∀ q, q ≠ p → pn q = pins s q) → Z.of_nat (pn p) <= 2 ^ 31 →
  (∀ q, q ≠ p → waits c q = waits (pc s t) q) → (∀ q, ¬ claims c q ∧ ¬ claims (pc s t) q) →
  lock_ok s t c lk →
  refcnt x + Z.b2z (waits (pc s t) p) + Z.of_nat (pins s p) + (if slock (node s p) then 1 else 0)
    = refcnt (node s p) + Z.b2z (waits c p) + Z.of_nat (pn p) + (if slock x then 1 else 0) →
  at_pc s' L t c →
  (∀ u, u ≠ t → slock (node s p) = Some u → slock x = Some u ∧ (pn p <= pins s p)%nat) →
  (∀ u, slock x = Some u →
     u ≠ t ∧ slock (node s p) = Some u ∧ (valid x = valid (node s p) ∨ valid x ≠ 0)
     ∨ u = t ∧ (checks c p = true ∨ valid x ≠ 0)) →
  (∀ q, q ≠ p → slock (node s q) = Some t → checks c q = true ∨ valid (node s q) ≠ 0) →
  binv s' L.
Proof.
  intros x s' I Ht Hp Hy (N1 & N2 & N3 & N4 & N5) Hpn Hpin Hw Hc [Hlk Hlk'] Hrx Hat Hs1 Hs2 Hs3.
  assert (Hx : node s' p = x) by done. change nd with (node s') in Hy.
  assert (Hr : ∀ q, q ≠ p → refs s' q = refs s q).
  { intros q Hq. eapply refs_same; [done|done|by apply Hpn|by rewrite Hy|by apply Hw]. }
  assert (Hrp : refcnt x = Z.of_nat (refs s' p)).
  { destruct (listed_in s L I p _ Hp) as (_ & _ & _ & Hrs). pose proof (refs_goto s s' t c p Ht eq_refl) as Hg.
    unfold held in Hg. rewrite Hx in Hg. cbn [s' pins] in Hg.
    destruct (waits c p), (waits (pc s t) p), (slock (node s p)), (slock x); cbn [Z.b2z Nat.b2n] in *; lia. }
  assert (Hk : ∀ q, key s' q = key s q).
  { intros q. unfold key. destruct (decide (q = p)) as [->|?]; [by rewrite Hx, N3, N4|by rewrite Hy]. }
  assert (Hu : ∀ q, used (node s' q) = used (node s q)).
  { intros q. destruct (decide (q = p)) as [->|?]; [by rewrite Hx|by rewrite Hy]. }
  assert (E : pc s' t = c) by (subst s'; cbn; by rewrite fn_lookup_insert).
  apply (binv_step s L s' L t I Ht). constructor; rewrite ?E; try done.
  - intros v. apply (list_ok_ext s); [apply I|..].
    + intros q. destruct (decide (q = p)) as [->|?]; [by rewrite Hx|by rewrite Hy].
    + intros q Hq. destruct (listed_in s L I q v Hq) as (_ & _ & ? & ?). rewrite Hu, Hk. split_and!; [done..|].
      destruct (decide (q = p)) as [->|?]; [by rewrite Hx|by rewrite Hy, Hr].
  - intros u Hne. subst s'; cbn. by rewrite fn_lookup_insert_ne.
  - intros v u Hne Hl. split; [by apply Hlk'|done].
  - intros q v Hq. by left.
  - intros q v Hq. by left.
  - intros q Hq. left. by rewrite Hu.
  - intros q Hq. left. by rewrite <- Hu.
  - intros q Hq. by destruct (Hc q).
  - intros q Hq. by destruct (Hc q).
  - intros q Hq. assert (q ≠ p) by (intros ->; by apply (Hq (bucket_of s p))). rewrite Hr by done. by apply (i_out _ _ I).
  - intros q. destruct (decide (q = p)) as [->|?]; [done|]. subst s'; cbn. rewrite Hpn by done. apply I.
  - intros q u Hne Hs. destruct (decide (q = p)) as [->|?]; [rewrite Hx; by apply Hs1|].
    rewrite Hy by done. split; [done|]. subst s'; cbn. by rewrite Hpn.
  - intros q u Hs. destruct (decide (q = p)) as [->|Hq]; [rewrite Hx in *; by apply Hs2|].
    rewrite Hy in * by done. destruct (decide (u = t)) as [->|Hne]; [right|left]; auto.
Qed.

(** *** The locks *)

Lemma lk_same s L t c : binv s L → (∀ w, inside (pc s t) w → inside c w) → lock_ok s t c (lock s).
Proof.
  intros I H. split; [|done]. intros v u Hl. destruct (decide (u = t)) as [->|]; [right|by left].
  split; [done|]. by apply H, (i_held _ _ I).
Qed.
Lemma lk_acquire s L t c v : binv s L → lock s v = None → (∀ w, ¬ inside (pc s t) w) → inside c v →
  lock_ok s t c (<[v := Some t]> (lock s)).
Proof.
  intros I Hv Hn Hc. split; intros w u.
  - destruct (decide (w = v)) as [->|Hw]; [rewrite fn_lookup_insert|rewrite fn_lookup_insert_ne by done].
    + intros [= <-]. by right.
    + intros Hl. left. split; [|done]. intros ->. destruct (i_held _ _ I w t Hl) as [_ ?]. by apply (Hn w).
  - intros Hu Hl. rewrite fn_lookup_insert_ne; [done|congruence].
Qed.
Lemma lk_release s L t c v : binv s L → lock s v = Some t → (∀ w, inside (pc s t) w → w = v) →
  lock_ok s t c (<[v := None]> (lock s)).
Proof.
  intros I Hv Hn. split; intros w u.
  - destruct (decide (w = v)) as [->|Hw]; [by rewrite fn_lookup_insert|rewrite fn_lookup_insert_ne by done].
    intros Hl. left. split; [|done]. intros ->. by apply Hw, Hn, (i_held _ _ I).
  - intros Hu Hl. rewrite fn_lookup_insert_ne; [done|congruence].
Qed.

(** *** The start, and the search *)

Lemma binit_inv k : binv (binit k) (λ _, []).
Proof.
  assert (Hr : ∀ p, refs (binit k) p = O).
  { intros p. unfold refs, held, waiting. cbn [binit pc pins waits node].
    rewrite list_filter_none by (apply Forall_forall; done). by destruct p. }
  constructor; try done.
  - intros v. split_and!; [done|constructor|set_solver..].
  - intros p _. by destruct p.
  - intros p t. by destruct p.
  - intros p t. by destruct p.
Qed.

(** A process that runs no [Check] holds valid buffers only. *)
Lemma holds_valid s L t p c : binv s L → (∀ q, checks (pc s t) q = false) → slock (node s p) = Some t → checks c p = true ∨ valid (node s p) ≠ 0.
Proof. intros I Hn Hs. right. destruct (i_valid _ _ I p t Hs) as [E|?]; [by rewrite Hn in E|done]. Qed.

Lemma scan_spec s L d b : binv s L → let v := hash_v b in
  (∃ p, scan (S NBUF) (node s) (next (node s (Head v))) (Head v) d b = Some (Some p) ∧ p ∈ L v ∧ key s p = (d, b))
  ∨ scan (S NBUF) (node s) (next (node s (Head v))) (Head v) d b = Some None ∧ ∀ p, p ∈ L v → key s p ≠ (d, b).
Proof.
  intros I v. destruct (i_lists _ _ I v) as (Hl & Hnd & Hb & _). apply scan_links with (l := L v); [done|..].
  - intros Hin. by destruct (Hb _ Hin) as [(i & ? & _) _].
  - apply Nat.lt_succ_r, nbuf_list; [done|]. intros p Hp. by destruct (Hb p Hp).
Qed.

(** *** The steps that leave the lists alone *)

Section keep_lists.
Context s L t (I : binv s L) (Ht : (t < NPROC)%nat).

(** A step of the process from [pc], to a [pc] that has the same part in the
    counts and the claims. *)
Ltac moves E :=
  rewrite ?E; try (intros; (done || (eapply holds_valid; [exact I|intros; by rewrite E|done])));
  try (apply (lk_same s L); [exact I|rewrite E; by intros w]).

Lemma keep_wait_get d b : pc s t = WaitGet d b → lock s (hash_v b) = None →
  binv (goto t (Scan d b) (set_lock (hash_v b) (Some t) s)) L.
Proof using I Ht.
  intros E Hv. apply (binv_goto s L t (Scan d b) _ I Ht); moves E.
  - apply (lk_acquire s L); [done|done|rewrite E; by intros w []|done].
  - cbn. by rewrite fn_lookup_insert.
Qed.
Lemma keep_scan_miss d b : pc s t = Scan d b → (∀ p, p ∈ L (hash_v b) → key s p ≠ (d, b)) →
  binv (goto t (Probe d b 0) s) L.
Proof using I Ht.
  intros E Hf. pose proof (i_pcs _ _ I t Ht) as Ha. rewrite E in Ha.
  apply (binv_goto s L t (Probe d b 0) (lock s) I Ht); moves E.
Qed.
Lemma keep_probe d b i : pc s t = Probe d b i →
  binv (goto t (if (i <? NBUF)%nat then if negb (used (node s (Buf i))) then Tas d b i else Probe d b (S i)
                else Panicked "bget: no buffers") s) L.
Proof using I Ht.
  intros E. pose proof (i_pcs _ _ I t Ht) as Ha. rewrite E in Ha.
  destruct (Nat.ltb_spec i NBUF) as [Hi|Hi]; [destruct (negb _)|].
  - apply (binv_goto s L t (Tas d b i) (lock s) I Ht); moves E.
  - apply (binv_goto s L t (Probe d b (S i)) (lock s) I Ht); moves E.
  - apply (binv_goto s L t (Panicked "bget: no buffers") (lock s) I Ht); moves E.
Qed.
Lemma keep_wait_rel p : pc s t = WaitRel p → lock s (bucket_of s p) = None →
  binv (goto t (Dec p (bucket_of s p)) (set_lock (bucket_of s p) (Some t) s)) L.
Proof using I Ht.
  intros E Hv. pose proof (i_pcs _ _ I t Ht) as Ha. rewrite E in Ha.
  apply (binv_goto s L t (Dec p (bucket_of s p)) _ I Ht); moves E.
  - apply (lk_acquire s L); [done|done|rewrite E; by intros w []|done].
  - cbn. rewrite fn_lookup_insert. by split_and!.
Qed.
Lemma keep_unlock v : pc s t = Unlock v → binv (goto t Idle (set_lock v None s)) L.
Proof using I Ht.
  intros E. pose proof (i_pcs _ _ I t Ht) as Ha. rewrite E in Ha.
  apply (binv_goto s L t Idle _ I Ht); moves E.
  apply (lk_release s L); [done|done|by rewrite E].
Qed.
Lemma keep_call c : pc s t = Idle → (∀ p, waits c p = false) → (∀ p, ¬ claims c p) → at_pc s L t c →
  binv (goto t c s) L.
Proof using I Ht.
  intros E Hw Hc Ha. apply (binv_goto s L t c (lock s) I Ht); moves E.
  intros p. split; [by intros ?%Hc|done].
Qed.
Lemma keep_dk k : binv (set_dk k s) L.
Proof using I. by destruct I. Qed.
End keep_lists.

(** *** The steps on one listed buffer *)

Section one_buffer.
Context s L t (I : binv s L) (Ht : (t < NPROC)%nat).

Lemma same_holder p c (x : buf) : (∀ q, checks (pc s t) q = false) → valid x = valid (node s p) →
  ∀ u, slock (node s p) = Some u →
    u ≠ t ∧ slock (node s p) = Some u ∧ (valid x = valid (node s p) ∨ valid x ≠ 0)
    ∨ u = t ∧ (checks c p = true ∨ valid x ≠ 0).
Proof using I.
  intros Hn Hx u Hs. destruct (decide (u = t)) as [->|?]; [right|left; auto].
  split; [done|right]. rewrite Hx. destruct (i_valid _ _ I p t Hs) as [E|?]; [by rewrite Hn in E|done].
Qed.

#[local] Arguments checks : simpl never.
(** [on p f c lk pn E]: the process, which is where [E] says, goes to [c], and
    [f] changes the buffer [p]; the conditions of [binv_node] that the change
    does not touch are discharged. *)
Tactic Notation "on" constr(p) constr(f) constr(c) constr(lk) constr(pn) constr(E) :=
  apply (binv_node s L t c lk pn p (node (set_node p f s)) I Ht); rewrite ?E, ?node_set_eq; cbn;
  rewrite ?bool_decide_eq_true_2 by done;
  try (intros q Hq; (by rewrite fn_lookup_insert_ne || by rewrite !bool_decide_eq_false_2 || by rewrite bool_decide_eq_false_2
        || (apply (holds_valid s L t q); [done|intros; by rewrite E])));
  try done; try apply I; try (apply (lk_same s L); [exact I|rewrite E; by intros w]); try (intros _; split; by intros []);
  try (apply same_holder; [by rewrite E|done]).

Lemma node_hit d b p : pc s t = Scan d b → p ∈ L (hash_v b) → key s p = (d, b) →
  binv (goto t (SleepOn d b p) (set_lock (hash_v b) None (set_node p (λ x, set_refcnt (u32 (refcnt x + 1)) x) s))) L.
Proof using I Ht.
  intros E Hp Hk. pose proof (i_pcs _ _ I t Ht) as Ha. rewrite E in Ha.
  destruct (listed_in s L I p _ Hp) as (Hv & Hb & _ & Hr). pose proof (refs_bound s L I p).
  on p (λ x, set_refcnt (u32 (refcnt x + 1)) x) (SleepOn d b p) (<[hash_v b := None]> (lock s)) (pins s) E.
  - by rewrite <- Hv.
  - apply (lk_release s L); [done|done|by rewrite E].
  - rewrite u32_small by lia. cbn. lia.
  - unfold key. cbn. rewrite fn_lookup_insert. by split.
Qed.
Lemma node_sleep d b p : pc s t = SleepOn d b p → slock (node s p) = None →
  binv (goto t (Check d b p) (set_node p (set_slock (Some t)) s)) L.
Proof using I Ht.
  intros E Hs. pose proof (i_pcs _ _ I t Ht) as Ha. rewrite E in Ha.
  on p (set_slock (Some t)) (Check d b p) (lock s) (pins s) E.
  - apply (waits_listed s L I t p Ht). rewrite E. by apply bool_decide_eq_true_2.
  - rewrite Hs. cbn. lia.
  - destruct Ha as [Hb Hk]. rewrite fn_lookup_insert. unfold key in *. cbn. rewrite fn_lookup_insert. by split_and!.
  - intros u _. by rewrite Hs.
  - intros u [= <-]. right. split; [done|left]. by apply bool_decide_eq_true_2.
Qed.
Lemma node_check d b p : pc s t = Check d b p →
  binv (goto t Idle (if valid (node s p) =? 0 then
    set_node p (λ x, set_valid 1 (set_data (disk_read (dk s) (dev x) (blockno x)) x)) s else s)) L.
Proof using I Ht.
  intros E. pose proof (i_pcs _ _ I t Ht) as Ha. rewrite E in Ha. destruct Ha as (Hb & _ & Hs).
  destruct (Z.eqb_spec (valid (node s p)) 0) as [Hv|Hv].
  - on p (λ x, set_valid 1 (set_data (disk_read (dk s) (dev x) (blockno x)) x)) Idle (lock s) (pins s) E.
    + by apply (held_listed s L I t).
    + intros u Hu. destruct (decide (u = t)) as [->|?]; [right|left]; auto.
    + intros q Hq Hsq. right. destruct (i_valid _ _ I q t Hsq) as [Hc|?]; [|done].
      rewrite E in Hc. apply bool_decide_eq_true_1 in Hc. congruence.
  - apply (binv_goto s L t Idle (lock s) I Ht); rewrite ?E; try done.
    + apply (lk_same s L); [exact I|rewrite E; by intros w].
    + intros q Hsq. right. destruct (i_valid _ _ I q t Hsq) as [Hc|?]; [|done].
      rewrite E in Hc. apply bool_decide_eq_true_1 in Hc. congruence.
Qed.
Lemma dec_count p v : pc s t = Dec p v → p ∈ L v ∧ v = bucket_of s p ∧ lock s v = Some t
  ∧ refcnt (node s p) = Z.of_nat (refs s p) ∧ 0 < refcnt (node s p)
  ∧ u32 (refcnt (node s p) - 1) = refcnt (node s p) - 1.
Proof using I Ht.
  intros E. pose proof (i_pcs _ _ I t Ht) as Ha. rewrite E in Ha. destruct Ha as (Hb & Hv & Hl).
  assert (Hp : p ∈ L v).
  { rewrite <- Hv. apply (waits_listed s L I t p Ht). rewrite E. by apply bool_decide_eq_true_2. }
  destruct (listed_in s L I p _ Hp) as (_ & _ & _ & Hr). pose proof (refs_bound s L I p).
  assert (Hw : waits (pc s t) p = true) by (rewrite E; by apply bool_decide_eq_true_2).
  pose proof (waiting_ge s t p Ht Hw). assert (0 < refs s p)%nat by (unfold refs; lia).
  split_and!; [done..|lia|apply u32_small; lia].
Qed.
Lemma node_dec p v : pc s t = Dec p v →
  binv (goto t (Unlock v) (set_node p (λ x, set_refcnt (u32 (refcnt x - 1)) x) s)) L.
Proof using I Ht.
  intros E. destruct (dec_count p v E) as (Hp & Hv & Hl & Hr & H0 & Hu).
  on p (λ x, set_refcnt (u32 (refcnt x - 1)) x) (Unlock v) (lock s) (pins s) E.
  - by rewrite <- Hv.
  - rewrite Hu. cbn. lia.
Qed.
Lemma node_pin p : pc s t = WaitPin p →
  binv (goto t Idle (set_pins p (S (pins s p)) (set_node p (λ x, set_refcnt (u32 (refcnt x + 1)) x) s))) L.
Proof using I Ht.
  intros E. pose proof (i_pcs _ _ I t Ht) as Ha. rewrite E in Ha. destruct Ha as (Hb & Hs & Hp).
  pose proof (held_listed s L I t p Hs) as Hin. destruct (listed_in s L I p _ Hin) as (_ & _ & _ & Hr).
  pose proof (refs_bound s L I p).
  on p (λ x, set_refcnt (u32 (refcnt x + 1)) x) Idle (lock s) (<[p := S (pins s p)]> (pins s)) E;
    rewrite ?fn_lookup_insert.
  - lia.
  - rewrite u32_small by lia. cbn. lia.
  - intros u Hne Hu. congruence.
Qed.
Lemma node_unpin p : pc s t = WaitUnpin p →
  binv (goto t Idle (set_node p (λ x, set_refcnt (u32 (refcnt x - 1)) x) s)) L.
Proof using I Ht.
  intros E. assert (Hw : waits (pc s t) p = true) by (rewrite E; by apply bool_decide_eq_true_2).
  pose proof (waits_listed s L I t p Ht Hw) as Hin. destruct (listed_in s L I p _ Hin) as (_ & _ & _ & Hr).
  pose proof (refs_bound s L I p). pose proof (waiting_ge s t p Ht Hw).
  assert (0 < refs s p)%nat by (unfold refs; lia).
  on p (λ x, set_refcnt (u32 (refcnt x - 1)) x) Idle (lock s) (pins s) E.
  rewrite u32_small by lia. cbn. lia.
Qed.

(** The calls. *)
Lemma node_store p x : pc s t = Idle → slock (node s p) = Some t →
  binv (goto t Idle (set_node p (set_data x) s)) L.
Proof using I Ht.
  intros E Hs. on p (set_data x) Idle (lock s) (pins s) E. by apply (held_listed s L I t).
Qed.
Lemma node_brelse p : pc s t = Idle → slock (node s p) = Some t →
  binv (goto t (WaitRel p) (set_node p (set_slock None) s)) L.
Proof using I Ht.
  intros E Hs. pose proof (held_listed s L I t p Hs) as Hin.
  destruct (listed_in s L I p _ Hin) as (_ & Hb & _ & Hr).
  on p (set_slock None) (WaitRel p) (lock s) (pins s) E.
  - rewrite Hs. cbn. lia.
  - intros u Hne Hu. congruence.
Qed.
Lemma node_bunpin p : pc s t = Idle → (0 < pins s p)%nat →
  binv (goto t (WaitUnpin p) (set_pins p (pred (pins s p)) s)) L.
Proof using I Ht.
  intros E Hp. assert (Hin : p ∈ L (bucket_of s p)) by (apply (refs_listed s L I); unfold refs; lia).
  destruct (listed_in s L I p _ Hin) as (_ & Hb & _ & Hr). pose proof (i_pins _ _ I p).
  apply (binv_node s L t (WaitUnpin p) (lock s) (<[p := pred (pins s p)]> (pins s)) p (node s) I Ht);
    rewrite ?E, ?fn_lookup_insert; cbn; rewrite ?bool_decide_eq_true_2 by done; try done; try lia.
  - intros q Hq. by rewrite fn_lookup_insert_ne.
  - intros q Hq. by rewrite bool_decide_eq_false_2.
  - apply (lk_same s L); [exact I|rewrite E; by intros w].
  - cbn. lia.
  - intros u Hne Hs. split; [done|lia].
  - apply same_holder; [by rewrite E|done].
  - intros q Hq. by apply (holds_valid s L t q); [|rewrite E].
Qed.
End one_buffer.

(** *** The steps that take and give back a buffer *)

Section change_lists.
Context s L t (I : binv s L) (Ht : (t < NPROC)%nat).

Lemma valid_kept (nd : bptr → buf) c : (∀ q, checks (pc s t) q = false) →
  (∀ q, slock (nd q) = slock (node s q)) → (∀ q u, slock (node s q) = Some u → valid (nd q) = valid (node s q)) →
  ∀ q u, slock (nd q) = Some u →
    u ≠ t ∧ slock (node s q) = Some u ∧ (valid (nd q) = valid (node s q) ∨ valid (nd q) ≠ 0)
    ∨ u = t ∧ (checks c q = true ∨ valid (nd q) ≠ 0).
Proof using I.
  intros Hn Hsl Hva q u Hs. rewrite Hsl in Hs. rewrite (Hva q u Hs).
  by eapply (same_holder s L t I q c (node s q)).
Qed.

Lemma take_tas d b i : pc s t = Tas d b i →
  binv (goto t (if used (node s (Buf i)) then Probe d b (S i) else Fill d b i)
          (set_node (Buf i) (set_used true) s)) L.
Proof using I Ht.
  intros E. pose proof (i_pcs _ _ I t Ht) as Ha. rewrite E in Ha. destruct Ha as [[Hl Hf] Hi].
  set (c := if used (node s (Buf i)) then Probe d b (S i) else Fill d b i).
  set (s' := goto t c (set_node (Buf i) (set_used true) s)).
  assert (Hg : ∀ A (g : buf → A) q, (∀ x, g (set_used true x) = g x) → g (node s' q) = g (node s q))
    by (intros A g q; apply (set_field g s)).
  assert (Hr : ∀ p, refs s' p = refs s p).
  { intros p. eapply (refs_same _ _ t c); [done..|by apply Hg|]. rewrite E. by destruct (used _). }
  assert (Hk : ∀ p, key s' p = key s p) by (intros p; unfold key; by rewrite !(Hg Z)).
  assert (Hfr : ∀ p, p ∈ L (hash_v b) → key s' p ≠ (d, b)) by (intros p Hp; rewrite Hk; auto).
  assert (Hus : ∀ p, used (node s p) = true → used (node s' p) = true).
  { intros p Hp. destruct (decide (p = Buf i)) as [->|?]; [unfold s'; cbn; by rewrite fn_lookup_insert|].
    unfold s'; cbn; by rewrite fn_lookup_insert_ne. }
  assert (Hpc : pc s' t = c) by (cbn; by rewrite fn_lookup_insert).
  apply (binv_step s L s' L t I Ht). constructor; rewrite ?Hpc; try done.
  - intros v. apply (list_ok_ext s); [apply I|intros p; split; by apply Hg|].
    intros p Hp. destruct (listed_in s L I p v Hp) as (_ & _ & ? & ?). rewrite Hk, Hr, (Hg Z) by done. auto.
  - subst c. destruct (used (node s (Buf i))) eqn:Hu; cbn -[node]; [by split_and!|].
    split_and!; [done..| |].
    + unfold s'; cbn. by rewrite fn_lookup_insert.
    + destruct (listed_dec s L I (Buf i)) as [Hin|?]; [|done].
      apply (listed_in s L I) in Hin as (_ & _ & ? & _). congruence.
  - intros u Hne. cbn. by rewrite fn_lookup_insert_ne.
  - intros v u Hv. destruct (lk_same s L t c I) as [Hc _]; [|by apply Hc].
    intros w. rewrite E. subst c. by destruct (used _).
  - intros p v Hp. by left.
  - intros p v Hp. by left.
  - intros p Hp. left. by apply Hus.
  - intros p Hp. destruct (used (node s p)) eqn:Hu; [by left|right].
    destruct (decide (p = Buf i)) as [->|Hne]; [subst c; by rewrite Hu|].
    unfold s' in Hp; cbn in Hp. rewrite fn_lookup_insert_ne in Hp by done. congruence.
  - intros p Hp. right; left. subst c. destruct (used (node s (Buf i))) eqn:Hu; [done|]. cbn in Hp. by subst.
  - intros p Hp. by rewrite E in Hp.
  - intros p Hp. rewrite Hr. by apply (i_out _ _ I).
  - apply I.
  - intros p u Hne Hs. by rewrite (Hg (option nat)).
  - apply (valid_kept (node s')); [by rewrite E|intros q; by apply Hg|intros q u _; by apply Hg].
Qed.

Lemma give_clear p v : pc s t = Clear p v → binv (goto t (Unlock v) (set_node p (set_used false) s)) L.
Proof using I Ht.
  intros E. pose proof (i_pcs _ _ I t Ht) as Ha. rewrite E in Ha. destruct Ha as (Hb & Hl & Hus & Hun).
  set (s' := goto t (Unlock v) (set_node p (set_used false) s)).
  assert (Hg : ∀ A (g : buf → A) q, (∀ x, g (set_used false x) = g x) → g (node s' q) = g (node s q))
    by (intros A g q; apply (set_field g s)).
  assert (Hr : ∀ q, refs s' q = refs s q).
  { intros q. eapply (refs_same _ _ t (Unlock v)); [done..|by apply Hg|by rewrite E]. }
  assert (Hk : ∀ q, key s' q = key s q) by (intros q; unfold key; by rewrite !(Hg Z)).
  assert (Hne : ∀ q, q ≠ p → node s' q = node s q) by (intros; unfold s'; cbn; by rewrite fn_lookup_insert_ne).
  assert (Hpf : used (node s' p) = false) by (unfold s'; cbn; by rewrite fn_lookup_insert).
  assert (Hpc : pc s' t = Unlock v) by (cbn; by rewrite fn_lookup_insert).
  apply (binv_step s L s' L t I Ht). constructor; rewrite ?Hpc; try done.
  - intros w. apply (list_ok_ext s); [apply I|intros q; split; by apply Hg|].
    intros q Hq. destruct (listed_in s L I q w Hq) as (_ & _ & ? & ?). rewrite Hk, Hr, (Hg Z) by done.
    rewrite Hne by (intros ->; by apply (Hun w)). auto.
  - intros u Hu. cbn. by rewrite fn_lookup_insert_ne.
  - intros w u Hv. destruct (lk_same s L t (Unlock v) I) as [Hc _]; [|by apply Hc]. intros x. by rewrite E.
  - intros q w Hq. by left.
  - intros q w Hq. by left.
  - intros q Hq. destruct (decide (q = p)) as [->|?]; [right; by rewrite E|left; by rewrite Hne].
  - intros q Hq. destruct (decide (q = p)) as [->|?]; [congruence|left; by rewrite <- (Hne q)].
  - intros q Hq. rewrite E in Hq. cbn in Hq. subst q. auto.
  - intros q Hq. rewrite Hr. by apply (i_out _ _ I).
  - apply I.
  - intros q u Hu Hs. by rewrite (Hg (option nat)).
  - apply (valid_kept (node s')); [by rewrite E|intros q; by apply Hg|intros q u _; by apply Hg].
Qed.
Lemma links_next_in nd h l : links nd h l h → next (nd h) ∈ h :: l.
Proof. destruct l as [|q l]; cbn; [intros [-> _]|intros (-> & _)]; [|right]; left. Qed.
Lemma other_list v w p : v ≠ w → p ∈ Head v :: L v → p ∉ Head w :: L w.
Proof using I.
  intros Hvw [->|Hp]%elem_of_cons [E|Hw]%elem_of_cons.
  - congruence.
  - by destruct (listed_in s L I _ _ Hw) as (_ & (j & ? & _) & _).
  - subst p. by destruct (listed_in s L I _ _ Hp) as (_ & (j & ? & _) & _).
  - destruct (listed_in s L I _ _ Hw) as (? & _), (listed_in s L I _ _ Hp) as (? & _). congruence.
Qed.
Lemma head_unlisted v w : Head v ∉ L w.
Proof using I. intros H. by destruct (listed_in s L I _ _ H) as (_ & (j & ? & _) & _). Qed.

(** Bucket [v]'s list becomes [l], which differs from it in the buffer [p] only. *)
Section relist.
Context (s' : bst) (v : nat) (p : bptr) (l : list bptr) (c : pcs).
Context (Hpc : pc s' = <[t := c]> (pc s)) (Hpn : pins s' = pins s).
Context (Hblock : ∀ q, q ≠ p → same_block (node s' q) (node s q)).
Context (Hused : used (node s' p) = used (node s p)) (Hslock : slock (node s' p) = slock (node s p)).
Context (Hlock : lock s v = Some t) (Hlk : lock_ok s t c (lock s')).
Context (Hlinks : links (node s') (Head v) l (Head v)) (Hnd : NoDup l).
Context (Hother : ∀ w, w ≠ v → links (node s') (Head w) (L w) (Head w)).
Context (Hpv : ∀ w, w ≠ v → p ∉ L w) (Hin : ∀ q, q ≠ p → q ∈ l ↔ q ∈ L v).
Context (Hw : ∀ q, q ≠ p → waits c q = waits (pc s t) q).

Definition relisted : nat → list bptr := <[v := l]> L.
Lemma relisted_same : relisted v = l.
Proof using. apply fn_lookup_insert. Qed.
Lemma relisted_other w : w ≠ v → relisted w = L w.
Proof using. intros ?; by apply fn_lookup_insert_ne. Qed.
Lemma relisted_in q w : q ≠ p → q ∈ relisted w ↔ q ∈ L w.
Proof using Hin. intros Hq. destruct (decide (w = v)) as [->|?]; [rewrite relisted_same; auto|by rewrite relisted_other]. Qed.
Lemma relist_refs q : q ≠ p → refs s' q = refs s q.
Proof using Ht Hpc Hpn Hblock Hw. intros Hq. eapply (refs_same _ _ t c); [done|done|by rewrite Hpn|by apply Hblock|auto]. Qed.
Lemma relist_key q : q ≠ p → key s' q = key s q.
Proof using Hblock. intros Hq. destruct (Hblock q Hq) as (_ & Hd & Hb & _). unfold key. by rewrite Hd, Hb. Qed.

Lemma relist_lists :
  (p ∈ l → is_buf p ∧ used (node s' p) = true ∧ bucket_of s' p = v ∧ refcnt (node s' p) = Z.of_nat (refs s' p)) →
  (p ∈ l → ∀ q, q ∈ L v → q ≠ p → key s' p ≠ key s q) → ∀ w, list_ok s' relisted w.
Proof using I Ht Hpc Hpn Hblock Hlinks Hnd Hother Hpv Hin Hw.
  intros Hp Hkp w. destruct (i_lists _ _ I w) as (_ & Hndw & _ & Hkk). split_and!.
  - destruct (decide (w = v)) as [->|?]; [by rewrite relisted_same|rewrite relisted_other by done; auto].
  - destruct (decide (w = v)) as [->|?]; [by rewrite relisted_same|by rewrite relisted_other].
  - intros q Hq. destruct (decide (q = p)) as [->|Hne].
    + destruct (decide (w = v)) as [->|?]; [rewrite relisted_same in Hq; auto|].
      rewrite relisted_other in Hq by done. by apply Hpv in Hq.
    + apply relisted_in in Hq; [|done]. destruct (listed_in s L I q w Hq) as (-> & ? & ? & ?).
      destruct (Hblock q Hne) as (_ & _ & Hb & _ & Hr & _ & Hu). unfold bucket_of.
      by rewrite Hb, Hr, Hu, relist_refs.
  - assert (Hx : ∀ q, q ≠ p → q ∈ relisted w → p ∈ relisted w → key s' p ≠ key s' q).
    { intros q Hne Hq Hpw. rewrite (relist_key q Hne). apply relisted_in in Hq; [|done].
      destruct (decide (w = v)) as [->|?]; [apply Hkp; [by rewrite relisted_same in Hpw|done..]|].
      rewrite relisted_other in Hpw by done. by apply Hpv in Hpw. }
    intros q r Hq Hr He. destruct (decide (q = p)) as [->|Hqp], (decide (r = p)) as [->|Hrp]; [done|..].
    + by destruct (Hx r Hrp Hr Hq).
    + by destruct (Hx q Hqp Hq Hr).
    + apply relisted_in in Hq, Hr; [|done..]. rewrite !relist_key in He by done. auto.
Qed.

Lemma binv_relist :
  (p ∈ l → is_buf p ∧ used (node s' p) = true ∧ bucket_of s' p = v ∧ refcnt (node s' p) = Z.of_nat (refs s' p)) →
  (p ∈ l → ∀ q, q ∈ L v → q ≠ p → key s' p ≠ key s q) →
  (p ∉ l → refs s' p = O) → (p ∈ L v → key s' p = key s p) →
  (∀ q, claims c q ↔ q = p ∧ p ∉ l) → (∀ q, claims (pc s t) q ↔ q = p ∧ p ∉ L v) →
  (p ∈ l ↔ p ∉ L v) → (∀ q, checks (pc s t) q = false) →
  (∀ u, slock (node s p) = Some u → valid (node s' p) = valid (node s p)) →
  at_pc s' relisted t c → binv s' relisted.
Proof using All.
  intros Hp Hkp Hout Hkey Hc Hct Hpl Hnc Hva Hat.
  assert (Hu : ∀ q, used (node s' q) = used (node s q)).
  { intros q. destruct (decide (q = p)) as [->|?]; [done|by apply Hblock]. }
  assert (Hs : ∀ q, slock (node s' q) = slock (node s q)).
  { intros q. destruct (decide (q = p)) as [->|?]; [done|by apply Hblock]. }
  assert (Ht' : pc s' t = c) by (rewrite Hpc; apply fn_lookup_insert).
  apply (binv_step s L s' relisted t I Ht). constructor; rewrite ?Ht', ?Hpn; try done.
  - by apply relist_lists.
  - intros u Hne. rewrite Hpc. by apply fn_lookup_insert_ne.
  - apply Hlk.
  - intros w u Hne Hl. split; [by apply Hlk|]. apply relisted_other. congruence.
  - intros q w Hq. destruct (decide (q = p)) as [->|?]; [|by apply relist_key].
    destruct (decide (w = v)) as [->|?]; [auto|by apply Hpv in Hq].
  - intros q w Hq. destruct (decide (q = p)) as [->|?]; [|left; by apply relisted_in].
    destruct (decide (w = v)) as [->|?]; [|left; by rewrite relisted_other in Hq].
    right. rewrite relisted_same in Hq. apply Hct. split; [done|]. by apply Hpl.
  - intros q w Hq. destruct (decide (q = p)) as [->|?]; [|left; by apply relisted_in].
    destruct (decide (w = v)) as [->|?]; [right; apply Hc; split; [done|tauto]|by apply Hpv in Hq].
  - intros q. rewrite Hu. by left.
  - intros q. rewrite Hu. by left.
  - intros q Hq. apply Hc in Hq as [-> Hq]. right; right. exists v. destruct (decide (p ∈ L v)); tauto.
  - intros q Hq. apply Hct in Hq as [-> Hq]. right; right. exists v. rewrite relisted_same. tauto.
  - intros q Hq. destruct (decide (q = p)) as [->|Hne].
    + apply Hout. rewrite <- relisted_same. apply Hq.
    + rewrite relist_refs by done. apply (i_out _ _ I). intros w Hx. apply (Hq w). by apply relisted_in.
  - apply I.
  - intros q u Hne Hq. by rewrite Hs.
  - apply (valid_kept (node s')); [done..|]. intros q u Hq.
    destruct (decide (q = p)) as [->|?]; [eauto|by apply Hblock].
Qed.
End relist.

Lemma take_fill d b i : pc s t = Fill d b i →
  binv (goto t (SleepOn d b (Buf i)) (set_lock (hash_v b) None (fill d b i s)))
    (relisted (hash_v b) (Buf i :: L (hash_v b))).
Proof using I Ht.
  intros E. pose proof (i_pcs _ _ I t Ht) as Ha. rewrite E in Ha.
  destruct Ha as ([Hl Hf] & Hi & Hus & Hun). set (c := SleepOn d b (Buf i)).
  set (s' := goto t c (set_lock (hash_v b) None (fill d b i s))).
  assert (Hs : same_block (node s' (Buf i)) (new_block d b (node s (Buf i)))) by exact (fill_self s d b i).
  destruct Hs as (Hv & Hd & Hb & Hsl & Hr & _ & Hu).
  destruct (i_lists _ _ I (hash_v b)) as (Hln & Hnd & _ & _).
  eapply (binv_relist s' (hash_v b) (Buf i) _ c); try done.
  - by apply fill_block.
  - by apply (lk_release s L t c _ I Hl); rewrite E.
  - apply (fill_links s d b i _ _ eq_refl); [done..|apply head_unlisted|by apply Hun].
  - constructor; [by apply Hun|done].
  - intros w Hw. destruct (i_lists _ _ I w) as (Hlw & _).
    apply (fill_links_other s d b i); [by intros [= ->]|done|by apply Hun|apply head_unlisted| |done].
    apply (other_list (hash_v b) w); [done|]. by apply links_next_in in Hln.
  - intros q Hq. rewrite elem_of_cons. tauto.
  - intros q Hq. rewrite E. cbn. by rewrite bool_decide_eq_false_2.
  - intros _. split_and!; [by exists i|by rewrite Hu|unfold bucket_of; by rewrite Hb|].
    rewrite Hr. pose proof (refs_goto s s' t c (Buf i) Ht eq_refl) as Hg.
    rewrite (i_out _ _ I _ Hun), E in Hg. cbn [c waits] in Hg. rewrite bool_decide_eq_true_2 in Hg by done.
    unfold held in Hg. rewrite Hsl in Hg. change (pins s') with (pins s) in Hg.
    cbn [Nat.b2n slock new_block] in Hg. cbn [refcnt new_block]. lia.
  - intros _ q Hq _ Hx. apply (Hf q Hq). rewrite <- Hx. unfold key. by rewrite Hd, Hb.
  - intros H. destruct H. by left.
  - intros H. by apply Hun in H.
  - intros q. cbn. split; [done|]. intros [_ H]. destruct H. by left.
  - intros q. rewrite E. cbn. split; [intros ->; split; [done|apply Hun]|by intros [-> _]].
  - split; [intros _; apply Hun|intros _; by left].
  - by rewrite E.
  - intros u Hx. apply (held_listed s L I) in Hx. by apply Hun in Hx.
  - split; [by exists i|]. unfold key. by rewrite Hd, Hb.
Qed.

Lemma give_unlink p v l1 l2 : pc s t = Dec p v → u32 (refcnt (node s p) - 1) = 0 → L v = l1 ++ p :: l2 →
  binv (goto t (Clear p v) (unlink p (set_node p (λ x, set_refcnt (u32 (refcnt x - 1)) x) s)))
    (relisted v (l1 ++ l2)).
Proof using I Ht.
  intros E H0 HL. destruct (dec_count s L t I Ht p v E) as (Hp & Hv & Hl & Hr & Hr0 & Hr1).
  set (s1 := set_node p (λ x, set_refcnt (u32 (refcnt x - 1)) x) s).
  assert (Hg : ∀ A (g : buf → A) q, (∀ x n, g (set_refcnt n x) = g x) → g (node s1 q) = g (node s q))
    by (intros A g q Hg; by apply (set_field g s)).
  set (s' := goto t (Clear p v) (unlink p s1)).
  destruct (listed_in s L I p _ Hp) as (_ & Hb & Hus & _).
  destruct (i_lists _ _ I v) as (Hln & Hnd & _ & _). rewrite HL in Hln, Hnd.
  assert (Hndh : NoDup (Head v :: l1 ++ p :: l2)) by (constructor; [rewrite <- HL; apply head_unlisted|done]).
  assert (Hln1 : links (node s1) (Head v) (l1 ++ p :: l2) (Head v)).
  { eapply links_ext; [..|exact Hln]; intros q _; by apply Hg. }
  assert (Hpl : p ∉ l1 ++ l2).
  { apply NoDup_app in Hnd as (_ & Hd & Hnd). apply NoDup_cons in Hnd as [??]. set_solver. }
  assert (Hsb : ∀ q, q ≠ p → same_block (node s' q) (node s q)).
  { intros q Hq. etrans; [apply unlink_block|]. unfold s1. by rewrite node_set_ne. }
  destruct (unlink_block s1 p p) as (Uv & Ud & Ub & Us & _ & _ & Uu).
  eapply (binv_relist s' v p _ (Clear p v)); try done.
  - by transitivity (used (node s1 p)); [|apply Hg].
  - by transitivity (slock (node s1 p)); [|apply Hg].
  - apply (lk_same s L t _ I). by rewrite E.
  - by apply unlink_links.
  - apply NoDup_app in Hnd as (? & Hd & [_ ?]%NoDup_cons). apply NoDup_app. split_and!; [done| |done].
    intros q Hq Hq'. apply (Hd q Hq). by right.
  - intros w Hw. destruct (neighbours _ _ _ _ _ Hln1 Hndh) as (Hpr & Hnx & Hne).
    apply (unlink_links_other s1); [done|..].
    + apply (other_list v w); [done|]. rewrite HL. apply elem_of_cons in Hpr as [->|?]; [by left|right].
      apply elem_of_app. by left.
    + apply (other_list v w); [done|]. rewrite HL. apply elem_of_app in Hnx as [?|Hx]; [right|].
      * apply elem_of_app. right. by right.
      * apply list_elem_of_singleton in Hx as ->. by left.
    + destruct (i_lists _ _ I w) as (Hlw & _). eapply links_ext; [..|exact Hlw]; intros q _; by apply Hg.
  - intros w Hw Hx. destruct (listed_in s L I p w Hx). congruence.
  - intros q Hq. rewrite HL, !elem_of_app, elem_of_cons. tauto.
  - intros q Hq. rewrite E. cbn. by rewrite bool_decide_eq_false_2.
  - intros _. pose proof (refs_goto s s' t (Clear p v) p Ht eq_refl) as Hx.
    rewrite E in Hx. cbn [waits] in Hx. rewrite bool_decide_eq_true_2 in Hx by done.
    unfold held in Hx. replace (slock (node s' p)) with (slock (node s p)) in Hx
      by (transitivity (slock (node s1 p)); [symmetry; by apply Hg|done]).
    change (pins s') with (pins s) in Hx. cbn [Nat.b2n] in Hx. lia.
  - intros _. unfold key. transitivity (dev (node s1 p), blockno (node s1 p)); [by rewrite <- Ud, <- Ub|].
    f_equal; by apply Hg.
  - intros q. split; [done|by intros [-> _]].
  - intros q. rewrite E. cbn. split; [done|]. by intros [_ ?].
  - by rewrite E.
  - intros u _. transitivity (valid (node s1 p)); [done|by apply Hg].
  - split_and!; [done|done| |].
    + transitivity (used (node s1 p)); [done|by rewrite Hg].
    + intros w. destruct (decide (w = v)) as [->|?]; [by rewrite relisted_same|].
      rewrite relisted_other by done. intros Hx. destruct (listed_in s L I p w Hx). congruence.
Qed.
End change_lists.

(** *** Every step *)

Lemma exec_keeps s L t s' : binv s L → (t < NPROC)%nat → exec t s = Some s' → ∃ L', binv s' L'.
Proof.
  intros I Ht. unfold exec. destruct (pc s t) as [|d b|d b|d b i|d b i|d b i|d b p|d b p|p|p v|p v|v|p|p|w] eqn:E; try done.
  - destruct (lock s (hash_v b)) eqn:El; [done|]. intros [= <-]. exists L. by apply keep_wait_get.
  - destruct (scan_spec s L d b I) as [(p & -> & Hp & Hk)|[-> Hf]]; intros [= <-]; exists L.
    + by apply node_hit.
    + by apply keep_scan_miss.
  - intros [= <-]. exists L. by apply keep_probe.
  - intros [= <-]. exists L. by apply take_tas.
  - intros [= <-]. eexists. by apply take_fill.
  - destruct (slock (node s p)) eqn:Es; [done|]. intros [= <-]. exists L. by apply node_sleep.
  - intros [= <-]. exists L. by apply (node_check s L t I Ht d b).
  - destruct (lock s (bucket_of s p)) eqn:El; [done|]. intros [= <-]. exists L. by apply keep_wait_rel.
  - cbv zeta. intros [= <-]. rewrite fn_lookup_insert. cbn [refcnt set_refcnt].
    destruct (Z.eqb_spec (u32 (refcnt (node s p) - 1)) 0) as [H0|H0]; [|exists L; by apply node_dec].
    destruct (dec_count s L t I Ht p v E) as (Hp & _). apply list_elem_of_split in Hp as (l1 & l2 & Hl).
    eexists. by apply give_unlink.
  - intros [= <-]. exists L. by apply give_clear.
  - intros [= <-]. exists L. by apply keep_unlock.
  - destruct (lock s (bucket_of s p)) eqn:El; [done|]. intros [= <-]. exists L. by apply node_pin.
  - destruct (lock s (bucket_of s p)) eqn:El; [done|]. intros [= <-]. exists L. by apply node_unpin.
Qed.

Lemma invoke_keeps s L t c s' : binv s L → (t < NPROC)%nat → pc s t = Idle → invoke t c s = Some s' →
  ∃ L', binv s' L'.
Proof.
  intros I Ht E H. exists L. destruct c as [d b|i x|i|i|i|i]; cbn [invoke] in H.
  - injection H as <-. by apply keep_call; [..|intros ? []|].
  - unfold holdingsleep in H. case_bool_decide as Hs; [|done]. injection H as <-. by apply node_store.
  - unfold holdingsleep in H. case_bool_decide as Hs; injection H as <-; [|by apply keep_call; [..|intros ? []|]].
    by apply (keep_call (set_dk _ s)); [apply keep_dk|..|intros ? []|].
  - unfold holdingsleep in H. case_bool_decide as Hs; injection H as <-; [by apply node_brelse|by apply keep_call; [..|intros ? []|]].
  - unfold holdingsleep in H. case_bool_decide as Hs; [|done].
    destruct (Z.ltb_spec (Z.of_nat (pins s (Buf i))) (2 ^ 31)) as [Hn|]; [|done]. injection H as <-.
    apply keep_call; [done..|intros ? []|]. split_and!; [|done|done].
    apply (held_listed s L I) in Hs. by apply (listed_in s L I) in Hs as (_ & ? & _).
  - destruct (Nat.ltb_spec 0 (pins s (Buf i))) as [Hn|]; [|done]. injection H as <-. by apply node_bunpin.
Qed.

Lemma bstep_keeps s L s' : binv s L → bstep s s' → ∃ L', binv s' L'.
Proof. intros I [t s'' Ht H|t c s'' Ht Hp H]; [by eapply exec_keeps|by eapply invoke_keeps]. Qed.

Lemma reachable_inv s : reachable s → ∃ L, binv s L.
Proof.
  intros [k H]. remember (binit k) as s0 eqn:E0. assert (H0 : ∃ L, binv s0 L) by (subst; eexists; apply binit_inv).
  clear E0. induction H as [|x y z Hxy _ IH]; [done|]. apply IH. destruct H0 as [L I]. by eapply bstep_keeps.
Qed.
End bio_step.
