(* ===== verification/BioSpec.v ===== *)
(** bio.c (Lab4) against its specification: the cache is a store of blocks, each
    of which one process at a time may take, read, write, sync and release. *)
From stdpp Require Import functions.
From S2P Require Import Prelude Bio BioInv BioStep.

(** ** Definitions *)

Section bio_spec.
Context {D : Disk}.
Implicit Types (s : bst) (L : nat → list bptr) (p : bptr) (t u v : nat).

(** *** The specification: blocks with an owner, over a disk *)
Record blocks := Blocks { content : Z * Z → block; ondisk : Z * Z → block; owner : Z * Z → option nat }.
Definition blocks_eq (a a' : blocks) : Prop :=
  ∀ k, content a k = content a' k ∧ ondisk a k = ondisk a' k ∧ owner a k = owner a' k.

Inductive label := Silent | Take (t : nat) (k : Z * Z) | Write (t : nat) (k : Z * Z) (x : block)
  | Sync (t : nat) (k : Z * Z) | Release (t : nat) (k : Z * Z) | Forget (k : Z * Z).

(** [Forget k]: nobody owns the block, and what was not synced of it is lost. *)
Inductive astep (a : blocks) : label → blocks → Prop :=
  | a_silent a' : blocks_eq a' a → astep a Silent a'
  | a_take t k a' : owner a k = None →
      blocks_eq a' (Blocks (content a) (ondisk a) (<[k := Some t]> (owner a))) → astep a (Take t k) a'
  | a_write t k x a' : owner a k = Some t →
      blocks_eq a' (Blocks (<[k := x]> (content a)) (ondisk a) (owner a)) → astep a (Write t k x) a'
  | a_sync t k a' : owner a k = Some t →
      blocks_eq a' (Blocks (content a) (<[k := content a k]> (ondisk a)) (owner a)) → astep a (Sync t k) a'
  | a_release t k a' : owner a k = Some t →
      blocks_eq a' (Blocks (content a) (ondisk a) (<[k := None]> (owner a))) → astep a (Release t k) a'
  | a_forget k a' : owner a k = None →
      blocks_eq a' (Blocks (<[k := ondisk a k]> (content a)) (ondisk a) (owner a)) → astep a (Forget k) a'.

(** *** The cache as such a store *)

(** The buffer of a block, as bget finds it. *)
Definition cached s (k : Z * Z) : option bptr :=
  let h := Head (hash_v k.2) in
  match scan (S NBUF) (node s) (next (node s h)) h k.1 k.2 with Some r => r | None => None end.
Definition disk_block s (k : Z * Z) : block := disk_read (dk s) k.1 k.2.
Definition abs s : blocks := {|
  content k := match cached s k with
               | Some p => if valid (node s p) =? 0 then disk_block s k else data (node s p)
               | None => disk_block s k
               end;
  ondisk := disk_block s;
  owner k := match cached s k with Some p => slock (node s p) | None => None end |}.

Definition exec_label t s : label :=
  match pc s t with
  | SleepOn d b p => Take t (d, b)
  | Dec p v => if u32 (refcnt (node s p) - 1) =? 0 then Forget (key s p) else Silent
  | _ => Silent
  end.
Definition call_label t (c : call) s : label :=
  match c with
  | Store i x => Write t (key s (Buf i)) x
  | Bwrite i => if holdingsleep t s (Buf i) then Sync t (key s (Buf i)) else Silent
  | Brelse i => if holdingsleep t s (Buf i) then Release t (key s (Buf i)) else Silent
  | _ => Silent
  end.

(** ** Lemmas *)

#[global] Instance blocks_eq_equiv : Equivalence blocks_eq.
Proof.
  split; [done|intros a b H k; destruct (H k) as (?&?&?); by split_and!|].
  intros a b c H H' k. destruct (H k) as (->&->&->). apply H'.
Qed.

Lemma cached_iff s L k p : binv s L → cached s k = Some p ↔ p ∈ L (hash_v k.2) ∧ key s p = k.
Proof.
  intros I. unfold cached. destruct k as [d b]; cbn [fst snd].
  destruct (scan_spec s L d b I) as [(q & -> & Hq & Hk)|[-> Hn]].
  - split; [by intros [= <-]|]. intros [Hp Hkp]. f_equal. eapply (i_lists _ _ I); eauto. congruence.
  - split; [done|]. intros [Hp Hkp]. by apply Hn in Hkp.
Qed.
Lemma cached_key s L p : binv s L → p ∈ L (bucket_of s p) → cached s (key s p) = Some p.
Proof. intros I Hp. by apply (cached_iff s L). Qed.
Lemma cached_ext s s' L L' k : binv s L → binv s' L' →
  (∀ p, p ∈ L' (hash_v k.2) ∧ key s' p = k ↔ p ∈ L (hash_v k.2) ∧ key s p = k) → cached s' k = cached s k.
Proof.
  intros I I' H. destruct (cached s k) as [p|] eqn:E.
  - apply (cached_iff s' L'); [done|]. apply H. by apply (cached_iff s L).
  - destruct (cached s' k) as [p|] eqn:E'; [|done].
    apply (cached_iff s' L') in E'; [|done]. apply H in E'. apply (cached_iff s L) in E'; [congruence|done].
Qed.

(** What the store is made of: the same in a node, the same in all. *)
Definition same_view (x y : buf) : Prop :=
  valid x = valid y ∧ dev x = dev y ∧ blockno x = blockno y ∧ slock x = slock y ∧ data x = data y.
Lemma abs_ext s s' L : binv s L → binv s' L → (∀ p, same_view (node s' p) (node s p)) → dk s' = dk s →
  blocks_eq (abs s') (abs s).
Proof.
  intros I I' Hv Hd k.
  assert (E : cached s' k = cached s k).
  { apply (cached_ext s s' L L); [done..|]. intros p. unfold key.
    by destruct (Hv p) as (_ & -> & -> & _). }
  cbn. unfold disk_block. rewrite E, Hd. destruct (cached s k) as [p|]; [|done].
  by destruct (Hv p) as (-> & _ & _ & -> & ->).
Qed.
Lemma view_set s p f q : (∀ x, same_view (f x) x) → same_view (node (set_node p f s) q) (node s q).
Proof.
  intros Hf. destruct (decide (q = p)) as [->|Hq]; [rewrite node_set_eq; apply Hf|by rewrite node_set_ne].
Qed.

Lemma insert_id {A B} `{EqDecision A} (f : A → B) a x b : f a = x → <[a := x]> f b = f b.
Proof. intros <-. destruct (decide (b = a)) as [->|?]; [apply fn_lookup_insert|by apply fn_lookup_insert_ne]. Qed.

(** One listed buffer changed: its block only, in contents and owner. *)
Lemma abs_node s s' L p : binv s L → binv s' L → p ∈ L (bucket_of s p) →
  (∀ q, q ≠ p → node s' q = node s q) → key s' p = key s p → dk s' = dk s →
  blocks_eq (abs s')
    (Blocks (<[key s p := if valid (node s' p) =? 0 then disk_block s (key s p) else data (node s' p)]> (content (abs s)))
            (ondisk (abs s)) (<[key s p := slock (node s' p)]> (owner (abs s)))).
Proof.
  intros I I' Hp Hn Hk Hd k.
  assert (E : cached s' k = cached s k).
  { apply (cached_ext s s' L L); [done..|]. intros q. destruct (decide (q = p)) as [->|Hq]; [by rewrite Hk|].
    unfold key. by rewrite Hn. }
  assert (Hdk : ∀ k, disk_block s' k = disk_block s k) by (intros; unfold disk_block; by rewrite Hd).
  cbn. rewrite E, Hdk. split; [|split; [done|]].
  all: destruct (decide (k = key s p)) as [->|Hne];
    [rewrite fn_lookup_insert, (cached_key s L p I Hp); done|rewrite fn_lookup_insert_ne by done].
  all: destruct (cached s k) as [q|] eqn:Eq; [|done];
    rewrite Hn by (intros ->; apply (cached_iff s L) in Eq; [by destruct Eq|done]); done.
Qed.
Lemma abs_at s L p : binv s L → p ∈ L (bucket_of s p) →
  content (abs s) (key s p) = (if valid (node s p) =? 0 then disk_block s (key s p) else data (node s p))
  ∧ owner (abs s) (key s p) = slock (node s p).
Proof. intros I Hp. cbn. by rewrite (cached_key s L p I Hp). Qed.

Lemma view_refcnt n x : same_view (set_refcnt n x) x.
Proof. by split_and!. Qed.
Lemma view_used (b : bool) x : same_view (set_used b x) x.
Proof. by split_and!. Qed.

(** *** The steps that come with a label *)

Section steps.
Context s L t (I : binv s L) (Ht : (t < NPROC)%nat).

Lemma spec_take d b p : pc s t = SleepOn d b p → slock (node s p) = None →
  astep (abs s) (Take t (d, b)) (abs (goto t (Check d b p) (set_node p (set_slock (Some t)) s))).
Proof using I Ht.
  intros E Hs. pose proof (i_pcs _ _ I t Ht) as Ha. rewrite E in Ha. destruct Ha as [_ Hk].
  assert (Hp : p ∈ L (bucket_of s p)).
  { apply (waits_listed s L I t p Ht). rewrite E. by apply bool_decide_eq_true_2. }
  destruct (abs_at s L p I Hp) as [Hc Ho]. rewrite <- Hk. constructor; [congruence|].
  rewrite (abs_node s _ L p I); [|by apply node_sleep|done|..].
  - cbn [node goto]. rewrite node_set_eq. cbn [valid data slock set_slock]. rewrite <- Hc.
    intros k. cbn. split; [by apply insert_id|done].
  - intros q Hq. cbn [node goto]. by rewrite node_set_ne.
  - unfold key. cbn [node goto]. by rewrite node_set_eq.
  - done.
Qed.

Lemma spec_check d b p : pc s t = Check d b p →
  let s' := goto t Idle (if valid (node s p) =? 0 then
    set_node p (λ x, set_valid 1 (set_data (disk_read (dk s) (dev x) (blockno x)) x)) s else s) in
  blocks_eq (abs s') (abs s).
Proof using I Ht.
  intros E s'. assert (I' : binv s' L) by (by apply (node_check s L t I Ht d b)).
  pose proof (i_pcs _ _ I t Ht) as Ha. rewrite E in Ha. destruct Ha as (_ & Hk & Hs).
  pose proof (held_listed s L I t p Hs) as Hp. destruct (abs_at s L p I Hp) as [Hc Ho].
  subst s'. destruct (Z.eqb_spec (valid (node s p)) 0) as [Hv|Hv]; [|done].
  rewrite (abs_node s _ L p I I'); [|done|..].
  - cbn [node goto]. rewrite node_set_eq. cbn [valid data slock set_valid set_data].
    intros k. cbn. split_and!; [apply insert_id; exact Hc|done|apply insert_id; exact Ho].
  - intros q Hq. cbn [node goto]. by rewrite node_set_ne.
  - unfold key. cbn [node goto]. by rewrite node_set_eq.
  - done.
Qed.

Lemma spec_fill d b i : pc s t = Fill d b i →
  blocks_eq (abs (goto t (SleepOn d b (Buf i)) (set_lock (hash_v b) None (fill d b i s)))) (abs s).
Proof using I Ht.
  intros E. set (s' := goto t _ _). pose proof (take_fill s L t I Ht d b i E) as I'. fold s' in I'.
  pose proof (i_pcs _ _ I t Ht) as Ha. rewrite E in Ha. destruct Ha as ([_ Hf] & Hi & _ & Hun).
  destruct (fill_self s d b i) as (Hv & Hd & Hb & Hsl & _).
  assert (Hkey : key s' (Buf i) = (d, b)) by (unfold key; change (node s') with (node (fill d b i s)); by rewrite Hd, Hb).
  assert (Hnew : cached s' (d, b) = Some (Buf i)).
  { eapply cached_iff; [exact I'|]. split; [|done]. cbn [snd]. rewrite relisted_same. by left. }
  assert (Hold : cached s (d, b) = None).
  { destruct (cached s (d, b)) as [p|] eqn:Ep; [|done]. apply (cached_iff s L) in Ep as [Hp Hk]; [|done].
    by apply Hf in Hk. }
  assert (Hslf : slock (node s (Buf i)) = None).
  { destruct (slock (node s (Buf i))) as [u|] eqn:Es; [|done]. apply (held_listed s L I) in Es. by apply Hun in Es. }
  intros k. destruct (decide (k = (d, b))) as [->|Hk].
  - cbn [abs content ondisk owner]. rewrite Hnew, Hold. change (node s') with (node (fill d b i s)).
    by rewrite Hv, Hsl.
  - assert (Ek : cached s' k = cached s k).
    { eapply cached_ext; [exact I|exact I'|]. intros p. destruct (decide (p = Buf i)) as [->|Hp].
      - rewrite Hkey. split; [by intros [_ ?]|]. intros [Hin _]. by apply Hun in Hin.
      - destruct (fill_block s d b i p Hp) as (_ & Hpd & Hpb & _).
        assert (Hkp : key s' p = key s p) by (unfold key; change (node s') with (node (fill d b i s)); by rewrite Hpd, Hpb). rewrite Hkp.
        rewrite relisted_in with (p := Buf i); [done|intros q Hq; rewrite elem_of_cons; tauto|done]. }
    cbn [abs content ondisk owner]. rewrite Ek. destruct (cached s k) as [p|] eqn:Ep; [|done].
    assert (p ≠ Buf i) as Hp by (intros ->; apply (cached_iff s L) in Ep as [Hin _]; [by apply Hun in Hin|done]).
    destruct (fill_block s d b i p Hp) as (Q1 & _ & _ & Q2 & _ & Q3 & _). change (node s') with (node (fill d b i s)).
    by rewrite Q1, Q2, Q3.
Qed.

Definition unlinked p : bst := unlink p (set_node p (λ x, set_refcnt (u32 (refcnt x - 1)) x) s).
Lemma unlinked_view p q : same_view (node (unlinked p) q) (node s q).
Proof using.
  unfold unlinked, same_view.
  destruct (unlink_block (set_node p (λ x, set_refcnt (u32 (refcnt x - 1)) x) s) p q) as (-> & -> & -> & -> & _ & -> & _).
  by apply (view_set s p (λ x, set_refcnt (u32 (refcnt x - 1)) x) q).
Qed.

Lemma spec_forget p v : pc s t = Dec p v → u32 (refcnt (node s p) - 1) = 0 →
  astep (abs s) (Forget (key s p)) (abs (goto t (Clear p v) (unlinked p)))
  ∧ cached (goto t (Clear p v) (unlinked p)) (key s p) = None.
Proof using I Ht.
  intros E H0. destruct (dec_count s L t I Ht p v E) as (Hp & Hv & _ & Hr & _ & Hr1).
  pose proof Hp as Hsplit. apply list_elem_of_split in Hsplit as (l1 & l2 & Hl).
  pose proof (give_unlink s L t I Ht p v l1 l2 E H0 Hl) as I'. fold (unlinked p) in I'.
  set (s' := goto t (Clear p v) (unlinked p)) in *.
  destruct (i_lists _ _ I v) as (_ & Hnd & _). rewrite Hl in Hnd.
  assert (Hpl : p ∉ l1 ++ l2).
  { apply NoDup_app in Hnd as (_ & Hd & [Hx _]%NoDup_cons). intros [Hx'|Hx']%elem_of_app; [|done].
    apply (Hd p Hx'). by left. }
  assert (Hk : ∀ q, key s' q = key s q).
  { intros q. unfold key. change (node s') with (node (unlinked p)). by destruct (unlinked_view p q) as (_ & -> & -> & _). }
  assert (Hs : slock (node s p) = None).
  { assert (Hw : waits (pc s t) p = true) by (rewrite E; by apply bool_decide_eq_true_2).
    pose proof (waiting_ge s t p Ht Hw). assert (refs s p = 1%nat) as H1 by lia.
    unfold refs, held in H1. destruct (slock (node s p)); [lia|done]. }
  rewrite Hv in Hp. destruct (abs_at s L p I Hp) as [_ Ho].
  assert (Hin : ∀ q w, q ≠ p → q ∈ relisted L v (l1 ++ l2) w ↔ q ∈ L w).
  { intros q w Hq. apply (relisted_in L v p); [|done]. intros r Hr'. rewrite Hl, !elem_of_app, elem_of_cons. tauto. }
  assert (Hnone : cached s' (key s p) = None).
  { destruct (cached s' (key s p)) as [q|] eqn:Eq; [|done].
    apply (cached_iff s' _ _ _ I') in Eq as [Hq Hkq]. rewrite Hk in Hkq.
    destruct (decide (q = p)) as [->|Hne].
    - change (hash_v (key s p).2) with (bucket_of s p) in Hq. rewrite <- Hv, relisted_same in Hq. by apply Hpl in Hq.
    - apply Hin in Hq; [|done]. exfalso. apply Hne. by eapply (i_lists _ _ I). }
  split; [|done]. constructor; [congruence|]. intros k. destruct (decide (k = key s p)) as [->|Hne].
  - cbn [abs content ondisk owner]. rewrite Hnone, fn_lookup_insert. split; [done|split; [done|]]. symmetry.
    rewrite (cached_key s L p I Hp). done.
  - assert (Ek : cached s' k = cached s k).
    { eapply cached_ext; [exact I|exact I'|]. intros q. rewrite Hk. destruct (decide (q = p)) as [->|Hq].
      - split; intros [_ ?]; by destruct Hne.
      - by rewrite Hin. }
    cbn [abs content ondisk owner]. rewrite fn_lookup_insert_ne, Ek by done.
    destruct (cached s k) as [q|] eqn:Eq; [|done]. change (node s' q) with (node (unlinked p) q).
    by destruct (unlinked_view p q) as (-> & _ & _ & -> & ->).
Qed.
End steps.

Lemma exec_label_step s L t s' : binv s L → (t < NPROC)%nat → exec t s = Some s' →
  astep (abs s) (exec_label t s) (abs s').
Proof.
  intros I Ht H. destruct (exec_keeps s L t s' I Ht H) as [L' I']. revert H.
  unfold exec, exec_label. destruct (pc s t) as [|d b|d b|d b i|d b i|d b i|d b p|d b p|p|p v|p v|v|p|p|w] eqn:E; try done.
  - destruct (lock s (hash_v b)); [done|]. intros [= <-]. by constructor.
  - destruct (scan_spec s L d b I) as [(p & Hs & Hp & Hk)|[Hs _]]; rewrite Hs; intros [= <-]; constructor; [|done].
    apply (abs_ext s _ L I); [by apply node_hit| |done]. intros q. by apply (view_set s p (λ x, set_refcnt _ x)).
  - intros [= <-]. by constructor.
  - intros [= <-]. constructor. apply (abs_ext s _ L I); [by apply take_tas| |done].
    intros q. by apply (view_set s (Buf i) (set_used true)).
  - intros [= <-]. constructor. by apply (spec_fill s L).
  - destruct (slock (node s p)) eqn:Es; [done|]. intros [= <-]. by apply (spec_take s L).
  - intros [= <-]. constructor. by apply (spec_check s L t I Ht d b).
  - destruct (lock s (bucket_of s p)); [done|]. intros [= <-]. by constructor.
  - intros [= <-]. rewrite fn_lookup_insert. cbn [refcnt set_refcnt].
    destruct (Z.eqb_spec (u32 (refcnt (node s p) - 1)) 0) as [H0|H0].
    + by apply (spec_forget s L t I Ht p v).
    + constructor. apply (abs_ext s _ L I); [by apply node_dec| |done].
      intros q. by apply (view_set s p (λ x, set_refcnt _ x)).
  - intros [= <-]. constructor. apply (abs_ext s _ L I); [by apply give_clear| |done].
    intros q. by apply (view_set s p (set_used false)).
  - intros [= <-]. by constructor.
  - destruct (lock s (bucket_of s p)); [done|]. intros [= <-]. constructor.
    apply (abs_ext s _ L I); [by apply node_pin| |done]. intros q. by apply (view_set s p (λ x, set_refcnt _ x)).
  - destruct (lock s (bucket_of s p)); [done|]. intros [= <-]. constructor.
    apply (abs_ext s _ L I); [by apply node_unpin| |done]. intros q. by apply (view_set s p (λ x, set_refcnt _ x)).
Qed.

Context (DL : DiskLaws D).
Lemma invoke_label_step s L t c s' : binv s L → (t < NPROC)%nat → pc s t = Idle → invoke t c s = Some s' →
  astep (abs s) (call_label t c s) (abs s').
Proof using DL.
  intros I Ht E H. destruct c as [d b|i x|i|i|i|i]; cbn [invoke call_label] in *; unfold holdingsleep in *.
  - injection H as <-. by constructor.
  - case_bool_decide as Hs; [|done]. injection H as <-.
    pose proof (held_listed s L I t _ Hs) as Hp. destruct (abs_at s L _ I Hp) as [Hc Ho].
    assert (Hv : valid (node s (Buf i)) ≠ 0) by (destruct (i_valid _ _ I _ _ Hs) as [Hx|?]; [by rewrite E in Hx|done]).
    constructor; [congruence|]. rewrite (abs_node s _ L (Buf i) I); [|by apply node_store|done|..]; [|..|done].
    + cbn [node goto]. rewrite node_set_eq. cbn [valid data slock set_data]. rewrite (proj2 (Z.eqb_neq _ _)) by done.
      intros k. cbn. split_and!; [done..|apply insert_id; exact Ho].
    + intros q Hq. cbn [node goto]. by rewrite node_set_ne.
    + unfold key. cbn [node goto]. by rewrite node_set_eq.
  - case_bool_decide as Hs; injection H as <-; [|by constructor]. cbn [negb].
    pose proof (held_listed s L I t _ Hs) as Hp. destruct (abs_at s L _ I Hp) as [Hc Ho].
    assert (Hv : valid (node s (Buf i)) ≠ 0) by (destruct (i_valid _ _ I _ _ Hs) as [Hx|?]; [by rewrite E in Hx|done]).
    rewrite (proj2 (Z.eqb_neq _ _)) in Hc by done. constructor; [congruence|]. rewrite Hc.
    intros k. set (s1 := goto t Idle _). cbn [content ondisk owner].
    assert (Hd : disk_block s1 k = <[key s (Buf i) := data (node s (Buf i))]> (disk_block s) k).
    { unfold disk_block; cbn [s1 goto set_dk dk]. destruct (decide (k = key s (Buf i))) as [->|Hk].
      - rewrite fn_lookup_insert. apply read_written.
      - rewrite fn_lookup_insert_ne by done. apply read_other. destruct k as [kd kb]; unfold key in Hk; cbn in *. congruence. }
    split_and!; [|exact Hd|done]. cbn [abs content]. change (cached s1 k) with (cached s k). rewrite Hd.
    destruct (decide (k = key s (Buf i))) as [->|Hk]; [|by rewrite fn_lookup_insert_ne].
    rewrite (cached_key s L _ I Hp). change (node s1) with (node s). by rewrite (proj2 (Z.eqb_neq _ _)).
  - case_bool_decide as Hs; injection H as <-; [|by constructor]. cbn [negb].
    pose proof (held_listed s L I t _ Hs) as Hp. destruct (abs_at s L _ I Hp) as [Hc Ho].
    constructor; [congruence|]. rewrite (abs_node s _ L (Buf i) I); [|by apply node_brelse|done|..]; [|..|done].
    + cbn [node goto]. rewrite node_set_eq. cbn [valid data slock set_slock]. rewrite <- Hc.
      intros k. cbn. split; [by apply insert_id|done].
    + intros q Hq. cbn [node goto]. by rewrite node_set_ne.
    + unfold key. cbn [node goto]. by rewrite node_set_eq.
  - case_bool_decide; [|done]. destruct (_ <? _); [|done]. injection H as <-. by constructor.
  - destruct (_ <? _)%nat; [|done]. injection H as <-. by constructor.
Qed.
End bio_spec.
