(* ===== verification/BioProps.v ===== *)
(** The properties of the buffer cache of bio.c (Lab4). *)
From stdpp Require Import functions.
From S2P Require Import Prelude Bio BioInv BioStep BioSpec.

(** ** Definitions *)

Section bio_props.
Context {D : Disk}.
Implicit Types (s : bst) (L : nat → list bptr) (p : bptr) (t u v : nat).

(** [n] steps of process [t] in a row, fewer when it has to wait. *)
Fixpoint run_alone (n t : nat) (s : bst) : bst :=
  match n with
  | O => s
  | S n' => match exec t s with Some s' => run_alone n' t s' | None => s end
  end.

(** What a call of bget ends in: the locked block's buffer found or taken, or
    a panic with every buffer in use. *)
Definition bget_done s0 s t (d b : Z) : Prop :=
  (∃ p, pc s t = SleepOn d b p ∧ key s p = (d, b) ∧ 0 < refcnt (node s p) ∧ lock s (hash_v b) = None
     ∧ (cached s0 (d, b) = None → valid (node s p) = 0 ∧ ∃ i, p = Buf i ∧ used (node s0 p) = false)
     ∧ (∀ q, cached s0 (d, b) = Some q → p = q))
  ∨ pc s t = Panicked "bget: no buffers" ∧ cached s0 (d, b) = None
     ∧ ∀ i, (i < NBUF)%nat → used (node s0 (Buf i)) = true.

(** ** Lemmas *)

Lemma run_alone_step n t s s' : exec t s = Some s' → run_alone (S n) t s = run_alone n t s'.
Proof. intros H. cbn. by rewrite H. Qed.
Lemma goto_at t c s : pc (goto t c s) t = c.
Proof. apply fn_lookup_insert. Qed.

Lemma probe_alone t d b s0 k : ∀ i s, (i + k = NBUF)%nat → pc s t = Probe d b i →
  node s = node s0 → cached s0 (d, b) = None → (∀ j, (j < i)%nat → used (node s0 (Buf j)) = true) →
  ∃ n, (n <= k + 3)%nat ∧ bget_done s0 (run_alone n t s) t d b.
Proof.
  induction k as [|k IH]; intros i s Hi E Hn Hc Hj.
  - exists 1%nat. split; [lia|]. right. cbn [run_alone]. unfold exec. rewrite E.
    rewrite (proj2 (Nat.ltb_ge _ _)) by lia. rewrite goto_at. split_and!; [done..|]. intros j ?. apply Hj. lia.
  - assert (Hlt : (i <? NBUF)%nat = true) by (apply Nat.ltb_lt; lia).
    destruct (used (node s (Buf i))) eqn:Hu.
    + assert (Hx : exec t s = Some (goto t (Probe d b (S i)) s)) by (unfold exec; by rewrite E, Hlt, Hu).
      destruct (IH (S i) (goto t (Probe d b (S i)) s)) as (n & Hb & Hd); [lia|apply goto_at|done|done|..].
      * intros j Hji. destruct (decide (j = i)) as [->|?]; [congruence|apply Hj; lia].
      * exists (S n). split; [lia|]. by rewrite (run_alone_step _ _ _ _ Hx).
    + set (s1 := goto t (Tas d b i) s).
      assert (H1 : exec t s = Some s1) by (unfold exec; by rewrite E, Hlt, Hu).
      set (s2 := goto t (Fill d b i) (set_node (Buf i) (set_used true) s1)).
      assert (H2 : exec t s1 = Some s2).
      { unfold exec. unfold s1 at 1. rewrite goto_at. by replace (used (node s1 (Buf i))) with false. }
      exists 3%nat. split; [lia|]. rewrite (run_alone_step _ _ _ _ H1), (run_alone_step _ _ _ _ H2).
      set (s3 := goto t (SleepOn d b (Buf i)) (set_lock (hash_v b) None (fill d b i s2))).
      assert (H3 : exec t s2 = Some s3) by (unfold exec; unfold s2 at 1; by rewrite goto_at).
      rewrite (run_alone_step _ _ _ _ H3). cbn [run_alone]. left. exists (Buf i).
      destruct (fill_self s2 d b i) as (Hv & Hd & Hb & _ & Hr & _).
      split_and!.
      * apply goto_at.
      * unfold key. change (node s3) with (node (fill d b i s2)). by rewrite Hd, Hb.
      * change (node s3) with (node (fill d b i s2)). rewrite Hr. cbn. lia.
      * apply fn_lookup_insert.
      * intros _. split; [by change (node s3) with (node (fill d b i s2)); rewrite Hv|].
        exists i. split; [done|]. by rewrite <- Hn.
      * intros q. by rewrite Hc.
Qed.

Lemma bget_alone_done s L t d b : binv s L → (t < NPROC)%nat → pc s t = WaitGet d b → lock s (hash_v b) = None →
  ∃ n, (n <= NBUF + 5)%nat ∧ bget_done s (run_alone n t s) t d b.
Proof.
  intros I Ht E Hl. set (s1 := goto t (Scan d b) (set_lock (hash_v b) (Some t) s)).
  assert (H1 : exec t s = Some s1) by (unfold exec; by rewrite E, Hl).
  assert (I1 : binv s1 L) by (by apply keep_wait_get).
  assert (E1 : pc s1 t = Scan d b) by apply goto_at.
  destruct (scan_spec s1 L d b I1) as [(p & Hs & Hp & Hk)|[Hs Hf]].
  - set (s2 := goto t (SleepOn d b p) (set_lock (hash_v b) None (set_node p (λ x, set_refcnt (u32 (refcnt x + 1)) x) s1))).
    assert (H2 : exec t s1 = Some s2) by (unfold exec; by rewrite E1, Hs).
    exists 2%nat. split; [lia|]. rewrite (run_alone_step _ _ _ _ H1), (run_alone_step _ _ _ _ H2). cbn [run_alone].
    destruct (listed_in s1 L I1 p _ Hp) as (_ & _ & _ & Hr). pose proof (refs_bound s1 L I1 p).
    assert (Hcp : cached s (d, b) = Some p) by (by apply (cached_iff s L)).
    left. exists p. split_and!; [apply goto_at|..].
    + unfold key. change (node s2) with (node (set_node p (λ x, set_refcnt (u32 (refcnt x + 1)) x) s1)).
      by rewrite node_set_eq.
    + change (node s2) with (node (set_node p (λ x, set_refcnt (u32 (refcnt x + 1)) x) s1)).
      rewrite node_set_eq. cbn [refcnt set_refcnt]. rewrite u32_small; lia.
    + apply fn_lookup_insert.
    + by rewrite Hcp.
    + intros q. rewrite Hcp. by intros [= ->].
  - assert (H2 : exec t s1 = Some (goto t (Probe d b 0) s1)) by (unfold exec; by rewrite E1, Hs).
    assert (Hc : cached s (d, b) = None).
    { destruct (cached s (d, b)) as [p|] eqn:Ep; [|done]. apply (cached_iff s L) in Ep as [Hp Hk]; [|done].
      by apply Hf in Hk. }
    destruct (probe_alone t d b s NBUF 0 (goto t (Probe d b 0) s1)) as (n & Hn & Hd);
      [done|apply goto_at|done|done|lia|].
    exists (S (S n)). split; [lia|]. by rewrite (run_alone_step _ _ _ _ H1), (run_alone_step _ _ _ _ H2).
Qed.

(** ** Properties *)

(** C8.  In every state the cache reaches, however the processes' steps interleave,
    the bucket lists are well linked in both directions and hold exactly the
    buffers in use (but those a process is just taking or giving back), each in
    the bucket its block number hashes to; no block is in two buffers; each
    reference count is the number of holders, waiters and pins; and whoever
    holds a bucket's lock is in that bucket's section. *)
Theorem bio_invariant s : reachable s → ∃ L, binv s L.
Proof. apply reachable_inv. Qed.

(** C4.  The cache refines the store of blocks: every step of a process and every
    call is, as its label says, a step of the specification (take a free block,
    write, sync or release an owned one, forget one nobody owns) or no step at
    all.  So two processes never own a block at once, and a process reads what
    was last written unless the block was forgotten since. *)
Theorem bio_refines (DL : DiskLaws D) s t s' : reachable s → (t < NPROC)%nat →
  (exec t s = Some s' → astep (abs s) (exec_label t s) (abs s'))
  ∧ ∀ c, pc s t = Idle → invoke t c s = Some s' → astep (abs s) (call_label t c s) (abs s').
Proof.
  intros [L I]%reachable_inv Ht. split; [by eapply exec_label_step|].
  intros c E H. by eapply invoke_label_step.
Qed.

(** Two processes that hold a buffer of the same block are one process with
    one buffer. *)
Theorem bio_exclusive s p q t u : reachable s → key s p = key s q →
  slock (node s p) = Some t → slock (node s q) = Some u → p = q ∧ t = u.
Proof.
  intros [L I]%reachable_inv Hk Hp Hq.
  apply (held_listed s L I) in Hp as Hlp. apply (held_listed s L I) in Hq as Hlq.
  assert (bucket_of s q = bucket_of s p) as Hb by (unfold key in Hk; unfold bucket_of; congruence).
  rewrite Hb in Hlq. assert (p = q) as -> by (by eapply (i_lists _ _ I)). split; [done|congruence].
Qed.

(** bread never fails once it has the buffer's lock: it returns a buffer of
    the block that was asked for, locked by the caller, valid, with the store's
    contents of the block, read from the disk exactly when the buffer was not
    valid. *)
Theorem bread_returns s t d b p : reachable s → (t < NPROC)%nat → pc s t = Check d b p →
  ∃ s' i, exec t s = Some s' ∧ pc s' t = Idle ∧ p = Buf i ∧ (i < NBUF)%nat
    ∧ key s' p = (d, b) ∧ slock (node s' p) = Some t ∧ valid (node s' p) ≠ 0
    ∧ data (node s' p) = content (abs s) (d, b)
    ∧ data (node s' p) = if valid (node s p) =? 0 then disk_read (dk s) d b else data (node s p).
Proof.
  intros [L I]%reachable_inv Ht E. pose proof (i_pcs _ _ I t Ht) as Ha. rewrite E in Ha.
  destruct Ha as ((i & -> & Hi) & Hk & Hs). pose proof (held_listed s L I t _ Hs) as Hp.
  destruct (abs_at s L _ I Hp) as [Hc _]. rewrite Hk in Hc. rewrite Hc. unfold exec. rewrite E.
  assert (Hdk : disk_read (dk s) (dev (node s (Buf i))) (blockno (node s (Buf i))) = disk_read (dk s) d b)
    by (unfold key in Hk; congruence).
  eexists _, i. split; [done|]. rewrite goto_at. unfold key, disk_block. cbn [node goto fst snd].
  destruct (Z.eqb_spec (valid (node s (Buf i))) 0) as [Hv|Hv]; rewrite ?node_set_eq; cbn; rewrite ?Hdk; by split_and!.
Qed.

(** brelse keeps nothing of a block whose last reference goes: the buffer
    leaves its list, no buffer caches the block, and the block is what the disk
    has, whatever was written to the buffer without a bwrite.  (The comment on
    brelse, and buf.h's, have the buffer moved to the head of an LRU list.) *)
Theorem brelse_forgets s t p v : reachable s → (t < NPROC)%nat → pc s t = Dec p v → refcnt (node s p) = 1 →
  ∃ s', exec t s = Some s' ∧ pc s' t = Clear p v ∧ cached s' (key s p) = None
    ∧ content (abs s') (key s p) = disk_read (dk s) (dev (node s p)) (blockno (node s p)).
Proof.
  intros [L I]%reachable_inv Ht E H1.
  assert (H0 : u32 (refcnt (node s p) - 1) = 0) by (by rewrite H1).
  destruct (spec_forget s L t I Ht p v E H0) as [_ Hc]. exists (goto t (Clear p v) (unlinked s p)).
  split; [|split; [apply goto_at|split; [done|]]].
  - unfold exec. rewrite E. cbv zeta. rewrite node_set_eq. cbn [refcnt set_refcnt]. by rewrite H0.
  - cbn [abs content]. by rewrite Hc.
Qed.

(** A process that calls bget while the bucket is free and runs alone gets
    through the search and the probe in at most NBUF + 5 steps: it ends with
    the one buffer that caches the block, or, when there is none, with a buffer
    that was unused, or panics exactly when all NBUF buffers are used.  The lock
    of the bucket is then free again, unless it panicked. *)
Theorem bget_alone s t d b : reachable s → (t < NPROC)%nat → pc s t = WaitGet d b → lock s (hash_v b) = None →
  ∃ n, (n <= NBUF + 5)%nat ∧ bget_done s (run_alone n t s) t d b.
Proof. intros [L I]%reachable_inv Ht E Hl. by eapply bget_alone_done. Qed.

(** C37.  No process waits for anything while it holds a bucket's lock, so the
    spinlocks cannot deadlock: whoever is in a bucket's section and has not
    panicked has a step to make, and a lock that is taken is held by such a
    process. *)
Theorem section_runs s v t : reachable s → lock s v = Some t →
  (t < NPROC)%nat ∧ inside (pc s t) v ∧ ((∃ w, pc s t = Panicked w) ∨ ∃ s', exec t s = Some s').
Proof.
  intros [L I]%reachable_inv Hl. destruct (i_held _ _ I v t Hl) as [Ht Hin]. split_and!; [done..|].
  unfold exec. destruct (pc s t) as [|d b|d b|d b i|d b i|d b i|d b p|d b p|p|p w|p w|w|p|p|w];
    cbn in Hin; try done; eauto.
  right. destruct (scan_spec s L d b I) as [(p & -> & _)|[-> _]]; eauto.
Qed.
End bio_props.

(** *** Concrete runs, with a map as the disk *)

(** A schedule: which process moves, and whether it makes a call. *)
Fixpoint play `{Disk} (l : list (nat * option call)) (s : bst) : option bst :=
  match l with
  | [] => Some s
  | (t, o) :: l' =>
      if (t <? NPROC)%nat then
        match o with
        | None => match exec t s with Some s' => play l' s' | None => None end
        | Some c =>
            match pc s t with
            | Idle => match invoke t c s with Some s' => play l' s' | None => None end
            | _ => None
            end
        end
      else None
  end.
Definition played `{Disk} (k : dstate) (l : list (nat * option call)) : bst := default (binit k) (play l (binit k)).
Definition is_some {A} (o : option A) : bool := match o with Some _ => true | None => false end.

Lemma play_steps `{Disk} l s s' : play l s = Some s' → rtc bstep s s'.
Proof.
  revert s; induction l as [|[t o] l IH]; intros s; cbn [play]; [by intros [= ->]|].
  destruct (Nat.ltb_spec t NPROC) as [Ht|]; [|done]. destruct o as [c|].
  - destruct (pc s t) eqn:E; try done. destruct (invoke t c s) as [s1|] eqn:Hs; [|done].
    intros Hp. eapply rtc_l; [by eapply step_call|auto].
  - destruct (exec t s) as [s1|] eqn:Hs; [|done]. intros Hp. eapply rtc_l; [by eapply step_exec|auto].
Qed.
Lemma played_reachable `{Disk} k l : is_some (play l (binit k)) = true → reachable (played k l).
Proof.
  unfold played. intros H1. exists k. destruct (play l (binit k)) as [s'|] eqn:E; [|done]. by eapply play_steps.
Qed.

Definition steps (n t : nat) : list (nat * option (@call map_disk)) := replicate n (t, None).
(** Process 1 reads block 18 of device 1 and returns; then 2, which hashes to the
    same bucket, reads block 5 up to the lock of its buffer. *)
Definition sample_disk : gmap (Z * Z) (list byte) := {[ (1, 18) := [x41]; (1, 5) := [x42] ]}.
Definition sample_open : list (nat * option (@call map_disk)) :=
  (1%nat, Some (Bread 1 18)) :: steps 7 1 ++ (2%nat, Some (Bread 1 5)) :: steps 7 2.
Definition sample : @bst map_disk := @played map_disk sample_disk sample_open.
(** The same, before process 2 has the lock of its buffer. *)
Definition sample_waiting : @bst map_disk :=
  @played map_disk sample_disk ((1%nat, Some (Bread 1 18)) :: steps 7 1 ++ (2%nat, Some (Bread 1 5)) :: steps 6 2).
(** Process 2 is about to search the bucket. *)
Definition sample_calling : @bst map_disk :=
  @played map_disk sample_disk ((1%nat, Some (Bread 1 18)) :: steps 7 1 ++ [(2%nat, Some (Bread 1 5))]).
(** Process 1 changed its block and releases it. *)
Definition sample_closing : @bst map_disk :=
  @played map_disk sample_disk ((1%nat, Some (Bread 1 18)) :: steps 7 1
    ++ [(1%nat, Some (Store 0 ([x58] : @block map_disk))); (1%nat, Some (Brelse 0)); (1%nat, None)]).

Lemma map_disk_laws : DiskLaws map_disk.
Proof.
  split; intros k d b x; cbn; intros; [by rewrite lookup_insert_eq|by rewrite lookup_insert_ne by congruence].
Qed.
Lemma some_default {A} (o : option A) d : is_some o = true → o = Some (default d o).
Proof. by destruct o. Qed.
Ltac by_run := apply played_reachable; vm_compute; reflexivity.

Lemma bio_invariant_witness : reachable sample ∧ ∃ L, binv sample L.
Proof. assert (H : reachable sample) by by_run. split; [exact H|]. exact (bio_invariant sample H). Defined.

Lemma bio_refines_witness : ∃ s', exec 2 sample_waiting = Some s'
  ∧ astep (abs sample_waiting) (Take 2 (1, 5)) (abs s').
Proof.
  assert (H : reachable sample_waiting) by by_run.
  exists (default sample (exec 2 sample_waiting)).
  assert (E : exec 2 sample_waiting = Some (default sample (exec 2 sample_waiting)))
    by (apply some_default; vm_compute; reflexivity).
  split; [exact E|].
  assert (El : exec_label 2 sample_waiting = Take 2 (1, 5)) by (vm_compute; reflexivity).
  rewrite <- El. exact (proj1 (bio_refines map_disk_laws sample_waiting 2 _ H ltac:(unfold NPROC; lia)) E).
Defined.

(** Process 1 holds buffer 0 of block 18: no other buffer, and nobody else. *)
Lemma bio_exclusive_witness :
  slock (node sample (Buf 0)) = Some 1%nat
  ∧ ∀ q u, key sample q = (1, 18) → slock (node sample q) = Some u → q = Buf 0 ∧ u = 1%nat.
Proof.
  assert (H : reachable sample) by by_run.
  assert (Hs : slock (node sample (Buf 0)) = Some 1%nat) by (vm_compute; reflexivity).
  split; [exact Hs|]. intros q u Hk Hq.
  assert (Hk' : key sample (Buf 0) = key sample q) by (rewrite Hk; vm_compute; reflexivity).
  destruct (bio_exclusive sample (Buf 0) q 1 u H Hk' Hs Hq) as [E1 E2]. by split.
Defined.

Lemma bread_returns_witness : ∃ s', exec 2 sample = Some s' ∧ data (node s' (Buf 1)) = ([x42] : @block map_disk).
Proof.
  assert (H : reachable sample) by by_run.
  assert (E : pc sample 2 = Check 1 5 (Buf 1)) by (vm_compute; reflexivity).
  destruct (bread_returns sample 2 1 5 (Buf 1) H ltac:(unfold NPROC; lia) E)
    as (s' & i & Hx & _ & _ & _ & _ & _ & _ & _ & Hd).
  exists s'. split; [exact Hx|]. rewrite Hd. vm_compute. reflexivity.
Defined.

(** The block written without a bwrite is what the disk had. *)
Lemma brelse_forgets_witness : ∃ s', exec 1 sample_closing = Some s'
  ∧ data (node sample_closing (Buf 0)) = ([x58] : @block map_disk)
  ∧ content (abs s') (1, 18) = ([x41] : @block map_disk).
Proof.
  assert (H : reachable sample_closing) by by_run.
  assert (E : pc sample_closing 1 = Dec (Buf 0) (hash_v 18)) by (vm_compute; reflexivity).
  assert (H1 : refcnt (node sample_closing (Buf 0)) = 1) by (vm_compute; reflexivity).
  destruct (brelse_forgets sample_closing 1 (Buf 0) (hash_v 18) H ltac:(unfold NPROC; lia) E H1)
    as (s' & Hx & _ & _ & Hc).
  exists s'. split; [exact Hx|split; [vm_compute; reflexivity|]].
  assert (Hk : key sample_closing (Buf 0) = (1, 18)) by (vm_compute; reflexivity).
  rewrite Hk in Hc. rewrite Hc. vm_compute. reflexivity.
Defined.

Lemma bget_alone_witness : ∃ n, (n <= 35)%nat ∧ bget_done sample_calling (run_alone n 2 sample_calling) 2 1 5.
Proof.
  assert (H : reachable sample_calling) by by_run.
  assert (E : pc sample_calling 2 = WaitGet 1 5) by (vm_compute; reflexivity).
  assert (Hl : lock sample_calling (hash_v 5) = None) by (vm_compute; reflexivity).
  exact (bget_alone sample_calling 2 1 5 H ltac:(unfold NPROC; lia) E Hl).
Defined.

Lemma section_runs_witness : lock sample_closing (hash_v 18) = Some 1%nat
  ∧ ((∃ w, pc sample_closing 1 = Panicked w) ∨ ∃ s', exec 1 sample_closing = Some s').
Proof.
  assert (H : reachable sample_closing) by by_run.
  assert (Hl : lock sample_closing (hash_v 18) = Some 1%nat) by (vm_compute; reflexivity).
  split; [exact Hl|]. exact (proj2 (proj2 (section_runs sample_closing (hash_v 18) 1 H Hl))).
Defined.
